(* ===== verification/_CoqProject ===== *)
-Q . S2P
Prelude.v
GoStrings.v
Streams.v
GoPaths.v
PathRules.v
PathStub.v
PathMapper.v
GoGlob.v
EnvFilter.v
Arch.v
TraceeMemory.v
Tracer.v
FileClient.v
WorkspaceFS.v
Config.v
Destination.v
Mux.v
AgentFS.v
Stack.v
RemoteExec.v
Broker.v
ChildProc.v
Reaper.v
AgentMain.v
ExecStack.v
InitCmd.v
Launch.v
Cli.v
Runtime.v
SshManager.v
SshBackend.v
DockerContext.v
DockerSession.v
Backends.v
Recording.v
Wire.v
FileIO.v
DockerExec.v
SshDial.v
TracerMain.v
BrokerServer.v
Platforms.v
StubStack.v
Layout.v
RemoteBackend.v
PlatformStat.v
Shutdown.v
