(* ===== verification/Prelude.v ===== *)
(** * MachineProxy: a verification development

    MachineProxy runs a program locally while the commands it starts and the
    files it sees live on another machine.  A ptrace tracer ([pkg/tracer])
    watches every process of the program and redirects each exec that is not
    allowed locally to a shim ([cmd/mproxy-shim]); the shim hands the command to
    a broker ([pkg/broker]), whose runner ([pkg/remoteexec]) starts an agent
    ([cmd/mproxy-agent]) on the remote machine over SSH or Docker and speaks a
    framed protocol with it ([pkg/agentproto]).  A FUSE file system
    ([pkg/workspacefs]) shows the remote workspace, a second one
    ([pkg/pathstub]) stubs of the remote commands.  The main program
    ([cmd/machineproxy]) reads the command line and the configuration
    ([pkg/config]), builds the backend ([pkg/remote]) and runs the stages in
    order ([pkg/supervisor]).

    This library is a shallow embedding of that code: pure Go functions are Rocq
    functions with the same names, stateful code passes its state, concurrent
    code is a transition system or a set of interleavings, and code that runs
    against an interface is a program over that interface.  All operations
    compute.

    ** Files

    Foundations:
    - [Prelude]: results with their notation, machine words, error numbers, octal
      constants, list lemmas, tactics and the hint database.
    - [GoStrings], [GoPaths], [GoGlob]: what the code uses of Go's [strings],
      [path], [strconv] and [filepath.Match], with their lemmas.
    - [Streams]: the read loops several goroutines share, in-memory pipes and the
      interleavings of what they send.

    Interception and local paths:
    - [PathRules]: local-command rules and the whitelist
      ([config/command_rule.go], [execpolicy/whitelist.go]), prefix rewriting,
      home expansion, ancestor tests and binary lookup ([config/config.go],
      [config/paths.go]).
    - [PathStub]: enumeration of the remote commands and the read-only stub file
      system ([pathstub/enumerate.go], [fs.go], [node.go], [node_linux.go]).
    - [PathMapper]: container to remote paths ([cmd/machineproxy/pathmapper.go]).
    - [EnvFilter]: which variables are forwarded ([envfilter/filter.go],
      [tracer/env.go]).
    - [Arch]: the syscall registers of thirteen architectures
      ([tracer/rewrite_linux_*.go]) as records of operations, with the laws the
      tracer relies on as a class and an instance for every architecture.
    - [TraceeMemory]: strings and string arrays in another process
      ([tracer/memory.go]) over an interface for the two system calls.
    - [Tracer]: the tracer itself ([tracer/tracer.go]): per-process state, the
      syscall-stop handler, the exec rewrite, the getcwd hook, the event loop.
    - [TracerMain]: the tracer process from its start to its exit status
      ([Start] of [tracer/tracer.go], [cmd/mproxy-tracer/main_linux.go], [main] of
      [cmd/machineproxy/main.go]).

    Files:
    - [FileClient]: the file interface of the backends ([remote/backend.go]) as
      requests, and programs over them.
    - [WorkspaceFS]: the workspace file system and its FUSE nodes
      ([workspacefs/*.go]) as programs over [FileClient].
    - [Mux]: the connection ([agentproto/mux.go], [frame.go]): the dispatch loop
      and the table of pending calls.
    - [AgentFS]: the two ends of the file protocol ([agentproto/fileop_server.go],
      [filemode.go], [remote/docker/fileclient.go]).
    - [Stack]: the workspace file system over the agent.
    - [FileIO]: what is read and written through all of these layers, over a
      system that keeps regular files.
    - [PlatformStat]: what differs between Linux, macOS, FreeBSD and other systems
      in the attributes of files, the subreaper's system call and the FUSE check
      ([agentproto/fileop_stat_*.go], [workspacefs/stat_*.go], [subreaper/setup_*.go],
      [cmd/machineproxy/fuse_check_*.go]), a platform being an instance of a class.

    Commands:
    - [RemoteExec]: shell quoting, the two runners with every early return, the
      input bridges and the cached upload ([remoteexec/*.go],
      [agenttransfer/transfer.go]).
    - [Broker]: the broker and the shim ([broker/server.go], [protocol.go],
      [cmd/mproxy-shim]).
    - [BrokerServer]: the broker's socket, accept loop and connections
      ([broker/server.go], [cmd/machineproxy/runtime.go]).
    - [Wire]: frames as bytes on a shared connection ([agentproto/codec.go],
      [broker/protocol.go]).
    - [Layout]: every message as a map with the keys of its struct tags
      ([agentproto/frame.go], [recording.go], [broker/protocol.go],
      [remoteexec/runner.go]), from Go types to CBOR items and back; its codecs
      are instances of the interface [Wire] is proved against.
    - [ChildProc]: building a child and its descriptors ([childproc/*.go]).
    - [Reaper]: the subreaper and its waiters ([subreaper/reap_unix.go]).
    - [AgentMain]: the agent's three modes ([cmd/mproxy-agent/main.go]).
    - [ExecStack]: shim, broker, runner and agent together.
    - [StubStack]: a command of the remote machine from the search along PATH to the
      child, through the stubs of a run ([cmd/machineproxy/runtime.go]).
    - [Recording]: the session recorder under concurrent commands and the
      forwarding of the agent's log records ([agentproto/recording.go],
      [loghandler.go], [logging/logging.go]).

    Start-up:
    - [Config]: id-map and mount entries, the configuration record, its defaults,
      identity mounts, validation and loading ([config/config.go],
      [config/load.go]).
    - [Destination]: the destination argument ([remote/destination.go]).
    - [InitCmd]: the initial command's search and shebang chain
      ([initcmd/initcmd.go]).
    - [Launch]: the tracer's command line, environment and PATH injection, and
      the bubblewrap arguments ([cmd/machineproxy/runchild_linux.go],
      [cmd/mproxy-tracer/main_linux.go], [ns/*.go]).
    - [Cli]: flags and their overrides ([cmd/machineproxy/main.go]).
    - [Runtime]: the stages and what they hold ([cmd/machineproxy/runtime.go],
      [supervisor/supervisor.go]).
    - [Shutdown]: [Close] of [cmd/machineproxy/runtime.go] call by call, with unmounts
      that fail and the remote files behind a mount, and the two FUSE mounts
      ([workspacefs/node_dir.go], [pathstub/node.go]).

    Backends:
    - [SshManager]: the connection manager as a transition system
      ([sshconn/manager.go], [sshconn/dialer.go]).
    - [SshBackend]: platform, upload and the SFTP file client ([remote/ssh/*.go]),
      dial settings ([sshconn/dialer.go]) and the local binding
      ([dialer/dialer.go]).
    - [DockerContext]: which daemon, which container, which platform
      ([remote/docker/contextresolver.go], [compose.go], [platform.go],
      [sshdaemon.go], [sshdaemon_ssh.go]).
    - [DockerSession]: sessions, the upload and the lazily started file agent
      ([remote/docker/session.go], [backend.go], [upload.go], [fileclient.go]).
    - [Backends]: the registry, the constructors and the start
      ([cmd/machineproxy/backends.go], [backend_ssh.go], [backend_docker.go],
      [runtime.go]).
    - [SshDial]: how a connection is dialed ([sshconn/dialer.go],
      [dialer/dialer.go], [control_*.go], [remote/docker/sshdaemon_ssh.go]).
    - [DockerExec]: one-shot commands in a container and the goroutines that
      collect their output ([remote/docker/backend.go], [upload.go]).
    - [Platforms]: the macOS and Windows variants of launching, child processes
      and the subreaper, and the shim's file set.
    - [RemoteBackend]: the [Backend] interface ([remote/backend.go]) as a class with the
      laws the runners rely on, and the ssh and docker backends as its instances
      ([remote/ssh/backend.go], [remote/docker/backend.go], [sshconn/manager.go]).

    ** What the theorems show

    - Exec interception.  An exec that is not allowed is turned into an exec of
      the shim whose path, argv and envp the kernel can read back from the staged
      area, and nothing else in the process changes; whatever fails on the way, the
      process is killed, blocked or left with the shim's path, so that a kernel that
      takes the syscall number from the registers does not execute the original
      program (on ARM and s390x blocking is best effort); an allowed exec is left
      alone; fork and stop events commute; the getcwd result is remapped or refused.  The register
      laws hold on every architecture.  One theorem shows where the entry/exit
      phase goes wrong, another that MIPS loses the syscall number.  The tracer's
      exit status is how the command itself ended, and only a failed setup of
      tracing leaves a command running untraced.
    - Memory.  A string array written to the tracee reads back; long strings are
      cut at the read window.
    - Remote execution.  Shim, broker, runner and agent together give the caller
      the bytes the remote child wrote on each stream and its exit status, in
      every interleaving; on stderr what the agent's session itself prints comes in
      between.  The command is the intercepted one, mapped and filtered, with its
      extra descriptors; a failure on the way is exit status 127.  The remote shell reads the quoted
      command line back.  Each descriptor is the right end of its pipe or socket pair,
      and which ends are open after every outcome is stated.  A waiter returns the
      status of its own child, and does return.  A command that only the remote has
      is found through its stub, and the child is the remote program in the
      environment the command would have had without stubs.
    - Environment and paths.  The filter selects exactly what its rules say and
      composes with the injected marker; command rules, the path mapper, the stub
      enumeration and the ancestor test have complete functional descriptions.
    - Configuration and command line.  What validation accepts has every field in
      range, mounts at absolute paths and id maps within 32 bits; finalizing twice
      changes nothing; identity mounts are added once each.  Every accepted
      destination has a canonical spelling that parses back to it, and an ssh one
      without a host is accepted only as a bare port or empty brackets.  Flags
      override the destination, which overrides the file.  An initial command that is
      to stay local is allowed with the programs that the kernel and env, specified
      on their own ([InitCmd.load_script], [InitCmd.env_program]), execute for it.
    - Files.  The workspace file system never names a path outside its root, closes
      the files it opens, translates ids by an inverse pair of maps and checks
      permissions as the kernel would on the attributes it reports.  The agent
      client and server together refine the operating system they run on, also over a
      connection that fails, errnos survive the way back, and the confinement holds for the system calls of the
      agent.  Every sequence of opens, reads, writes, truncations and releases of
      the kernel is answered as by a store of byte arrays; statx reports what stat
      does.  The attributes of a file on any Unix come through the agent as stat(2)
      gives them there, except where zero stands for absent.
    - Connection.  In every interleaving a response reaches the call that asked
      for it and nobody who was waiting hangs when the connection ends; a call that
      comes later does.  The bytes on a connection decode to the frames that were
      sent, never mixed, whatever the order of the senders and wherever a write
      breaks off; the broker returns only when its connections have been served, and
      does when its context has ended.  Every message whose texts are UTF-8 is read
      back as it was written, also by a peer that knows fewer keys; one with another
      text is refused, and one cut short is not read as another.
    - Run.  The stages run in order up to the first failure and everything mounted
      or created is released, for mounts on distinct container paths; mounts of one
      remote path share a server.  Closing
      touches a file of the remote machine exactly when it is in a workspace whose
      unmount failed; then it is deleted.
    - Backends.  An accepted configuration leads to the backend it names; a started
      docker backend is ready for files.  The ssh manager has at most one
      connection open, though closing it is not final; concurrent calls leave one
      file agent; an upload that succeeds has read the whole local file and every write
      of it was taken whole; the daemon is dialed where and
      how the configuration says; a compose service resolves to the one container
      it names.  Once a backend of either kind has started, a run finds its session;
      before, it fails with exit status 127.  An ssh dial uses the resolved address and the configured binding
      and leaves no socket behind, but no connect timeout; collecting the output of
      a one-shot command cannot block and loses nothing.
    - Recording.  The records of each command are those it would have made alone,
      in their order, and every record has the field of its type; log records
      arrive with their attributes.  A recording that was cut off gives every record
      that was completely written; one with text that is no UTF-8 is read up to it.

    ** Interfaces and parameters

    The regexp engine ([PathRules.Regexp]), the system calls on another process's
    memory ([TraceeMemory.TraceeVM] with its laws), the operating system under the
    agent ([AgentFS]), the wait and register calls of ptrace, the sessions of a
    backend ([RemoteExec]), the sftp library ([SshBackend]), the docker client
    library ([DockerContext.DockerSDK] with its laws) and the daemon's answers,
    the CBOR library ([Wire.Codec] with its laws, at single items in [Layout]), the
    regular files of the remote
    system ([FileIO.FileLaws]), the ssh_config library ([SshDial])
    and the home directory, working directory, user database, environment and file
    decoders ([Config.Host], [Config.Load], [DockerContext.docker_host]) are
    parameters; [literal_engine], [flat_vm], [sdk0], [countable_codec], [ram_os] and
    the demo systems of the witnesses instantiate them.

    ** Bounds and fuel

    [ReadStringArray] follows a pointer table that Go reads until its end; its fuel
    bounds the number of entries, and the theorems ask for more fuel than entries
    and show that the result is then the array.  Running out of fuel is a value of
    its own ([read_error]).  [glob_Match] recurses on the length of its pattern.
    The RPC theorems hold for fewer than 2^32 actions, where request ids cannot
    repeat, the recording theorem for at most 2^32 commands and the file theorem
    for fewer than 2^32 opens, where handle numbers cannot repeat.  [decode_from]
    has the length of the stream as fuel, since a frame is at least one byte.  A loop that waits
    (for a connection, for a child's status) takes the list of what it sees in its
    rounds.  Machine integers wrap at their width throughout.

    ** Not modelled

    Starting processes, namespaces, the SSH handshake, ssh_config, the Docker
    daemon, the bytes of a CBOR item and the YAML and TOML decoders are system
    calls or libraries, as are the local log's text handler and the FUSE library.
    The macOS interposer is not Go.  [io.Copy] to a file of the sftp library hands
    the loop to the library, which is not under src.  [strings.Fields] splits at the
    white space of ASCII.  Left out are interface declarations without
    code of their own, opening the log file, and what is only logged.  In [FileIO]
    nobody else changes the files meanwhile, and in [Shutdown] nothing but [Close]
    does. *)

From stdpp Require Export base tactics option list gmap strings.
From Stdlib Require Export ZArith Lia Ascii.

Declare Scope go_scope.
Delimit Scope go_scope with go.

(** ** Results: Go's [(value, error)] pairs *)

(** A Go function that returns a value or a non-nil error. *)
Inductive result (E A : Type) : Type :=
  | Ok (a : A)
  | Err (e : E).
Arguments Ok {E A} a.
Arguments Err {E A} e.

Definition result_bind {E A B} (c : result E A) (k : A → result E B) : result E B :=
  match c with Ok a => k a | Err e => Err e end.

(** [x ←? c; k] is the Go idiom [x, err := c; if err != nil return err]. *)
Notation "x ←? c ; k" := (result_bind c (λ x, k))
  (at level 20, c at level 100, k at level 200, right associativity,
   format "x  ←?  c ;  '//' k") : go_scope.

Definition is_ok {E A} (r : result E A) : bool :=
  match r with Ok _ => true | Err _ => false end.

Lemma result_bind_ok {E A B} (c : result E A) (k : A → result E B) b :
  result_bind c k = Ok b ↔ ∃ a, c = Ok a ∧ k a = Ok b.
Proof. destruct c; simpl; naive_solver. Qed.

Lemma result_bind_err {E A B} (c : result E A) (k : A → result E B) e :
  result_bind c k = Err e ↔ c = Err e ∨ ∃ a, c = Ok a ∧ k a = Err e.
Proof. destruct c; simpl; naive_solver. Qed.

(** ** Machine integers *)

(** Unsigned wrap-around at [w] bits, and the signed reading of a [w]-bit
    pattern, as in Go's [uintN] and [intN] conversions. *)
Definition uwrap (w z : Z) : Z := (z mod 2 ^ w)%Z.
Definition swrap (w z : Z) : Z :=
  let u := uwrap w z in if (u <? 2 ^ (w - 1))%Z then u else (u - 2 ^ w)%Z.

Definition u32 : Z → Z := uwrap 32.
Definition u64 : Z → Z := uwrap 64.
Definition is_u (w z : Z) : Prop := (0 ≤ z < 2 ^ w)%Z.

Lemma uwrap_range w z : (0 ≤ w)%Z → is_u w (uwrap w z).
Proof. intros. apply Z.mod_pos_bound. lia. Qed.

Lemma uwrap_id w z : is_u w z → uwrap w z = z.
Proof. intros. by apply Z.mod_small. Qed.

Lemma uwrap_idemp w z : (0 ≤ w)%Z → uwrap w (uwrap w z) = uwrap w z.
Proof. intros. by apply uwrap_id, uwrap_range. Qed.

(** A number that fits is itself as a signed one. *)
Lemma swrap_small w z : (0 < w → 0 ≤ z < 2 ^ (w - 1) → swrap w z = z)%Z.
Proof.
  intros Hw Hz. assert (2 ^ w = 2 * 2 ^ (w - 1))%Z by (rewrite <- Z.pow_succ_r by lia; f_equal; lia).
  unfold swrap. rewrite uwrap_id by (unfold is_u; lia). by rewrite (proj2 (Z.ltb_lt _ _)) by lia.
Qed.

Lemma swrap_uwrap w z : (0 ≤ w)%Z → swrap w (uwrap w z) = swrap w z.
Proof. intros. unfold swrap. by rewrite uwrap_idemp. Qed.

Lemma uwrap_swrap w z : (0 ≤ w)%Z → uwrap w (swrap w z) = uwrap w z.
Proof.
  intros Hw. unfold swrap. case_match; [by apply uwrap_idemp|].
  unfold uwrap. rewrite Zminus_mod, Z_mod_same_full, Z.sub_0_r.
  rewrite !Z.mod_mod by lia. done.
Qed.

Lemma uwrap_add_l w a b : uwrap w (uwrap w a + b) = uwrap w (a + b).
Proof. apply Zplus_mod_idemp_l. Qed.

Lemma uwrap_add_r w a b : uwrap w (a + uwrap w b) = uwrap w (a + b).
Proof. apply Zplus_mod_idemp_r. Qed.

Lemma land_lor_absorb a x : Z.land (Z.lor a x) a = a.
Proof.
  apply Z.bits_inj'. intros n _. rewrite Z.land_spec, Z.lor_spec.
  by destruct (Z.testbit a n), (Z.testbit x n).
Qed.

(** ** Error numbers (Linux values) *)

Module Errno.
Definition OK : Z := 0.
Definition EPERM : Z := 1.
Definition ENOENT : Z := 2.
Definition EIO : Z := 5.
Definition EBADF : Z := 9.
Definition EACCES : Z := 13.
Definition EEXIST : Z := 17.
Definition ENOTDIR : Z := 20.
Definition EISDIR : Z := 21.
Definition EINVAL : Z := 22.
Definition ENOTTY : Z := 25.
Definition EROFS : Z := 30.
Definition ERANGE : Z := 34.
Definition ENOSYS : Z := 38.
Definition ENOATTR : Z := 61.
Definition ENOTSUP : Z := 95.
End Errno.

(** ** Octal constants *)

(** [oct n] reads the decimal digits of [n] as octal: [oct 755] is Go's [0o755]. *)
Fixpoint oct_digits (fuel : nat) (n : Z) : Z :=
  match fuel with
  | O => 0%Z
  | S k => if (n =? 0)%Z then 0%Z else (n mod 10 + 8 * oct_digits k (n / 10))%Z
  end.
Definition oct (n : Z) : Z := oct_digits 12 n.

Definition o7 : Z := Eval vm_compute in oct 7.
Definition o77 : Z := Eval vm_compute in oct 77.
Definition o111 : Z := Eval vm_compute in oct 111.
Definition o222 : Z := Eval vm_compute in oct 222.
Definition o444 : Z := Eval vm_compute in oct 444.
Definition o555 : Z := Eval vm_compute in oct 555.
Definition o777 : Z := Eval vm_compute in oct 777.
Definition o1000 : Z := Eval vm_compute in oct 1000.
Definition o2000 : Z := Eval vm_compute in oct 2000.
Definition o4000 : Z := Eval vm_compute in oct 4000.
Definition o100 : Z := Eval vm_compute in oct 100.
Definition o10000 : Z := Eval vm_compute in oct 10000.
Definition o20000 : Z := Eval vm_compute in oct 20000.
Definition o40000 : Z := Eval vm_compute in oct 40000.
Definition o60000 : Z := Eval vm_compute in oct 60000.
Definition o100000 : Z := Eval vm_compute in oct 100000.
Definition o120000 : Z := Eval vm_compute in oct 120000.
Definition o140000 : Z := Eval vm_compute in oct 140000.
Definition o170000 : Z := Eval vm_compute in oct 170000.

(** ** Automation *)

(** The hint database of the development: side conditions of the word and
    string lemmas. *)
Create HintDb mproxy.
#[export] Hint Resolve uwrap_range : mproxy.

(** Case analysis on every [match]/[if] of the goal and hypotheses, closing
    the contradictory branches. *)
Ltac split_matches :=
  repeat (case_match; simplify_eq/=; try done).

(** Turn boolean tests into propositions. *)
Ltac bool_solve :=
  repeat match goal with
  | H : (_ && _) = true |- _ => apply andb_prop in H as [? ?]
  | H : (_ || _) = false |- _ => apply orb_false_elim in H as [? ?]
  | H : negb _ = true |- _ => apply negb_true_iff in H
  | H : negb _ = false |- _ => apply negb_false_iff in H
  | H : bool_decide _ = true |- _ => apply bool_decide_eq_true in H
  | H : bool_decide _ = false |- _ => apply bool_decide_eq_false in H
  end.

(** ** Lists *)

(** [first_some f l]: the first [Some] that [f] gives along [l]; the shape
    of a Go loop that returns on its first match. *)
Fixpoint first_some {A B} (f : A → option B) (l : list A) : option B :=
  match l with
  | [] => None
  | x :: l => match f x with Some y => Some y | None => first_some f l end
  end.

Lemma first_some_Some {A B} (f : A → option B) l y :
  first_some f l = Some y ↔
  ∃ l1 x l2, l = l1 ++ x :: l2 ∧ f x = Some y ∧ Forall (λ z, f z = None) l1.
Proof.
  split.
  - induction l as [|x l IH]; simpl; [done|]. destruct (f x) eqn:E; intros.
    + simplify_eq. by exists [], x, l.
    + destruct IH as (l1 & z & l2 & -> & ? & ?); [done|].
      exists (x :: l1), z, l2. auto.
  - intros (l1 & x & l2 & -> & Hx & Hl). induction Hl as [|z l1 Hz _ IH]; simpl.
    + by rewrite Hx.
    + by rewrite Hz.
Qed.

Lemma first_some_None {A B} (f : A → option B) l :
  first_some f l = None ↔ Forall (λ z, f z = None) l.
Proof.
  induction l as [|x l IH]; simpl; [done|].
  rewrite Forall_cons. destruct (f x); naive_solver.
Qed.

Lemma first_some_ext {A B} (f g : A → option B) l :
  Forall (λ x, f x = g x) l → first_some f l = first_some g l.
Proof. induction 1 as [|x l Hx _ IH]; simpl; [done|]. by rewrite Hx, IH. Qed.

(** [fold_left] with an invariant. *)
Lemma fold_left_inv {A B} (P : A → Prop) (f : A → B → A) l a :
  P a → (∀ a b, P a → b ∈ l → P (f a b)) → P (fold_left f l a).
Proof.
  revert a. induction l as [|b l IH]; simpl; intros a Ha Hf; [done|].
  apply IH; [apply Hf; [done|left]|]. intros. apply Hf; [done|by right].
Qed.

Lemma existsb_False {A} (f : A → bool) l :
  existsb f l = false ↔ Forall (λ x, f x = false) l.
Proof.
  induction l as [|x l IH]; simpl; [done|].
  rewrite Forall_cons, orb_false_iff. naive_solver.
Qed.

Lemma omap_omap {A B C} (f : A → option B) (g : B → option C) (l : list A) :
  omap g (omap f l) = omap (λ x, f x ≫= g) l.
Proof. induction l as [|x l IH]; [done|]. cbn. destruct (f x) as [y|]; [|done]. cbn. by rewrite IH. Qed.

Lemma omap_fmap_some {A B C} (f : A → B) (g : B → option C) (h : A → C) (l : list A) :
  Forall (λ x, g (f x) = Some (h x)) l → omap g (f <$> l) = h <$> l.
Proof. induction 1 as [|x l Hx _ IH]; [done|]. cbn. rewrite Hx. by f_equal. Qed.
