(* ===== verification/GoStrings.v ===== *)
(** * GoStrings: the parts of Go's [strings], [strconv], [path] packages

    Strings are byte sequences ([String.string]); a byte is an [ascii].  The
    functions are the ones the modelled packages call, with separators at the
    width the callers use (single bytes, but for [Index] of a substring).
    Slicing [s[n:]] and [s[:n]] is [sdrop] and [stake]. *)

From S2P Require Import Prelude.

Abbreviation slen := String.length.

(** ** Slices *)

Fixpoint sdrop (n : nat) (s : string) : string :=
  match n, s with
  | O, _ => s
  | S n, String _ s => sdrop n s
  | S _, EmptyString => EmptyString
  end.

Fixpoint stake (n : nat) (s : string) : string :=
  match n, s with
  | S n, String c s => String c (stake n s)
  | _, _ => EmptyString
  end.

(** ** Membership, prefixes, suffixes *)

(** [strings.Contains(s, string(c))] / [strings.IndexByte(s, c) >= 0]. *)
Fixpoint contains_byte (c : ascii) (s : string) : bool :=
  match s with
  | EmptyString => false
  | String d s => Ascii.eqb d c || contains_byte c s
  end.

(** [strings.HasPrefix(s, p)]. *)
Fixpoint HasPrefix (s p : string) {struct p} : bool :=
  match p, s with
  | EmptyString, _ => true
  | String c p, String d s => Ascii.eqb c d && HasPrefix s p
  | String _ _, EmptyString => false
  end.

(** [strings.HasSuffix(s, p)]. *)
Definition HasSuffix (s p : string) : bool :=
  (slen p <=? slen s)%nat && String.eqb (sdrop (slen s - slen p) s) p.

(** [strings.ToLower]: the letters of ASCII and the two letters beyond it whose
    lower case is in it, U+0130 (to i) and U+212A (to k).  Every other rune beyond
    ASCII stays beyond it; its bytes are left as they are, since the results are
    only compared with ASCII text or stripped of such bytes. *)
Definition lower_byte (c : ascii) : ascii :=
  let n := Z.of_N (N_of_ascii c) in if ((65 <=? n) && (n <=? 90))%Z then ascii_of_N (Z.to_N (n + 32)) else c.
Fixpoint ToLower (s : string) : string :=
  match s with
  | EmptyString => EmptyString
  | String c r =>
      match r with
      | EmptyString => String (lower_byte c) EmptyString
      | String d r2 =>
          if Ascii.eqb c "196" && Ascii.eqb d "176" then String "i" (ToLower r2)
          else match r2 with
               | EmptyString => String (lower_byte c) (ToLower r)
               | String e r3 =>
                   if Ascii.eqb c "226" && Ascii.eqb d "132" && Ascii.eqb e "170" then String "k" (ToLower r3)
                   else String (lower_byte c) (ToLower r)
               end
      end
  end.

(** [strings.CutPrefix(s, p)]. *)
Definition CutPrefix (s p : string) : option string :=
  if HasPrefix s p then Some (sdrop (slen p) s) else None.

(** [strings.TrimPrefix(s, p)]. *)
Definition TrimPrefix (s p : string) : string :=
  if HasPrefix s p then sdrop (slen p) s else s.

(** [strings.Contains(s, p)]. *)
Fixpoint Contains (s p : string) : bool :=
  HasPrefix s p || match s with EmptyString => false | String _ s => Contains s p end.

(** ** Cutting *)

(** [strings.Cut(s, string(c))]; also [i := strings.IndexByte(s, c)] followed
    by [s[:i]] and [s[i+1:]]. *)
Fixpoint CutByte (c : ascii) (s : string) : option (string * string) :=
  match s with
  | EmptyString => None
  | String d s =>
      if Ascii.eqb d c then Some (EmptyString, s)
      else match CutByte c s with
           | Some (a, b) => Some (String d a, b)
           | None => None
           end
  end.

(** [i := strings.LastIndex(s, string(c))] with [s[:i]] and [s[i+1:]]. *)
Fixpoint CutLastByte (c : ascii) (s : string) : option (string * string) :=
  match s with
  | EmptyString => None
  | String d s =>
      match CutLastByte c s with
      | Some (a, b) => Some (String d a, b)
      | None => if Ascii.eqb d c then Some (EmptyString, s) else None
      end
  end.

(** [i := strings.Index(s, sep)] with [s[:i]] and [s[i+len(sep):]]. *)
Fixpoint CutStr (sep s : string) : option (string * string) :=
  if HasPrefix s sep then Some (EmptyString, sdrop (slen sep) s)
  else match s with
       | EmptyString => None
       | String d s =>
           match CutStr sep s with
           | Some (a, b) => Some (String d a, b)
           | None => None
           end
       end.

(** [strings.Split(s, string(c))]: never empty. *)
Fixpoint Split (c : ascii) (s : string) : list string :=
  match s with
  | EmptyString => [EmptyString]
  | String d s =>
      if Ascii.eqb d c then EmptyString :: Split c s
      else match Split c s with
           | [] => [String d EmptyString]
           | x :: l => String d x :: l
           end
  end.

(** [strings.Join(l, string(c))]. *)
Fixpoint Join (c : ascii) (l : list string) : string :=
  match l with
  | [] => EmptyString
  | [x] => x
  | x :: l => x +:+ String c (Join c l)
  end.

(** ** Trimming *)

Fixpoint srev_app (s acc : string) : string :=
  match s with EmptyString => acc | String c s => srev_app s (String c acc) end.
Definition srev (s : string) : string := srev_app s EmptyString.

Fixpoint trim_left (p : ascii → bool) (s : string) : string :=
  match s with
  | EmptyString => EmptyString
  | String c s' => if p c then trim_left p s' else s
  end.
Definition trim_right (p : ascii → bool) (s : string) : string :=
  srev (trim_left p (srev s)).

(** The white space of ASCII. *)
Definition is_space (c : ascii) : bool :=
  match c with
  | "009" | "010" | "011" | "012" | "013" | " " => true
  | _ => false
  end%char.

(** The white space of Unicode, rune by rune in UTF-8. *)
Definition utf8_bytes (l : list nat) : string := foldr (λ n, String (ascii_of_nat n)) "" l.
Definition space_runes : list string :=
  utf8_bytes <$>
    [[9]; [10]; [11]; [12]; [13]; [32]; [194; 133]; [194; 160]; [225; 154; 128];
     [226; 128; 128]; [226; 128; 129]; [226; 128; 130]; [226; 128; 131]; [226; 128; 132]; [226; 128; 133];
     [226; 128; 134]; [226; 128; 135]; [226; 128; 136]; [226; 128; 137]; [226; 128; 138];
     [226; 128; 168]; [226; 128; 169]; [226; 128; 175]; [226; 129; 159]; [227; 128; 128]].

(** Strings out of a list, taken from the front as long as there are any. *)
Fixpoint trim_runes (fuel : nat) (rs : list string) (s : string) : string :=
  match fuel with
  | O => s
  | S fuel => match first_some (CutPrefix s) rs with Some t => trim_runes fuel rs t | None => s end
  end.
(** [strings.TrimSpace]: the runes at the front, then those at the end. *)
Definition trim_back (rs : list string) (s : string) : string := srev (trim_runes (slen s) (srev <$> rs) (srev s)).
Definition TrimSpace (s : string) : string := trim_back space_runes (trim_runes (slen s) space_runes s).

(** ** strconv *)

Definition digit_val (c : ascii) : option Z :=
  let n := Z.of_N (N_of_ascii c) in
  if (48 <=? n)%Z && (n <=? 57)%Z then Some (n - 48)%Z else None.

Fixpoint parse_digits (acc : Z) (s : string) : option Z :=
  match s with
  | EmptyString => Some acc
  | String c s =>
      match digit_val c with Some d => parse_digits (acc * 10 + d) s | None => None end
  end.

(** [strconv.ParseUint(s, 10, w)]: digits only, and the value fits. *)
Definition ParseUint (w : Z) (s : string) : option Z :=
  match s with
  | EmptyString => None
  | _ => match parse_digits 0 s with
         | Some n => if (n <? 2 ^ w)%Z then Some n else None
         | None => None
         end
  end.

(** [strconv.Atoi(s)] on a 64-bit [int]: an optional sign, then digits. *)
Definition Atoi (s : string) : option Z :=
  let '(neg, body) :=
    match s with
    | String "-" r => (true, r)
    | String "+" r => (false, r)
    | _ => (false, s)
    end in
  match body with
  | EmptyString => None
  | _ => match parse_digits 0 body with
         | Some n =>
             if neg then if (n <=? 2 ^ 63)%Z then Some (- n)%Z else None
             else if (n <? 2 ^ 63)%Z then Some n else None
         | None => None
         end
  end.

(** [strconv.Itoa(n)] for a non-negative [int]: the decimal digits, most
    significant first; 19 digits hold every 63-bit number. *)
Definition digit_char (d : Z) : ascii := ascii_of_N (Z.to_N (48 + d)).

Fixpoint itoa_digits (fuel : nat) (n : Z) (acc : string) : string :=
  match fuel with
  | O => acc
  | S fuel =>
      let acc := String (digit_char (n mod 10)) acc in
      if (n <? 10)%Z then acc else itoa_digits fuel (n / 10) acc
  end.
Definition Itoa (n : Z) : string := itoa_digits 19 n "".

(** [strings.Count(s, string(c))]. *)
Fixpoint CountByte (c : ascii) (s : string) : nat :=
  match s with
  | EmptyString => O
  | String d s => (if Ascii.eqb d c then 1 else 0) + CountByte c s
  end.

(** ** path and filepath (POSIX) *)

Definition slash : ascii := "/"%char.
Definition dot : string := ".".
Definition dotdot : string := "..".

(** One path component pushed on the (reversed) stack of kept components. *)
Definition clean_step (rooted : bool) (st : list string) (c : string) : list string :=
  if String.eqb c "" || String.eqb c dot then st
  else if String.eqb c dotdot then
    match st with
    | [] => if rooted then [] else [dotdot]
    | top :: rest => if String.eqb top dotdot then dotdot :: st else rest
    end
  else c :: st.

Definition clean_comps (rooted : bool) (l : list string) : list string :=
  reverse (fold_left (clean_step rooted) l []).

Definition IsAbs (p : string) : bool := HasPrefix p "/".

(** [path.Clean]: the shortest equivalent path by lexical processing. *)
Definition Clean (p : string) : string :=
  if String.eqb p "" then dot
  else
    let rooted := IsAbs p in
    let body := Join slash (clean_comps rooted (Split slash p)) in
    if rooted then String slash body
    else if String.eqb body "" then dot else body.

(** [path.Join(a, b)] and [filepath.Join(a, b)]. *)
Definition PathJoin (a b : string) : string :=
  if String.eqb a "" then if String.eqb b "" then "" else Clean b
  else Clean (a +:+ String slash b).

(** [filepath.Base]. *)
Definition Base (p : string) : string :=
  if String.eqb p "" then dot
  else
    let p := trim_right (Ascii.eqb slash) p in
    let p := match CutLastByte slash p with Some (_, b) => b | None => p end in
    if String.eqb p "" then "/" else p.

(** ** Lemmas: append and slices *)

Lemma sapp_nil_r s : s +:+ "" = s.
Proof. induction s as [|c s IH]; [done|]. change (String c (s +:+ "") = String c s). by rewrite IH. Qed.

Lemma sapp_assoc a b c : a +:+ (b +:+ c) = (a +:+ b) +:+ c.
Proof.
  induction a as [|d a IH]; [done|].
  change (String d (a +:+ (b +:+ c)) = String d ((a +:+ b) +:+ c)). by rewrite IH.
Qed.

Lemma sapp_nil_l s : "" +:+ s = s.
Proof. done. Qed.

Lemma sapp_cons c s t : String c s +:+ t = String c (s +:+ t).
Proof. done. Qed.

Lemma slen_app s t : slen (s +:+ t) = (slen s + slen t)%nat.
Proof. induction s as [|c s IH]; [done|]. rewrite sapp_cons. simpl. by rewrite IH. Qed.

Lemma sapp_inj_r a b t : a +:+ t = b +:+ t → a = b.
Proof.
  revert b. induction a as [|c a IH]; intros [|d b] H; [done|..].
  - apply (f_equal slen) in H. rewrite !slen_app in H. simpl in H. lia.
  - apply (f_equal slen) in H. rewrite !slen_app in H. simpl in H. lia.
  - rewrite !sapp_cons in H. simplify_eq. f_equal. by apply IH.
Qed.

Lemma sdrop_app s t : sdrop (slen s) (s +:+ t) = t.
Proof. induction s; [done|]. rewrite sapp_cons. done. Qed.

Lemma stake_app s t : stake (slen s) (s +:+ t) = s.
Proof. induction s as [|c s IH]; [done|]. rewrite sapp_cons. simpl. by f_equal. Qed.

Lemma stake_sdrop n s : stake n s +:+ sdrop n s = s.
Proof.
  revert s. induction n as [|n IH]; intros [|c s]; simpl; [done..|].
  rewrite sapp_cons. by rewrite IH.
Qed.

Lemma sdrop_add n m s : sdrop (n + m) s = sdrop m (sdrop n s).
Proof.
  revert s. induction n as [|n IH]; intros [|c s]; simpl; [done..| |done].
  by destruct m.
Qed.

Lemma slen_sdrop n s : slen (sdrop n s) = (slen s - n)%nat.
Proof. revert s. induction n as [|n IH]; intros [|c s]; simpl; auto. Qed.

Lemma seqb_true a b : String.eqb a b = true ↔ a = b.
Proof. apply String.eqb_eq. Qed.
Lemma seqb_false a b : String.eqb a b = false ↔ a ≠ b.
Proof. apply String.eqb_neq. Qed.
Lemma seqb_refl a : String.eqb a a = true.
Proof. apply String.eqb_refl. Qed.

(** ** Lemmas: prefixes and membership *)

Lemma HasPrefix_spec s p : HasPrefix s p = true ↔ ∃ t, s = p +:+ t.
Proof.
  revert s. induction p as [|c p IH]; intros s; simpl.
  - split; [by exists s|done].
  - destruct s as [|d s].
    + split; [done|]. intros [t Ht]. rewrite sapp_cons in Ht. done.
    + rewrite andb_true_iff, IH, Ascii.eqb_eq. split.
      * intros [-> [t ->]]. by exists t.
      * intros [t Ht]. rewrite sapp_cons in Ht. simplify_eq. eauto.
Qed.

Lemma HasPrefix_app p t : HasPrefix (p +:+ t) p = true.
Proof. apply HasPrefix_spec. eauto. Qed.

Lemma HasPrefix_refl p : HasPrefix p p = true.
Proof. apply HasPrefix_spec. exists "". by rewrite sapp_nil_r. Qed.

Lemma HasPrefix_trans s p q : HasPrefix s p = true → HasPrefix p q = true → HasPrefix s q = true.
Proof.
  rewrite !HasPrefix_spec. intros [t ->] [u ->]. rewrite <- sapp_assoc. eauto.
Qed.

Lemma HasPrefix_sdrop s p : HasPrefix s p = true → s = p +:+ sdrop (slen p) s.
Proof. rewrite HasPrefix_spec. intros [t ->]. by rewrite sdrop_app. Qed.

Lemma CutPrefix_spec s p t : CutPrefix s p = Some t ↔ s = p +:+ t.
Proof.
  unfold CutPrefix. destruct (HasPrefix s p) eqn:E; split; intros H; simplify_eq.
  - by apply HasPrefix_sdrop.
  - by rewrite sdrop_app.
  - by rewrite HasPrefix_app in E.
Qed.

Lemma contains_byte_app c s t : contains_byte c (s +:+ t) = contains_byte c s || contains_byte c t.
Proof. induction s as [|d s IH]; [done|]. rewrite sapp_cons. simpl. by rewrite IH, orb_assoc. Qed.

Lemma ToLower_cons c s :
  Ascii.eqb c "196" = false → Ascii.eqb c "226" = false → ToLower (String c s) = String (lower_byte c) (ToLower s).
Proof. intros H1 H2. destruct s as [|d [|e s]]; cbn [ToLower]; rewrite ?H1, ?H2; done. Qed.

Lemma CutByte_None c s : CutByte c s = None ↔ contains_byte c s = false.
Proof.
  induction s as [|d s IH]; simpl; [done|]. destruct (Ascii.eqb d c); simpl; [done|].
  rewrite <- IH. destruct (CutByte c s) as [[]|]; naive_solver.
Qed.

Lemma CutByte_Some c s a b :
  CutByte c s = Some (a, b) ↔ s = a +:+ String c b ∧ contains_byte c a = false.
Proof.
  split.
  - revert a. induction s as [|d s IH]; simpl; intros a H; [done|].
    destruct (Ascii.eqb d c) eqn:E; [apply Ascii.eqb_eq in E as ->; by simplify_eq|].
    destruct (CutByte c s) as [[a' b']|]; simplify_eq.
    destruct (IH a' eq_refl) as [-> ?]. rewrite sapp_cons. simpl. by rewrite E.
  - intros [-> Ha]. induction a as [|d a IH].
    + rewrite sapp_nil_l. simpl. by rewrite Ascii.eqb_refl.
    + rewrite sapp_cons. simpl in *. apply orb_false_elim in Ha as [-> Ha].
      by rewrite IH.
Qed.

Lemma CutByte_app c a b : contains_byte c a = false → CutByte c (a +:+ String c b) = Some (a, b).
Proof. intros. by apply CutByte_Some. Qed.

Lemma CutLastByte_None c s : CutLastByte c s = None ↔ contains_byte c s = false.
Proof.
  induction s as [|d s IH]; simpl; [done|].
  rewrite orb_false_iff, <- IH. destruct (CutLastByte c s) as [[]|]; [naive_solver|].
  destruct (Ascii.eqb d c); naive_solver.
Qed.

Lemma CutLastByte_Some c s a b :
  CutLastByte c s = Some (a, b) ↔ s = a +:+ String c b ∧ contains_byte c b = false.
Proof.
  split.
  - revert a. induction s as [|d s IH]; simpl; intros a H; [done|].
    destruct (CutLastByte c s) as [[a' b']|] eqn:E.
    + simplify_eq. destruct (IH a' eq_refl) as [-> ?]. by rewrite sapp_cons.
    + destruct (Ascii.eqb d c) eqn:Ed; simplify_eq. apply Ascii.eqb_eq in Ed as ->.
      by apply CutLastByte_None in E.
  - intros [-> Hb]. induction a as [|d a IH].
    + rewrite sapp_nil_l. simpl. apply CutLastByte_None in Hb as ->. by rewrite Ascii.eqb_refl.
    + rewrite sapp_cons. simpl. by rewrite IH.
Qed.

Lemma CountByte_app c s t : CountByte c (s +:+ t) = (CountByte c s + CountByte c t)%nat.
Proof.
  induction s as [|d s IH]; [done|]. rewrite sapp_cons. simpl. rewrite IH. lia.
Qed.

Lemma CountByte_zero c s : CountByte c s = O ↔ contains_byte c s = false.
Proof.
  induction s as [|d s IH]; simpl; [done|]. rewrite orb_false_iff, <- IH.
  destruct (Ascii.eqb d c); naive_solver lia.
Qed.

(** ** Lemmas: trimming *)

Lemma srev_app_spec s acc : srev_app s acc = srev s +:+ acc.
Proof.
  unfold srev. revert acc. induction s as [|c s IH]; intros acc; [done|]. simpl.
  rewrite IH, (IH (String c "")), <- sapp_assoc. done.
Qed.

Lemma srev_cons c s : srev (String c s) = srev s +:+ String c "".
Proof. unfold srev at 1. simpl. by rewrite srev_app_spec. Qed.

Lemma srev_sapp s t : srev (s +:+ t) = srev t +:+ srev s.
Proof.
  induction s as [|c s IH]; [by rewrite sapp_nil_l, sapp_nil_r|].
  by rewrite sapp_cons, !srev_cons, IH, sapp_assoc.
Qed.

Lemma srev_involutive s : srev (srev s) = s.
Proof. induction s as [|c s IH]; [done|]. by rewrite srev_cons, srev_sapp, IH. Qed.

Lemma slen_srev s : slen (srev s) = slen s.
Proof. induction s as [|c s IH]; [done|]. rewrite srev_cons, slen_app, IH. cbn. lia. Qed.

(** The first byte, if there is one, is not trimmed. *)
Definition first_not (p : ascii → bool) (s : string) : Prop :=
  match s with EmptyString => True | String c _ => p c = false end.

Lemma trim_left_id p s : first_not p s → trim_left p s = s.
Proof. destruct s as [|c s]; simpl; [done|]. by intros ->. Qed.

Lemma trim_left_first p s : first_not p (trim_left p s).
Proof. induction s as [|c s IH]; simpl; [done|]. by destruct (p c) eqn:E. Qed.

Lemma trim_left_suffix p s : ∃ pre, s = pre +:+ trim_left p s.
Proof.
  induction s as [|c s [pre IH]]; simpl; [by exists ""|].
  destruct (p c); [|by exists ""]. exists (String c pre). by rewrite sapp_cons, <- IH.
Qed.

Lemma first_not_app p s t : s ≠ "" → first_not p (s +:+ t) ↔ first_not p s.
Proof. destruct s as [|c s]; [done|]. intros _. by rewrite sapp_cons. Qed.

Lemma srev_not_empty s : s ≠ "" → srev s ≠ "".
Proof. intros Hs Hr. apply Hs. by rewrite <- (srev_involutive s), Hr. Qed.

(** No string of the list is at the front. *)
Definition clear_of (rs : list string) (s : string) : bool := forallb (λ r, negb (HasPrefix s r)) rs.

Lemma clear_of_None rs s : clear_of rs s = true ↔ first_some (CutPrefix s) rs = None.
Proof.
  unfold clear_of. rewrite first_some_None, forallb_forall, Forall_forall. setoid_rewrite list_elem_of_In. unfold CutPrefix.
  split; intros H r Hr; specialize (H r Hr); by destruct (HasPrefix s r).
Qed.
Lemma trim_runes_clear rs fuel s :
  Forall (λ r, r ≠ "") rs → (slen s ≤ fuel)%nat → clear_of rs (trim_runes fuel rs s) = true.
Proof.
  intros Hr. revert s. induction fuel as [|fuel IH]; intros s Hs; cbn.
  - apply clear_of_None, first_some_None. destruct s; [|cbn in Hs; lia]. eapply Forall_impl; [done|]. by intros [].
  - destruct (first_some (CutPrefix s) rs) as [t|] eqn:E; [|by apply clear_of_None]. apply IH.
    apply first_some_Some in E as (l1 & r & l2 & -> & Hrs & _). apply CutPrefix_spec in Hrs as ->.
    apply Forall_app in Hr as [_ Hr]. inversion Hr; subst. rewrite slen_app in Hs. destruct r; [done|]. cbn in Hs. lia.
Qed.
Lemma trim_runes_suffix rs fuel s : ∃ pre, s = pre +:+ trim_runes fuel rs s.
Proof.
  revert s. induction fuel as [|fuel IH]; intros s; cbn; [by exists ""|].
  destruct (first_some (CutPrefix s) rs) as [t|] eqn:E; [|by exists ""].
  apply first_some_Some in E as (l1 & r & l2 & -> & Hrs & _). apply CutPrefix_spec in Hrs as ->.
  destruct (IH t) as [pre Hp]. exists (r +:+ pre). by rewrite <- sapp_assoc, <- Hp.
Qed.
Lemma trim_runes_id rs fuel s : clear_of rs s = true → trim_runes fuel rs s = s.
Proof. intros H%clear_of_None. destruct fuel; cbn; by rewrite ?H. Qed.
Lemma clear_of_prefix rs s t : clear_of rs (s +:+ t) = true → clear_of rs s = true.
Proof.
  unfold clear_of. rewrite !forallb_forall. intros H r Hr. specialize (H r Hr). apply negb_true_iff in H. apply negb_true_iff.
  destruct (HasPrefix s r) eqn:E; [|done]. by rewrite (HasPrefix_trans (s +:+ t) s r) in H by (done || apply HasPrefix_app).
Qed.
(** What follows a byte that is in none of them does not matter. *)
Lemma clear_of_stop rs c s t t' :
  forallb (λ r, negb (contains_byte c r)) rs = true → clear_of rs (s +:+ String c t) = clear_of rs (s +:+ String c t').
Proof.
  unfold clear_of. induction rs as [|r rs IH]; [done|]. cbn. intros [Hr Hrs]%andb_true_iff. rewrite (IH Hrs). do 2 f_equal. clear - Hr.
  apply negb_true_iff in Hr. revert r Hr. induction s as [|d s IH]; intros [|e r] Hr; rewrite ?sapp_nil_l, ?sapp_cons; cbn in *; try done.
  - apply orb_false_iff in Hr as [-> _]. done.
  - apply orb_false_iff in Hr as [_ Hr]. by rewrite (IH r Hr).
Qed.

(** [strings.TrimSpace] leaves no white space at either end. *)
Lemma TrimSpace_edges s :
  clear_of space_runes (TrimSpace s) = true ∧ clear_of (srev <$> space_runes) (srev (TrimSpace s)) = true.
Proof.
  unfold TrimSpace, trim_back. rewrite srev_involutive. set (u := trim_runes (slen s) space_runes s).
  assert (Forall (λ r, r ≠ "") space_runes ∧ Forall (λ r, r ≠ "") (srev <$> space_runes)) as [H1 H2] by (split; repeat constructor; done).
  split.
  - destruct (trim_runes_suffix (srev <$> space_runes) (slen u) (srev u)) as [pre Hu].
    apply (f_equal srev) in Hu. rewrite srev_involutive, srev_sapp in Hu. eapply clear_of_prefix. rewrite <- Hu.
    by apply trim_runes_clear.
  - apply trim_runes_clear; [done|]. by rewrite slen_srev.
Qed.

Lemma TrimSpace_id s : clear_of space_runes s = true → clear_of (srev <$> space_runes) (srev s) = true → TrimSpace s = s.
Proof.
  intros Hl Hr. unfold TrimSpace, trim_back. rewrite (trim_runes_id _ _ s), trim_runes_id by done. apply srev_involutive.
Qed.
Example TrimSpace_unicode : TrimSpace (utf8_bytes [194; 160; 32; 97; 32; 98; 226; 128; 131; 194; 133]) = "a b".
Proof. reflexivity. Qed.

(** ** Lemmas: decimal numbers *)

Lemma digit_val_char d : (0 ≤ d < 10)%Z → digit_val (digit_char d) = Some d.
Proof.
  intros Hd. assert (d = 0 ∨ d = 1 ∨ d = 2 ∨ d = 3 ∨ d = 4 ∨ d = 5 ∨ d = 6 ∨ d = 7 ∨ d = 8 ∨ d = 9)%Z
    as Hc by lia. by destruct_or! Hc; subst d.
Qed.

Lemma parse_itoa_digits fuel n acc :
  (0 ≤ n < 10 ^ Z.of_nat fuel)%Z → parse_digits 0 (itoa_digits fuel n acc) = parse_digits n acc.
Proof.
  revert n acc. induction fuel as [|fuel IH]; intros n acc Hn.
  - simpl in Hn. assert (n = 0)%Z as -> by lia. done.
  - cbn [itoa_digits]. assert (0 ≤ n mod 10 < 10)%Z by (apply Z.mod_pos_bound; lia).
    destruct (n <? 10)%Z eqn:E.
    + apply Z.ltb_lt in E. rewrite (Z.mod_small n 10) by lia. cbn [parse_digits].
      rewrite digit_val_char by lia. done.
    + apply Z.ltb_ge in E. rewrite IH.
      * cbn [parse_digits]. rewrite digit_val_char by done. f_equal.
        pose proof (Z.div_mod n 10). lia.
      * rewrite Nat2Z.inj_succ, Z.pow_succ_r in Hn by lia. split; [apply Z.div_pos; lia|].
        apply Z.div_lt_upper_bound; lia.
Qed.

(** The digits are the only bytes of a printed number. *)
Lemma itoa_digits_no fuel n acc c :
  (0 ≤ n)%Z → digit_val c = None → contains_byte c acc = false →
  contains_byte c (itoa_digits fuel n acc) = false.
Proof.
  revert n acc. induction fuel as [|fuel IH]; intros n acc Hn Hc Hacc; [done|].
  cbn [itoa_digits].
  assert (contains_byte c (String (digit_char (n mod 10)) acc) = false).
  { cbn [contains_byte]. rewrite Hacc, orb_false_r. apply Ascii.eqb_neq. intros <-.
    rewrite digit_val_char in Hc; [done|]. apply Z.mod_pos_bound. lia. }
  destruct (n <? 10)%Z; [done|]. apply IH; [|done..]. apply Z.div_pos; lia.
Qed.

Lemma Itoa_no n c : (0 ≤ n)%Z → digit_val c = None → contains_byte c (Itoa n) = false.
Proof. intros. by apply itoa_digits_no. Qed.

Lemma Itoa_not_empty n : Itoa n ≠ "".
Proof.
  assert (∀ fuel m acc, acc ≠ "" → itoa_digits fuel m acc ≠ "") as Hne.
  { induction fuel as [|fuel IH]; intros m acc Ha; [done|]. cbn [itoa_digits].
    destruct (m <? 10)%Z; [done|]. by apply IH. }
  unfold Itoa. cbn [itoa_digits]. destruct (n <? 10)%Z; [done|]. by apply (Hne 18%nat).
Qed.

Lemma Atoi_unsigned s n :
  s ≠ "" → contains_byte "-" s = false → contains_byte "+" s = false →
  parse_digits 0 s = Some n → (n < 2 ^ 63)%Z → Atoi s = Some n.
Proof.
  intros Hs Hm Hp Hn Hlt. unfold Atoi.
  assert (match s with String "-" r => (true, r) | String "+" r => (false, r) | _ => (false, s) end
          = (false, s)) as ->.
  { destruct s as [|a s]; [done|]. cbn [contains_byte] in *.
    apply orb_false_elim in Hm as [Hm _]. apply orb_false_elim in Hp as [Hp _].
    destruct a as [[] [] [] [] [] [] [] []]; done. }
  rewrite Hn. apply Z.ltb_lt in Hlt as ->. by destruct s.
Qed.

Lemma parse_digits_nonneg a s n : (0 ≤ a)%Z → parse_digits a s = Some n → (0 ≤ n)%Z.
Proof.
  revert a. induction s as [|c s IH]; simpl; intros a Ha H; [by simplify_eq|].
  destruct (digit_val c) as [d|] eqn:Ed; [|done]. apply IH in H; [done|].
  unfold digit_val in Ed. destruct (Z.leb_spec 48 (Z.of_N (N_of_ascii c))); simpl in Ed; [|done].
  destruct (Z.of_N (N_of_ascii c) <=? 57)%Z; simplify_eq. lia.
Qed.

Lemma ParseUint_range w s n : ParseUint w s = Some n → is_u w n.
Proof.
  unfold ParseUint. destruct s as [|c s]; [done|]. destruct (parse_digits 0 (String c s)) as [m|] eqn:E; [|done].
  apply parse_digits_nonneg in E; [|done]. destruct (Z.ltb_spec m (2 ^ w)); intros; simplify_eq. done.
Qed.

(** The value fits a 64-bit [int]. *)
Lemma Atoi_range s n : Atoi s = Some n → (- 2 ^ 63 ≤ n < 2 ^ 63)%Z.
Proof.
  unfold Atoi. destruct (match s with String _ _ => _ | EmptyString => _ end) as [neg body].
  destruct body as [|c body]; [done|]. destruct (parse_digits 0 (String c body)) as [m|] eqn:E; [|done].
  apply parse_digits_nonneg in E; [|done].
  destruct neg; [destruct (Z.leb_spec m (2 ^ 63))|destruct (Z.ltb_spec m (2 ^ 63))];
    intros; simplify_eq; lia.
Qed.

(** [strconv.Atoi] inverts [strconv.Itoa]. *)
Lemma Atoi_Itoa n : (0 ≤ n < 2 ^ 63)%Z → Atoi (Itoa n) = Some n.
Proof.
  intros Hn. apply Atoi_unsigned; [apply Itoa_not_empty|apply Itoa_no; [lia|done]..| |lia].
  unfold Itoa. rewrite parse_itoa_digits; [done|]. simpl. lia.
Qed.

Lemma ParseUint_Itoa w n : (0 ≤ w ≤ 63)%Z → is_u w n → ParseUint w (Itoa n) = Some n.
Proof.
  intros Hw [Hn Hlt]. assert (n < 2 ^ 63)%Z by (pose proof (Z.pow_le_mono_r 2 w 63); lia).
  pose proof (Itoa_not_empty n) as Hne. unfold ParseUint.
  assert (parse_digits 0 (Itoa n) = Some n) as Hp
    by (unfold Itoa; rewrite parse_itoa_digits; [done|simpl; lia]).
  destruct (Itoa n) as [|c s] eqn:E; [done|]. rewrite Hp. by apply Z.ltb_lt in Hlt as ->.
Qed.

Fixpoint all_digits (s : string) : Prop :=
  match s with EmptyString => True | String c s => is_Some (digit_val c) ∧ all_digits s end.

Lemma Itoa_all_digits n : (0 ≤ n)%Z → all_digits (Itoa n).
Proof.
  unfold Itoa. assert (all_digits "") as Ha by done. revert n Ha. generalize "" as acc.
  generalize 19%nat. induction n as [|fuel IH]; intros acc n Ha Hn; [done|]. cbn [itoa_digits].
  assert (all_digits (String (digit_char (n mod 10)) acc)) as Hd.
  { split; [|done]. rewrite digit_val_char; [done|]. apply Z.mod_pos_bound. lia. }
  destruct (n <? 10)%Z; [done|]. apply IH; [done|]. apply Z.div_pos; lia.
Qed.

(** ** Lemmas: concatenation and chunks *)

(** All the bytes of a list of chunks, in order. *)
Definition sconcat (l : list string) : string := foldr String.append "" l.

Lemma sconcat_app l k : sconcat (l ++ k) = sconcat l +:+ sconcat k.
Proof.
  induction l as [|x l IH]; [done|]. cbn [sconcat foldr app]. fold (sconcat (l ++ k)) (sconcat l).
  by rewrite IH, sapp_assoc.
Qed.

Lemma sconcat_cons x l : sconcat (x :: l) = x +:+ sconcat l.
Proof. done. Qed.

(** ** Lemmas: split and join *)

Lemma Split_not_nil c s : Split c s ≠ [].
Proof. destruct s as [|d s]; simpl; [done|]. case_match; [done|]. by destruct (Split c s). Qed.

Lemma Join_cons c x l : l ≠ [] → Join c (x :: l) = x +:+ String c (Join c l).
Proof. by destruct l. Qed.

Lemma Join_Split c s : Join c (Split c s) = s.
Proof.
  induction s as [|d s IH]; [done|]. simpl. pose proof (Split_not_nil c s) as Hn.
  destruct (Ascii.eqb d c) eqn:E.
  - apply Ascii.eqb_eq in E as ->. rewrite Join_cons by done. by rewrite IH.
  - destruct (Split c s) as [|x l]; [done|]. destruct l as [|y l].
    + simpl in *. by subst.
    + rewrite Join_cons in IH |- * by done. rewrite sapp_cons. by rewrite IH.
Qed.

Lemma Split_no_sep c s : Forall (λ x, contains_byte c x = false) (Split c s).
Proof.
  induction s as [|d s IH]; simpl; [by repeat constructor|].
  destruct (Ascii.eqb d c) eqn:E; [by constructor|].
  destruct (Split c s) as [|x l]; simpl.
  - repeat constructor. simpl. by rewrite E.
  - inversion IH; subst. constructor; [|done]. simpl. by rewrite E.
Qed.

Lemma Split_sep_free c s : contains_byte c s = false → Split c s = [s].
Proof.
  induction s as [|d s IH]; simpl; [done|]. destruct (Ascii.eqb d c); simpl; [done|].
  intros H. by rewrite IH.
Qed.

Lemma Split_app_sep c a s : contains_byte c a = false → Split c (a +:+ String c s) = a :: Split c s.
Proof.
  induction a as [|d a IH]; intros H.
  - change ("" +:+ String c s) with (String c s). simpl. by rewrite Ascii.eqb_refl.
  - rewrite sapp_cons. simpl in H |- *. apply orb_false_elim in H as [-> H].
    by rewrite IH.
Qed.

Lemma Split_app c s t :
  Split c (s +:+ String c t) = Split c s ++ Split c t.
Proof.
  rewrite <- (Join_Split c s) at 1. pose proof (Split_no_sep c s) as Hs.
  pose proof (Split_not_nil c s) as Hn. induction Hs as [|x l Hx Hl IH]; [done|].
  destruct l as [|y l].
  - simpl. by apply Split_app_sep.
  - rewrite Join_cons by done. rewrite <- sapp_assoc, sapp_cons, Split_app_sep by done.
    rewrite IH by done. done.
Qed.

Lemma Split_Join c l :
  l ≠ [] → Forall (λ x, contains_byte c x = false) l → Split c (Join c l) = l.
Proof.
  intros Hn Hl. induction Hl as [|x l Hx Hl IH]; [done|]. destruct l as [|y l].
  - simpl. by apply Split_sep_free.
  - rewrite Join_cons by done. rewrite Split_app_sep by done. by rewrite IH.
Qed.

Lemma Join_app c l k : l ≠ [] → k ≠ [] → Join c (l ++ k) = Join c l +:+ String c (Join c k).
Proof.
  intros Hl Hk. induction l as [|x l IH]; [done|]. destruct l as [|y l].
  - simpl app. by rewrite Join_cons.
  - change ((x :: y :: l) ++ k) with (x :: ((y :: l) ++ k)).
    rewrite !Join_cons by done. rewrite IH by done. by rewrite <- sapp_assoc.
Qed.
