(* ===== verification/Streams.v ===== *)
(** * Streams: read loops, in-memory pipes and interleavings

    Several goroutines of the program are the same loop: read up to 32 KiB,
    hand a copy of what was read to a frame sender, stop at the first error
    ([broker.streamPipe], [streamStdin] and [streamFD] of the shim,
    [bridgeReaderToMux], [bridgeToMux] of the agent).  This file has that loop,
    Go's [io.Pipe] with the chunks its reader sees, and the interleavings of the
    frames that several such loops send over one connection. *)

From S2P Require Import Prelude GoStrings.

(** ** The read loop *)

(** The results of successive [r.Read(buf)] calls: the bytes and whether an
    error came with them. *)
Definition reads : Type := list (string * bool).

Fixpoint pump {F} (mk : string → F) (rs : reads) : list F :=
  match rs with
  | [] => []
  | (data, err) :: rs =>
      (if (0 <? slen data)%nat then [mk data] else []) ++ (if err then [] else pump mk rs)
  end.

(** The chunks the loop delivers. *)
Definition chunks_of (rs : reads) : list string := pump id rs.

Lemma pump_chunks {F} (mk : string → F) rs : pump mk rs = mk <$> chunks_of rs.
Proof.
  unfold chunks_of. induction rs as [|[data err] rs IH]; [done|]. simpl. rewrite fmap_app.
  destruct (0 <? slen data)%nat, err; simpl; by rewrite ?IH.
Qed.

(** The loop never delivers an empty chunk. *)
Lemma chunks_of_nonempty rs : Forall (λ c, c ≠ "") (chunks_of rs).
Proof.
  unfold chunks_of. induction rs as [|[data err] rs IH]; [done|]. simpl. apply Forall_app. split.
  - destruct data; simpl; [done|by repeat constructor].
  - by destruct err.
Qed.

(** The loop ends by itself: some read reports an error. *)
Definition ends (rs : reads) : Prop := Exists (λ r, r.2 = true) rs.

(** ** io.Pipe *)

Definition BufSize : nat := 32 * 1024.

(** How a reader with a buffer of [size] bytes sees one [Write]: full buffers,
    then the rest.  An empty write is one empty read. *)
Fixpoint split_write (fuel size : nat) (w : string) : list string :=
  match fuel with
  | O => [w]
  | S fuel =>
      if (slen w <=? size)%nat then [w] else stake size w :: split_write fuel size (sdrop size w)
  end.

(** The reads of the reading end when the other end writes [ws] and closes.
    The length of a write is enough fuel: every full buffer takes at least one
    byte. *)
Definition pipe_reads (size : nat) (ws : list string) : reads :=
  ((λ c, (c, false)) <$> (ws ≫= λ w, split_write (slen w) size w)) ++ [("", true)].

Lemma split_write_concat fuel size w : sconcat (split_write fuel size w) = w.
Proof.
  revert w. induction fuel as [|fuel IH]; intros w; simpl; [apply sapp_nil_r|].
  destruct (slen w <=? size)%nat; [apply sapp_nil_r|]. rewrite sconcat_cons, IH. apply stake_sdrop.
Qed.

Lemma slen_stake n s : slen (stake n s) = (n `min` slen s)%nat.
Proof. revert s. induction n as [|n IH]; intros [|c s]; simpl; [done..|]. by rewrite IH. Qed.

(** No read is larger than the buffer. *)
Lemma split_write_bounded fuel size w :
  (0 < size)%nat → (slen w ≤ fuel)%nat → Forall (λ c, (slen c ≤ size)%nat) (split_write fuel size w).
Proof.
  intros Hs. revert w. induction fuel as [|fuel IH]; intros w Hw; simpl.
  - constructor; [lia|done].
  - destruct (Nat.leb_spec (slen w) size); [by repeat constructor|]. constructor.
    + rewrite slen_stake. lia.
    + apply IH. rewrite slen_sdrop. lia.
Qed.

Lemma chunks_of_app_ok cs rs :
  chunks_of (((λ c, (c, false)) <$> cs) ++ rs) = base.filter (λ c, c ≠ "") cs ++ chunks_of rs.
Proof.
  unfold chunks_of. induction cs as [|c cs IH]; [done|]. rewrite fmap_cons. cbn [app pump]. rewrite IH.
  destruct c as [|a c]; [by rewrite filter_cons_False by auto|]. by rewrite filter_cons_True by done.
Qed.

Lemma sconcat_filter cs : sconcat (base.filter (λ c, c ≠ "") cs) = sconcat cs.
Proof.
  induction cs as [|c cs IH]; [done|]. destruct (decide (c = "")) as [->|Hc].
  - rewrite filter_cons_False by auto. by rewrite IH.
  - by rewrite filter_cons_True, !sconcat_cons, IH by done.
Qed.

(** Nothing is lost or reordered in a pipe. *)
Lemma pipe_chunks size ws : sconcat (chunks_of (pipe_reads size ws)) = sconcat ws.
Proof.
  unfold pipe_reads. rewrite chunks_of_app_ok, sconcat_app, sconcat_filter.
  assert (sconcat (chunks_of [("", true)]) = "") as -> by done. rewrite sapp_nil_r.
  induction ws as [|w ws IH]; [done|]. cbn [mbind list_bind].
  by rewrite sconcat_app, split_write_concat, IH.
Qed.

(** ** Interleavings *)

(** [merges ls l]: [l] is an interleaving of the lists [ls], each in its own
    order. *)
Inductive merges {A} : list (list A) → list A → Prop :=
  | merges_nil ls : Forall (λ l, l = []) ls → merges ls []
  | merges_step i x l ls out :
      ls !! i = Some (x :: l) → merges (<[i := l]> ls) out → merges ls (x :: out).

(** Concatenation is one interleaving. *)
Lemma merges_concat {A} (ls : list (list A)) : merges ls (concat ls).
Proof.
  assert (∀ n, merges (replicate n [] ++ ls) (concat ls)) as H; [|apply (H O)].
  induction ls as [|l ls IH]; intros n; simpl.
  - constructor. rewrite app_nil_r. by apply Forall_replicate.
  - induction l as [|x l IHl]; simpl.
    + specialize (IH (S n)). by rewrite replicate_S_end, <- app_assoc in IH.
    + apply (merges_step n x l).
      * by rewrite lookup_app_r, length_replicate, Nat.sub_diag by (rewrite length_replicate; lia).
      * rewrite insert_app_r_alt by (rewrite length_replicate; lia).
        by rewrite length_replicate, Nat.sub_diag.
Qed.

(** An observation about which every other list is silent sees the [i]-th list
    as it is. *)
Lemma merges_observe {A B} (obs : A → option B) ls out i l :
  merges ls out → ls !! i = Some l →
  (∀ j l', j ≠ i → ls !! j = Some l' → Forall (λ x, obs x = None) l') →
  omap obs out = omap obs l.
Proof.
  intros Hm. revert l. induction Hm as [ls Hls|j x l' ls out Hj _ IH]; intros l Hi Hq.
  - by rewrite (Forall_lookup_1 _ _ _ _ Hls Hi).
  - pose proof (lookup_lt_Some _ _ _ Hj) as Hlt. destruct (decide (j = i)) as [->|Hne].
    + simplify_eq. cbn. rewrite (IH l'); [done|by apply list_lookup_insert_eq|].
      intros j l Hji Hl. rewrite list_lookup_insert_ne in Hl by done. eauto.
    + assert (obs x = None) as Hx by (specialize (Hq j (x :: l') Hne Hj); by inversion Hq). cbn. rewrite Hx.
      apply IH; [by rewrite list_lookup_insert_ne|].
      intros j' l'' Hj' Hl. destruct (decide (j' = j)) as [->|].
      * rewrite list_lookup_insert_eq in Hl by done. simplify_eq.
        specialize (Hq j (x :: l'') Hne Hj). by inversion Hq.
      * rewrite list_lookup_insert_ne in Hl by done. eauto.
Qed.

(** A second list that carries no bytes adds none. *)
Lemma merges_sconcat_silent cs w m : merges [cs; w] m → sconcat w = "" → sconcat m = sconcat cs.
Proof.
  intros Hm. remember [cs; w] as ls eqn:E. revert cs w E.
  induction Hm as [ls Hf|i x l ls out Hl Hm IH]; intros cs w -> Hw.
  - by inversion Hf; subst.
  - destruct i as [|[|i]]; simpl in Hl; simplify_eq.
    + rewrite !sconcat_cons. f_equal. by eapply IH.
    + rewrite sconcat_cons in Hw. destruct x; [|done]. rewrite sconcat_cons. by eapply (IH cs l).
Qed.

(** A property of every element of every list holds of the interleaving. *)
Lemma merges_Forall {A} (P : A → Prop) ls out : merges ls out → Forall (Forall P) ls → Forall P out.
Proof.
  induction 1 as [ls _|i x l ls out Hi _ IH]; intros Hf; [done|].
  pose proof (Forall_lookup_1 _ _ _ _ Hf Hi) as Hx. inversion_clear Hx. constructor; [done|].
  apply IH. by apply Forall_insert.
Qed.
