(* ===== verification/GoPaths.v ===== *)
(** * GoPaths: lemmas on lexical path cleaning

    A rooted path cleans to "/" followed by the slash-joined list of its
    kept components, and those components are ordinary names: no empty one,
    no "." and no "..".  The containment theorem of the workspace file system
    and the idempotence of [Clean] rest on these facts. *)

From S2P Require Import Prelude GoStrings.

(** An ordinary path component. *)
Definition normal_comp (c : string) : Prop :=
  c ≠ "" ∧ c ≠ dot ∧ c ≠ dotdot ∧ contains_byte slash c = false.

Lemma clean_step_normal rooted st c :
  normal_comp c → clean_step rooted st c = c :: st.
Proof.
  intros (H1 & H2 & H3 & _). unfold clean_step.
  rewrite !(proj2 (seqb_false _ _)) by done. done.
Qed.

Lemma clean_step_rooted_normal st c :
  Forall normal_comp st → contains_byte slash c = false →
  Forall normal_comp (clean_step true st c).
Proof.
  intros Hst Hc. unfold clean_step.
  destruct (String.eqb c "") eqn:E1; [done|].
  destruct (String.eqb c dot) eqn:E2; [done|]. simpl.
  apply seqb_false in E1, E2.
  destruct (String.eqb c dotdot) eqn:E3.
  - destruct Hst as [|top rest (?&?&?&?) Hrest]; [done|].
    rewrite (proj2 (seqb_false _ _)) by done. done.
  - apply seqb_false in E3. constructor; [|done]. by split_and!.
Qed.

Lemma clean_comps_rooted_normal l :
  Forall (λ c, contains_byte slash c = false) l →
  Forall normal_comp (clean_comps true l).
Proof.
  intros Hl. unfold clean_comps. apply Forall_reverse.
  apply (fold_left_inv (Forall normal_comp)); [done|].
  intros st c Hst Hc. apply clean_step_rooted_normal; [done|].
  by eapply Forall_forall in Hl.
Qed.

Lemma fold_clean_normal rooted l st :
  Forall normal_comp l → fold_left (clean_step rooted) l st = reverse l ++ st.
Proof.
  intros Hl. revert st. induction Hl as [|c l Hc _ IH]; intros st; [done|]. simpl.
  rewrite clean_step_normal by done. rewrite IH, reverse_cons. by rewrite <- app_assoc.
Qed.

Lemma clean_comps_app_normal rooted l k :
  Forall normal_comp k → clean_comps rooted (l ++ k) = clean_comps rooted l ++ k.
Proof.
  intros Hk. unfold clean_comps. rewrite fold_left_app, fold_clean_normal by done.
  by rewrite reverse_app, reverse_involutive.
Qed.

Lemma clean_comps_normal rooted l : Forall normal_comp l → clean_comps rooted l = l.
Proof. apply (clean_comps_app_normal rooted []). Qed.

Lemma clean_comps_nil_cons rooted l : clean_comps rooted ("" :: l) = clean_comps rooted l.
Proof. done. Qed.

Lemma IsAbs_spec p : IsAbs p = true ↔ ∃ t, p = String slash t.
Proof. unfold IsAbs. by rewrite HasPrefix_spec. Qed.

(** The components a rooted path keeps. *)
Definition rooted_comps (t : string) : list string := clean_comps true (Split slash t).

Lemma rooted_comps_normal t : Forall normal_comp (rooted_comps t).
Proof. apply clean_comps_rooted_normal, Split_no_sep. Qed.

Lemma Clean_rooted t : Clean (String slash t) = String slash (Join slash (rooted_comps t)).
Proof. done. Qed.

Lemma normal_no_slash l :
  Forall normal_comp l → Forall (λ c, contains_byte slash c = false) l.
Proof. intros Hl. apply (Forall_impl normal_comp); [done|]. by intros c (_&_&_&?). Qed.

Lemma Split_Join_normal l :
  l ≠ [] → Forall normal_comp l → Split slash (Join slash l) = l.
Proof. intros. apply Split_Join; [done|]. by apply normal_no_slash. Qed.

Lemma rooted_comps_Join l : Forall normal_comp l → rooted_comps (Join slash l) = l.
Proof.
  intros Hl. unfold rooted_comps. destruct (decide (l = [])) as [->|Hn]; [done|].
  rewrite Split_Join_normal by done. by apply clean_comps_normal.
Qed.

Lemma Join_normal_empty l : Forall normal_comp l → Join slash l = "" → l = [].
Proof.
  intros Hl HJ. destruct Hl as [|c l (?&_) Hl]; [done|]. destruct l as [|d l]; [done|].
  rewrite Join_cons in HJ by done. destruct c; [done|]. by rewrite sapp_cons in HJ.
Qed.

(** Cleaning a rooted path twice changes nothing. *)
Lemma Clean_rooted_idemp p : IsAbs p = true → Clean (Clean p) = Clean p.
Proof.
  intros [t ->]%IsAbs_spec. rewrite !Clean_rooted.
  by rewrite rooted_comps_Join by apply rooted_comps_normal.
Qed.

Lemma Clean_IsAbs p : IsAbs p = true → IsAbs (Clean p) = true.
Proof. intros [t ->]%IsAbs_spec. rewrite Clean_rooted. apply IsAbs_spec. eauto. Qed.

(** Joining a clean rooted directory with ordinary components appends them. *)
Lemma PathJoin_rooted rs cs :
  Forall normal_comp rs → Forall normal_comp cs → cs ≠ [] →
  PathJoin (String slash (Join slash rs)) (Join slash cs) =
  String slash (Join slash (rs ++ cs)).
Proof.
  intros Hrs Hcs Hn. unfold PathJoin. simpl String.eqb. cbv iota.
  rewrite sapp_cons, Clean_rooted. f_equal. f_equal. unfold rooted_comps.
  rewrite Split_app, (Split_Join_normal cs) by done.
  rewrite clean_comps_app_normal by done. f_equal. by apply rooted_comps_Join.
Qed.

(** Joining a directory with one ordinary name. *)
Lemma PathJoin_name d n :
  IsAbs d = true → normal_comp n →
  PathJoin d n = String slash (Join slash (rooted_comps (sdrop 1 d) ++ [n])).
Proof.
  intros [t ->]%IsAbs_spec Hn. unfold PathJoin. simpl String.eqb. cbv iota.
  rewrite sapp_cons, Clean_rooted. unfold rooted_comps. f_equal. f_equal. simpl sdrop.
  rewrite Split_app, (Split_sep_free _ n) by apply Hn.
  rewrite clean_comps_app_normal; [done|]. by constructor.
Qed.
