(* ===== verification/PathRules.v ===== *)
(** * PathRules: local-command rules, prefix rewriting, home expansion

    Models [pkg/config/command_rule.go], the path helpers of
    [pkg/config/paths.go] and [pkg/config/config.go], and
    [pkg/execpolicy/whitelist.go].  Regular expressions are an interface: the
    theorems hold for every engine. *)

From S2P Require Import Prelude GoStrings GoPaths.
Local Open Scope go_scope.

(** ** The regular-expression engine *)

(** What the code uses of package [regexp]: compiling a pattern, which may
    fail, and an unanchored match. *)
Class Regexp := {
  regex : Type;
  regexp_Compile : string → option regex;
  MatchString : regex → string → bool;
}.

(** A concrete engine for executable examples: a pattern is a literal that
    has to occur in the subject; a pattern with "(" does not compile. *)
Definition literal_engine : Regexp := {|
  regex := string;
  regexp_Compile p := if contains_byte "("%char p then None else Some p;
  MatchString p s := Contains s p;
|}.

(** ** Local-command rules *)

Inductive cmd_error : Type :=
  | ErrEmptyEntry
  | ErrEmptyRegex (entry : string)
  | ErrBadRegex (entry : string)
  | ErrNotAbsolute (entry : string)
  | ErrMiddleSlash (entry : string).

Section command_rule.
Context `{Regexp}.

Record LocalCommandRule := mkRule {
  raw : string;
  rule_regex : option regex;
  abs : string;
  base : string;
}.

Definition CompileLocalCommand (s : string) : result cmd_error LocalCommandRule :=
  if String.eqb s "" then Err ErrEmptyEntry
  else
    let startsSlash := HasPrefix s "/" in
    let endsSlash := HasSuffix s "/" && (1 <? slen s)%nat in
    if startsSlash && endsSlash then
      let pattern := stake (slen s - 2) (sdrop 1 s) in
      if String.eqb pattern "" then Err (ErrEmptyRegex s)
      else match regexp_Compile pattern with
           | None => Err (ErrBadRegex s)
           | Some re => Ok (mkRule s (Some re) "" "")
           end
    else if startsSlash && negb endsSlash then
      if negb (IsAbs s) then Err (ErrNotAbsolute s) else Ok (mkRule s None s "")
    else if negb startsSlash && negb (contains_byte slash s) then
      Ok (mkRule s None "" s)
    else Err (ErrMiddleSlash s).

Definition Match (r : LocalCommandRule) (pathname : string) : bool :=
  match rule_regex r with
  | Some re => MatchString re pathname
  | None =>
      if negb (String.eqb (abs r) "") then String.eqb pathname (abs r)
      else String.eqb (Base pathname) (base r)
  end.

Definition MatchLocalCommand (entry pathname : string) : bool :=
  match CompileLocalCommand entry with
  | Ok r => Match r pathname
  | Err _ => false
  end.

(** The three entry forms, as a specification: what a well-formed entry is
    and which pathnames it selects. *)
Inductive entry_matches (entry pathname : string) : Prop :=
  | match_abs :
      HasPrefix entry "/" = true → (HasSuffix entry "/" = false ∨ entry = "/") →
      pathname = entry → entry_matches entry pathname
  | match_base :
      entry ≠ "" → contains_byte slash entry = false →
      Base pathname = entry → entry_matches entry pathname
  | match_regex p re :
      entry = "/" +:+ (p +:+ "/") → p ≠ "" → regexp_Compile p = Some re →
      MatchString re pathname = true → entry_matches entry pathname.

End command_rule.
Arguments LocalCommandRule {_}.

(** ** Prefix rewriting (config.go) *)

Definition RewritePathPrefix (p from to : string) : string * bool :=
  if String.eqb from "" then (p, false)
  else if String.eqb p from then (to, true)
  else if HasPrefix p (from +:+ "/") then (to +:+ sdrop (slen from) p, true)
  else (p, false).

Definition isAbsOrHomeRelative (p : string) : bool :=
  IsAbs p || String.eqb p "~" || HasPrefix p "~/".

(** ** Home expansion and ancestors (paths.go) *)

Inductive home_error : Type := ErrHomeLookup | ErrHomeEmpty.

(** [os.UserHomeDir] is an argument: [None] is a failed lookup. *)
Definition ExpandLocalHome (UserHomeDir : option string) (p : string) : result home_error string :=
  if negb (String.eqb p "~") && negb (HasPrefix p "~/") then Ok p
  else match UserHomeDir with
       | None => Err ErrHomeLookup
       | Some home =>
           if String.eqb home "" then Err ErrHomeEmpty
           else if String.eqb p "~" then Ok home
           else Ok (PathJoin home (sdrop 2 p))
       end.

Definition ExpandRemoteHome (p remoteHome : string) : result home_error string :=
  if negb (String.eqb p "~") && negb (HasPrefix p "~/") then Ok p
  else if String.eqb remoteHome "" then Err ErrHomeEmpty
  else if String.eqb p "~" then Ok remoteHome
  else Ok (PathJoin remoteHome (sdrop 2 p)).

Definition homePrefix (p : string) : string :=
  if String.eqb p "~" || HasPrefix p "~/" then "~" else "".

Definition isPosixAncestor (ancestor p : string) : bool :=
  if String.eqb ancestor "" || String.eqb p "" then false
  else if negb (String.eqb (homePrefix ancestor) (homePrefix p)) then false
  else
    let ancestor := Clean ancestor in
    let p := Clean p in
    if String.eqb ancestor p then true else HasPrefix p (ancestor +:+ "/").

Definition isLocalAncestor (ancestor p : string) : bool :=
  if String.eqb ancestor "" || String.eqb p "" then false
  else if negb (IsAbs ancestor) || negb (IsAbs p) then false
  else
    let ancestor := Clean ancestor in
    let p := Clean p in
    if String.eqb ancestor p then true else HasPrefix p (ancestor +:+ "/").

(** [LocalCacheDir] reads the packager default, [$XDG_CACHE_HOME] ("" when
    unset) and the home directory. *)
Definition LocalCacheDir (DefaultCacheDir xdg : string) (home : option string) : result home_error string :=
  if negb (String.eqb DefaultCacheDir "") then ExpandLocalHome home DefaultCacheDir
  else if IsAbs xdg then Ok (PathJoin xdg "machineproxy")
  else ExpandLocalHome home "~/.cache/machineproxy".

Definition DefaultPathStubFallbackDir : string := "/tmp/machineproxy/pathstub".

Definition defaultPathStubDir (DefaultCacheDir xdg : string) (home : option string) : string :=
  match LocalCacheDir DefaultCacheDir xdg home with
  | Ok base => PathJoin base "pathstub"
  | Err _ => DefaultPathStubFallbackDir
  end.

(** [resolveBinary]: [stat] tells which paths exist, [exe] is
    [os.Executable()] with [filepath.Dir] applied. *)
Inductive resolve_error : Type :=
  | ErrConfiguredMissing (name : string)
  | ErrBinaryNotFound (name : string).

(** [os.Stat] succeeds on [p]. *)
Definition existing (stat : string → bool) (p : string) : option string :=
  if stat p then Some p else None.

Definition resolveBinary (stat : string → bool) (exeDir : option string)
    (name configPath : string) (candidates : list string) : result resolve_error string :=
  if negb (String.eqb configPath "") then
    if stat configPath then Ok configPath else Err (ErrConfiguredMissing name)
  else
    let adjacent :=
      match exeDir with
      | Some d => existing stat (PathJoin d name)
      | None => None
      end in
    match adjacent with
    | Some c => Ok c
    | None =>
        match first_some (existing stat) candidates with
        | Some p => Ok p
        | None => Err (ErrBinaryNotFound name)
        end
    end.

Definition ResolveAgentBinaryPath (stat : string → bool) (exeDir : option string)
    (MPROXY_AGENT_BIN LibDir configPath goos goarch : string) : result resolve_error string :=
  if negb (String.eqb MPROXY_AGENT_BIN "") then Ok MPROXY_AGENT_BIN
  else
    let name := if String.eqb goos "windows" then "mproxy-agent.exe" else "mproxy-agent" in
    resolveBinary stat exeDir name configPath
      [PathJoin LibDir ("agent/" +:+ goos +:+ "/" +:+ goarch +:+ "/" +:+ name)].

Definition ResolveShimPath stat exeDir (LibDir configPath : string) : result resolve_error string :=
  resolveBinary stat exeDir "mproxy-shim" configPath [PathJoin LibDir "mproxy-shim"].

Definition ResolveTracerPath stat exeDir (LibDir configPath : string) : result resolve_error string :=
  resolveBinary stat exeDir "mproxy-tracer" configPath [PathJoin LibDir "mproxy-tracer"].

Definition ResolveInterposerPath stat exeDir (LibDir GOARCH configPath : string) : result resolve_error string :=
  let name := "libmproxy_interposer.dylib" in
  resolveBinary stat exeDir name configPath
    [PathJoin LibDir ("agent/darwin/" +:+ GOARCH +:+ "/" +:+ name)].

(** ** The exec whitelist (whitelist.go) *)

Record Whitelist := mkWhitelist { entries : gset string }.

Definition NewWhitelist (paths : list string) : result string Whitelist :=
  (fix go acc paths :=
     match paths with
     | [] => Ok (mkWhitelist acc)
     | p :: paths =>
         let clean := Clean p in
         if negb (IsAbs clean) then Err p
         else go ({[clean]} ∪ acc) paths
     end) ∅ paths.

(** A nil [*Whitelist] allows nothing. *)
Definition Allows (w : option Whitelist) (path : string) : bool :=
  match w with
  | None => false
  | Some w => bool_decide (Clean path ∈ entries w)
  end.

(** ** Theorems: rules *)

Lemma HasSuffix_spec s p : HasSuffix s p = true ↔ ∃ t, s = t +:+ p.
Proof.
  unfold HasSuffix. rewrite andb_true_iff, Nat.leb_le, seqb_true. split.
  - intros [Hl Hd]. exists (stake (slen s - slen p) s). rewrite <- Hd at 2.
    by rewrite stake_sdrop.
  - intros [t ->]. rewrite slen_app. split; [lia|].
    replace (slen t + slen p - slen p)%nat with (slen t) by lia. apply sdrop_app.
Qed.

Section command_rule_theorems.
Context `{Regexp}.

(** An entry with slashes at both ends is the regex between them. *)
Lemma regex_entry_split s :
  HasPrefix s "/" = true → HasSuffix s "/" = true → (1 < slen s)%nat →
  s = "/" +:+ (stake (slen s - 2) (sdrop 1 s) +:+ "/").
Proof.
  rewrite HasPrefix_spec, HasSuffix_spec. intros [t ->] [u Hu] Hl.
  change ("/" +:+ t) with (String slash t) in *. simpl sdrop. simpl slen in *.
  destruct u as [|c u]; [rewrite sapp_nil_l in Hu; simplify_eq; simpl in Hl; lia|].
  rewrite sapp_cons in Hu. simplify_eq. rewrite slen_app. simpl slen.
  replace (S (slen u + 1) - 2)%nat with (slen u) by lia. by rewrite stake_app.
Qed.

Lemma regex_entry_parts p :
  let s := "/" +:+ (p +:+ "/") in
  HasPrefix s "/" = true ∧ HasSuffix s "/" = true ∧ (1 < slen s)%nat ∧
  stake (slen s - 2) (sdrop 1 s) = p.
Proof.
  cbv zeta. split_and!.
  - apply HasPrefix_app.
  - apply HasSuffix_spec. exists ("/" +:+ p). by rewrite <- sapp_assoc.
  - rewrite !slen_app. simpl. lia.
  - rewrite !slen_app. simpl slen. replace (1 + (slen p + 1) - 2)%nat with (slen p) by lia.
    change (sdrop 1 ("/" +:+ (p +:+ "/"))) with (p +:+ "/"). apply stake_app.
Qed.

Lemma CompileLocalCommand_regex p :
  p ≠ "" →
  CompileLocalCommand ("/" +:+ (p +:+ "/")) =
  match regexp_Compile p with
  | None => Err (ErrBadRegex ("/" +:+ (p +:+ "/")))
  | Some re => Ok (mkRule ("/" +:+ (p +:+ "/")) (Some re) "" "")
  end.
Proof.
  intros Hp. destruct (regex_entry_parts p) as (H1 & H2 & H3 & H4). cbv zeta in *.
  unfold CompileLocalCommand. rewrite H1, H2, H4.
  rewrite (proj2 (Nat.ltb_lt _ _)) by done. simpl.
  by rewrite (proj2 (seqb_false p "")).
Qed.

Lemma no_slash_no_prefix s : contains_byte slash s = false → HasPrefix s "/" = false.
Proof.
  intros Hs. destruct (HasPrefix s "/") eqn:E; [|done].
  apply HasPrefix_spec in E as [t ->]. by rewrite contains_byte_app in Hs.
Qed.

Lemma slash_len_1 s : HasPrefix s "/" = true → (slen s ≤ 1)%nat → s = "/".
Proof.
  rewrite HasPrefix_spec. intros [t ->]. rewrite slen_app. simpl. intros.
  destruct t; [done|]. simpl in *. lia.
Qed.

(** Every entry is one of the three forms or selects nothing. *)
Lemma MatchLocalCommand_sound entry pathname :
  MatchLocalCommand entry pathname = true → entry_matches entry pathname.
Proof.
  unfold MatchLocalCommand, CompileLocalCommand.
  destruct (String.eqb entry "") eqn:E0; [done|]. apply seqb_false in E0.
  destruct (HasPrefix entry "/") eqn:E1; simpl.
  - destruct (HasSuffix entry "/") eqn:E2; simpl.
    + destruct (1 <? slen entry)%nat eqn:E3; simpl.
      * apply Nat.ltb_lt in E3.
        destruct (String.eqb _ "") eqn:E4; [done|]. apply seqb_false in E4.
        destruct (regexp_Compile _) as [re|] eqn:E5; [|done]. intros.
        eapply match_regex; eauto using regex_entry_split.
      * unfold IsAbs. rewrite E1. unfold Match. simpl.
        rewrite (proj2 (seqb_false entry "")) by done. intros Hm%seqb_true.
        apply Nat.ltb_ge in E3. apply match_abs; auto using slash_len_1.
    + unfold IsAbs. rewrite E1. unfold Match. simpl.
      rewrite (proj2 (seqb_false entry "")) by done. intros Hm%seqb_true.
      apply match_abs; auto.
  - destruct (contains_byte slash entry) eqn:E2; [done|]. unfold Match. simpl.
    intros Hm%seqb_true. by apply match_base.
Qed.

Lemma MatchLocalCommand_complete entry pathname :
  entry_matches entry pathname → MatchLocalCommand entry pathname = true.
Proof.
  intros [H1 H2 ->|H1 H2 <-|p re -> Hp Hc Hm].
  - unfold MatchLocalCommand, CompileLocalCommand, IsAbs.
    assert (entry ≠ "") by (by intros ->). rewrite (proj2 (seqb_false entry "")) by done.
    rewrite H1. destruct H2 as [->| ->]; simpl; [|done]. unfold Match. simpl.
    rewrite (proj2 (seqb_false entry "")) by done. apply seqb_refl.
  - unfold MatchLocalCommand, CompileLocalCommand.
    rewrite (proj2 (seqb_false _ _)), (no_slash_no_prefix _ H2), H2 by done. simpl.
    unfold Match. simpl. apply seqb_refl.
  - unfold MatchLocalCommand. by rewrite CompileLocalCommand_regex, Hc by done.
Qed.

(** [MatchLocalCommand] decides exactly the documented forms. *)
Theorem MatchLocalCommand_spec entry pathname :
  MatchLocalCommand entry pathname = true ↔ entry_matches entry pathname.
Proof. split; auto using MatchLocalCommand_sound, MatchLocalCommand_complete. Qed.

End command_rule_theorems.

(** ** Theorems: prefix rewriting *)

Lemma RewritePathPrefix_true p from to q :
  RewritePathPrefix p from to = (q, true) ↔
  from ≠ "" ∧ (p = from ∧ q = to ∨ ∃ t, p = from +:+ ("/" +:+ t) ∧ q = to +:+ ("/" +:+ t)).
Proof.
  unfold RewritePathPrefix. destruct (String.eqb from "") eqn:E0.
  { apply seqb_true in E0. naive_solver. }
  apply seqb_false in E0. destruct (String.eqb p from) eqn:E1.
  { apply seqb_true in E1 as ->. split; [intros; simplify_eq; auto|].
    intros [_ [[_ ->]|(t & Ht & _)]]; [done|]. exfalso.
    apply (f_equal slen) in Ht. rewrite !slen_app in Ht. simpl in Ht. lia. }
  apply seqb_false in E1. destruct (HasPrefix p (from +:+ "/")) eqn:E2; split.
  - apply HasPrefix_spec in E2 as [t ->]. rewrite <- sapp_assoc, sdrop_app.
    intros. simplify_eq. eauto 10.
  - intros [_ [[-> _]|(t & -> & ->)]]; [done|]. by rewrite sdrop_app.
  - done.
  - intros [_ [[-> _]|(t & -> & ->)]]; [done|]. by rewrite sapp_assoc, HasPrefix_app in E2.
Qed.

Lemma RewritePathPrefix_false p from to q :
  RewritePathPrefix p from to = (q, false) → q = p.
Proof. unfold RewritePathPrefix. intros. by repeat case_match; simplify_eq. Qed.

(** Rewriting is reversible: swapping [from] and [to] undoes it. *)
Theorem RewritePathPrefix_roundtrip p from to q :
  to ≠ "" → RewritePathPrefix p from to = (q, true) → RewritePathPrefix q to from = (p, true).
Proof. rewrite !RewritePathPrefix_true. naive_solver. Qed.

(** A prefix that ends in a slash matches only itself and doubled slashes,
    so it rewrites no clean sub-path. *)
Theorem RewritePathPrefix_trailing_slash d to p q :
  RewritePathPrefix p (d +:+ "/") to = (q, true) →
  p = d +:+ "/" ∨ HasPrefix p (d +:+ "//") = true.
Proof.
  rewrite RewritePathPrefix_true. intros (_ & [[-> _]|(t & -> & _)]); [by left|right].
  rewrite <- sapp_assoc. change ("/" +:+ ("/" +:+ t)) with ("//" +:+ t).
  rewrite sapp_assoc. apply HasPrefix_app.
Qed.

(** ** Theorems: ancestors *)

Lemma Join_HasPrefix rs ps :
  rs ≠ [] → Forall normal_comp rs → Forall normal_comp ps →
  HasPrefix (Join slash ps) (Join slash rs +:+ "/") = true ↔
  ∃ k, k ≠ [] ∧ ps = rs ++ k.
Proof.
  intros Hn Hrs Hps. split.
  - rewrite HasPrefix_spec. intros [t Ht]. rewrite <- sapp_assoc in Ht.
    change ("/" +:+ t) with (String slash t) in Ht.
    assert (ps ≠ []) by (intros ->; destruct (Join slash rs); discriminate).
    apply (f_equal (Split slash)) in Ht. rewrite Split_app in Ht.
    rewrite !Split_Join_normal in Ht by done. exists (Split slash t).
    auto using Split_not_nil.
  - intros (k & Hk & ->). rewrite Join_app by done.
    change (String slash (Join slash k)) with ("/" +:+ Join slash k).
    rewrite sapp_assoc. apply HasPrefix_app.
Qed.

Lemma Join_inj rs ps :
  Forall normal_comp rs → Forall normal_comp ps → Join slash rs = Join slash ps → rs = ps.
Proof.
  intros Hrs Hps He. rewrite <- (rooted_comps_Join rs), <- (rooted_comps_Join ps) by done.
  by rewrite He.
Qed.

Lemma isLocalAncestor_rooted a p :
  isLocalAncestor (String slash a) (String slash p) =
  if String.eqb (Join slash (rooted_comps a)) (Join slash (rooted_comps p)) then true
  else HasPrefix (Join slash (rooted_comps p)) (Join slash (rooted_comps a) +:+ "/").
Proof.
  unfold isLocalAncestor. rewrite !Clean_rooted.
  change (IsAbs (String slash a)) with true. change (IsAbs (String slash p)) with true.
  cbn -[slash String.append rooted_comps Join]. rewrite sapp_cons. cbn -[String.append rooted_comps Join].
  done.
Qed.

(** On absolute paths whose ancestor is not the root directory,
    [isLocalAncestor] is the prefix order on cleaned component lists. *)
Theorem isLocalAncestor_spec a p :
  rooted_comps a ≠ [] →
  isLocalAncestor (String slash a) (String slash p) = true ↔
  ∃ k, rooted_comps p = rooted_comps a ++ k.
Proof.
  intros Hn. rewrite isLocalAncestor_rooted.
  pose proof (rooted_comps_normal a) as Ha. pose proof (rooted_comps_normal p) as Hp.
  destruct (String.eqb _ _) eqn:E.
  - apply seqb_true, Join_inj in E as <-; [|done..]. split; [|done].
    intros _. exists []. by rewrite app_nil_r.
  - apply seqb_false in E. rewrite Join_HasPrefix by done. split; [naive_solver|].
    intros [k Hk]. exists k. split; [|done]. intros ->. rewrite app_nil_r in Hk. congruence.
Qed.

(** The root directory is an ancestor of every absolute path, yet
    [isLocalAncestor] denies it for every path but the root itself. *)
Theorem isLocalAncestor_root p :
  isLocalAncestor "/" (String slash p) = bool_decide (rooted_comps p = []).
Proof.
  change "/" with (String slash ""). rewrite isLocalAncestor_rooted.
  pose proof (rooted_comps_normal p) as Hp. destruct (String.eqb _ _) eqn:E.
  - apply seqb_true in E. change (Join slash (rooted_comps "")) with "" in E.
    by rewrite bool_decide_true by auto using Join_normal_empty.
  - apply seqb_false in E. rewrite bool_decide_false by (intros Hc; by rewrite Hc in E).
    change (Join slash (rooted_comps "") +:+ "/") with "/".
    destruct (HasPrefix _ _) eqn:E'; [|done]. exfalso.
    apply HasPrefix_spec in E' as [t Ht]. change ("/" +:+ t) with (String slash t) in Ht.
    assert (rooted_comps p ≠ []) as Hne by (intros Hc; by rewrite Hc in E).
    apply (f_equal (Split slash)) in Ht. rewrite Split_Join_normal in Ht by done.
    rewrite Ht in Hp. inversion Hp as [|?? (He&_) _]. done.
Qed.

(** ** Theorems: home expansion *)

Lemma PathJoin_IsAbs a b : IsAbs a = true → IsAbs (PathJoin a b) = true.
Proof.
  intros [t ->]%IsAbs_spec. unfold PathJoin. simpl String.eqb. cbv iota.
  apply Clean_IsAbs. by rewrite sapp_cons.
Qed.

(** Expanding an accepted mount path against an absolute home directory
    gives an absolute path, and never fails. *)
Theorem ExpandLocalHome_abs home p :
  IsAbs home = true → isAbsOrHomeRelative p = true →
  ∃ q, ExpandLocalHome (Some home) p = Ok q ∧ IsAbs q = true.
Proof.
  intros Hh Hp. unfold ExpandLocalHome, isAbsOrHomeRelative in *.
  assert (String.eqb home "" = false) as -> by (apply seqb_false; by intros ->).
  destruct (String.eqb p "~"), (HasPrefix p "~/"); simpl; eauto using PathJoin_IsAbs.
  rewrite !orb_false_r in Hp. eauto.
Qed.

(** ** Theorems: the whitelist *)

Lemma NewWhitelist_go acc paths w :
  (fix go acc paths :=
     match paths with
     | [] => Ok (mkWhitelist acc)
     | p :: paths =>
         let clean := Clean p in
         if negb (IsAbs clean) then Err p
         else go ({[clean]} ∪ acc) paths
     end) acc paths = Ok w →
  ∀ x, x ∈ entries w ↔ x ∈ acc ∨ ∃ p, p ∈ paths ∧ x = Clean p.
Proof.
  revert acc. induction paths as [|p paths IH]; intros acc Hw x; simpl in Hw.
  - simplify_eq. simpl. set_solver.
  - destruct (IsAbs (Clean p)); simplify_eq/=. rewrite (IH _ Hw). set_solver.
Qed.

(** A whitelist built without error allows exactly the paths that clean
    to one of its entries. *)
Theorem NewWhitelist_Allows paths w path :
  NewWhitelist paths = Ok w →
  Allows (Some w) path = true ↔ ∃ p, p ∈ paths ∧ Clean path = Clean p.
Proof.
  intros Hw. simpl. rewrite bool_decide_eq_true, (NewWhitelist_go _ _ _ Hw). set_solver.
Qed.

(** ** Theorems: binary resolution *)

Lemma first_existing stat l :
  match first_some (existing stat) l with
  | Some p => stat p = true
  | None => Forall (λ p, stat p = false) l
  end.
Proof.
  destruct (first_some _ _) as [p|] eqn:Ef.
  - apply first_some_Some in Ef as (?&x&?&_&Hx&_). unfold existing in Hx.
    destruct (stat x) eqn:?; by simplify_eq.
  - apply first_some_None in Ef. eapply Forall_impl; [done|]. intros x; unfold existing.
    by destruct (stat x).
Qed.

(** A configured path is used or reported missing, never replaced; without
    one the result is an existing file, and the search fails only when neither
    the adjacent file nor a candidate exists. *)
Theorem resolveBinary_spec stat exeDir name configPath candidates :
  match resolveBinary stat exeDir name configPath candidates with
  | Ok p => stat p = true ∧ (configPath ≠ "" → p = configPath)
  | Err (ErrConfiguredMissing _) => configPath ≠ "" ∧ stat configPath = false
  | Err (ErrBinaryNotFound _) =>
      configPath = "" ∧ Forall (λ p, stat p = false) candidates ∧
      ∀ d, exeDir = Some d → stat (PathJoin d name) = false
  end.
Proof.
  unfold resolveBinary. destruct (String.eqb configPath "") eqn:E; simpl.
  - apply seqb_true in E. pose proof (first_existing stat candidates) as Hf.
    destruct exeDir as [d|]; simpl.
    + unfold existing at 1. destruct (stat (PathJoin d name)) eqn:Ed; [by subst|].
      destruct (first_some _ _); naive_solver.
    + destruct (first_some _ _); naive_solver.
  - apply seqb_false in E. by destruct (stat configPath) eqn:?.
Qed.

(** ** Witnesses *)

Lemma RewritePathPrefix_roundtrip_witness : RewritePathPrefix "/r/x" "/r" "/a" = ("/a/x", true).
Proof. by apply (RewritePathPrefix_roundtrip "/a/x" "/a" "/r" "/r/x"). Defined.

Lemma isLocalAncestor_spec_witness : isLocalAncestor "/a/../b" "/b//c" = true.
Proof. apply (isLocalAncestor_spec "a/../b" "b//c"); [done|]. exists ["c"]. done. Defined.

Lemma NewWhitelist_Allows_witness :
  ∃ w, NewWhitelist ["/bin/sh"] = Ok w ∧ Allows (Some w) "/bin/../bin/sh" = true.
Proof.
  eexists. split; [reflexivity|]. eapply (NewWhitelist_Allows ["/bin/sh"]); [reflexivity|].
  exists "/bin/sh". split; [left|done].
Defined.
