(* ===== verification/PathStub.v ===== *)
(** * PathStub: the read-only view of remote executables

    Models [pkg/pathstub]: the agent-side enumeration ([enumerate.go]), the
    stub table ([fs.go]) and the FUSE node handlers ([node.go]).  The remote
    file system that the enumeration reads is a parameter: a directory
    listing and a [stat]. *)

From stdpp Require Import sorting.
From S2P Require Import Prelude GoStrings GoPaths PathRules.
Local Open Scope Z_scope.

Record PathInfoEntry := mkInfo {
  Name : string;
  RemotePath : string;
  Mode : Z;
  Size : Z;
  MTimeNanos : Z;
}.

(** What the code reads of an [os.FileInfo]. *)
Record FileInfo := mkFileInfo {
  fi_regular : bool;
  fi_perm : Z;
  fi_size : Z;
  fi_mtime : Z;
}.

(** [splitPath]. *)
Definition splitPath (p : string) : list string :=
  if String.eqb p "" then [] else Split ":"%char p.

Section enumerate.
Variable ReadDir : string → option (list string).
Variable Stat : string → option FileInfo.

Definition executable (st : FileInfo) : bool :=
  fi_regular st && negb (Z.land (fi_perm st) o111 =? 0).

(** The candidate that directory [dir] offers for [name]. *)
Definition enum_candidate (dir name : string) : option PathInfoEntry :=
  let fullPath := PathJoin dir name in
  match Stat fullPath with
  | None => None
  | Some st =>
      if executable st
      then Some (mkInfo name fullPath (fi_perm st) (fi_size st) (fi_mtime st))
      else None
  end.

(** One directory entry: skip a seen name, otherwise take the candidate. *)
Definition enum_entry (dir : string) (acc : gset string * list PathInfoEntry) (name : string)
    : gset string * list PathInfoEntry :=
  let '(seen, out) := acc in
  if bool_decide (name ∈ seen) then acc
  else match enum_candidate dir name with
       | None => acc
       | Some e => ({[name]} ∪ seen, out ++ [e])
       end.

Definition enum_dir (acc : gset string * list PathInfoEntry) (dir : string)
    : gset string * list PathInfoEntry :=
  if String.eqb dir "" then acc
  else match ReadDir dir with
       | None => acc
       | Some names => fold_left (enum_entry dir) names acc
       end.

(** [pathEnv] is the agent's own [$PATH]. *)
Definition EnumerateLocally (pathEnv : string) (paths : list string) : list PathInfoEntry :=
  let paths := match paths with [] => splitPath pathEnv | _ => paths end in
  (fold_left enum_dir paths (∅, [])).2.

(** The entry a PATH search for [name] would pick: the first directory that
    lists [name] as a regular executable. *)
Definition path_lookup (name : string) (dirs : list string) : option PathInfoEntry :=
  first_some (λ dir,
    if String.eqb dir "" then None
    else match ReadDir dir with
         | None => None
         | Some names => if bool_decide (name ∈ names) then enum_candidate dir name else None
         end) dirs.

End enumerate.

(** The table lookup by name. *)
Definition find_entry (name : string) (l : list PathInfoEntry) : option PathInfoEntry :=
  first_some (λ e, if String.eqb (Name e) name then Some e else None) l.

(** [FilterLocalCommands]. *)
Section filter.
Context `{Regexp}.

Definition compile_rules (localCommands : list string) : list LocalCommandRule :=
  omap (λ raw, match CompileLocalCommand raw with Ok r => Some r | Err _ => None end) localCommands.

Definition FilterLocalCommands (entries : list PathInfoEntry) (localCommands : list string)
    (mountPath : string) : list PathInfoEntry :=
  match compile_rules localCommands with
  | [] => entries
  | rules =>
      base.filter (λ e, existsb (λ r, Match r (mountPath +:+ "/" +:+ Name e)) rules = false) entries
  end.
End filter.

(** ** The stub file system *)

Record FileSystem := mkFS {
  entries : gmap string PathInfoEntry;
  names : list string;
}.

(** [New]: first entry of a name wins, names are sorted. *)
Definition New (info : list PathInfoEntry) : FileSystem :=
  let '(m, ns) :=
    fold_left (λ acc e,
      match acc.1 !! Name e with
      | Some _ => acc
      | None => (<[Name e := e]> acc.1, acc.2 ++ [Name e])
      end) info (∅ : gmap string PathInfoEntry, []) in
  mkFS m (merge_sort String.le ns).

Definition Names (f : FileSystem) : list string := names f.
Definition Entries (f : FileSystem) : gmap string PathInfoEntry := entries f.
Definition Lookup (f : FileSystem) (name : string) : option PathInfoEntry := entries f !! name.

(** Remote reads: [Open] then [ReadAt]; [io.EOF] with a short read is
    success, other errors carry a class that [toErrno] maps. *)
Inductive go_error : Type := ErrNotExist | ErrPermission | ErrOther.

Definition toErrno (e : go_error) : Z :=
  match e with
  | ErrNotExist => Errno.ENOENT
  | ErrPermission => Errno.EACCES
  | ErrOther => Errno.EIO
  end.

Section read.
Variable remote_open : string → result go_error nat.
(** [ReadAt h off size]: the bytes read (at most [size]), or an error that
    is not [io.EOF]. *)
Variable remote_readat : nat → Z → Z → result go_error string.

Definition ReadFile (f : FileSystem) (name : string) (off size : Z) : result Z string :=
  match entries f !! name with
  | None => Err Errno.ENOENT
  | Some e =>
      if size <=? 0 then Ok ""
      else match remote_open (RemotePath e) with
           | Err err => Err (toErrno err)
           | Ok fh =>
               match remote_readat fh off size with
               | Err err => Err (toErrno err)
               | Ok data => Ok data
               end
           end
  end.
End read.

(** ** FUSE nodes *)

Definition S_IFREG : Z := o100000.
Definition S_IFDIR : Z := o40000.
Definition FOPEN_DIRECT_IO : Z := 1.
Definition O_WRONLY : Z := 1.
Definition O_RDWR : Z := 2.
Definition O_CREAT : Z := o100.
Definition O_TRUNC : Z := o1000.
Definition O_APPEND : Z := o2000.

Record Attr := mkAttr {
  a_mode : Z; a_size : Z;
  a_mtime : Z; a_mtimensec : Z;
  a_ctime : Z; a_ctimensec : Z;
  a_atime : Z; a_atimensec : Z;
  a_nlink : Z;
}.

(** [applyEntryAttr]; [now] is [time.Now().Unix()].  [nsec0] is the
    nanosecond field [out] held before the call. *)
Definition applyEntryAttr (now nsec0 : Z) (e : PathInfoEntry) : Attr :=
  let perm := let p := Z.land (Mode e) o555 in if p =? 0 then o555 else p in
  let '(mt, mtn) :=
    if 0 <? MTimeNanos e
    then (u64 (Z.quot (MTimeNanos e) 1000000000), u32 (Z.rem (MTimeNanos e) 1000000000))
    else (u64 now, nsec0) in
  mkAttr (Z.lor S_IFREG perm) (u64 (Size e)) mt mtn mt mtn mt mtn 1.

(** The directory: readable by all, as old as the request. *)
Definition dir_Getattr (now : Z) : Attr :=
  mkAttr (Z.lor S_IFDIR o555) 0 (u64 now) 0 (u64 now) 0 (u64 now) 0 0.

(** [fillStatx]; the fields [Attr] leaves out are zero in both replies. *)
Record Statx := mkStatx {
  x_mask : Z; x_mode : Z; x_size : Z; x_nlink : Z; x_atime : Z * Z; x_mtime : Z * Z; x_ctime : Z * Z;
}.
Definition fillStatx (a : Attr) (mask : Z) : Statx :=
  mkStatx mask (uwrap 16 (a_mode a)) (a_size a) (a_nlink a) (a_atime a, a_atimensec a)
    (a_mtime a, a_mtimensec a) (a_ctime a, a_ctimensec a).

(** The FUSE requests of the stub directory and its files, as one type: the
    bridge calls the handler of the node the request names. *)
Inductive dir_req : Type :=
  | DGetattr | DStatx (mask : Z) | DAccess (mask : Z) | DLookup (name : string) | DReaddir
  | DCreate (name : string) | DMkdir (name : string) | DMknod (name : string)
  | DSymlink (name : string) | DLink (name : string) | DUnlink (name : string)
  | DRmdir (name : string) | DRename (name new : string) | DFsync
  | DGetxattr | DListxattr | DSetxattr | DRemovexattr.

Inductive dir_reply : Type :=
  | RErrno (e : Z)
  | RDirAttr (a : Attr)
  | RStatx (x : Statx)
  | REntry (a : Attr)
  | RNames (l : list (string * Z))
  | RZero.

Definition dirNode_handle (now : Z) (f : FileSystem) (r : dir_req) : dir_reply :=
  match r with
  | DGetattr => RDirAttr (dir_Getattr now)
  | DStatx mask => RStatx (fillStatx (dir_Getattr now) mask)
  | DAccess mask => if negb (Z.land mask 2 =? 0) then RErrno Errno.EACCES else RZero
  | DLookup name =>
      match Lookup f name with
      | None => RErrno Errno.ENOENT
      | Some e => REntry (applyEntryAttr now 0 e)
      end
  | DReaddir =>
      RNames ([(".", S_IFDIR); ("..", S_IFDIR)] ++ ((λ n, (n, S_IFREG)) <$> Names f))
  | DCreate _ | DMkdir _ | DMknod _ | DSymlink _ | DLink _ | DUnlink _ | DRmdir _
  | DRename _ _ => RErrno Errno.EROFS
  | DFsync | DListxattr => RZero
  | DGetxattr | DSetxattr | DRemovexattr => RErrno Errno.ENOATTR
  end.

Inductive file_req : Type :=
  | FGetattr | FStatx (mask : Z) | FAccess (mask : Z) | FOpen (flags : Z) | FWrite (off : Z)
  | FRead (off size : Z) | FSetattr | FFsync | FGetxattr | FListxattr | FSetxattr
  | FRemovexattr | FAllocate | FCopyFileRange | FGetlk | FSetlk | FSetlkw | FIoctl.

Inductive file_reply : Type :=
  | FErrno (e : Z)
  | FAttr (a : Attr)
  | FStatxed (x : Statx)
  | FOpened (fuse_flags : Z)
  | FData (d : string)
  | FZero.

Definition writeFlags : Z :=
  Z.lor O_WRONLY (Z.lor O_RDWR (Z.lor O_TRUNC (Z.lor O_APPEND O_CREAT))).

Definition fileNode_handle (now : Z) (ropen : string → result go_error nat)
    (rreadat : nat → Z → Z → result go_error string)
    (f : FileSystem) (name : string) (r : file_req) : file_reply :=
  match r with
  | FGetattr =>
      match Lookup f name with
      | None => FErrno Errno.ENOENT
      | Some e => FAttr (applyEntryAttr now 0 e)
      end
  | FStatx mask =>
      match Lookup f name with
      | None => FErrno Errno.ENOENT
      | Some e => FStatxed (fillStatx (applyEntryAttr now 0 e) mask)
      end
  | FAccess mask => if negb (Z.land mask 2 =? 0) then FErrno Errno.EACCES else FZero
  | FOpen flags =>
      if negb (Z.land flags writeFlags =? 0) then FErrno Errno.EROFS else FOpened FOPEN_DIRECT_IO
  | FRead off size =>
      match ReadFile ropen rreadat f name off size with
      | Err e => FErrno e
      | Ok d => FData d
      end
  | FWrite _ | FSetattr | FAllocate => FErrno Errno.EROFS
  | FFsync | FListxattr => FZero
  | FGetxattr | FSetxattr | FRemovexattr => FErrno Errno.ENOATTR
  | FCopyFileRange | FGetlk | FSetlk | FSetlkw => FErrno Errno.ENOTSUP
  | FIoctl => FErrno Errno.ENOTTY
  end.

(** ** Theorems: enumeration *)

Lemma find_entry_app n l k :
  find_entry n (l ++ k) = match find_entry n l with Some e => Some e | None => find_entry n k end.
Proof.
  unfold find_entry. induction l as [|e l IH]; simpl; [done|].
  by destruct (String.eqb (Name e) n).
Qed.

Lemma find_entry_Some n l e : find_entry n l = Some e → e ∈ l ∧ Name e = n.
Proof.
  unfold find_entry. intros (l1 & x & l2 & -> & Hx & _)%first_some_Some.
  destruct (String.eqb (Name x) n) eqn:E; simplify_eq. apply seqb_true in E. set_solver.
Qed.

Lemma find_entry_None n l : find_entry n l = None ↔ n ∉ Name <$> l.
Proof.
  unfold find_entry. rewrite first_some_None. induction l as [|e l IH].
  - set_solver.
  - rewrite Forall_cons, IH, fmap_cons, not_elem_of_cons.
    destruct (String.eqb (Name e) n) eqn:E; [apply seqb_true in E|apply seqb_false in E]; naive_solver.
Qed.

Section enumerate_theorems.
Variable ReadDir : string → option (list string).
Variable Stat : string → option FileInfo.

(** The accumulator is consistent: [seen] are the names of [out], each once. *)
Definition enum_wf (acc : gset string * list PathInfoEntry) : Prop :=
  (∀ n, n ∈ acc.1 ↔ n ∈ Name <$> acc.2) ∧ NoDup (Name <$> acc.2).

Lemma enum_candidate_Name dir name e : enum_candidate Stat dir name = Some e → Name e = name.
Proof. unfold enum_candidate. intros. repeat case_match; by simplify_eq/=. Qed.

Lemma enum_entry_step dir acc name n :
  enum_wf acc →
  enum_wf (enum_entry Stat dir acc name) ∧
  find_entry n (enum_entry Stat dir acc name).2 =
  match find_entry n acc.2 with
  | Some e => Some e
  | None => if String.eqb name n then enum_candidate Stat dir n else None
  end.
Proof.
  destruct acc as [seen out]. intros [Hs Hn]. unfold enum_entry. simpl in *.
  case_bool_decide as Hin.
  - split; [done|]. simpl. destruct (find_entry n out) eqn:Ef; [done|].
    destruct (String.eqb name n) eqn:En; [|done]. apply seqb_true in En as ->.
    apply find_entry_None in Ef. naive_solver.
  - destruct (enum_candidate Stat dir name) as [e|] eqn:Ec.
    + assert (Name e = name) as He by eauto using enum_candidate_Name. split.
      * split; simpl; rewrite fmap_app; simpl; rewrite He; [set_solver|].
        apply NoDup_app. split_and!; [done|set_solver|apply NoDup_singleton].
      * simpl. rewrite find_entry_app. destruct (find_entry n out); [done|]. unfold find_entry. simpl.
        rewrite He. destruct (String.eqb name n) eqn:En; [|done].
        apply seqb_true in En as <-. done.
    + split; [done|]. simpl. destruct (find_entry n out); [done|].
      destruct (String.eqb name n) eqn:En; [|done]. by apply seqb_true in En as <-.
Qed.

Lemma enum_entries dir names acc n :
  enum_wf acc →
  enum_wf (fold_left (enum_entry Stat dir) names acc) ∧
  find_entry n (fold_left (enum_entry Stat dir) names acc).2 =
  match find_entry n acc.2 with
  | Some e => Some e
  | None => if bool_decide (n ∈ names) then enum_candidate Stat dir n else None
  end.
Proof.
  revert acc. induction names as [|name names IH]; intros acc Hacc; simpl.
  - split; [done|]. by destruct (find_entry n acc.2).
  - destruct (enum_entry_step dir acc name n Hacc) as [Hwf Hf].
    destruct (IH _ Hwf) as [Hwf' ->]. split; [done|]. rewrite Hf.
    destruct (find_entry n acc.2); [done|].
    destruct (String.eqb name n) eqn:En.
    + apply seqb_true in En as ->. rewrite (bool_decide_true (n ∈ n :: names)) by set_solver.
      destruct (enum_candidate Stat dir n); [done|]. by case_bool_decide.
    + apply seqb_false in En. by rewrite (bool_decide_ext (n ∈ name :: names) (n ∈ names)) by set_solver.
Qed.

Lemma enum_dirs dirs acc n :
  enum_wf acc →
  enum_wf (fold_left (enum_dir ReadDir Stat) dirs acc) ∧
  find_entry n (fold_left (enum_dir ReadDir Stat) dirs acc).2 =
  match find_entry n acc.2 with
  | Some e => Some e
  | None => path_lookup ReadDir Stat n dirs
  end.
Proof.
  revert acc. induction dirs as [|dir dirs IH]; intros acc Hacc; simpl.
  - split; [done|]. by destruct (find_entry n acc.2).
  - unfold enum_dir at 2 4. unfold path_lookup. simpl.
    destruct (String.eqb dir ""); [by apply IH|].
    destruct (ReadDir dir) as [names|]; [|by apply IH].
    destruct (enum_entries dir names acc n Hacc) as [Hwf Hf].
    destruct (IH _ Hwf) as [Hwf' ->]. split; [done|]. rewrite Hf.
    destruct (find_entry n acc.2); [done|].
    case_bool_decide; [|done]. by destruct (enum_candidate Stat dir n).
Qed.

(** The enumeration lists every name at most once, and the entry of a
    name is the one a PATH search picks: the first directory that lists it as
    a regular executable wins. *)
Theorem EnumerateLocally_path_order pathEnv paths :
  let out := EnumerateLocally ReadDir Stat pathEnv paths in
  let dirs := match paths with [] => splitPath pathEnv | _ => paths end in
  NoDup (Name <$> out) ∧ ∀ n, find_entry n out = path_lookup ReadDir Stat n dirs.
Proof.
  cbv zeta. unfold EnumerateLocally. set (dirs := match paths with [] => _ | _ => _ end).
  assert (enum_wf (∅, [])) as H0 by (split; [set_solver|constructor]). split.
  - by destruct (enum_dirs dirs _ "" H0) as [[_ ?] _].
  - intros n. by destruct (enum_dirs dirs _ n H0) as [_ ->].
Qed.

End enumerate_theorems.

(** ** Theorems: the stub table *)

Definition new_step (acc : gmap string PathInfoEntry * list string) (e : PathInfoEntry) :=
  match acc.1 !! Name e with
  | Some _ => acc
  | None => (<[Name e := e]> acc.1, acc.2 ++ [Name e])
  end.

Lemma new_fold info acc :
  (∀ n, n ∈ acc.2 ↔ is_Some (acc.1 !! n)) → NoDup acc.2 →
  let acc' := fold_left new_step info acc in
  (∀ n, n ∈ acc'.2 ↔ is_Some (acc'.1 !! n)) ∧ NoDup acc'.2 ∧
  ∀ n, acc'.1 !! n = match acc.1 !! n with Some e => Some e | None => find_entry n info end.
Proof.
  revert acc. induction info as [|e info IH]; intros acc Hd Hn; simpl.
  - split_and!; [done|done|]. intros n. by destruct (acc.1 !! n).
  - unfold find_entry; simpl; fold (find_entry). unfold new_step at 2 4 6 8.
    destruct (acc.1 !! Name e) eqn:Ee.
    + destruct (IH acc Hd Hn) as (H1 & H2 & H3). split_and!; [done..|]. intros n. rewrite H3.
      destruct (String.eqb (Name e) n) eqn:En; [|done]. apply seqb_true in En as <-. by rewrite Ee.
    + destruct (IH (<[Name e:=e]> acc.1, acc.2 ++ [Name e])) as (H1 & H2 & H3); simpl in *.
      * intros n. rewrite elem_of_app, Hd, lookup_insert, list_elem_of_singleton.
        case_decide; subst; [naive_solver|]. naive_solver.
      * apply NoDup_app. split_and!; [done| |apply NoDup_singleton].
        intros x Hx%Hd ->%list_elem_of_singleton. rewrite Ee in Hx. by destruct Hx.
      * split_and!; [done..|]. intros n. rewrite H3, lookup_insert.
        destruct (String.eqb (Name e) n) eqn:En.
        -- apply seqb_true in En as <-. rewrite decide_True, Ee by done. done.
        -- apply seqb_false in En. by rewrite decide_False by done.
Qed.

(** [New] keeps the first entry of every name, and its directory listing
    is sorted, duplicate-free and names exactly the stubs it can look up. *)
Theorem New_spec info :
  let f := New info in
  (∀ n, Lookup f n = find_entry n info) ∧
  (∀ n, n ∈ Names f ↔ is_Some (Lookup f n)) ∧
  NoDup (Names f) ∧ Sorted String.le (Names f).
Proof.
  destruct (new_fold info (∅, [])) as (H1 & H2 & H3); simpl in *.
  { intros n. rewrite lookup_empty. split; [set_solver|by intros []]. }
  { constructor. }
  unfold New. change (fold_left _ info _) with (fold_left new_step info (∅, [])).
  destruct (fold_left new_step info (∅, [])) as [m ns]. simpl in *.
  unfold Lookup, Names. simpl. split_and!.
  - intros n. by rewrite H3, lookup_empty.
  - intros n. by rewrite merge_sort_Permutation, H1.
  - by rewrite merge_sort_Permutation.
  - apply Sorted_merge_sort, _.
Qed.

Section filter_theorems.
Context `{Regexp}.

Lemma compile_rules_match cmds p :
  existsb (λ r, Match r p) (compile_rules cmds) = existsb (λ c, MatchLocalCommand c p) cmds.
Proof.
  induction cmds as [|c cmds IH]; [done|]. simpl existsb. rewrite <- IH.
  unfold MatchLocalCommand, compile_rules. simpl. by destruct (CompileLocalCommand c).
Qed.

(** A stub survives the filter exactly when no local-command entry matches
    its in-container path; invalid entries filter nothing. *)
Theorem FilterLocalCommands_spec entries cmds mount e :
  e ∈ FilterLocalCommands entries cmds mount ↔
  e ∈ entries ∧ ∀ c, c ∈ cmds → MatchLocalCommand c (mount +:+ "/" +:+ Name e) = false.
Proof.
  rewrite <- Forall_forall, <- existsb_False, <- compile_rules_match.
  unfold FilterLocalCommands. destruct (compile_rules cmds) as [|r rs].
  - simpl. naive_solver.
  - rewrite list_elem_of_filter. naive_solver.
Qed.

End filter_theorems.

(** ** Theorems: the view is read-only *)

(** Whatever mode the remote reported, a stub is a regular file with no
    write bit. *)
Theorem applyEntryAttr_no_write now n e :
  Z.land (a_mode (applyEntryAttr now n e)) o222 = 0 ∧
  Z.land (a_mode (applyEntryAttr now n e)) S_IFREG = S_IFREG.
Proof.
  assert (∀ p, Z.land p o222 = 0 → Z.land (Z.lor S_IFREG p) o222 = 0) as Hw.
  { intros p Hp. by rewrite Z.land_lor_distr_l, Hp. }
  unfold applyEntryAttr. destruct (0 <? MTimeNanos e); simpl a_mode;
    (split; [|apply land_lor_absorb]); apply Hw; case_match; [done| |done|];
    by rewrite <- Z.land_assoc, Z.land_0_r.
Qed.

(** The requests that would change the stub tree. *)
Definition dir_mutates (r : dir_req) : bool :=
  match r with
  | DCreate _ | DMkdir _ | DMknod _ | DSymlink _ | DLink _ | DUnlink _ | DRmdir _
  | DRename _ _ | DSetxattr | DRemovexattr => true
  | _ => false
  end.

Definition file_mutates (r : file_req) : bool :=
  match r with
  | FWrite _ | FSetattr | FAllocate | FCopyFileRange | FSetxattr | FRemovexattr => true
  | FOpen flags => negb (Z.land flags (Z.lor O_WRONLY O_RDWR) =? 0)
  | _ => false
  end.

Lemma land_sub_nonzero a b c : Z.land a b ≠ 0 → Z.land b c = b → Z.land a c ≠ 0.
Proof.
  intros Hab Hbc Hac. apply Hab. rewrite <- Hbc, (Z.land_comm b c), Z.land_assoc, Hac.
  apply Z.land_0_l.
Qed.

(** Every request that would modify the stub directory or a stub file is
    refused with a non-zero errno: [EROFS], [ENOATTR] for extended attributes
    or [ENOTSUP]. *)
Theorem pathstub_read_only now ropen rreadat f name dr fr :
  (dir_mutates dr = true →
     dirNode_handle now f dr = RErrno Errno.EROFS ∨ dirNode_handle now f dr = RErrno Errno.ENOATTR) ∧
  (file_mutates fr = true →
     ∃ e, fileNode_handle now ropen rreadat f name fr = FErrno e ∧
          (e = Errno.EROFS ∨ e = Errno.ENOATTR ∨ e = Errno.ENOTSUP)).
Proof.
  split; [destruct dr; simpl; auto; done|].
  destruct fr; simpl; try done; eauto. intros Hf%negb_true_iff%Z.eqb_neq.
  exists Errno.EROFS. split; [|auto]. rewrite (proj2 (Z.eqb_neq _ _)); [done|].
  by eapply land_sub_nonzero.
Qed.

