(* ===== verification/PathMapper.v ===== *)
(** * PathMapper: container paths to remote paths

    Models [cmd/machineproxy/pathmapper.go], the function the broker applies
    to the path and the working directory of every forwarded exec. *)

From stdpp Require Import sorting.
From S2P Require Import Prelude GoStrings GoPaths PathRules PathStub.

Record Mount := mkMount { mnt_RemotePath : string; ContainerPath : string }.

(** A mount as the pair the mapper keeps: from container to remote. *)
Record prefixPair := mkPair { from : string; to : string }.

(** Insertion that keeps equal lengths in order: with [foldr] it is
    [sort.SliceStable] by descending length of [from]. *)
Fixpoint insert_pair (x : prefixPair) (l : list prefixPair) : list prefixPair :=
  match l with
  | [] => [x]
  | y :: l =>
      if (slen (from y) <=? slen (from x))%nat then x :: y :: l else y :: insert_pair x l
  end.
Definition sort_pairs (l : list prefixPair) : list prefixPair := foldr insert_pair [] l.

Definition mount_pairs (mounts : list Mount) : list prefixPair :=
  omap (λ m,
    if String.eqb (ContainerPath m) (mnt_RemotePath m) then None
    else Some (mkPair (ContainerPath m) (mnt_RemotePath m))) mounts.

(** The rewrite of the first pair that matches. *)
Definition map_pairs (pairs : list prefixPair) (p : string) : option string :=
  first_some (λ pp,
    match RewritePathPrefix p (from pp) (to pp) with
    | (q, true) => Some q
    | (_, false) => None
    end) pairs.

Definition map_path (stubPrefix : string) (stubMap : gmap string PathInfoEntry)
    (pairs : list prefixPair) (p : string) : string :=
  let stub :=
    if HasPrefix p (stubPrefix +:+ "/")
    then stubMap !! sdrop (slen stubPrefix + 1) p else None in
  match stub with
  | Some e => RemotePath e
  | None => default p (map_pairs pairs p)
  end.

(** [None] is the nil function: nothing to translate. *)
Definition buildPathMapper (mounts : list Mount) (stubPrefix : string)
    (stubMap : gmap string PathInfoEntry) : option (string → string) :=
  let hasStubRewrite := negb (bool_decide (stubMap = ∅)) in
  let pairs := sort_pairs (mount_pairs mounts) in
  if negb hasStubRewrite && (length pairs =? 0)%nat then None
  else Some (map_path stubPrefix stubMap pairs).

(** ** Theorems *)

Lemma elem_of_insert_pair x y l : y ∈ insert_pair x l ↔ y = x ∨ y ∈ l.
Proof.
  induction l as [|z l IH]; simpl; [set_solver|].
  case_match; [set_solver|]. rewrite !elem_of_cons, IH. naive_solver.
Qed.

Lemma elem_of_sort_pairs x l : x ∈ sort_pairs l ↔ x ∈ l.
Proof.
  induction l as [|y l IH]; simpl; [done|]. rewrite elem_of_insert_pair, IH. set_solver.
Qed.

(** Descending by length. *)
Definition desc (x y : prefixPair) : Prop := (slen (from y) ≤ slen (from x))%nat.

Lemma insert_pair_sorted x l : StronglySorted desc l → StronglySorted desc (insert_pair x l).
Proof.
  induction 1 as [|y l Hl IH Hy]; simpl; [by repeat constructor|].
  destruct (slen (from y) <=? slen (from x))%nat eqn:E.
  - apply Nat.leb_le in E. constructor; [by constructor|]. constructor; [done|].
    eapply Forall_impl; [done|]. unfold desc. intros z ?; simpl in *; lia.
  - apply Nat.leb_gt in E. constructor; [done|].
    apply Forall_forall. intros z [->|Hz]%elem_of_insert_pair; [unfold desc; lia|].
    by eapply Forall_forall in Hy.
Qed.

Lemma sort_pairs_sorted l : StronglySorted desc (sort_pairs l).
Proof. induction l; simpl; [constructor|]. by apply insert_pair_sorted. Qed.

Lemma elem_of_mount_pairs f t mounts :
  mkPair f t ∈ mount_pairs mounts ↔ mkMount t f ∈ mounts ∧ f ≠ t.
Proof.
  unfold mount_pairs. rewrite list_elem_of_omap. split.
  - intros ([r c] & Hm & He). simpl in He.
    destruct (String.eqb c r) eqn:E; simplify_eq. by apply seqb_false in E.
  - intros [Hm Hne]. exists (mkMount t f). split; [done|]. simpl.
    by rewrite (proj2 (seqb_false f t)).
Qed.

(** [f] is the container side of a rewriting mount that covers [p]. *)
Definition covers (mounts : list Mount) (p f t q : string) : Prop :=
  mkMount t f ∈ mounts ∧ f ≠ t ∧ RewritePathPrefix p f t = (q, true).

Lemma map_pairs_spec mounts p :
  match map_pairs (sort_pairs (mount_pairs mounts)) p with
  | Some q => ∃ f t, covers mounts p f t q ∧
                ∀ f' t' q', covers mounts p f' t' q' → (slen f' ≤ slen f)%nat
  | None => ∀ f t q, ¬ covers mounts p f t q
  end.
Proof.
  assert (∀ f t q, covers mounts p f t q ↔
            mkPair f t ∈ sort_pairs (mount_pairs mounts) ∧ RewritePathPrefix p f t = (q, true)) as Hc.
  { intros. unfold covers. rewrite elem_of_sort_pairs, elem_of_mount_pairs. naive_solver. }
  pose proof (sort_pairs_sorted (mount_pairs mounts)) as Hs.
  destruct (map_pairs _ p) as [q|] eqn:E.
  - apply first_some_Some in E as (l1 & [f t] & l2 & Hl & Hq & Hl1). simpl in *.
    destruct (RewritePathPrefix p f t) as [q' []] eqn:Er; simplify_eq.
    exists f, t. rewrite Hc. split; [rewrite Hl; set_solver|].
    intros f' t' q'. rewrite Hc, Hl, elem_of_app, elem_of_cons. intros [Hin Hr'].
    destruct Hin as [Hin|[Hin|Hin]].
    + eapply Forall_forall in Hl1; [|done]. simpl in Hl1. by rewrite Hr' in Hl1.
    + by simplify_eq.
    + rewrite Hl in Hs. apply StronglySorted_app_1_r in Hs.
      apply StronglySorted_inv in Hs as [_ Hf].
      rewrite Forall_forall in Hf. by apply (Hf (mkPair f' t')).
  - apply first_some_None in E. intros f t q [Hin Hr]%Hc.
    eapply Forall_forall in E; [|done]. simpl in E. by rewrite Hr in E.
Qed.

(** [p] is [f] or below it, with [rest] what follows. *)
Definition below_at (p f rest : string) : Prop := f ≠ "" ∧ p = f +:+ rest ∧ (rest = "" ∨ HasPrefix rest "/" = true).

Lemma below_at_rewrite p f rest t : below_at p f rest → RewritePathPrefix p f t = (t +:+ rest, true).
Proof.
  intros (Hf & -> & Hr). apply RewritePathPrefix_true. split; [done|]. destruct Hr as [->|[u ->]%HasPrefix_spec].
  - left. by rewrite !sapp_nil_r.
  - right. by exists u.
Qed.
Lemma rewrite_below_at p f t q :
  RewritePathPrefix p f t = (q, true) → ∃ rest, below_at p f rest ∧ q = t +:+ rest.
Proof.
  intros (Hf & [[-> ->]|(u & -> & ->)])%RewritePathPrefix_true.
  - exists "". split; [|by rewrite sapp_nil_r]. split_and!; [done|by rewrite sapp_nil_r|by left].
  - exists ("/" +:+ u). split; [|done]. split_and!; [done|done|right; apply HasPrefix_app].
Qed.

(** A longest one among finitely many. *)
Lemma longest_mount (P : Mount → Prop) `{!∀ m, Decision (P m)} (l : list Mount) :
  (∃ m, m ∈ l ∧ P m ∧ ∀ m', m' ∈ l → P m' → (slen (ContainerPath m') ≤ slen (ContainerPath m))%nat) ∨ ∀ m, m ∈ l → ¬ P m.
Proof.
  induction l as [|x l IH]; [right; set_solver|]. destruct (decide (P x)) as [Hx|Hx].
  - left. destruct IH as [(m & Hm & Hp & Hmax)|Hno].
    + destruct (decide (slen (ContainerPath x) ≤ slen (ContainerPath m))%nat).
      * exists m. split; [by right|]. split; [done|]. intros m' [->|Hm']%elem_of_cons ?; [done|auto].
      * exists x. split; [by left|]. split; [done|]. intros m' [->|Hm']%elem_of_cons Hp'; [lia|]. specialize (Hmax m' Hm' Hp'). lia.
    + exists x. split; [by left|]. split; [done|]. intros m' [->|Hm']%elem_of_cons Hp'; [lia|]. by destruct (Hno m').
  - destruct IH as [(m & Hm & Hp & Hmax)|Hno]; [left|right].
    + exists m. split; [by right|]. split; [done|]. intros m' [->|Hm']%elem_of_cons ?; [done|auto].
    + intros m' [->|Hm']%elem_of_cons; [done|auto].
Qed.

(** No mount whose two paths are the same lies deeper around [p] than one whose paths
    differ. *)
Definition identity_outermost (mounts : list Mount) (p : string) : Prop :=
  ∀ i f t r r', mkMount i i ∈ mounts → below_at p i r → mkMount t f ∈ mounts → f ≠ t → below_at p f r' →
    (slen i ≤ slen f)%nat.

(** C31: outside the stub directory the mapper translates a path by the deepest mount it lies
    in: among all mounts whose container path is the path or a directory above it, the
    longest, whose container path is replaced by its remote one and the rest kept; a path
    in no mount stays as it is.  This is for paths around which no identity mount is nested
    in a mount that rewrites ([identity_outermost]): there the mapper departs from it, since
    it leaves identity mounts out and lets the outer one rewrite the path
    ([nested_identity_mount_rewritten]). *)
Theorem buildPathMapper_longest mounts stubPrefix stubMap m p :
  buildPathMapper mounts stubPrefix stubMap = Some m →
  HasPrefix p (stubPrefix +:+ "/") = false → identity_outermost mounts p →
  (∃ f t rest, mkMount t f ∈ mounts ∧ below_at p f rest ∧ m p = t +:+ rest ∧
     ∀ f' t' rest', mkMount t' f' ∈ mounts → below_at p f' rest' → (slen f' ≤ slen f)%nat) ∨
  ((∀ f t rest, mkMount t f ∈ mounts → ¬ below_at p f rest) ∧ m p = p).
Proof.
  unfold buildPathMapper. case_match; [done|]. intros [= <-] Hp Hid. unfold map_path. rewrite Hp.
  pose proof (map_pairs_spec mounts p) as Hm. destruct (map_pairs _ p) as [q|]; cbn [default].
  - left. destruct Hm as (f & t & (Hin & Hne & Hr) & Hmax). apply rewrite_below_at in Hr as (rest & Hb & ->).
    exists f, t, rest. split_and!; [done..|]. intros f' t' rest' Hin' Hb'. destruct (decide (f' = t')) as [->|Hne'].
    + by eapply Hid.
    + eapply Hmax. split_and!; [done..|by apply below_at_rewrite].
  - assert (∀ f t rest, mkMount t f ∈ mounts → below_at p f rest → f = t) as Hall.
    { intros f t rest Hin Hb. destruct (decide (f = t)); [done|]. destruct (Hm f t (t +:+ rest)). split_and!; [done..|].
      by apply below_at_rewrite. }
    destruct (longest_mount (λ x, (RewritePathPrefix p (ContainerPath x) "").2 = true) mounts) as [([t f] & Hin & Hx & Hmax)|Hno].
    + left. cbn in Hx. destruct (RewritePathPrefix p f "") as [q b] eqn:E. cbn in Hx. subst b.
      apply rewrite_below_at in E as (rest & Hb & _). pose proof (Hall _ _ _ Hin Hb) as <-. exists f, f, rest.
      split_and!; [done..|by destruct Hb as (_ & -> & _)|]. intros f' t' rest' Hin' Hb'. apply (Hmax (mkMount t' f')); [done|].
      cbn. by rewrite (below_at_rewrite _ _ _ "" Hb').
    + right. split; [|done]. intros f t rest Hin Hb. apply (Hno (mkMount t f)); [done|].
      cbn. by rewrite (below_at_rewrite _ _ _ "" Hb).
Qed.

(** A path directly under the stub directory maps to the remote path its
    stub records, whatever the mounts are. *)
Theorem buildPathMapper_stub mounts stubPrefix stubMap m name e :
  buildPathMapper mounts stubPrefix stubMap = Some m →
  stubMap !! name = Some e → m (stubPrefix +:+ "/" +:+ name) = RemotePath e.
Proof.
  unfold buildPathMapper. case_match; [done|]. intros [= <-] Hn. unfold map_path.
  rewrite (sapp_assoc stubPrefix). rewrite HasPrefix_app.
  replace (slen stubPrefix + 1)%nat with (slen (stubPrefix +:+ "/")) by by rewrite slen_app.
  by rewrite sdrop_app, Hn.
Qed.

(** There is no mapper exactly when there is nothing to translate: no stub
    and only identity mounts. *)
Theorem buildPathMapper_None mounts stubPrefix stubMap :
  buildPathMapper mounts stubPrefix stubMap = None ↔
  stubMap = ∅ ∧ ∀ m, m ∈ mounts → ContainerPath m = mnt_RemotePath m.
Proof.
  unfold buildPathMapper.
  assert (length (sort_pairs (mount_pairs mounts)) = 0%nat ↔
          ∀ m, m ∈ mounts → ContainerPath m = mnt_RemotePath m) as Hp.
  { rewrite length_zero_iff_nil. split.
    - intros Hn [r c] Hm. simpl. destruct (decide (c = r)) as [|Hne]; [done|exfalso].
      assert (mkPair c r ∈ sort_pairs (mount_pairs mounts)) as Hin
        by by rewrite elem_of_sort_pairs, elem_of_mount_pairs.
      rewrite Hn in Hin. set_solver.
    - intros Hid. destruct (sort_pairs _) as [|[f t] l] eqn:E; [done|exfalso].
      assert (mkPair f t ∈ mount_pairs mounts) as Hin%elem_of_mount_pairs
        by (rewrite <- elem_of_sort_pairs, E; left).
      destruct Hin as [Hin Hne]. by apply Hne, (Hid (mkMount t f)). }
  rewrite <- Hp. rewrite negb_involutive. case_bool_decide; simpl.
  - destruct (_ =? 0)%nat eqn:E; [apply Nat.eqb_eq in E|apply Nat.eqb_neq in E]; naive_solver.
  - naive_solver.
Qed.

(** An identity mount nested in a rewriting mount does not win: paths
    below it are rewritten by the parent. *)
Theorem nested_identity_mount_rewritten :
  let mounts := [mkMount "/r" "/a"; mkMount "/a/b" "/a/b"] in
  (λ m, m "/a/b/x") <$> buildPathMapper mounts "/stub" ∅ = Some "/r/b/x".
Proof. vm_compute. reflexivity. Qed.

(** ** Witnesses *)

Definition two_mounts : list Mount := [mkMount "/r" "/a"; mkMount "/q" "/a/b"; mkMount "/i" "/i"].
Lemma two_mounts_outermost : identity_outermost two_mounts "/a/b/x".
Proof.
  intros i f t r r' Hi (_ & Hp & _) _ _ _. exfalso. unfold two_mounts in Hi.
  repeat (apply elem_of_cons in Hi as [Hi|Hi]; [by simplify_eq|]). by apply elem_of_nil in Hi.
Qed.
Lemma buildPathMapper_longest_witness :
  ∃ m, buildPathMapper two_mounts "/stub" ∅ = Some m ∧ m "/a/b/x" = "/q/x" ∧
  ((∃ f t rest, mkMount t f ∈ two_mounts ∧ below_at "/a/b/x" f rest ∧ m "/a/b/x" = t +:+ rest ∧
     ∀ f' t' rest', mkMount t' f' ∈ two_mounts → below_at "/a/b/x" f' rest' → (slen f' ≤ slen f)%nat) ∨
   ((∀ f t rest, mkMount t f ∈ two_mounts → ¬ below_at "/a/b/x" f rest) ∧ m "/a/b/x" = "/a/b/x")).
Proof.
  eexists. split; [reflexivity|]. split; [vm_compute; reflexivity|].
  by eapply (buildPathMapper_longest _ "/stub" ∅); [..|exact two_mounts_outermost].
Defined.

Definition stub_example : PathInfoEntry := mkInfo "gcc" "/usr/bin/gcc" 0 0 0.

Lemma buildPathMapper_stub_witness :
  ∃ m, buildPathMapper [] "/stub" {["gcc" := stub_example]} = Some m ∧ m "/stub/gcc" = "/usr/bin/gcc".
Proof.
  eexists. split; [reflexivity|].
  eapply (buildPathMapper_stub [] "/stub" {["gcc" := stub_example]} _ "gcc" stub_example); done.
Defined.
