(* ===== verification/GoGlob.v ===== *)
(** * GoGlob: [filepath.Match] on POSIX

    The matcher of package [path/filepath], which the environment filter uses
    for its glob patterns: chunk scanning, chunk matching with character
    classes and escapes, and the search that a star allows.  The recursions
    take fuel; the length of the pattern (plus one) is enough, because every
    round consumes a pattern byte. *)

From S2P Require Import Prelude GoStrings.
Local Open Scope Z_scope.

Definition byte_val (c : ascii) : Z := Z.of_N (N_of_ascii c).

Definition RuneError : Z := 65533.

Definition in_range (lo hi v : Z) : bool := (lo <=? v) && (v <=? hi).
Definition cont (v : Z) : bool := in_range 128 191 v.

(** [utf8.DecodeRuneInString]: the rune and its width in bytes. *)
Definition decode_rune (s : string) : Z * nat :=
  match s with
  | EmptyString => (RuneError, 0%nat)
  | String c0 t =>
      let b0 := byte_val c0 in
      let bad := (RuneError, 1%nat) in
      if b0 <? 128 then (b0, 1%nat)
      else
        let b k := match String.get k t with Some c => byte_val c | None => 0 end in
        if in_range 194 223 b0 then
          if cont (b 0%nat) then ((b0 - 192) * 64 + (b 0%nat - 128), 2%nat) else bad
        else if in_range 224 239 b0 then
          let lo := if b0 =? 224 then 160 else 128 in
          let hi := if b0 =? 237 then 159 else 191 in
          if in_range lo hi (b 0%nat) && cont (b 1%nat)
          then ((b0 - 224) * 4096 + (b 0%nat - 128) * 64 + (b 1%nat - 128), 3%nat) else bad
        else if in_range 240 244 b0 then
          let lo := if b0 =? 240 then 144 else 128 in
          let hi := if b0 =? 244 then 143 else 191 in
          if in_range lo hi (b 0%nat) && cont (b 1%nat) && cont (b 2%nat)
          then ((b0 - 240) * 262144 + (b 0%nat - 128) * 4096
                + (b 1%nat - 128) * 64 + (b 2%nat - 128), 4%nat) else bad
        else bad
  end.

(** [scanChunk] after the leading stars: the chunk up to the next star that
    is not inside a class, and the rest. *)
Fixpoint scan_chunk (inrange : bool) (p : string) : string * string :=
  match p with
  | EmptyString => ("", "")
  | String "\" (String d p') =>
      let '(c, r) := scan_chunk inrange p' in (String "\" (String d c), r)
  | String "[" p' => let '(c, r) := scan_chunk true p' in (String "[" c, r)
  | String "]" p' => let '(c, r) := scan_chunk false p' in (String "]" c, r)
  | String "*" p' =>
      if inrange then let '(c, r) := scan_chunk inrange p' in (String "*" c, r)
      else ("", p)
  | String d p' => let '(c, r) := scan_chunk inrange p' in (String d c, r)
  end.

Definition is_star (c : ascii) : bool := Ascii.eqb c "*".

Definition scanChunk (p : string) : bool * string * string :=
  let star := match p with String "*" _ => true | _ => false end in
  let '(c, r) := scan_chunk false (trim_left is_star p) in
  (star, c, r).

(** [getEsc]: [None] is [ErrBadPattern]. *)
Definition getEsc (chunk : string) : option (Z * string) :=
  match chunk with
  | EmptyString | String "-" _ | String "]" _ => None
  | _ =>
      let chunk := match chunk with String "\" r => r | _ => chunk end in
      match chunk with
      | EmptyString => None
      | _ =>
          let '(r, n) := decode_rune chunk in
          if (r =? RuneError) && (n =? 1)%nat then None
          else match sdrop n chunk with
               | EmptyString => None
               | nchunk => Some (r, nchunk)
               end
      end
  end.

(** The ranges of a character class: whether [r] is in one, and what follows
    the closing bracket. *)
Fixpoint class_ranges (fuel : nat) (r : Z) (chunk : string) (nrange : nat) (matched : bool)
    : option (bool * string) :=
  match fuel with
  | O => None
  | S fuel =>
      match chunk, nrange with
      | String "]" rest, S _ => Some (matched, rest)
      | _, _ =>
          match getEsc chunk with
          | None => None
          | Some (lo, chunk) =>
              let hi :=
                match chunk with String "-" c => getEsc c | _ => Some (lo, chunk) end in
              match hi with
              | None => None
              | Some (hi, chunk) =>
                  class_ranges fuel r chunk (S nrange) (matched || in_range lo hi r)
              end
          end
      end
  end.

(** [matchChunk]: [None] is [ErrBadPattern], [Some None] no match, [Some (Some
    rest)] a match that leaves [rest] of the subject. *)
Fixpoint matchChunk (fuel : nat) (failed : bool) (chunk s : string) : option (option string) :=
  match fuel with
  | O => None
  | S fuel =>
      match chunk with
      | EmptyString => Some (if failed then None else Some s)
      | String c chunk' =>
          let failed := failed || String.eqb s "" in
          let literal d rest :=
            if failed then matchChunk fuel true rest s
            else match s with
                 | String e s' => matchChunk fuel (negb (Ascii.eqb d e)) rest s'
                 | EmptyString => None
                 end in
          match c with
          | "[" =>
              let '(r, n) := if failed then (0, 0%nat) else decode_rune s in
              let s := sdrop n s in
              let '(negated, body) :=
                match chunk' with String "^" b => (true, b) | _ => (false, chunk') end in
              match class_ranges (S (slen body)) r body 0 false with
              | None => None
              | Some (m, rest) => matchChunk fuel (failed || Bool.eqb m negated) rest s
              end
          | "?" =>
              if failed then matchChunk fuel true chunk' s
              else
                let sep := match s with String e _ => Ascii.eqb e slash | _ => false end in
                matchChunk fuel sep chunk' (sdrop (decode_rune s).2 s)
          | "\" =>
              match chunk' with
              | EmptyString => None
              | String d rest => literal d rest
              end
          | _ => literal c chunk'
          end%char
      end
  end.

Definition match_chunk (chunk s : string) : option (option string) :=
  matchChunk (S (slen chunk)) false chunk s.

(** The star search: skip one more byte of [name] (never a slash) until the
    chunk matches; the last chunk has to exhaust the name. *)
Fixpoint star_search (chunk : string) (last : bool) (name : string) : option (option string) :=
  match name with
  | EmptyString => Some None
  | String c rest =>
      if Ascii.eqb c slash then Some None
      else match match_chunk chunk rest with
           | None => None
           | Some (Some t) =>
               if last && negb (String.eqb t "") then star_search chunk last rest
               else Some (Some t)
           | Some None => star_search chunk last rest
           end
  end.

Fixpoint match_loop (fuel : nat) (pattern name : string) : option bool :=
  match fuel with
  | O => None
  | S fuel =>
      match pattern with
      | EmptyString => Some (String.eqb name "")
      | _ =>
          let '(star, chunk, pattern) := scanChunk pattern in
          if star && String.eqb chunk "" then Some (negb (contains_byte slash name))
          else
            let last := String.eqb pattern "" in
            let search :=
              if star then
                match star_search chunk last name with
                | None => None
                | Some (Some t) => match_loop fuel pattern t
                | Some None => Some false
                end
              else Some false in
            match match_chunk chunk name with
            | Some (Some t) =>
                if String.eqb t "" || negb last then match_loop fuel pattern t else search
            | None => None
            | Some None => search
            end
      end
  end.

(** [filepath.Match(pattern, name)]; the error case is dropped by the caller
    [matched, _ := ...], which then sees [false]. *)
Definition glob_Match (pattern name : string) : bool :=
  default false (match_loop (S (slen pattern)) pattern name).

(** ** Literal patterns and literal prefixes *)

(** A byte with no meaning in a pattern. *)
Definition plain_byte (c : ascii) : bool :=
  negb (Ascii.eqb c "*" || Ascii.eqb c "?" || Ascii.eqb c "[" || Ascii.eqb c "]" || Ascii.eqb c "\").
Fixpoint plain (s : string) : bool :=
  match s with EmptyString => true | String c s => plain_byte c && plain s end.

Lemma scan_chunk_plain b c p :
  plain_byte c = true →
  scan_chunk b (String c p) = let '(ch, r) := scan_chunk b p in (String c ch, r).
Proof. by destruct c as [[] [] [] [] [] [] [] []]. Qed.

Lemma scan_chunk_plain_str p r :
  plain p = true → (r = "" ∨ r = "*") → scan_chunk false (p +:+ r) = (p, r).
Proof.
  intros Hp Hr. induction p as [|c p IH]; [by destruct Hr as [-> | ->]|].
  simpl in Hp. apply andb_prop in Hp as [Hc Hp]. rewrite sapp_cons.
  rewrite scan_chunk_plain by done. by rewrite IH.
Qed.

Lemma scanChunk_plain p r :
  plain p = true → p ≠ "" → (r = "" ∨ r = "*") → scanChunk (p +:+ r) = (false, p, r).
Proof.
  intros Hp Hn Hr. unfold scanChunk. destruct p as [|c p]; [done|].
  assert (plain_byte c = true) as Hc by (simpl in Hp; by apply andb_prop in Hp as [? _]).
  assert (is_star c = false) as Hs by by destruct c as [[] [] [] [] [] [] [] []].
  assert (trim_left is_star (String c p +:+ r) = String c p +:+ r) as Ht
    by (rewrite sapp_cons; simpl; by rewrite Hs).
  rewrite Ht, scan_chunk_plain_str by done.
  by destruct c as [[] [] [] [] [] [] [] []].
Qed.

Lemma matchChunk_plain fuel failed c chunk s :
  plain_byte c = true →
  matchChunk (S fuel) failed (String c chunk) s =
  if failed || String.eqb s "" then matchChunk fuel true chunk s
  else match s with
       | String e s' => matchChunk fuel (negb (Ascii.eqb c e)) chunk s'
       | EmptyString => None
       end.
Proof. by destruct c as [[] [] [] [] [] [] [] []]. Qed.

Lemma matchChunk_failed p fuel s :
  plain p = true → (slen p < fuel)%nat → matchChunk fuel true p s = Some None.
Proof.
  revert fuel. induction p as [|c p IH]; intros fuel Hp Hf; simpl in Hf.
  - by destruct fuel; [lia|].
  - simpl in Hp. apply andb_prop in Hp as [Hc Hp]. destruct fuel as [|fuel]; [lia|].
    rewrite matchChunk_plain by done. simpl. apply IH; [done|lia].
Qed.

Lemma matchChunk_plain_str p fuel s :
  plain p = true → (slen p < fuel)%nat →
  matchChunk fuel false p s = Some (CutPrefix s p).
Proof.
  revert fuel s. induction p as [|c p IH]; intros fuel s Hp Hf; simpl in Hf.
  - by destruct fuel; [lia|].
  - simpl in Hp. apply andb_prop in Hp as [Hc Hp]. destruct fuel as [|fuel]; [lia|].
    rewrite matchChunk_plain by done. destruct s as [|e s]; simpl.
    + rewrite matchChunk_failed by (done || lia). done.
    + unfold CutPrefix. simpl. destruct (Ascii.eqb c e); simpl.
      * rewrite IH by (done || lia). done.
      * apply matchChunk_failed; [done|lia].
Qed.

(** The rest after a literal prefix decides the match. *)
Lemma match_loop_plain fuel p r name :
  plain p = true → p ≠ "" → (r = "" ∨ r = "*") →
  match_loop (S fuel) (p +:+ r) name =
  match CutPrefix name p with
  | Some t => if String.eqb t "" || negb (String.eqb r "") then match_loop fuel r t else Some false
  | None => Some false
  end.
Proof.
  intros Hp Hn Hr. destruct p as [|c p'] eqn:Ep; [done|]. rewrite <- Ep in *.
  assert (match_loop (S fuel) (p +:+ r) name =
    let '(star, chunk, pattern) := scanChunk (p +:+ r) in _) as -> by (subst p; reflexivity).
  rewrite scanChunk_plain by (try subst p; done). simpl.
  unfold match_chunk. rewrite matchChunk_plain_str by (done || lia).
  destruct (CutPrefix name p); [|done]. by destruct (String.eqb _ _ || _).
Qed.

Lemma glob_Match_literal p name : plain p = true → glob_Match p name = String.eqb p name.
Proof.
  intros Hp. destruct (decide (p = "")) as [->|Hn].
  { unfold glob_Match. simpl. by destruct name. }
  unfold glob_Match. rewrite <- (sapp_nil_r p) at 2.
  rewrite match_loop_plain by auto.
  destruct (CutPrefix name p) as [t|] eqn:E; simpl.
  - apply CutPrefix_spec in E as ->. destruct (String.eqb t "") eqn:Et; simpl.
    + apply seqb_true in Et as ->. rewrite sapp_nil_r, seqb_refl. by destruct p.
    + apply seqb_false in Et. symmetry. apply seqb_false. intros He.
      apply (f_equal slen) in He. rewrite slen_app in He. destruct t; [done|]. simpl in He. lia.
  - symmetry. apply seqb_false. intros <-.
    assert (CutPrefix p p = Some "") as E' by (apply CutPrefix_spec; by rewrite sapp_nil_r).
    congruence.
Qed.

Lemma glob_Match_prefix p name :
  plain p = true →
  glob_Match (p +:+ "*") name =
  match CutPrefix name p with Some t => negb (contains_byte slash t) | None => false end.
Proof.
  intros Hp. unfold glob_Match. destruct (decide (p = "")) as [->|Hn].
  { rewrite sapp_nil_l. simpl. unfold CutPrefix. done. }
  rewrite match_loop_plain by auto. destruct (CutPrefix name p) as [t|]; [|done].
  simpl String.eqb. rewrite orb_true_r, slen_app, Nat.add_comm. done.
Qed.
