(* ===== verification/EnvFilter.v ===== *)
(** * EnvFilter: which environment variables reach the remote

    Models [pkg/envfilter/filter.go] (the keep/remove filter, [Remove],
    [StripPathSegment]) and [pkg/tracer/env.go] (the baseline diff that feeds
    the filter through MPROXY_CHANGED_ENVS), and proves the composition: a
    variable the traced program changed reaches the remote. *)

From S2P Require Import Prelude GoStrings PathRules GoGlob.

Definition changedEnvsKey : string := "MPROXY_CHANGED_ENVS".

Section filter.
Context `{Regexp}.

Inductive matcher : Type :=
  | globMatcher (pattern : string)
  | regexMatcher (re : regex).

Definition matcher_Match (m : matcher) (name : string) : bool :=
  match m with
  | globMatcher p => glob_Match p name
  | regexMatcher re => MatchString re name
  end.

(** [None] is a regex that does not compile. *)
Definition compileMatcher (pattern : string) : option matcher :=
  if HasPrefix pattern "/" && HasSuffix pattern "/" && (2 <? slen pattern)%nat then
    match regexp_Compile (stake (slen pattern - 2) (sdrop 1 pattern)) with
    | Some re => Some (regexMatcher re)
    | None => None
    end
  else Some (globMatcher pattern).

Fixpoint compileAll (patterns : list string) : list matcher :=
  match patterns with
  | [] => []
  | p :: patterns =>
      match compileMatcher p with
      | None => compileAll patterns
      | Some m => m :: compileAll patterns
      end
  end.

Fixpoint matchesAnyCompiled (name : string) (matchers : list matcher) : bool :=
  match matchers with
  | [] => false
  | m :: ms => if matcher_Match m name then true else matchesAnyCompiled name ms
  end.

(** [envName]: before the first '=', or the whole entry. *)
Definition envName (entry : string) : string :=
  match CutByte "="%char entry with Some (before, _) => before | None => entry end.

(** The set of names in the first MPROXY_CHANGED_ENVS entry. *)
Fixpoint parseChangedEnvs (env : list string) : gset string :=
  match env with
  | [] => ∅
  | entry :: env =>
      match CutPrefix entry (changedEnvsKey +:+ "=") with
      | Some val =>
          if String.eqb val "" then ∅
          else list_to_set (base.filter (λ n, n ≠ "") (Split ":"%char val))
      | None => parseChangedEnvs env
      end
  end.

Definition filterCompiled (env : list string) (keep remove : list matcher) : list string :=
  let changed := parseChangedEnvs env in
  fold_left (λ out entry,
    let name := envName entry in
    if String.eqb name changedEnvsKey then out
    else if matchesAnyCompiled name remove then out
    else if bool_decide (name ∈ changed) || matchesAnyCompiled name keep then out ++ [entry]
    else out) env [].

Definition Filter (env keep remove : list string) : list string :=
  filterCompiled env (compileAll keep) (compileAll remove).

Definition Remove (env remove : list string) : list string :=
  let removeM := compileAll remove in
  fold_left (λ out entry,
    if negb (matchesAnyCompiled (envName entry) removeM) then out ++ [entry] else out) env [].

End filter.

Definition StripPathSegment (env : list string) (dir : string) : list string :=
  if String.eqb dir "" then env
  else fold_left (λ out entry,
    match CutPrefix entry "PATH=" with
    | None => out ++ [entry]
    | Some val =>
        let kept := base.filter (λ s, s ≠ dir) (Split ":"%char val) in
        match kept with
        | [] => out
        | _ => out ++ ["PATH=" +:+ Join ":"%char kept]
        end
    end) env [].

(** ** The tracer's baseline (tracer/env.go) *)

Record EnvBaseline := mkBaseline { base_entries : gmap string string }.

Definition NewEnvBaselineFromSlice (env : list string) : EnvBaseline :=
  mkBaseline (fold_left (λ m entry,
    match CutByte "="%char entry with
    | Some (k, _) => <[k := entry]> m
    | None => m
    end) env ∅).

Definition skipKeys : list string := ["MPROXY_CHANGED_ENVS"; "MPROXY_HOOK_BYPASS"].

(** The changed names, in order; [ChangedKeys] joins them. *)
Definition changed_names (b : EnvBaseline) (current : list string) : list string :=
  omap (λ entry,
    match CutByte "="%char entry with
    | None => None
    | Some (key, _) =>
        if bool_decide (key ∈ skipKeys) then None
        else match base_entries b !! key with
             | Some snap => if String.eqb snap entry then None else Some key
             | None => Some key
             end
    end) current.

Definition ChangedKeys (b : EnvBaseline) (current : list string) : string :=
  Join ":"%char (changed_names b current).

Definition is_control (e : string) : bool :=
  HasPrefix e "MPROXY_HOOK_BYPASS=" || HasPrefix e "MPROXY_CHANGED_ENVS=".

Definition InjectEnvVars (b : EnvBaseline) (envp : list string) : list string :=
  let changedKeys := ChangedKeys b envp in
  let result := base.filter (λ e, is_control e = false) envp in
  let result := result ++ ["MPROXY_HOOK_BYPASS=1"] in
  if String.eqb changedKeys "" then result
  else result ++ ["MPROXY_CHANGED_ENVS=" +:+ changedKeys].

(** ** Loop lemmas *)

Lemma fold_append_filter {A} (P : A → bool) (l acc : list A) :
  fold_left (λ out x, if P x then out ++ [x] else out) l acc =
  acc ++ base.filter (λ x, P x = true) l.
Proof.
  revert acc. induction l as [|x l IH]; intros acc; simpl; [by rewrite app_nil_r|].
  rewrite IH, filter_cons. case_decide as Hd; destruct (P x); simplify_eq; [|done].
  by rewrite <- app_assoc.
Qed.

Lemma fold_append_bind {A B} (f : A → list B) (l : list A) acc :
  fold_left (λ out x, out ++ f x) l acc = acc ++ (l ≫= f).
Proof.
  revert acc. induction l as [|x l IH]; intros acc; simpl; [by rewrite app_nil_r|].
  by rewrite IH, <- app_assoc.
Qed.

Lemma fold_left_ext {A B} (f g : A → B → A) l a :
  (∀ a b, f a b = g a b) → fold_left f l a = fold_left g l a.
Proof. intros Hfg. revert a. induction l as [|b l IH]; intros a; simpl; [done|]. by rewrite Hfg. Qed.

(** ** Theorems: the filter *)

Section filter_theorems.
Context `{Regexp}.

(** [name] is matched by one of [patterns]; patterns that do not compile
    match nothing. *)
Definition matches_pattern (name : string) (patterns : list string) : Prop :=
  ∃ p m, p ∈ patterns ∧ compileMatcher p = Some m ∧ matcher_Match m name = true.

Lemma matches_pattern_cons name p ps :
  matches_pattern name (p :: ps) ↔
  (∃ m, compileMatcher p = Some m ∧ matcher_Match m name = true) ∨ matches_pattern name ps.
Proof.
  split.
  - intros (q & m & [->|Hq]%elem_of_cons & Hm & Hn); [left|right; exists q]; eauto.
  - intros [(m & Hm & Hn)|(q & m & Hq & Hm & Hn)]; [exists p, m|exists q, m];
      split_and!; try done; by constructor.
Qed.

Lemma matchesAny_spec name patterns :
  matchesAnyCompiled name (compileAll patterns) = true ↔ matches_pattern name patterns.
Proof.
  induction patterns as [|p ps IH].
  - split; [done|]. by intros (?&?&?%not_elem_of_nil&_).
  - rewrite matches_pattern_cons, <- IH. simpl.
    destruct (compileMatcher p) as [m|]; simpl.
    + destruct (matcher_Match m name) eqn:Eb; split; eauto.
      intros [(m' & [= <-] & Hm)|?]; congruence.
    + split; eauto. by intros [(m' & ? & _)|?].
Qed.

(** The documented rule for one entry. *)
Definition forwarded (env keep remove : list string) (entry : string) : Prop :=
  envName entry ≠ changedEnvsKey ∧
  ¬ matches_pattern (envName entry) remove ∧
  (envName entry ∈ parseChangedEnvs env ∨ matches_pattern (envName entry) keep).

Definition forwardedb (env keep remove : list string) (entry : string) : bool :=
  negb (String.eqb (envName entry) changedEnvsKey) &&
  negb (matchesAnyCompiled (envName entry) (compileAll remove)) &&
  (bool_decide (envName entry ∈ parseChangedEnvs env) ||
   matchesAnyCompiled (envName entry) (compileAll keep)).

Lemma forwardedb_spec env keep remove entry :
  forwardedb env keep remove entry = true ↔ forwarded env keep remove entry.
Proof.
  unfold forwardedb, forwarded. rewrite !andb_true_iff, !negb_true_iff, orb_true_iff.
  rewrite seqb_false, matchesAny_spec, bool_decide_eq_true.
  rewrite <- not_true_iff_false, matchesAny_spec. naive_solver.
Qed.

Lemma Filter_filter env keep remove :
  Filter env keep remove = base.filter (λ e, forwardedb env keep remove e = true) env.
Proof.
  unfold Filter, filterCompiled.
  rewrite <- (app_nil_l (base.filter _ _)), <- fold_append_filter.
  apply fold_left_ext. intros out e. unfold forwardedb.
  destruct (String.eqb _ _); [done|]. by destruct (matchesAnyCompiled _ (compileAll remove)).
Qed.

Lemma elem_of_Filter env keep remove e :
  e ∈ Filter env keep remove ↔ e ∈ env ∧ forwarded env keep remove e.
Proof. rewrite Filter_filter, list_elem_of_filter, forwardedb_spec. naive_solver. Qed.

(** C30: [Filter] keeps, in order, exactly the entries the documented rules
    select: never the marker, never a removed name, and otherwise the changed
    and the kept names. *)
Theorem Filter_spec env keep remove :
  Filter env keep remove `sublist_of` env ∧
  ∀ e, e ∈ Filter env keep remove ↔ e ∈ env ∧ forwarded env keep remove e.
Proof.
  split; [rewrite Filter_filter; apply sublist_filter|apply elem_of_Filter].
Qed.

(** [Remove] drops exactly the entries a remove pattern matches. *)
Theorem Remove_spec env remove e :
  e ∈ Remove env remove ↔ e ∈ env ∧ ¬ matches_pattern (envName e) remove.
Proof.
  unfold Remove. rewrite fold_append_filter. simpl. rewrite list_elem_of_filter.
  rewrite negb_true_iff, <- not_true_iff_false, matchesAny_spec. naive_solver.
Qed.

Lemma compileMatcher_glob p :
  HasPrefix p "/" = false → compileMatcher p = Some (globMatcher p).
Proof. intros Hp. unfold compileMatcher. by rewrite Hp. Qed.

(** With the default container pattern no control variable survives
    [Remove]: the name of a surviving entry does not start with "MPROXY_"
    (unless it contains a slash, which a glob star does not cross). *)
Theorem Remove_default env e :
  e ∈ Remove env ["MPROXY_*"] →
  HasPrefix (envName e) "MPROXY_" = false ∨ contains_byte slash (envName e) = true.
Proof.
  rewrite Remove_spec. intros [_ Hn]. destruct (HasPrefix (envName e) "MPROXY_") eqn:Ep; [|by left].
  right. apply HasPrefix_spec in Ep as [t Ht]. rewrite Ht, contains_byte_app. simpl.
  destruct (contains_byte slash t) eqn:Et; [done|]. exfalso. apply Hn.
  exists "MPROXY_*", (globMatcher "MPROXY_*"). split_and!; [set_solver|done|]. simpl.
  change "MPROXY_*" with ("MPROXY_" +:+ "*"). rewrite glob_Match_prefix by done.
  rewrite Ht. assert (CutPrefix ("MPROXY_" +:+ t) "MPROXY_" = Some t) as -> by by apply CutPrefix_spec.
  by rewrite Et.
Qed.

End filter_theorems.

(** ** Theorems: PATH segments *)

Definition strip_entry (dir entry : string) : list string :=
  match CutPrefix entry "PATH=" with
  | None => [entry]
  | Some val =>
      match base.filter (λ s, s ≠ dir) (Split ":"%char val) with
      | [] => []
      | kept => ["PATH=" +:+ Join ":"%char kept]
      end
  end.

Lemma StripPathSegment_bind env dir :
  dir ≠ "" → StripPathSegment env dir = env ≫= strip_entry dir.
Proof.
  intros Hd. unfold StripPathSegment. rewrite (proj2 (seqb_false _ _)) by done.
  rewrite <- (app_nil_l (env ≫= _)), <- fold_append_bind. apply fold_left_ext.
  intros out e. unfold strip_entry. destruct (CutPrefix e "PATH="); [|done].
  case_match; [by rewrite app_nil_r|done].
Qed.

Lemma Split_filter_Join c (P : string → Prop) `{!∀ x, Decision (P x)} s :
  base.filter P (Split c s) ≠ [] →
  Split c (Join c (base.filter P (Split c s))) = base.filter P (Split c s).
Proof.
  intros Hn. apply Split_Join; [done|]. apply Forall_forall.
  intros x [_ Hx]%list_elem_of_filter. pose proof (Split_no_sep c s) as Hs.
  rewrite Forall_forall in Hs. auto.
Qed.

(** After [StripPathSegment] no PATH entry has [dir] among its segments;
    the other segments stay in order and entries that are not PATH are
    untouched. *)
Theorem StripPathSegment_spec env dir e :
  dir ≠ "" →
  e ∈ StripPathSegment env dir ↔
  (CutPrefix e "PATH=" = None ∧ e ∈ env) ∨
  (∃ v v', e = "PATH=" +:+ v' ∧ "PATH=" +:+ v ∈ env ∧
     Split ":"%char v' = base.filter (λ s, s ≠ dir) (Split ":"%char v)).
Proof.
  intros Hd. rewrite StripPathSegment_bind by done. rewrite list_elem_of_bind.
  unfold strip_entry. split.
  - intros (x & He & Hx). destruct (CutPrefix x "PATH=") as [v|] eqn:Ex.
    + apply CutPrefix_spec in Ex as ->.
      destruct (base.filter _ _) as [|s l] eqn:Ef; [by apply not_elem_of_nil in He|].
      apply list_elem_of_singleton in He as ->. right. eexists v, _. split_and!; [done..|].
      rewrite <- Ef. by apply Split_filter_Join; rewrite Ef.
    + apply list_elem_of_singleton in He as ->. auto.
  - intros [[Hc He]|(v & v' & -> & Hv & Hs)].
    + exists e. rewrite Hc. set_solver.
    + exists ("PATH=" +:+ v). split; [|done].
      assert (CutPrefix ("PATH=" +:+ v) "PATH=" = Some v) as -> by by apply CutPrefix_spec.
      rewrite <- Hs. pose proof (Split_not_nil ":"%char v').
      destruct (Split ":"%char v') eqn:E; [done|]. rewrite <- E, Join_Split. set_solver.
Qed.

(** ** Theorems: the baseline diff *)

Lemma Split_Join_bind c l : l ≠ [] → Split c (Join c l) = l ≫= Split c.
Proof.
  intros Hn. induction l as [|x l IH]; [done|]. destruct l as [|y l].
  - simpl. by rewrite app_nil_r.
  - rewrite Join_cons by done. rewrite Split_app, IH by done. done.
Qed.

Lemma elem_of_changed_names b envp k :
  k ∈ changed_names b envp ↔
  ∃ e v, e ∈ envp ∧ CutByte "="%char e = Some (k, v) ∧ (k ∉ skipKeys) ∧ base_entries b !! k ≠ Some e.
Proof.
  unfold changed_names. rewrite list_elem_of_omap. split.
  - intros (e & He & Hk). destruct (CutByte "="%char e) as [[k' v]|] eqn:Ec; [|done].
    case_bool_decide; [done|]. exists e, v. rewrite Ec.
    destruct (base_entries b !! k') as [snap|] eqn:Eb; simplify_eq; [|by rewrite Eb].
    destruct (String.eqb snap e) eqn:Es; simplify_eq. apply seqb_false in Es.
    rewrite Eb. naive_solver.
  - intros (e & v & He & Hc & Hs & Hb). exists e. split; [done|]. rewrite Hc.
    rewrite bool_decide_false by done. destruct (base_entries b !! k) as [snap|]; [|done].
    rewrite (proj2 (seqb_false snap e)); [done|]. congruence.
Qed.

Lemma is_control_key e k v :
  CutByte "="%char e = Some (k, v) → k ∉ skipKeys → is_control e = false.
Proof.
  intros Hc Hk. unfold is_control. apply orb_false_iff. split.
  - destruct (HasPrefix e "MPROXY_HOOK_BYPASS=") eqn:E; [exfalso|done].
    apply HasPrefix_spec in E as [t ->]. apply Hk.
    change ("MPROXY_HOOK_BYPASS=" +:+ t) with ("MPROXY_HOOK_BYPASS" +:+ String "=" t) in Hc.
    rewrite CutByte_app in Hc by done. simplify_eq. unfold skipKeys. set_solver.
  - destruct (HasPrefix e "MPROXY_CHANGED_ENVS=") eqn:E; [exfalso|done].
    apply HasPrefix_spec in E as [t ->]. apply Hk.
    change ("MPROXY_CHANGED_ENVS=" +:+ t) with ("MPROXY_CHANGED_ENVS" +:+ String "=" t) in Hc.
    rewrite CutByte_app in Hc by done. simplify_eq. unfold skipKeys. set_solver.
Qed.

Lemma CutPrefix_None s p : HasPrefix s p = false → CutPrefix s p = None.
Proof. unfold CutPrefix. by intros ->. Qed.

Lemma parseChangedEnvs_skip env e :
  Forall (λ x, HasPrefix x (changedEnvsKey +:+ "=") = false) env →
  parseChangedEnvs (env ++ [e]) = parseChangedEnvs [e].
Proof. induction 1 as [|x env Hx _ IH]; [done|]. simpl. by rewrite CutPrefix_None. Qed.

(** What the filter parses back from an injected environment: the names the
    diff reported, cut at colons. *)
Lemma parse_inject b envp n :
  n ∈ parseChangedEnvs (InjectEnvVars b envp) ↔
  n ≠ "" ∧ n ∈ changed_names b envp ≫= Split ":"%char.
Proof.
  unfold InjectEnvVars. set (r := base.filter _ envp ++ _).
  assert (Forall (λ x, HasPrefix x (changedEnvsKey +:+ "=") = false) r) as Hr.
  { apply Forall_app. split; [|by repeat constructor]. apply Forall_forall.
    intros x [Hx _]%list_elem_of_filter. unfold is_control in Hx. by apply orb_false_iff in Hx as [_ ?]. }
  assert (∀ l, l ≠ [] → Split ":"%char (Join ":"%char l) = l ≫= Split ":"%char) as HS
    by (intros; by apply Split_Join_bind).
  destruct (String.eqb (ChangedKeys b envp) "") eqn:E.
  - assert (parseChangedEnvs r = ∅) as ->.
    { clear -Hr. induction Hr as [|x r Hx _ IH]; [done|]. simpl. by rewrite CutPrefix_None. }
    apply seqb_true in E. unfold ChangedKeys in E. split; [set_solver|]. intros [Hn Hin].
    destruct (decide (changed_names b envp = [])) as [E0|E0]; [rewrite E0 in Hin; set_solver|].
    rewrite <- HS, E in Hin by done. simpl in Hin. set_solver.
  - rewrite parseChangedEnvs_skip by done. cbn [parseChangedEnvs].
    assert (CutPrefix ("MPROXY_CHANGED_ENVS=" +:+ ChangedKeys b envp) (changedEnvsKey +:+ "=")
            = Some (ChangedKeys b envp)) as -> by by apply CutPrefix_spec.
    rewrite E, elem_of_list_to_set, list_elem_of_filter. apply seqb_false in E.
    unfold ChangedKeys in *. rewrite HS; [done|]. by intros E0; rewrite E0 in E.
Qed.

Section compose_theorems.
Context `{Regexp}.

(** A variable that the traced program set or changed since the baseline
    is forwarded by the filter, whatever the keep list says, unless a remove
    pattern matches it. *)
Theorem changed_env_forwarded b envp keep remove e k v :
  e ∈ envp → CutByte "="%char e = Some (k, v) → k ∉ skipKeys → k ≠ "" →
  contains_byte ":"%char k = false → base_entries b !! k ≠ Some e →
  ¬ matches_pattern k remove →
  e ∈ Filter (InjectEnvVars b envp) keep remove.
Proof.
  intros He Hc Hs Hk0 Hcol Hb Hrem. apply elem_of_Filter.
  assert (envName e = k) as Hn by (unfold envName; by rewrite Hc). split.
  - unfold InjectEnvVars. assert (e ∈ base.filter (λ e, is_control e = false) envp)
      by (apply list_elem_of_filter; eauto using is_control_key). case_match; set_solver.
  - unfold forwarded. rewrite Hn. split_and!; [|done|left].
    + intros ->. apply Hs. unfold skipKeys, changedEnvsKey. set_solver.
    + apply parse_inject. split; [done|]. apply list_elem_of_bind. exists k.
      rewrite Split_sep_free by done. split; [set_solver|].
      apply elem_of_changed_names. eauto 10.
Qed.

(** A variable the program left as it was is forwarded only when a keep
    pattern matches it. *)
Theorem unchanged_env_needs_keep b envp keep remove e k v :
  e ∈ Filter (InjectEnvVars b envp) keep remove →
  CutByte "="%char e = Some (k, v) →
  (∀ e' k' v', e' ∈ envp → CutByte "="%char e' = Some (k', v') → contains_byte ":"%char k' = false) →
  (∀ e' v', e' ∈ envp → CutByte "="%char e' = Some (k, v') → base_entries b !! k = Some e') →
  matches_pattern k keep.
Proof.
  intros He Hc Hcol Hb. apply elem_of_Filter in He as (_ & _ & _ & Hf).
  assert (envName e = k) as Hn by (unfold envName; by rewrite Hc). rewrite Hn in Hf.
  destruct Hf as [Hf|]; [exfalso|done]. apply parse_inject in Hf as [_ Hf].
  apply list_elem_of_bind in Hf as (n & Hkn & (e' & v' & He' & Hc' & _ & Hb')%elem_of_changed_names).
  rewrite Split_sep_free in Hkn by eauto. apply list_elem_of_singleton in Hkn as ->. eauto.
Qed.

End compose_theorems.

(** ** Witnesses *)

#[local] Existing Instance literal_engine.

Lemma StripPathSegment_spec_witness :
  "PATH=/usr/bin:/bin" ∈ StripPathSegment ["PATH=/usr/bin:/stub:/bin"; "A=1"] "/stub".
Proof.
  apply (StripPathSegment_spec ["PATH=/usr/bin:/stub:/bin"; "A=1"] "/stub"); [done|].
  right. exists "/usr/bin:/stub:/bin", "/usr/bin:/bin". split_and!; [done|left|done].
Defined.

Lemma not_matches_nil k : ¬ matches_pattern k [].
Proof. intros (p & m & Hp & _). by apply elem_of_nil in Hp. Qed.

Lemma changed_env_forwarded_witness :
  "FOO=2" ∈ Filter (InjectEnvVars (NewEnvBaselineFromSlice ["FOO=1"]) ["FOO=2"]) [] [].
Proof.
  apply (changed_env_forwarded _ _ _ _ "FOO=2" "FOO" "2"); try done; [left| |apply not_matches_nil].
  unfold skipKeys. set_solver.
Defined.

Lemma unchanged_env_needs_keep_witness : matches_pattern "FOO" ["FOO"].
Proof.
  apply (unchanged_env_needs_keep (NewEnvBaselineFromSlice ["FOO=1"]) ["FOO=1"] ["FOO"] [] "FOO=1" "FOO" "1").
  - vm_compute. left.
  - done.
  - intros e' k' v' He. apply list_elem_of_singleton in He as ->. intros. by simplify_eq/=.
  - intros e' v' He. apply list_elem_of_singleton in He as ->. intros. by simplify_eq/=.
Defined.
