(* ===== verification/Arch.v ===== *)
(** * Arch: syscall registers per architecture

    Models the [rewrite_linux_*.go] files of [pkg/tracer]: how the tracer
    reads and replaces the syscall number, the exec arguments, the stack
    pointer and the result on each architecture.  An architecture is a record
    of operations on a register file; [ArchLaws] is what the tracer relies on,
    proved for every architecture.

    A register is its field of [unix.PtraceRegs]; a field that was never
    written reads as zero. *)

From S2P Require Import Prelude.
Local Open Scope Z_scope.

Abbreviation Regs := (gmap string Z).

Definition getr (r : Regs) (f : string) : Z := default 0 (r !! f).
Definition setr (f : string) (v : Z) (r : Regs) : Regs := <[f := v]> r.

(** The operations of one [rewrite_linux_<arch>.go]. *)
Record Arch := mkArch {
  SeccompArch : Z;
  SysExecve : Z;
  SysExecveat : Z;
  ptrSize : Z;
  big_endian : bool;
  SyscallNum : Regs → Z;
  BlockSyscall : Regs → Regs;
  PathAddr : bool → Regs → Z;
  ArgvAddr : bool → Regs → Z;
  EnvpAddr : bool → Regs → Z;
  SetPathAddr : bool → Z → Regs → Regs;
  SetArgvAddr : bool → Z → Regs → Regs;
  SetEnvpAddr : bool → Z → Regs → Regs;
  StackPointer : Regs → Z;
  Ret : Regs → Z * bool;
  SetRetSuccess : Z → Regs → Regs;
  SetRetError : Z → Regs → Regs;
}.

(** The width of [uintptr]. *)
Definition ptr_bits (a : Arch) : Z := 8 * ptrSize a.

(** What the tracer relies on. *)
Class ArchLaws (a : Arch) := {
  law_ptrSize : ptrSize a = 4 ∨ ptrSize a = 8;
  law_path_get b v r : is_u (ptr_bits a) v → PathAddr a b (SetPathAddr a b v r) = v;
  law_argv_get b v r : is_u (ptr_bits a) v → ArgvAddr a b (SetArgvAddr a b v r) = v;
  law_envp_get b v r : is_u (ptr_bits a) v → EnvpAddr a b (SetEnvpAddr a b v r) = v;
  law_path_argv b v r : PathAddr a b (SetArgvAddr a b v r) = PathAddr a b r;
  law_path_envp b v r : PathAddr a b (SetEnvpAddr a b v r) = PathAddr a b r;
  law_argv_envp b v r : ArgvAddr a b (SetEnvpAddr a b v r) = ArgvAddr a b r;
  law_sysno_path b v r : SyscallNum a (SetPathAddr a b v r) = SyscallNum a r;
  law_sysno_argv b v r : SyscallNum a (SetArgvAddr a b v r) = SyscallNum a r;
  law_sysno_envp b v r : SyscallNum a (SetEnvpAddr a b v r) = SyscallNum a r;
  law_block r : SyscallNum a (BlockSyscall a r) ≠ SysExecve a ∧
                SyscallNum a (BlockSyscall a r) ≠ SysExecveat a;
  law_ret_ok v r : 0 ≤ v < 2 ^ (ptr_bits a - 1) → Ret a (SetRetSuccess a v r) = (v, true);
  law_ret_err e r : 0 < e < 2 ^ (ptr_bits a - 1) → (Ret a (SetRetError a e r)).2 = false;
}.

(** The property the getcwd hook needs on top: storing a result leaves the
    syscall number readable on the exit stop. *)
Class RetKeepsSysno (a : Arch) :=
  law_ret_sysno v r : SyscallNum a (SetRetSuccess a v r) = SyscallNum a r.

(** ** The architectures *)

(** [rewrite_linux_amd64.go] *)
Definition arch_amd64 : Arch := {|
  SeccompArch := 0xC000003E;
  SysExecve := 59;
  SysExecveat := 322;
  ptrSize := 8;
  big_endian := false;
  SyscallNum r := getr r "Orig_rax";
  BlockSyscall r := setr "Orig_rax" (u64 (-1)) r;
  PathAddr b r := if b then getr r "Rsi" else getr r "Rdi";
  ArgvAddr b r := if b then getr r "Rdx" else getr r "Rsi";
  EnvpAddr b r := if b then getr r "R10" else getr r "Rdx";
  SetPathAddr b v r := if b then setr "Rsi" (u64 v) r else setr "Rdi" (u64 v) r;
  SetArgvAddr b v r := if b then setr "Rdx" (u64 v) r else setr "Rsi" (u64 v) r;
  SetEnvpAddr b v r := if b then setr "R10" (u64 v) r else setr "Rdx" (u64 v) r;
  StackPointer r := getr r "Rsp";
  Ret r := (getr r "Rax", 0 <=? swrap 64 (getr r "Rax"));
  SetRetSuccess v r := setr "Rax" (u64 v) r;
  SetRetError v r := setr "Rax" (u64 (- swrap 64 v)) r;
|}.

(** [rewrite_linux_386.go]: the fields are [int32], so a store keeps the signed
    reading and every load converts back through [uint32]. *)
Definition arch_386 : Arch := {|
  SeccompArch := 0x40000003;
  SysExecve := 11;
  SysExecveat := 358;
  ptrSize := 4;
  big_endian := false;
  SyscallNum r := u32 (getr r "Orig_eax");
  BlockSyscall r := setr "Orig_eax" (-1) r;
  PathAddr b r := if b then u32 (getr r "Ecx") else u32 (getr r "Ebx");
  ArgvAddr b r := if b then u32 (getr r "Edx") else u32 (getr r "Ecx");
  EnvpAddr b r := if b then u32 (getr r "Esi") else u32 (getr r "Edx");
  SetPathAddr b v r := if b then setr "Ecx" (swrap 32 v) r else setr "Ebx" (swrap 32 v) r;
  SetArgvAddr b v r := if b then setr "Edx" (swrap 32 v) r else setr "Ecx" (swrap 32 v) r;
  SetEnvpAddr b v r := if b then setr "Esi" (swrap 32 v) r else setr "Edx" (swrap 32 v) r;
  StackPointer r := u32 (getr r "Esp");
  Ret r := (u32 (getr r "Eax"), 0 <=? getr r "Eax");
  SetRetSuccess v r := setr "Eax" (swrap 32 v) r;
  SetRetError v r := setr "Eax" (swrap 32 (- swrap 32 v)) r;
|}.

(** [rewrite_linux_arm64.go]; [Regs8] is [Regs[8]] *)
Definition arch_arm64 : Arch := {|
  SeccompArch := 0xC00000B7;
  SysExecve := 221;
  SysExecveat := 281;
  ptrSize := 8;
  big_endian := false;
  SyscallNum r := getr r "Regs8";
  BlockSyscall r := setr "Regs8" (u64 (-1)) r;
  PathAddr b r := if b then getr r "Regs1" else getr r "Regs0";
  ArgvAddr b r := if b then getr r "Regs2" else getr r "Regs1";
  EnvpAddr b r := if b then getr r "Regs3" else getr r "Regs2";
  SetPathAddr b v r := if b then setr "Regs1" (u64 v) r else setr "Regs0" (u64 v) r;
  SetArgvAddr b v r := if b then setr "Regs2" (u64 v) r else setr "Regs1" (u64 v) r;
  SetEnvpAddr b v r := if b then setr "Regs3" (u64 v) r else setr "Regs2" (u64 v) r;
  StackPointer r := getr r "Sp";
  Ret r := (getr r "Regs0", 0 <=? swrap 64 (getr r "Regs0"));
  SetRetSuccess v r := setr "Regs0" (u64 v) r;
  SetRetError v r := setr "Regs0" (u64 (- swrap 64 v)) r;
|}.

(** [rewrite_linux_arm.go]: [uint32] fields of [Uregs]. *)
Definition arch_arm : Arch := {|
  SeccompArch := 0x40000028;
  SysExecve := 11;
  SysExecveat := 387;
  ptrSize := 4;
  big_endian := false;
  SyscallNum r := getr r "R7";
  BlockSyscall r := setr "R7" (u32 (-1)) r;
  PathAddr b r := if b then getr r "R1" else getr r "R0";
  ArgvAddr b r := if b then getr r "R2" else getr r "R1";
  EnvpAddr b r := if b then getr r "R3" else getr r "R2";
  SetPathAddr b v r := if b then setr "R1" (u32 v) r else setr "R0" (u32 v) r;
  SetArgvAddr b v r := if b then setr "R2" (u32 v) r else setr "R1" (u32 v) r;
  SetEnvpAddr b v r := if b then setr "R3" (u32 v) r else setr "R2" (u32 v) r;
  StackPointer r := getr r "R13";
  Ret r := (getr r "R0", 0 <=? swrap 32 (getr r "R0"));
  SetRetSuccess v r := setr "R0" (u32 v) r;
  SetRetError v r := setr "R0" (u32 (- swrap 32 v)) r;
|}.

(** [rewrite_linux_riscv64.go] *)
Definition arch_riscv64 : Arch := {|
  SeccompArch := 0xC00000F3;
  SysExecve := 221;
  SysExecveat := 281;
  ptrSize := 8;
  big_endian := false;
  SyscallNum r := getr r "A7";
  BlockSyscall r := setr "A7" (u64 (-1)) r;
  PathAddr b r := if b then getr r "A1" else getr r "A0";
  ArgvAddr b r := if b then getr r "A2" else getr r "A1";
  EnvpAddr b r := if b then getr r "A3" else getr r "A2";
  SetPathAddr b v r := if b then setr "A1" (u64 v) r else setr "A0" (u64 v) r;
  SetArgvAddr b v r := if b then setr "A2" (u64 v) r else setr "A1" (u64 v) r;
  SetEnvpAddr b v r := if b then setr "A3" (u64 v) r else setr "A2" (u64 v) r;
  StackPointer r := getr r "Sp";
  Ret r := (getr r "A0", 0 <=? swrap 64 (getr r "A0"));
  SetRetSuccess v r := setr "A0" (u64 v) r;
  SetRetError v r := setr "A0" (u64 (- swrap 64 v)) r;
|}.

(** [rewrite_linux_s390x.go]: the first argument is also kept in [Orig_gpr2] *)
Definition arch_s390x : Arch := {|
  SeccompArch := 0x80000016;
  SysExecve := 11;
  SysExecveat := 354;
  ptrSize := 8;
  big_endian := true;
  SyscallNum r := getr r "Gprs1";
  BlockSyscall r := setr "Gprs1" (u64 (-1)) r;
  PathAddr b r := if b then getr r "Gprs3" else getr r "Gprs2";
  ArgvAddr b r := if b then getr r "Gprs4" else getr r "Gprs3";
  EnvpAddr b r := if b then getr r "Gprs5" else getr r "Gprs4";
  SetPathAddr b v r := if b then setr "Gprs3" (u64 v) r else setr "Orig_gpr2" (u64 v) (setr "Gprs2" (u64 v) r);
  SetArgvAddr b v r := if b then setr "Gprs4" (u64 v) r else setr "Gprs3" (u64 v) r;
  SetEnvpAddr b v r := if b then setr "Gprs5" (u64 v) r else setr "Gprs4" (u64 v) r;
  StackPointer r := getr r "Gprs15";
  Ret r := (getr r "Gprs2", 0 <=? swrap 64 (getr r "Gprs2"));
  SetRetSuccess v r := setr "Gprs2" (u64 v) r;
  SetRetError v r := setr "Gprs2" (u64 (- swrap 64 v)) r;
|}.

(** [rewrite_linux_loong64.go] *)
Definition arch_loong64 : Arch := {|
  SeccompArch := 0xC0000102;
  SysExecve := 221;
  SysExecveat := 281;
  ptrSize := 8;
  big_endian := false;
  SyscallNum r := getr r "Regs11";
  BlockSyscall r := setr "Regs11" (u64 (-1)) r;
  PathAddr b r := if b then getr r "Regs5" else getr r "Regs4";
  ArgvAddr b r := if b then getr r "Regs6" else getr r "Regs5";
  EnvpAddr b r := if b then getr r "Regs7" else getr r "Regs6";
  SetPathAddr b v r := if b then setr "Regs5" (u64 v) r else setr "Regs4" (u64 v) r;
  SetArgvAddr b v r := if b then setr "Regs6" (u64 v) r else setr "Regs5" (u64 v) r;
  SetEnvpAddr b v r := if b then setr "Regs7" (u64 v) r else setr "Regs6" (u64 v) r;
  StackPointer r := getr r "Regs3";
  Ret r := (getr r "Regs4", 0 <=? swrap 64 (getr r "Regs4"));
  SetRetSuccess v r := setr "Regs4" (u64 v) r;
  SetRetError v r := setr "Regs4" (u64 (- swrap 64 v)) r;
|}.

(** [rewrite_linux_ppc64x.go] with [rewrite_linux_ppc64.go]: failure is the
    summary-overflow bit of the condition register. *)
Definition arch_ppc64 : Arch := {|
  SeccompArch := 0x80000015;
  SysExecve := 11;
  SysExecveat := 362;
  ptrSize := 8;
  big_endian := true;
  SyscallNum r := getr r "Gpr0";
  BlockSyscall r := setr "Gpr0" (u64 (-1)) r;
  PathAddr b r := if b then getr r "Gpr4" else getr r "Gpr3";
  ArgvAddr b r := if b then getr r "Gpr5" else getr r "Gpr4";
  EnvpAddr b r := if b then getr r "Gpr6" else getr r "Gpr5";
  SetPathAddr b v r := if b then setr "Gpr4" (u64 v) r else setr "Orig_gpr3" (u64 v) (setr "Gpr3" (u64 v) r);
  SetArgvAddr b v r := if b then setr "Gpr5" (u64 v) r else setr "Gpr4" (u64 v) r;
  SetEnvpAddr b v r := if b then setr "Gpr6" (u64 v) r else setr "Gpr5" (u64 v) r;
  StackPointer r := getr r "Gpr1";
  Ret r := (getr r "Gpr3", Z.land (getr r "Ccr") 0x10000000 =? 0);
  SetRetSuccess v r := setr "Ccr" (Z.ldiff (getr r "Ccr") 0x10000000) (setr "Gpr3" (u64 v) r);
  SetRetError v r := setr "Ccr" (Z.lor (getr r "Ccr") 0x10000000) (setr "Gpr3" (u64 v) r);
|}.

(** [rewrite_linux_ppc64x.go] with [rewrite_linux_ppc64le.go]: failure is the
    summary-overflow bit of the condition register. *)
Definition arch_ppc64le : Arch := {|
  SeccompArch := 0xC0000015;
  SysExecve := 11;
  SysExecveat := 362;
  ptrSize := 8;
  big_endian := false;
  SyscallNum r := getr r "Gpr0";
  BlockSyscall r := setr "Gpr0" (u64 (-1)) r;
  PathAddr b r := if b then getr r "Gpr4" else getr r "Gpr3";
  ArgvAddr b r := if b then getr r "Gpr5" else getr r "Gpr4";
  EnvpAddr b r := if b then getr r "Gpr6" else getr r "Gpr5";
  SetPathAddr b v r := if b then setr "Gpr4" (u64 v) r else setr "Orig_gpr3" (u64 v) (setr "Gpr3" (u64 v) r);
  SetArgvAddr b v r := if b then setr "Gpr5" (u64 v) r else setr "Gpr4" (u64 v) r;
  SetEnvpAddr b v r := if b then setr "Gpr6" (u64 v) r else setr "Gpr5" (u64 v) r;
  StackPointer r := getr r "Gpr1";
  Ret r := (getr r "Gpr3", Z.land (getr r "Ccr") 0x10000000 =? 0);
  SetRetSuccess v r := setr "Ccr" (Z.ldiff (getr r "Ccr") 0x10000000) (setr "Gpr3" (u64 v) r);
  SetRetError v r := setr "Ccr" (Z.lor (getr r "Ccr") 0x10000000) (setr "Gpr3" (u64 v) r);
|}.

(** [rewrite_linux_mips_o32.go] with [rewrite_linux_mips.go]: 64-bit fields that
    carry 32-bit values; failure is a non-zero [a3]. *)
Definition arch_mips : Arch := {|
  SeccompArch := 0x00000008;
  SysExecve := 4011;
  SysExecveat := 4356;
  ptrSize := 4;
  big_endian := true;
  SyscallNum r := getr r "V0";
  BlockSyscall r := setr "V0" (u64 (-1)) r;
  PathAddr b r := if b then u32 (getr r "A1") else u32 (getr r "A0");
  ArgvAddr b r := if b then u32 (getr r "A2") else u32 (getr r "A1");
  EnvpAddr b r := if b then u32 (getr r "A3") else u32 (getr r "A2");
  SetPathAddr b v r := if b then setr "A1" (u32 v) r else setr "A0" (u32 v) r;
  SetArgvAddr b v r := if b then setr "A2" (u32 v) r else setr "A1" (u32 v) r;
  SetEnvpAddr b v r := if b then setr "A3" (u32 v) r else setr "A2" (u32 v) r;
  StackPointer r := u32 (getr r "SP");
  Ret r := (u32 (getr r "V0"), getr r "A3" =? 0);
  SetRetSuccess v r := setr "A3" 0 (setr "V0" (u32 v) r);
  SetRetError v r := setr "A3" 1 (setr "V0" (u32 v) r);
|}.

(** [rewrite_linux_mips_o32.go] with [rewrite_linux_mipsle.go]: 64-bit fields that
    carry 32-bit values; failure is a non-zero [a3]. *)
Definition arch_mipsle : Arch := {|
  SeccompArch := 0x40000008;
  SysExecve := 4011;
  SysExecveat := 4356;
  ptrSize := 4;
  big_endian := false;
  SyscallNum r := getr r "V0";
  BlockSyscall r := setr "V0" (u64 (-1)) r;
  PathAddr b r := if b then u32 (getr r "A1") else u32 (getr r "A0");
  ArgvAddr b r := if b then u32 (getr r "A2") else u32 (getr r "A1");
  EnvpAddr b r := if b then u32 (getr r "A3") else u32 (getr r "A2");
  SetPathAddr b v r := if b then setr "A1" (u32 v) r else setr "A0" (u32 v) r;
  SetArgvAddr b v r := if b then setr "A2" (u32 v) r else setr "A1" (u32 v) r;
  SetEnvpAddr b v r := if b then setr "A3" (u32 v) r else setr "A2" (u32 v) r;
  StackPointer r := u32 (getr r "SP");
  Ret r := (u32 (getr r "V0"), getr r "A3" =? 0);
  SetRetSuccess v r := setr "A3" 0 (setr "V0" (u32 v) r);
  SetRetError v r := setr "A3" 1 (setr "V0" (u32 v) r);
|}.

(** [rewrite_linux_mips64_n64.go] with [rewrite_linux_mips64.go]. *)
Definition arch_mips64 : Arch := {|
  SeccompArch := 0x80000008;
  SysExecve := 5057;
  SysExecveat := 5316;
  ptrSize := 8;
  big_endian := true;
  SyscallNum r := getr r "V0";
  BlockSyscall r := setr "V0" (u64 (-1)) r;
  PathAddr b r := if b then getr r "A1" else getr r "A0";
  ArgvAddr b r := if b then getr r "A2" else getr r "A1";
  EnvpAddr b r := if b then getr r "A3" else getr r "A2";
  SetPathAddr b v r := if b then setr "A1" (u64 v) r else setr "A0" (u64 v) r;
  SetArgvAddr b v r := if b then setr "A2" (u64 v) r else setr "A1" (u64 v) r;
  SetEnvpAddr b v r := if b then setr "A3" (u64 v) r else setr "A2" (u64 v) r;
  StackPointer r := getr r "SP";
  Ret r := (getr r "V0", getr r "A3" =? 0);
  SetRetSuccess v r := setr "A3" 0 (setr "V0" (u64 v) r);
  SetRetError v r := setr "A3" 1 (setr "V0" (u64 v) r);
|}.

(** [rewrite_linux_mips64_n64.go] with [rewrite_linux_mips64le.go]. *)
Definition arch_mips64le : Arch := {|
  SeccompArch := 0xC0000008;
  SysExecve := 5057;
  SysExecveat := 5316;
  ptrSize := 8;
  big_endian := false;
  SyscallNum r := getr r "V0";
  BlockSyscall r := setr "V0" (u64 (-1)) r;
  PathAddr b r := if b then getr r "A1" else getr r "A0";
  ArgvAddr b r := if b then getr r "A2" else getr r "A1";
  EnvpAddr b r := if b then getr r "A3" else getr r "A2";
  SetPathAddr b v r := if b then setr "A1" (u64 v) r else setr "A0" (u64 v) r;
  SetArgvAddr b v r := if b then setr "A2" (u64 v) r else setr "A1" (u64 v) r;
  SetEnvpAddr b v r := if b then setr "A3" (u64 v) r else setr "A2" (u64 v) r;
  StackPointer r := getr r "SP";
  Ret r := (getr r "V0", getr r "A3" =? 0);
  SetRetSuccess v r := setr "A3" 0 (setr "V0" (u64 v) r);
  SetRetError v r := setr "A3" 1 (setr "V0" (u64 v) r);
|}.

(** ** The laws hold on every architecture *)

Lemma getr_eq f v r : getr (setr f v r) f = v.
Proof. unfold getr, setr. by rewrite lookup_insert_eq. Qed.

Lemma getr_ne f g v r : f ≠ g → getr (setr f v r) g = getr r g.
Proof. intros. unfold getr, setr. by rewrite lookup_insert_ne. Qed.

Lemma swrap_neg w v : 0 < w → 0 < v < 2 ^ (w - 1) → swrap w (- v) = - v.
Proof.
  intros Hw Hv. assert (2 ^ w = 2 * 2 ^ (w - 1)) as He.
  { rewrite <- Z.pow_succ_r by lia. f_equal. lia. }
  unfold swrap, uwrap. rewrite (Z.mod_opp_l_nz v) by (rewrite ?Z.mod_small; lia).
  rewrite Z.mod_small by lia. rewrite (proj2 (Z.ltb_ge _ _)) by lia. lia.
Qed.

Lemma ret_neg_false w e : 0 < w → 0 < e < 2 ^ (w - 1) → (0 <=? swrap w (- swrap w e)) = false.
Proof.
  intros Hw He. rewrite (swrap_small w e) by lia. rewrite swrap_neg by done.
  apply Z.leb_gt. lia.
Qed.

Lemma land_ldiff_0 a m : Z.land (Z.ldiff a m) m = 0.
Proof.
  apply Z.bits_inj'. intros n _. rewrite Z.land_spec, Z.ldiff_spec, Z.bits_0.
  by destruct (Z.testbit a n), (Z.testbit m n).
Qed.

Lemma land_lor_absorb_r a x : Z.land (Z.lor a x) x = x.
Proof. rewrite Z.lor_comm. apply land_lor_absorb. Qed.

Lemma u32_lt31 v : 0 ≤ v < 2 ^ 31 → u32 v = v.
Proof. intros. apply uwrap_id. unfold is_u. lia. Qed.
Lemma u64_lt63 v : 0 ≤ v < 2 ^ 63 → u64 v = v.
Proof. intros. apply uwrap_id. unfold is_u. lia. Qed.

(** Reads of a written register file. *)
Ltac regs_simpl :=
  cbn [SeccompArch SysExecve SysExecveat ptrSize big_endian SyscallNum BlockSyscall PathAddr
       ArgvAddr EnvpAddr SetPathAddr SetArgvAddr SetEnvpAddr StackPointer Ret SetRetSuccess
       SetRetError ptr_bits fst snd] in *;
  repeat (rewrite getr_eq || rewrite getr_ne by done).

Ltac arch_law :=
  intros; repeat match goal with b : bool |- _ => destruct b end; regs_simpl;
  first
    [ done
    | by apply uwrap_id
    | unfold u32; rewrite ?uwrap_swrap, ?uwrap_idemp by lia; by apply uwrap_id
    | by split ].

Ltac arch_ret_ok :=
  intros; unfold ptr_bits in *; regs_simpl; unfold u32, u64;
  rewrite ?land_ldiff_0, ?uwrap_idemp, ?uwrap_swrap, ?swrap_uwrap, ?uwrap_id by (unfold is_u; lia);
  f_equal; rewrite ?swrap_small by lia; lia.

Ltac arch_ret_err :=
  intros; unfold ptr_bits in *; regs_simpl; unfold u32, u64;
  rewrite ?swrap_uwrap by lia;
  first [ done | apply ret_neg_false; lia
        | rewrite land_lor_absorb_r; done ].

Ltac arch_laws :=
  match goal with |- ArchLaws ?a => unfold a end; constructor; unfold ptr_bits;
  [ first [by left | by right] | arch_law .. | arch_ret_ok | arch_ret_err ].

#[export] Instance laws_amd64 : ArchLaws arch_amd64.
Proof. arch_laws. Qed.
#[export] Instance laws_386 : ArchLaws arch_386.
Proof. arch_laws. Qed.
#[export] Instance laws_arm64 : ArchLaws arch_arm64.
Proof. arch_laws. Qed.
#[export] Instance laws_arm : ArchLaws arch_arm.
Proof. arch_laws. Qed.
#[export] Instance laws_riscv64 : ArchLaws arch_riscv64.
Proof. arch_laws. Qed.
#[export] Instance laws_s390x : ArchLaws arch_s390x.
Proof. arch_laws. Qed.
#[export] Instance laws_loong64 : ArchLaws arch_loong64.
Proof. arch_laws. Qed.
#[export] Instance laws_ppc64 : ArchLaws arch_ppc64.
Proof. arch_laws. Qed.
#[export] Instance laws_ppc64le : ArchLaws arch_ppc64le.
Proof. arch_laws. Qed.
#[export] Instance laws_mips : ArchLaws arch_mips.
Proof. arch_laws. Qed.
#[export] Instance laws_mipsle : ArchLaws arch_mipsle.
Proof. arch_laws. Qed.
#[export] Instance laws_mips64 : ArchLaws arch_mips64.
Proof. arch_laws. Qed.
#[export] Instance laws_mips64le : ArchLaws arch_mips64le.
Proof. arch_laws. Qed.

(** ** Which architectures keep the syscall number across the result *)

Ltac ret_sysno :=
  intros ??; regs_simpl; unfold SyscallNum, SetRetSuccess; simpl; regs_simpl; done.

#[export] Instance keeps_amd64 : RetKeepsSysno arch_amd64.
Proof. ret_sysno. Qed.
#[export] Instance keeps_386 : RetKeepsSysno arch_386.
Proof. ret_sysno. Qed.
#[export] Instance keeps_arm64 : RetKeepsSysno arch_arm64.
Proof. ret_sysno. Qed.
#[export] Instance keeps_arm : RetKeepsSysno arch_arm.
Proof. ret_sysno. Qed.
#[export] Instance keeps_riscv64 : RetKeepsSysno arch_riscv64.
Proof. ret_sysno. Qed.
#[export] Instance keeps_s390x : RetKeepsSysno arch_s390x.
Proof. ret_sysno. Qed.
#[export] Instance keeps_loong64 : RetKeepsSysno arch_loong64.
Proof. ret_sysno. Qed.
#[export] Instance keeps_ppc64 : RetKeepsSysno arch_ppc64.
Proof. ret_sysno. Qed.
#[export] Instance keeps_ppc64le : RetKeepsSysno arch_ppc64le.
Proof. ret_sysno. Qed.

Definition mips_archs : list Arch := [arch_mips; arch_mipsle; arch_mips64; arch_mips64le].
Definition other_archs : list Arch :=
  [arch_amd64; arch_386; arch_arm64; arch_arm; arch_riscv64; arch_s390x; arch_loong64;
   arch_ppc64; arch_ppc64le].
Definition all_archs : list Arch := other_archs ++ mips_archs.

Lemma all_archs_laws a : a ∈ all_archs → ArchLaws a.
Proof.
  unfold all_archs, other_archs, mips_archs. simpl. rewrite !elem_of_cons, elem_of_nil.
  intros H. repeat (destruct H as [->|H]; [apply _|]). done.
Qed.

Lemma other_archs_keep a : a ∈ other_archs → RetKeepsSysno a.
Proof.
  unfold other_archs. rewrite !elem_of_cons, elem_of_nil.
  intros H. repeat (destruct H as [->|H]; [apply _|]). done.
Qed.

(** On every architecture the replaced exec arguments read back, the
    syscall number survives the replacement, a blocked syscall is no exec, and
    results read back with their success flag. *)
Theorem arch_rewrite_commits a b p v e r :
  a ∈ all_archs → is_u (ptr_bits a) p → is_u (ptr_bits a) v → is_u (ptr_bits a) e →
  let r' := SetEnvpAddr a b e (SetArgvAddr a b v (SetPathAddr a b p r)) in
  PathAddr a b r' = p ∧ ArgvAddr a b r' = v ∧ EnvpAddr a b r' = e ∧
  SyscallNum a r' = SyscallNum a r.
Proof.
  intros Ha%all_archs_laws Hp Hv He. cbv zeta. split_and!.
  - by rewrite law_path_envp, law_path_argv, law_path_get.
  - by rewrite law_argv_envp, law_argv_get.
  - by rewrite law_envp_get.
  - by rewrite law_sysno_envp, law_sysno_argv, law_sysno_path.
Qed.

(** Blocking an exec leaves a syscall number that is neither [execve] nor
    [execveat], and a result set by the tracer reads back with the matching
    success flag, on every architecture. *)
Theorem arch_block_and_result a r v err :
  a ∈ all_archs → 0 ≤ v < 2 ^ (ptr_bits a - 1) → 0 < err < 2 ^ (ptr_bits a - 1) →
  (SyscallNum a (BlockSyscall a r) ∉ [SysExecve a; SysExecveat a]) ∧
  Ret a (SetRetSuccess a v r) = (v, true) ∧ (Ret a (SetRetError a err r)).2 = false.
Proof.
  intros Ha%all_archs_laws Hv He. destruct (law_block (a := a) r) as [H1 H2].
  split_and!; [set_solver|by apply law_ret_ok|by apply law_ret_err].
Qed.

(** On MIPS the result register is the syscall-number register, so after
    the kernel stores a result the exit stop reads that result as the syscall
    number; on the other architectures the number is untouched. *)
Theorem mips_result_clobbers_sysno :
  (∀ a, a ∈ other_archs → ∀ v r, SyscallNum a (SetRetSuccess a v r) = SyscallNum a r) ∧
  (∀ a, a ∈ mips_archs → ∀ v r, 0 ≤ v < 2 ^ 31 → SyscallNum a (SetRetSuccess a v r) = v).
Proof.
  split.
  - intros a Ha%other_archs_keep v r. apply law_ret_sysno.
  - unfold mips_archs. intros a Ha v r Hv. rewrite !elem_of_cons, elem_of_nil in Ha.
    repeat (destruct Ha as [->|Ha]; [unfold SyscallNum, SetRetSuccess; simpl; regs_simpl;
      apply uwrap_id; unfold is_u; lia|]). done.
Qed.

(** ** Witnesses *)

Lemma arch_rewrite_commits_witness :
  let r' := SetEnvpAddr arch_arm64 true 48 (SetArgvAddr arch_arm64 true 32 (SetPathAddr arch_arm64 true 16 ∅)) in
  PathAddr arch_arm64 true r' = 16 ∧ ArgvAddr arch_arm64 true r' = 32 ∧ EnvpAddr arch_arm64 true r' = 48 ∧
  SyscallNum arch_arm64 r' = SyscallNum arch_arm64 ∅.
Proof.
  apply (arch_rewrite_commits arch_arm64 true 16 32 48 ∅); [|by (split; vm_compute)..].
  unfold all_archs, other_archs. simpl. do 2 right. left.
Defined.

Lemma arch_block_and_result_witness :
  (SyscallNum arch_amd64 (BlockSyscall arch_amd64 ∅) ∉ [59; 322]) ∧
  Ret arch_amd64 (SetRetSuccess arch_amd64 7 ∅) = (7, true) ∧
  (Ret arch_amd64 (SetRetError arch_amd64 2 ∅)).2 = false.
Proof. apply (arch_block_and_result arch_amd64 ∅ 7 2); [left|by (split; vm_compute)..]. Defined.
