(* ===== verification/TraceeMemory.v ===== *)
(** * TraceeMemory: reading and writing a tracee's address space

    Models [pkg/tracer/memory.go].  The system calls [process_vm_readv] and
    [process_vm_writev] are an interface ([TraceeVM]): [byte_at] says what a
    mapped address holds and [writable] whether it may be written; the laws
    state the documented behaviour of the calls, partial transfers included.
    A flat memory implements the interface.  The main theorem is the round
    trip: the string array [WriteStringArray] lays out is the one
    [ReadStringArray] reads back. *)

From S2P Require Import Prelude GoStrings Arch.
Local Open Scope Z_scope.

Definition NUL : ascii := "000"%char.

(** ** The system-call interface *)

Class TraceeVM (M : Type) := {
  byte_at : M → Z → option ascii;
  writable : M → Z → bool;
  vm_readv : M → Z → Z → option (list ascii);
  vm_writev : M → Z → list ascii → option (Z * M);
}.

Class TraceeVMLaws (M : Type) `{TraceeVM M} := {
  (** a read returns the bytes at the address, at most as many as asked for *)
  readv_sound (m : M) a n l : vm_readv m a n = Some l →
    Z.of_nat (length l) ≤ n ∧
    ∀ i c, l !! i = Some c → byte_at m (a + Z.of_nat i) = Some c;
  (** a read reaches at least as far as the memory is mapped *)
  readv_mapped (m : M) a n k : (0 < k)%nat → Z.of_nat k ≤ n →
    (∀ i, (i < k)%nat → is_Some (byte_at m (a + Z.of_nat i))) →
    ∃ l, vm_readv m a n = Some l ∧ (k ≤ length l)%nat;
  (** a write stores a prefix of the data and nothing else *)
  writev_sound (m m' : M) a d n : vm_writev m a d = Some (n, m') →
    0 ≤ n ≤ Z.of_nat (length d) ∧
    (∀ x, byte_at m' x = if bool_decide (a ≤ x < a + n) then d !! Z.to_nat (x - a) else byte_at m x) ∧
    (∀ x, writable m' x = writable m x);
  (** a write into writable memory stores all of the data *)
  writev_writable (m : M) a d :
    (∀ i, (i < length d)%nat → writable m (a + Z.of_nat i) = true) →
    ∃ m', vm_writev m a d = Some (Z.of_nat (length d), m');
}.

(** ** memory.go *)

Definition str_bytes (s : string) : list ascii := Stdlib.Strings.String.list_ascii_of_string s.
Definition bytes_str (l : list ascii) : string := Stdlib.Strings.String.string_of_list_ascii l.

(** [bytes.IndexByte(buf, 0)] and the slice before it. *)
Fixpoint until_nul (l : list ascii) : list ascii :=
  match l with
  | [] => []
  | c :: l => if Ascii.eqb c NUL then [] else c :: until_nul l
  end.

Definition read_window : Z := 4096.

Definition ascii_of_Z (z : Z) : ascii := ascii_of_N (Z.to_N (z mod 256)).
Definition Z_of_ascii (c : ascii) : Z := Z.of_N (N_of_ascii c).

(** The in-memory image of a pointer-sized value, low byte first. *)
Fixpoint le_bytes (n : nat) (v : Z) : list ascii :=
  match n with O => [] | S n => ascii_of_Z v :: le_bytes n (v / 256) end.
Fixpoint le_value (l : list ascii) : Z :=
  match l with [] => 0 | c :: l => Z_of_ascii c + 256 * le_value l end.

Section memory.
Context {M : Type} `{TraceeVM M} (arch : Arch).

Definition ReadString (m : M) (addr : Z) : option string :=
  if addr =? 0 then Some ""
  else match vm_readv m addr read_window with
       | None => None
       | Some buf => Some (bytes_str (until_nul buf))
       end.

Definition psize : nat := Z.to_nat (ptrSize arch).
Definition pwrap : Z → Z := uwrap (ptr_bits arch).

Definition ptr_bytes (v : Z) : list ascii :=
  if big_endian arch then reverse (le_bytes psize v) else le_bytes psize v.
Definition ptr_value (l : list ascii) : Z :=
  if big_endian arch then le_value (reverse l) else le_value l.

(** The buffer is a zeroed variable: bytes a short read leaves out stay 0. *)
Definition ReadPointer (m : M) (addr : Z) : option Z :=
  match vm_readv m addr (ptrSize arch) with
  | None => None
  | Some buf => Some (ptr_value (buf ++ replicate (psize - length buf) NUL))
  end.

Inductive read_error : Type := VMFault | OutOfFuel.

(** The loop reads pointers until a NULL one; [fuel] bounds it. *)
Fixpoint read_array (fuel : nat) (m : M) (addr i : Z) : result read_error (list string) :=
  match fuel with
  | O => Err OutOfFuel
  | S fuel =>
      match ReadPointer m (pwrap (addr + i * ptrSize arch)) with
      | None => Err VMFault
      | Some ptr =>
          if ptr =? 0 then Ok []
          else match ReadString m ptr with
               | None => Err VMFault
               | Some s => result_bind (read_array fuel m addr (i + 1)) (λ l, Ok (s :: l))
               end
      end
  end.

Definition ReadStringArray (fuel : nat) (m : M) (addr : Z) : result read_error (list string) :=
  if addr =? 0 then Ok [] else read_array fuel m addr 0.

(** [WriteBytes] looks at the error only, not at the number of bytes. *)
Definition WriteBytes (m : M) (addr : Z) (data : list ascii) : option M :=
  match data with
  | [] => Some m
  | _ => match vm_writev m addr data with Some (_, m') => Some m' | None => None end
  end.

(** [ptrs[i] = dataStart + offset], offset growing by [len(s) + 1]. *)
Fixpoint array_ptrs (dataStart offset : Z) (strs : list string) : list Z :=
  match strs with
  | [] => [0]
  | s :: strs => pwrap (dataStart + offset) :: array_ptrs dataStart (offset + Z.of_nat (slen s) + 1) strs
  end.

Definition cstring (s : string) : list ascii := str_bytes s ++ [NUL].
Definition string_data (strs : list string) : list ascii := strs ≫= cstring.

Definition table_size (strs : list string) : Z := (Z.of_nat (length strs) + 1) * ptrSize arch.

Definition WriteStringArray (m : M) (addr : Z) (strs : list string) : option (Z * M) :=
  let tableSize := table_size strs in
  let dataStart := pwrap (addr + tableSize) in
  let data := string_data strs in
  match WriteBytes m addr (array_ptrs dataStart 0 strs ≫= ptr_bytes) with
  | None => None
  | Some m =>
      match WriteBytes m dataStart data with
      | None => None
      | Some m => Some (tableSize + Z.of_nat (length data), m)
      end
  end.

End memory.

(** ** A flat memory *)

(** Every byte of the map is mapped and writable; transfers stop at the first
    address that is not. *)
Fixpoint flat_read (m : gmap Z ascii) (a : Z) (n : nat) : list ascii :=
  match n with
  | O => []
  | S n => match m !! a with Some c => c :: flat_read m (a + 1) n | None => [] end
  end.

Fixpoint flat_write (m : gmap Z ascii) (a : Z) (d : list ascii) : Z * gmap Z ascii :=
  match d with
  | [] => (0, m)
  | c :: d =>
      match m !! a with
      | None => (0, m)
      | Some _ => let '(n, m) := flat_write (<[a := c]> m) (a + 1) d in (n + 1, m)
      end
  end.

#[export] Instance flat_vm : TraceeVM (gmap Z ascii) := {|
  byte_at m a := m !! a;
  writable m a := bool_decide (is_Some (m !! a));
  vm_readv m a n :=
    match flat_read m a (Z.to_nat n) with [] => if n =? 0 then Some [] else None | l => Some l end;
  vm_writev m a d :=
    match d, flat_write m a d with
    | [], _ => Some (0, m)
    | _, (n, m') => if n =? 0 then None else Some (n, m')
    end;
|}.

Lemma flat_read_length m a n : (length (flat_read m a n) ≤ n)%nat.
Proof. revert a. induction n as [|n IH]; intros a; simpl; [lia|]. case_match; simpl; [|lia]. specialize (IH (a + 1)). lia. Qed.

Lemma flat_read_lookup m a n i c :
  flat_read m a n !! i = Some c → m !! (a + Z.of_nat i) = Some c.
Proof.
  revert a i. induction n as [|n IH]; intros a i; simpl; [done|].
  destruct (m !! a) as [d|] eqn:E; [|done]. destruct i as [|i]; simpl; intros Hi.
  - rewrite Z.add_0_r. congruence.
  - apply IH in Hi. by replace (a + Z.of_nat (S i)) with (a + 1 + Z.of_nat i) by lia.
Qed.

Lemma flat_read_mapped m a n k :
  (k ≤ n)%nat → (∀ i, (i < k)%nat → is_Some (m !! (a + Z.of_nat i))) →
  (k ≤ length (flat_read m a n))%nat.
Proof.
  revert a n. induction k as [|k IH]; intros a n Hk Hm; [lia|]. destruct n as [|n]; [lia|]. simpl.
  destruct (Hm 0%nat) as [c Hc]; [lia|]. rewrite Z.add_0_r in Hc. rewrite Hc. simpl.
  apply le_n_S, IH; [lia|]. intros i Hi.
  replace (a + 1 + Z.of_nat i) with (a + Z.of_nat (S i)) by lia. apply Hm. lia.
Qed.

Lemma flat_write_sound m a d n m' :
  flat_write m a d = (n, m') →
  0 ≤ n ≤ Z.of_nat (length d) ∧
  (∀ x, m' !! x = if bool_decide (a ≤ x < a + n) then d !! Z.to_nat (x - a) else m !! x) ∧
  (∀ x, is_Some (m' !! x) ↔ is_Some (m !! x)).
Proof.
  revert m a n m'. induction d as [|c d IH]; intros m a n m' Hw; simpl in Hw.
  { simplify_eq. simpl. split_and!; [lia..| |done]. intros x. rewrite bool_decide_false; [done|lia]. }
  destruct (m !! a) as [e|] eqn:Ea.
  2:{ simplify_eq. simpl. split_and!; [lia..| |done]. intros x. rewrite bool_decide_false; [done|lia]. }
  destruct (flat_write _ (a + 1) d) as [n0 m0] eqn:E0. simplify_eq.
  destruct (IH _ _ _ _ E0) as (Hn & Hx & Hs). simpl. split_and!; [lia..| |].
  - intros x. rewrite Hx, lookup_insert. destruct (decide (a = x)) as [->|Hne].
    + rewrite bool_decide_false by lia. rewrite bool_decide_true by lia.
      by rewrite Z.sub_diag.
    + rewrite (bool_decide_ext (a ≤ x < a + (n0 + 1)) (a + 1 ≤ x < a + 1 + n0)) by lia.
      case_bool_decide; [|done].
      replace (Z.to_nat (x - a)) with (S (Z.to_nat (x - (a + 1)))) by lia. done.
  - intros x. rewrite Hs, lookup_insert. case_decide; [|done]. subst. rewrite Ea. by split; eauto.
Qed.

Lemma flat_write_all m a d :
  (∀ i, (i < length d)%nat → is_Some (m !! (a + Z.of_nat i))) →
  (flat_write m a d).1 = Z.of_nat (length d).
Proof.
  revert m a. induction d as [|c d IH]; intros m a Hm; [done|]. simpl.
  destruct (Hm 0%nat) as [e He]; [simpl; lia|]. rewrite Z.add_0_r in He. rewrite He.
  specialize (IH (<[a:=c]> m) (a + 1)). destruct (flat_write _ _ _) as [n m'] eqn:E. simpl in *.
  rewrite IH; [lia|]. intros i Hi. apply lookup_insert_is_Some'. right.
  replace (a + 1 + Z.of_nat i) with (a + Z.of_nat (S i)) by lia. apply Hm. lia.
Qed.

#[export] Instance flat_vm_laws : TraceeVMLaws (gmap Z ascii).
Proof.
  constructor.
  - intros m a n l Hr. cbn in Hr. pose proof (flat_read_length m a (Z.to_nat n)) as Hl.
    destruct (flat_read m a (Z.to_nat n)) as [|c l0] eqn:E.
    + destruct (n =? 0) eqn:En; simplify_eq. apply Z.eqb_eq in En. split; [simpl; lia|done].
    + simplify_eq. split; [simpl in *; lia|]. intros i d. rewrite <- E. apply flat_read_lookup.
  - intros m a n k Hk Hn Hm. cbn.
    assert (k ≤ length (flat_read m a (Z.to_nat n)))%nat as Hl by (apply flat_read_mapped; [lia|done]).
    destruct (flat_read m a (Z.to_nat n)) as [|c l] eqn:E; [simpl in Hl; lia|]. eauto.
  - intros m m' a d n Hw. cbn -[flat_write] in Hw. destruct d as [|c d].
    + simplify_eq. split_and!; [simpl; lia..| |done]. intros x. by rewrite bool_decide_false by lia.
    + destruct (flat_write m a (c :: d)) as [n0 m0] eqn:E. destruct (n0 =? 0); simplify_eq.
      apply flat_write_sound in E as (Hn & Hx & Hs). split; [done|]. split; [done|].
      intros x. cbn. by apply bool_decide_ext.
  - intros m a d Hm. cbn -[flat_write] in *. destruct d as [|c d]; [by eexists|].
    pose proof (flat_write_all m a (c :: d)) as Hn.
    destruct (flat_write m a (c :: d)) as [n0 m0]. cbn [fst] in Hn. rewrite Hn.
    + simpl length. rewrite (proj2 (Z.eqb_neq _ _)) by lia. eauto.
    + intros i Hi. specialize (Hm i Hi). by apply bool_decide_eq_true in Hm.
Qed.

(** ** Bytes of pointers and strings *)

Lemma Z_of_ascii_range c : 0 ≤ Z_of_ascii c < 256.
Proof. unfold Z_of_ascii. pose proof (N_ascii_bounded c). lia. Qed.

Lemma Z_of_ascii_of_Z v : Z_of_ascii (ascii_of_Z v) = v mod 256.
Proof.
  unfold Z_of_ascii, ascii_of_Z. pose proof (Z.mod_pos_bound v 256).
  rewrite N_ascii_embedding by lia. lia.
Qed.

Lemma le_bytes_length n v : length (le_bytes n v) = n.
Proof. revert v. induction n as [|n IH]; intros v; simpl; auto. Qed.

Lemma le_value_bytes n v : 0 ≤ v < 2 ^ (8 * Z.of_nat n) → le_value (le_bytes n v) = v.
Proof.
  revert v. induction n as [|n IH]; intros v Hv; simpl.
  - simpl in Hv. lia.
  - rewrite Z_of_ascii_of_Z, IH.
    + pose proof (Z.div_mod v 256). lia.
    + replace (8 * Z.of_nat (S n)) with (8 + 8 * Z.of_nat n) in Hv by lia.
      rewrite Z.pow_add_r in Hv by lia. split; [apply Z.div_pos; lia|].
      apply Z.div_lt_upper_bound; lia.
Qed.

Lemma length_str_bytes s : length (str_bytes s) = slen s.
Proof. induction s as [|c s IH]; simpl; [done|]. by rewrite IH. Qed.

Lemma bytes_str_bytes s : bytes_str (str_bytes s) = s.
Proof. apply Stdlib.Strings.String.string_of_list_ascii_of_string. Qed.

Lemma length_cstring s : length (cstring s) = S (slen s).
Proof. unfold cstring. rewrite length_app, length_str_bytes. simpl. lia. Qed.

(** A string with no NUL byte: what a C string can carry. *)
Definition nul_free (s : string) : Prop := contains_byte NUL s = false.

Lemma until_nul_cstring s l : nul_free s → until_nul (str_bytes s ++ NUL :: l) = str_bytes s.
Proof.
  unfold nul_free. induction s as [|c s IH]; simpl; intros Hs; [done|].
  apply orb_false_elim in Hs as [-> Hs]. by rewrite IH.
Qed.

Section memory_theorems.
Context {M : Type} `{TraceeVMLaws M} (arch : Arch) `{!ArchLaws arch}.

(** [m] holds [l] from address [a] on. *)
Definition mem_holds (m : M) (a : Z) (l : list ascii) : Prop :=
  ∀ i c, l !! i = Some c → byte_at m (a + Z.of_nat i) = Some c.

Definition mem_writable (m : M) (a n : Z) : Prop := ∀ x, a ≤ x < a + n → writable m x = true.

Lemma mem_holds_app m a l k :
  mem_holds m a (l ++ k) ↔ mem_holds m a l ∧ mem_holds m (a + Z.of_nat (length l)) k.
Proof.
  unfold mem_holds. split.
  - intros Hm. split; intros i c Hi.
    + apply Hm. by apply lookup_app_l_Some.
    + replace (a + Z.of_nat (length l) + Z.of_nat i) with (a + Z.of_nat (length l + i)) by lia.
      apply Hm. rewrite lookup_app_r by lia. by replace (length l + i - length l)%nat with i by lia.
  - intros [Hl Hk] i c Hi. apply lookup_app_Some in Hi as [Hi|[Hge Hi]]; [auto|].
    apply Hk in Hi. by replace (a + Z.of_nat (length l) + Z.of_nat (i - length l)) with (a + Z.of_nat i) in Hi by lia.
Qed.

(** A read of held bytes returns them first. *)
Lemma readv_holds m a n l :
  mem_holds m a l → (0 < length l)%nat → Z.of_nat (length l) ≤ n →
  ∃ k, vm_readv m a n = Some (l ++ k) ∧ Z.of_nat (length (l ++ k)) ≤ n.
Proof.
  intros Hm Hl Hn. destruct (readv_mapped m a n (length l)) as (buf & Hr & Hlen); [done..| |].
  { intros i Hi. destruct (lookup_lt_is_Some_2 l i Hi) as [c Hc]. exists c. by apply Hm. }
  destruct (readv_sound m a n buf Hr) as [Hbn Hs].
  assert (take (length l) buf = l) as Ht.
  { apply list_eq. intros i. destruct (decide (i < length l)%nat) as [Hi|Hi].
    - rewrite lookup_take_lt by done. destruct (lookup_lt_is_Some_2 l i Hi) as [c Hc].
      destruct (lookup_lt_is_Some_2 buf i) as [d Hd]; [lia|].
      rewrite Hc, Hd. f_equal. apply Hm in Hc. apply Hs in Hd. congruence.
    - rewrite lookup_take_ge, (proj2 (lookup_ge_None l i)) by lia. done. }
  exists (drop (length l) buf). rewrite <- Ht at 1. rewrite take_drop. split; [done|].
  rewrite <- Ht, length_app, length_take, length_drop. lia.
Qed.

Lemma ReadString_holds m a s :
  a ≠ 0 → nul_free s → Z.of_nat (slen s) < read_window →
  mem_holds m a (cstring s) → ReadString m a = Some s.
Proof.
  intros Ha Hs Hl Hm. unfold ReadString. rewrite (proj2 (Z.eqb_neq _ _)) by done.
  destruct (readv_holds m a read_window (cstring s)) as (k & Hr & _); rewrite ?length_cstring; [done|lia..|].
  rewrite Hr. unfold cstring. rewrite <- app_assoc. simpl.
  by rewrite until_nul_cstring, bytes_str_bytes.
Qed.

Lemma psize_pos : (0 < psize arch)%nat ∧ Z.of_nat (psize arch) = ptrSize arch.
Proof. unfold psize. destruct law_ptrSize as [-> | ->]; simpl; lia. Qed.

Lemma length_ptr_bytes v : length (ptr_bytes arch v) = psize arch.
Proof. unfold ptr_bytes. case_match; by rewrite ?length_reverse, le_bytes_length. Qed.

Lemma ptr_value_bytes v : is_u (ptr_bits arch) v → ptr_value arch (ptr_bytes arch v) = v.
Proof.
  unfold is_u, ptr_bits. intros Hv. destruct psize_pos as [_ Hp].
  unfold ptr_value, ptr_bytes. destruct (big_endian arch);
    rewrite ?reverse_involutive; apply le_value_bytes; by rewrite Hp.
Qed.

Lemma ReadPointer_holds m a v :
  is_u (ptr_bits arch) v → mem_holds m a (ptr_bytes arch v) → ReadPointer arch m a = Some v.
Proof.
  intros Hv Hm. destruct psize_pos as [Hp0 Hp]. unfold ReadPointer.
  destruct (readv_holds m a (ptrSize arch) (ptr_bytes arch v)) as (k & Hr & Hk);
    rewrite ?length_ptr_bytes; [done|lia..|].
  rewrite length_app, length_ptr_bytes in Hk. destruct k; [|simpl in Hk; lia].
  rewrite Hr, app_nil_r, length_ptr_bytes, Nat.sub_diag. simpl. rewrite app_nil_r.
  by rewrite ptr_value_bytes.
Qed.

(** A write into writable memory: the bytes are there, the rest is as before. *)
Lemma WriteBytes_writable m a d :
  mem_writable m a (Z.of_nat (length d)) →
  ∃ m', WriteBytes m a d = Some m' ∧ mem_holds m' a d ∧
    (∀ x, ¬ a ≤ x < a + Z.of_nat (length d) → byte_at m' x = byte_at m x) ∧
    (∀ x, writable m' x = writable m x).
Proof.
  intros Hw. destruct d as [|c d].
  { exists m. split_and!; [done| |done..]. intros i e. by rewrite lookup_nil. }
  unfold WriteBytes. destruct (writev_writable m a (c :: d)) as [m' Hm'].
  { intros i Hi. apply Hw. lia. }
  rewrite Hm'. exists m'. destruct (writev_sound _ _ _ _ _ Hm') as (_ & Hx & Hww).
  split_and!; [done| | |done].
  - intros i e Hi. rewrite Hx, bool_decide_true by (apply lookup_lt_Some in Hi; lia).
    by replace (Z.to_nat (a + Z.of_nat i - a)) with i by lia.
  - intros x Hne. by rewrite Hx, bool_decide_false.
Qed.

(** Whatever part of the data a write stores, the rest of the memory is as before. *)
Lemma WriteBytes_outside m a d m' :
  WriteBytes m a d = Some m' → ∀ x, ¬ a ≤ x < a + Z.of_nat (length d) → byte_at m' x = byte_at m x.
Proof.
  unfold WriteBytes. destruct d as [|c d]; [by intros [= ->]|].
  destruct (vm_writev m a (c :: d)) as [[n m1]|] eqn:Hw; [|done]. intros [= ->] x Hx.
  destruct (writev_sound _ _ _ _ _ Hw) as (Hn & Hb & _). rewrite Hb, bool_decide_false; [done|lia].
Qed.

(** The data is stored as a whole, or the call fails. *)
Definition whole_write (m : M) (a : Z) (d : list ascii) : Prop :=
  ∀ n m', vm_writev m a d = Some (n, m') → n = Z.of_nat (length d).

Lemma WriteBytes_whole m a d m' : whole_write m a d → WriteBytes m a d = Some m' → mem_holds m' a d.
Proof.
  intros Hwh. unfold WriteBytes. destruct d as [|c d]; [intros _ i e; by rewrite lookup_nil|].
  destruct (vm_writev m a (c :: d)) as [[n m1]|] eqn:Hw; [|done]. intros [= ->] i e Hi.
  destruct (writev_sound _ _ _ _ _ Hw) as (_ & Hb & _). rewrite (Hwh _ _ Hw) in Hb.
  rewrite Hb, bool_decide_true by (apply lookup_lt_Some in Hi; lia).
  by replace (Z.to_nat (a + Z.of_nat i - a)) with i by lia.
Qed.

Lemma writable_whole m a d : mem_writable m a (Z.of_nat (length d)) → whole_write m a d.
Proof.
  intros Hw n m' Hm. destruct (writev_writable m a d) as [m2 H2]; [intros i Hi; apply Hw; lia|]. congruence.
Qed.

Lemma mem_holds_frame m m' a d b n :
  mem_holds m a d → (∀ x, ¬ b ≤ x < b + n → byte_at m' x = byte_at m x) →
  a + Z.of_nat (length d) ≤ b ∨ b + n ≤ a → mem_holds m' a d.
Proof.
  intros Hm Hf Hd i c Hi. rewrite Hf; [by apply Hm|]. apply lookup_lt_Some in Hi. lia.
Qed.

(** ** String arrays *)

(** A string that [ReadString] can read back in one window. *)
Definition readable (s : string) : Prop := nul_free s ∧ Z.of_nat (slen s) < read_window.

Lemma length_string_data_cons s strs :
  Z.of_nat (length (string_data (s :: strs))) = Z.of_nat (slen s) + 1 + Z.of_nat (length (string_data strs)).
Proof.
  change (string_data (s :: strs)) with (cstring s ++ string_data strs).
  rewrite length_app, length_cstring. lia.
Qed.

Lemma pwrap_id v : is_u (ptr_bits arch) v → pwrap arch v = v.
Proof. apply uwrap_id. Qed.

Lemma is_u_0 : is_u (ptr_bits arch) 0.
Proof. destruct psize_pos. split; [lia|]. apply Z.pow_pos_nonneg; unfold ptr_bits; lia. Qed.

Lemma read_array_holds fuel m addr i strs dataStart off :
  (length strs < fuel)%nat → 0 ≤ i → 0 ≤ addr →
  addr + (i + Z.of_nat (length strs) + 1) * ptrSize arch ≤ 2 ^ ptr_bits arch →
  0 < dataStart + off →
  dataStart + off + Z.of_nat (length (string_data strs)) ≤ 2 ^ ptr_bits arch →
  Forall readable strs →
  mem_holds m (addr + i * ptrSize arch) (array_ptrs arch dataStart off strs ≫= ptr_bytes arch) →
  mem_holds m (dataStart + off) (string_data strs) →
  read_array arch fuel m addr i = Ok strs.
Proof.
  destruct psize_pos as [Hp0 Hp]. intros Hf Hi Ha Hat Hd Hdt Hr. revert fuel i off Hf Hi Hat Hd Hdt.
  induction Hr as [|s strs [Hn Hl] Hr IH]; intros [|fuel] i off Hf Hi Hat Hd Hdt Ht Hm; try (simpl in Hf; lia).
  - simpl in *. rewrite app_nil_r in Ht. rewrite pwrap_id by (split; nia).
    rewrite (ReadPointer_holds _ _ 0); [done| |done]. apply is_u_0.
  - rewrite length_string_data_cons in Hdt. simpl in Ht. apply mem_holds_app in Ht as [Ht1 Ht2].
    unfold string_data in Hm. simpl in Hm. apply mem_holds_app in Hm as [Hm1 Hm2].
    rewrite length_cstring in Hm2. rewrite length_ptr_bytes in Ht2. simpl length in *.
    simpl. rewrite pwrap_id by (split; nia).
    rewrite pwrap_id in Ht1 by (split; lia).
    rewrite (ReadPointer_holds _ _ (dataStart + off)); [|split; lia|done].
    rewrite (proj2 (Z.eqb_neq _ _)) by lia.
    rewrite (ReadString_holds _ _ s) by (done || lia).
    rewrite (IH fuel (i + 1) (off + Z.of_nat (slen s) + 1)); [done|lia|lia|nia|lia|lia| |].
    + replace (addr + (i + 1) * ptrSize arch) with (addr + i * ptrSize arch + Z.of_nat (psize arch)) by lia. done.
    + replace (dataStart + (off + Z.of_nat (slen s) + 1)) with (dataStart + off + Z.of_nat (S (slen s))) by lia. done.
Qed.

Lemma length_table strs dataStart off :
  Z.of_nat (length (array_ptrs arch dataStart off strs ≫= ptr_bytes arch)) = table_size arch strs.
Proof.
  destruct psize_pos as [_ Hp]. unfold table_size. revert off.
  induction strs as [|s strs IH]; intros off; simpl; rewrite length_app, length_ptr_bytes.
  - simpl. lia.
  - rewrite Nat2Z.inj_add, IH. lia.
Qed.

(** The bytes [WriteStringArray] uses: the table and the strings. *)
Definition array_size (strs : list string) : Z :=
  table_size arch strs + Z.of_nat (length (string_data strs)).

Lemma table_size_pos strs : 0 < table_size arch strs.
Proof. destruct psize_pos. unfold table_size. nia. Qed.

(** [m] holds the image of [strs] at [addr]: the pointer table, then the
    strings. *)
Definition array_at (m : M) (addr : Z) (strs : list string) : Prop :=
  mem_holds m addr (array_ptrs arch (addr + table_size arch strs) 0 strs ≫= ptr_bytes arch) ∧
  mem_holds m (addr + table_size arch strs) (string_data strs).

Lemma array_at_frame m m' addr strs b n :
  array_at m addr strs → (∀ x, ¬ b ≤ x < b + n → byte_at m' x = byte_at m x) →
  addr + array_size strs ≤ b ∨ b + n ≤ addr → array_at m' addr strs.
Proof.
  intros [Ht Hd] Hf Hdis. pose proof (table_size_pos strs).
  pose proof (length_table strs (addr + table_size arch strs) 0) as Hl.
  unfold array_size in Hdis. split; (eapply mem_holds_frame; [done..|]); lia.
Qed.

Lemma array_at_read m addr strs fuel :
  0 < addr → addr + array_size strs ≤ 2 ^ ptr_bits arch → Forall readable strs →
  (length strs < fuel)%nat → array_at m addr strs → ReadStringArray arch fuel m addr = Ok strs.
Proof.
  intros Ha Hat Hr Hf [H2 H3]. unfold ReadStringArray.
  rewrite (proj2 (Z.eqb_neq _ _)) by lia. pose proof (table_size_pos strs). unfold array_size in *.
  apply (read_array_holds fuel m addr 0 strs (addr + table_size arch strs) 0);
    rewrite ?Z.mul_0_l, ?Z.add_0_r, ?Z.add_0_l; try done; try lia.
  unfold table_size in *. lia.
Qed.

Lemma WriteStringArray_frame m addr strs :
  0 < addr → addr + array_size strs ≤ 2 ^ ptr_bits arch →
  mem_writable m addr (array_size strs) →
  ∃ m', WriteStringArray arch m addr strs = Some (array_size strs, m') ∧
    array_at m' addr strs ∧
    (∀ x, ¬ addr ≤ x < addr + array_size strs → byte_at m' x = byte_at m x) ∧
    (∀ x, writable m' x = writable m x).
Proof.
  intros Ha Hat Hw. unfold WriteStringArray, array_size in *. set (T := table_size arch strs) in *.
  set (D := Z.of_nat (length (string_data strs))) in *.
  pose proof (table_size_pos strs : 0 < T) as HT. assert (0 ≤ D) by lia.
  assert (pwrap arch (addr + T) = addr + T ∨ D = 0) as Hpw.
  { destruct (decide (D = 0)); [by right|left]. apply pwrap_id. split; lia. }
  assert (array_ptrs arch (pwrap arch (addr + T)) 0 strs = array_ptrs arch (addr + T) 0 strs) as Hptrs.
  { destruct Hpw as [->|HD]; [done|]. destruct strs as [|s strs]; [done|].
    unfold D in HD. rewrite length_string_data_cons in HD. lia. }
  rewrite Hptrs. assert (Hlt := length_table strs (addr + T) 0). fold T in Hlt.
  destruct (WriteBytes_writable m addr (array_ptrs arch (addr + T) 0 strs ≫= ptr_bytes arch))
    as (m1 & Hw1 & Hm1 & Hf1 & Hww1).
  { intros x Hx. rewrite Hlt in Hx. apply Hw. lia. }
  rewrite Hlt in Hf1. rewrite Hw1. destruct (decide (string_data strs = [])) as [Hnil|Hnn].
  { rewrite Hnil. simpl. exists m1. split_and!; [f_equal; f_equal; unfold D; rewrite Hnil; simpl; lia| | |done].
    - split; [done|]. intros i c Hi. rewrite Hnil in Hi. by rewrite lookup_nil in Hi.
    - intros x Hx. apply Hf1. lia. }
  assert (D ≠ 0) by (unfold D; destruct (string_data strs); [done|simpl; lia]).
  destruct Hpw as [->|]; [|done].
  destruct (WriteBytes_writable m1 (addr + T) (string_data strs)) as (m2 & Hw2 & Hm2 & Hf2 & Hww2).
  { intros x Hx. rewrite Hww1. apply Hw. fold D in Hx. lia. }
  rewrite Hw2. exists m2. split_and!; [done| | |].
  - unfold array_at. fold T. split; [|done].
    eapply mem_holds_frame; [exact Hm1|exact Hf2|]. rewrite Hlt. lia.
  - intros x Hx. fold D in Hf2. rewrite Hf2, Hf1 by lia. done.
  - intros x. by rewrite Hww2.
Qed.

(** A table or strings that were stored in part only: still nothing else has changed. *)
Lemma WriteStringArray_outside m addr strs n m' :
  0 < addr → addr + array_size strs ≤ 2 ^ ptr_bits arch →
  WriteStringArray arch m addr strs = Some (n, m') →
  n = array_size strs ∧ ∀ x, ¬ addr ≤ x < addr + array_size strs → byte_at m' x = byte_at m x.
Proof.
  intros Ha Hat. unfold WriteStringArray, array_size in *. set (T := table_size arch strs) in *.
  pose proof (table_size_pos strs : 0 < T) as HT.
  pose proof (length_table strs (pwrap arch (addr + T)) 0) as Hlt. fold T in Hlt.
  destruct (WriteBytes m addr _) as [m1|] eqn:H1; [|done].
  destruct (WriteBytes m1 _ _) as [m2|] eqn:H2; [|done]. intros [= <- <-]. split; [done|]. intros x Hx.
  pose proof (WriteBytes_outside _ _ _ _ H1) as Hf1. rewrite Hlt in Hf1.
  destruct (string_data strs) as [|c d] eqn:Hd.
  - injection H2 as ->. apply Hf1. cbn in Hx. lia.
  - assert (pwrap arch (addr + T) = addr + T) as Hp by (apply pwrap_id; split; cbn in Hat; lia). rewrite Hp in H2.
    rewrite (WriteBytes_outside _ _ _ _ H2) by lia. apply Hf1. lia.
Qed.

(** C23: a string array written into writable memory reads back unchanged, the
    reported size is the number of bytes used, and no byte outside that range
    changes. *)
Theorem WriteStringArray_roundtrip m addr strs fuel :
  0 < addr → addr + array_size strs ≤ 2 ^ ptr_bits arch →
  mem_writable m addr (array_size strs) → Forall readable strs → (length strs < fuel)%nat →
  ∃ m', WriteStringArray arch m addr strs = Some (array_size strs, m') ∧
    ReadStringArray arch fuel m' addr = Ok strs ∧
    ∀ x, ¬ addr ≤ x < addr + array_size strs → byte_at m' x = byte_at m x.
Proof.
  intros Ha Hat Hw Hr Hf.
  destruct (WriteStringArray_frame m addr strs) as (m' & H1 & H2 & H3 & _); [done..|].
  exists m'. split_and!; [done|by apply array_at_read|done].
Qed.

(** [ReadString] never returns more than its window, and a longer string
    in memory comes back cut at the window without an error. *)
Theorem ReadString_truncates m a s :
  a ≠ 0 → nul_free s → read_window ≤ Z.of_nat (slen s) → mem_holds m a (cstring s) →
  ReadString m a = Some (bytes_str (take (Z.to_nat read_window) (str_bytes s))).
Proof.
  intros Ha Hs Hl Hm. unfold ReadString. rewrite (proj2 (Z.eqb_neq _ _)) by done.
  set (w := Z.to_nat read_window). assert (Z.of_nat w = read_window) as Hw by done. clearbody w.
  assert (length (take w (str_bytes s)) = w) as Hlen.
  { rewrite length_take, length_str_bytes. lia. }
  destruct (readv_holds m a read_window (take w (str_bytes s))) as (k & Hr & Hk).
  - unfold cstring in Hm. apply mem_holds_app in Hm as [Hm _].
    rewrite <- (take_drop w (str_bytes s)) in Hm. by apply mem_holds_app in Hm as [Hm _].
  - rewrite Hlen. unfold read_window in *. lia.
  - rewrite Hlen. lia.
  - rewrite length_app, Hlen in Hk. destruct k; [|simpl in Hk; lia].
    rewrite Hr, app_nil_r. do 2 f_equal. clear -Hs. unfold nul_free in Hs. revert s Hs.
    induction w as [|w IH]; intros [|c s] Hs; simpl in *; try done.
    apply orb_false_elim in Hs as [-> Hs]. by rewrite IH.
Qed.

End memory_theorems.

(** A partial transfer is reported as success: [WriteBytes] drops the byte
    count, so a write that runs off the mapped region returns no error although
    the data is not there. *)
Theorem WriteBytes_ignores_short_write :
  let m : gmap Z ascii := {[100 := "x"%char]} in
  ∃ m', WriteBytes m 100 ["a"%char; "b"%char] = Some m' ∧ ¬ mem_holds m' 100 ["a"%char; "b"%char].
Proof.
  eexists. split; [reflexivity|]. intros Hm. by specialize (Hm 1%nat "b"%char eq_refl).
Qed.

(** ** Witnesses *)

(** Zeroed memory of [n] bytes at [a]. *)
Definition zeroed (a : Z) (n : nat) : gmap Z ascii :=
  list_to_map ((λ i, (a + Z.of_nat i, NUL)) <$> seq 0 n).

(** A decision procedure for concrete regions. *)
Lemma mem_writable_dec (m : gmap Z ascii) a n :
  forallb (writable m) (seqZ a n) = true → mem_writable m a n.
Proof.
  intros Hf x Hx. rewrite forallb_forall in Hf. apply Hf, list_elem_of_In, elem_of_seqZ. lia.
Qed.

Lemma readable_dec s :
  negb (contains_byte NUL s) && (Z.of_nat (slen s) <? read_window) = true → readable s.
Proof. intros. bool_solve. split; [done|]. by apply Z.ltb_lt. Qed.

Lemma readables_dec l :
  forallb (λ s, negb (contains_byte NUL s) && (Z.of_nat (slen s) <? read_window)) l = true →
  Forall readable l.
Proof. intros Hl. apply Forall_forall. intros s Hs%list_elem_of_In. apply readable_dec. by rewrite forallb_forall in Hl; apply Hl. Qed.

Lemma WriteStringArray_roundtrip_witness :
  ∃ m', WriteStringArray arch_amd64 (zeroed 4096 64) 4096 ["ls"; "-l"] = Some (30, m') ∧
    ReadStringArray arch_amd64 10 m' 4096 = Ok ["ls"; "-l"] ∧
    ∀ x, ¬ 4096 ≤ x < 4096 + 30 → byte_at m' x = byte_at (zeroed 4096 64) x.
Proof.
  apply (WriteStringArray_roundtrip arch_amd64 (zeroed 4096 64) 4096 ["ls"; "-l"] 10);
    [lia|by vm_compute| | |simpl; lia].
  - apply mem_writable_dec. vm_compute. reflexivity.
  - apply readables_dec. vm_compute. reflexivity.
Defined.

(** A string of [n] letters. *)
Fixpoint letters (n : nat) : string :=
  match n with O => "" | S k => String "a" (letters k) end.

(** A flat memory that holds [l] at [a]. *)
Definition image (a : Z) (l : list ascii) : gmap Z ascii :=
  list_to_map (imap (λ i c, (a + Z.of_nat i, c)) l).

Lemma image_holds a l : mem_holds (image a l) a l.
Proof.
  intros i c Hi. apply elem_of_list_to_map_1'.
  - intros y Hy. apply elem_of_lookup_imap in Hy as (j & d & Heq & Hj). simplify_eq.
    assert (i = j) as -> by lia. by simplify_eq.
  - apply elem_of_lookup_imap. by exists i, c.
Qed.

Lemma ReadString_truncates_witness :
  ReadString (image 4096 (cstring (letters 5000))) 4096 =
  Some (bytes_str (take (Z.to_nat read_window) (str_bytes (letters 5000)))).
Proof.
  apply (ReadString_truncates _ 4096 (letters 5000)); [done|by vm_compute|by vm_compute|].
  apply image_holds.
Defined.
