(* ===== verification/Tracer.v ===== *)
(** * Tracer: exec interception and getcwd remapping

    Models [pkg/tracer/tracer.go]: the per-process state, the syscall-stop
    handler that redirects an [execve] to the shim by rewriting the tracee's
    registers and stack, the getcwd hook, and the ptrace event loop.

    A tracee is its register file, its memory and two facts about the kernel
    side: whether [PTRACE_SETREGS] succeeds and whether the process has been
    killed.  [regs = None] is a failing [PTRACE_GETREGS].  Logging is left
    out. *)

From stdpp Require Import functions.
From S2P Require Import Prelude GoStrings PathRules EnvFilter Arch TraceeMemory.
Local Open Scope Z_scope.

Record Config := mkConfig {
  ShimPath : string;
  CfgWhitelist : list string;
  CwdFrom : string;
  CwdTo : string;
}.

Record pidState := mkPid {
  inSyscall : bool;
  expectStop : bool;
  cwdPending : bool;
  cwdBuf : Z;
  cwdSize : Z;
}.

(** The zero value [&pidState{}]. *)
Definition pid0 : pidState := mkPid false false false 0 0.

Definition set_inSyscall (b : bool) (ps : pidState) : pidState :=
  mkPid b (expectStop ps) (cwdPending ps) (cwdBuf ps) (cwdSize ps).
Definition set_expectStop (b : bool) (ps : pidState) : pidState :=
  mkPid (inSyscall ps) b (cwdPending ps) (cwdBuf ps) (cwdSize ps).

Record Tracee (M : Type) := mkTracee {
  regs : option Regs;
  mem : M;
  settable : bool;
  killed : bool;
}.
Arguments mkTracee {M}.
Arguments regs {M}.
Arguments mem {M}.
Arguments settable {M}.
Arguments killed {M}.

(** ** Pure helpers *)

(** The loop of [remapPWDEnv]; [pre] holds the entries already passed. *)
Fixpoint remapPWD_from (from to : string) (pre env : list string) : list string * bool :=
  match env with
  | [] => (pre, false)
  | e :: rest =>
      match CutPrefix e "PWD=" with
      | None => remapPWD_from from to (pre ++ [e]) rest
      | Some v =>
          let '(mapped, matched) := RewritePathPrefix v from to in
          if negb matched || String.eqb mapped v then (pre ++ e :: rest, false)
          else (pre ++ ("PWD=" +:+ mapped) :: rest, true)
      end
  end.

Definition remapPWDEnv (env : list string) (from to : string) : list string * bool :=
  remapPWD_from from to [] env.

Definition sum_len (l : list string) : Z := foldr (λ s acc, Z.of_nat (slen s) + 1 + acc) 0 l.

Definition estimateWriteSize (arch : Arch) (shimPath : string) (argv envp : list string) : Z :=
  Z.of_nat (slen shimPath) + 1 + ptrSize arch +
  (Z.of_nat (length argv) + 1) * ptrSize arch + sum_len argv + ptrSize arch +
  (Z.of_nat (length envp) + 1) * ptrSize arch + sum_len envp.

(** [addr &^ (ptrSize - 1)] and [alignUp]. *)
Definition alignDown (arch : Arch) (addr : Z) : Z := Z.ldiff addr (ptrSize arch - 1).
Definition alignUp (arch : Arch) (addr : Z) : Z :=
  Z.ldiff (pwrap arch (addr + ptrSize arch - 1)) (ptrSize arch - 1).

Section tracer.
Context `{Regexp} {M : Type} `{TraceeVM M} (arch : Arch).
Variable cfg : Config.
Variable sysGetcwd : Z.
(** The bound on the length of an argument vector that is read. *)
Variable fuel : nat.

Definition cwdMapEnabled : bool :=
  negb (String.eqb (CwdFrom cfg) "") && negb (String.eqb (CwdTo cfg) "").

Definition shouldAllow (pathname : string) : bool :=
  if String.eqb pathname "" || String.eqb pathname (ShimPath cfg) then true
  else existsb (λ entry, MatchLocalCommand entry pathname) (CfgWhitelist cfg).

(** [regs.Set(pid)]: fails when the tracee is not settable. *)
Definition SetRegs (t : Tracee M) (r : Regs) : option (Tracee M) :=
  if settable t then Some (mkTracee (Some r) (mem t) (settable t) (killed t)) else None.
Definition Kill (t : Tracee M) : Tracee M := mkTracee (regs t) (mem t) (settable t) true.
Definition with_mem (t : Tracee M) (m : M) : Tracee M :=
  mkTracee (regs t) m (settable t) (killed t).

(** Commit the registers or kill the tracee. *)
Definition set_or_kill (t : Tracee M) (r : Regs) : Tracee M :=
  match SetRegs t r with Some t' => t' | None => Kill t end.

Definition blockExec (t : Tracee M) (r : Regs) : Tracee M :=
  set_or_kill t (BlockSyscall arch r).

Definition remapAllowedExecPWD (t : Tracee M) (r : Regs) (isExecveat : bool) : Tracee M :=
  match ReadStringArray arch fuel (mem t) (EnvpAddr arch isExecveat r) with
  | Err _ => t
  | Ok envp =>
      let '(newEnvp, changed) := remapPWDEnv envp (CwdFrom cfg) (CwdTo cfg) in
      if negb changed then t
      else
        let size := ptrSize arch + foldr (λ s acc, Z.of_nat (slen s) + 1 + ptrSize arch + acc) 0 newEnvp in
        let cursor := alignDown arch (pwrap arch (StackPointer arch r - 256 - size)) in
        match WriteStringArray arch (mem t) cursor newEnvp with
        | None => t
        | Some (_, m) =>
            let t := with_mem t m in
            match SetRegs t (SetEnvpAddr arch isExecveat cursor r) with
            | Some t' => t'
            | None => t
            end
        end
  end.

(** Where the rewritten exec goes on the tracee's stack. *)
Definition exec_cursor (r : Regs) (argv envp : list string) : Z :=
  let totalSize := estimateWriteSize arch (ShimPath cfg) argv envp in
  alignDown arch (pwrap arch (StackPointer arch r - 256 - totalSize)).

(** The new vectors: [shim, path, args...] and the environment with the
    control variables injected and PWD remapped. *)
Definition new_argv (pathname : string) (argv : list string) : list string :=
  ShimPath cfg :: pathname :: argv.
Definition new_envp (baseline : EnvBaseline) (envp : list string) : list string :=
  let e := InjectEnvVars baseline envp in
  if cwdMapEnabled then (remapPWDEnv e (CwdFrom cfg) (CwdTo cfg)).1 else e.

(** Stage path, argv and envp below the stack pointer and point the registers
    at them. *)
Definition write_exec (t : Tracee M) (r : Regs) (isExecveat : bool) (newArgv newEnvp : list string)
    : Tracee M :=
  let cursor := exec_cursor r newArgv newEnvp in
  let shimPathBytes := cstring (ShimPath cfg) in
  match WriteBytes (mem t) cursor shimPathBytes with
  | None => blockExec t r
  | Some m1 =>
      let newPathAddr := cursor in
      let cursor := alignUp arch (pwrap arch (cursor + Z.of_nat (length shimPathBytes))) in
      let newArgvAddr := cursor in
      match WriteStringArray arch m1 cursor newArgv with
      | None => blockExec (with_mem t m1) r
      | Some (n, m2) =>
          let cursor := alignUp arch (pwrap arch (cursor + n)) in
          let newEnvpAddr := cursor in
          match WriteStringArray arch m2 cursor newEnvp with
          | None => blockExec (with_mem t m2) r
          | Some (_, m3) =>
              set_or_kill (with_mem t m3)
                (SetEnvpAddr arch isExecveat newEnvpAddr
                  (SetArgvAddr arch isExecveat newArgvAddr
                    (SetPathAddr arch isExecveat newPathAddr r)))
          end
      end
  end.

(** The exec branch of the syscall-entry handler. *)
Definition handle_exec (baseline : EnvBaseline) (t : Tracee M) (r : Regs) (isExecveat : bool) : Tracee M :=
  match ReadString (mem t) (PathAddr arch isExecveat r) with
  | None => blockExec t r
  | Some pathname =>
      if isExecveat && String.eqb pathname "" then t
      else if shouldAllow pathname then
        if cwdMapEnabled then remapAllowedExecPWD t r isExecveat else t
      else
        match ReadStringArray arch fuel (mem t) (ArgvAddr arch isExecveat r) with
        | Err _ => blockExec t r
        | Ok argv =>
            match ReadStringArray arch fuel (mem t) (EnvpAddr arch isExecveat r) with
            | Err _ => blockExec t r
            | Ok envp =>
                write_exec t r isExecveat (new_argv pathname argv) (new_envp baseline envp)
            end
        end
  end.

Definition rewriteGetcwd (t : Tracee M) (ps : pidState) (r : Regs) : Tracee M :=
  if cwdBuf ps =? 0 then t
  else
    let '(ret, ok) := Ret arch r in
    if negb ok || (ret =? 0) then t
    else match ReadString (mem t) (cwdBuf ps) with
         | None => t
         | Some cwd =>
             if String.eqb cwd "" then t
             else
               let '(mapped, matched) := RewritePathPrefix cwd (CwdFrom cfg) (CwdTo cfg) in
               if negb matched || String.eqb mapped cwd then t
               else
                 let needed := Z.of_nat (slen mapped) + 1 in
                 if cwdSize ps <? needed then
                   default t (SetRegs t (SetRetError arch Errno.ERANGE r))
                 else
                   match WriteBytes (mem t) (cwdBuf ps) (cstring mapped) with
                   | None => t
                   | Some m =>
                       let t := with_mem t m in
                       default t (SetRegs t (SetRetSuccess arch needed r))
                   end
         end.

(** The registers, when the stop belongs to a getcwd the hook handles. *)
Definition getcwd_regs (t : Tracee M) : option Regs :=
  if cwdMapEnabled then
    match regs t with
    | Some r => if SyscallNum arch r =? sysGetcwd then Some r else None
    | None => None
    end
  else None.

Definition handleSyscallStop (baseline : EnvBaseline) (pids : gmap Z pidState) (pid : Z) (t : Tracee M)
    : gmap Z pidState * Tracee M :=
  match pids !! pid with
  | None => (<[pid := mkPid true true false 0 0]> pids, t)
  | Some ps =>
      match getcwd_regs t with
      | Some r =>
          if negb (cwdPending ps) then
            (<[pid := mkPid (negb (inSyscall ps)) (expectStop ps) true
                        (PathAddr arch false r) (ArgvAddr arch false r)]> pids, t)
          else
            (<[pid := mkPid (negb (inSyscall ps)) (expectStop ps) false (cwdBuf ps) (cwdSize ps)]> pids,
             rewriteGetcwd t ps r)
      | None =>
          if inSyscall ps then (<[pid := set_inSyscall false ps]> pids, t)
          else
            let pids := <[pid := set_inSyscall true ps]> pids in
            match regs t with
            | None => (pids, t)
            | Some r =>
                let sysno := SyscallNum arch r in
                if negb (sysno =? SysExecve arch) && negb (sysno =? SysExecveat arch) then (pids, t)
                else (pids, handle_exec baseline t r (sysno =? SysExecveat arch))
            end
      end
  end.

(** ** The event loop *)

Definition SIGTRAP : Z := 5.
Definition SIGSTOP : Z := 19.
Definition PTRACE_EVENT_FORK : Z := 1.
Definition PTRACE_EVENT_VFORK : Z := 2.
Definition PTRACE_EVENT_CLONE : Z := 3.
Definition PTRACE_EVENT_EXEC : Z := 4.

(** What [Wait4] reports for a pid.  [WStopped sig event msg]: the stop
    signal, the event number in the high half of the status, and what
    [PtraceGetEventMsg] would answer. *)
Inductive wait_status : Type :=
  | WExited (code : Z)
  | WSignaled (sig : Z)
  | WStopped (sig event : Z) (msg : option Z)
  | WOther.

Record TState := mkTState {
  pids : gmap Z pidState;
  tracees : Z → Tracee M;
  exitCode : Z;
  (** [PtraceSyscall(pid, sig)] calls, oldest first. *)
  resumed : list (Z * Z);
}.

Definition with_pids (st : TState) (p : gmap Z pidState) : TState :=
  mkTState p (tracees st) (exitCode st) (resumed st).
Definition resume (st : TState) (pid sig : Z) : TState :=
  mkTState (pids st) (tracees st) (exitCode st) (resumed st ++ [(pid, sig)]).

Definition syscall_stop (baseline : EnvBaseline) (st : TState) (pid : Z) : TState :=
  let '(p, t') := handleSyscallStop baseline (pids st) pid (tracees st pid) in
  mkTState p (<[pid := t']> (tracees st)) (exitCode st) (resumed st).

(** One round of [traceLoop] for the event [(pid, ws)]. *)
Definition trace_step (baseline : EnvBaseline) (childPid : Z) (st : TState) (pid : Z) (ws : wait_status)
    : TState :=
  match ws with
  | WExited code =>
      mkTState (delete pid (pids st)) (tracees st)
        (if pid =? childPid then code else exitCode st) (resumed st)
  | WSignaled sig =>
      mkTState (delete pid (pids st)) (tracees st)
        (if pid =? childPid then 128 + sig else exitCode st) (resumed st)
  | WOther => st
  | WStopped sig event msg =>
      if sig =? Z.lor SIGTRAP 0x80 then resume (syscall_stop baseline st pid) pid 0
      else if (event =? PTRACE_EVENT_FORK) || (event =? PTRACE_EVENT_VFORK) || (event =? PTRACE_EVENT_CLONE) then
        let st :=
          match msg with
          | None => st
          | Some np =>
              match pids st !! np with
              | Some _ => st
              | None => with_pids st (<[np := set_expectStop true pid0]> (pids st))
              end
          end in
        resume st pid 0
      else if event =? PTRACE_EVENT_EXEC then
        let st :=
          match pids st !! pid with
          | Some ps => with_pids st (<[pid := set_inSyscall false ps]> (pids st))
          | None => st
          end in
        resume st pid 0
      else if sig =? SIGTRAP then resume st pid 0
      else if sig =? SIGSTOP then
        match pids st !! pid with
        | None => resume (with_pids st (<[pid := pid0]> (pids st))) pid 0
        | Some ps =>
            if expectStop ps then
              resume (with_pids st (<[pid := set_expectStop false ps]> (pids st))) pid 0
            else resume st pid sig
        end
      else resume st pid sig
  end.

(** What a tracee looks like when [Wait4] reports it: it has run since the
    tracer last touched it. *)
Definition observe (st : TState) (pid : Z) (t : Tracee M) : TState :=
  mkTState (pids st) (<[pid := t]> (tracees st)) (exitCode st) (resumed st).

(** An event: the pid, its wait status, and the tracee as it is then. *)
Definition event : Type := Z * wait_status * Tracee M.

(** [traceLoop] over a finite run of events; it stops when no pid is left or
    [Wait4] fails (the list ends). *)
Fixpoint trace_loop (baseline : EnvBaseline) (childPid : Z) (st : TState) (evs : list event) : TState :=
  match evs with
  | [] => st
  | (pid, ws, t) :: evs =>
      if decide (pids st = ∅) then st
      else trace_loop baseline childPid (trace_step baseline childPid (observe st pid t) pid ws) evs
  end.

(** [Start] after the fork: the environment handed to the child and the
    baseline the diffs are computed against. *)
Definition start_env (env : list string) : list string :=
  if cwdMapEnabled then (remapPWDEnv env (CwdFrom cfg) (CwdTo cfg)).1 else env.
Definition start_baseline (env : list string) : EnvBaseline := NewEnvBaselineFromSlice (start_env env).

Definition traceLoop (baseline : EnvBaseline) (childPid : Z) (trs : Z → Tracee M)
    (evs : list event) : TState :=
  trace_loop baseline childPid (mkTState {[childPid := pid0]} trs 127 []) evs.

End tracer.

Arguments TState : clear implicits.

(** ** PWD remapping *)

Definition is_pwd (e : string) : bool := HasPrefix e "PWD=".

(** What [remapPWDEnv] does to the first PWD entry. *)
Definition remap_pwd_entry (from to e : string) : string * bool :=
  match CutPrefix e "PWD=" with
  | None => (e, false)
  | Some v =>
      let '(mapped, matched) := RewritePathPrefix v from to in
      if negb matched || String.eqb mapped v then (e, false) else ("PWD=" +:+ mapped, true)
  end.

(** Only the first PWD entry of an environment is remapped, by the rule of
    the getcwd hook; every other entry and the order stay, and an environment
    without PWD, or whose first PWD is outside CwdFrom, is returned as it is. *)
Theorem remapPWDEnv_first pre e post from to :
  Forall (λ x, is_pwd x = false) pre → is_pwd e = true →
  remapPWDEnv pre from to = (pre, false) ∧
  remapPWDEnv (pre ++ e :: post) from to =
    (pre ++ (remap_pwd_entry from to e).1 :: post, (remap_pwd_entry from to e).2).
Proof.
  intros Hpre He. unfold remapPWDEnv. cut (∀ acc,
    remapPWD_from from to acc pre = (acc ++ pre, false) ∧
    remapPWD_from from to acc (pre ++ e :: post) =
      (acc ++ pre ++ (remap_pwd_entry from to e).1 :: post, (remap_pwd_entry from to e).2));
    [intros Hgo; apply Hgo|].
  induction Hpre as [|x pre Hx _ IH]; intros acc; simpl.
  - rewrite app_nil_r. split; [done|]. unfold remap_pwd_entry, CutPrefix. unfold is_pwd in He. rewrite He.
    destruct (RewritePathPrefix _ _ _) as [mapped matched]. by case_match.
  - unfold CutPrefix. unfold is_pwd in Hx. rewrite Hx. destruct (IH (acc ++ [x])) as [-> ->].
    by rewrite <- !app_assoc.
Qed.

(** ** Alignment and the size estimate *)

Section layout.
Context (arch : Arch) `{!ArchLaws arch}.
Local Abbreviation p := (ptrSize arch).

Lemma ptrSize_pow : ∃ k, 0 ≤ k ∧ p = 2 ^ k.
Proof. destruct (law_ptrSize (a := arch)) as [->| ->]; [by exists 2|by exists 3]. Qed.

Lemma ldiff_align a : Z.ldiff a (p - 1) = p * (a / p).
Proof.
  destruct ptrSize_pow as (k & Hk & ->).
  replace (2 ^ k - 1) with (Z.ones k) by (rewrite Z.ones_equiv; lia).
  rewrite Z.ldiff_ones_r, Z.shiftl_mul_pow2, Z.shiftr_div_pow2 by done. lia.
Qed.

Lemma alignDown_range a : a - p < alignDown arch a ≤ a.
Proof.
  unfold alignDown. rewrite ldiff_align.
  assert (0 < p) by (destruct (law_ptrSize (a := arch)); lia).
  pose proof (Z.div_mod a p). pose proof (Z.mod_pos_bound a p). lia.
Qed.

Lemma alignDown_nonneg a : 0 ≤ a → 0 ≤ alignDown arch a.
Proof.
  intros. unfold alignDown. rewrite ldiff_align.
  assert (0 < p) by (destruct (law_ptrSize (a := arch)); lia).
  apply Z.mul_nonneg_nonneg; [lia|]. by apply Z.div_pos.
Qed.

Lemma alignUp_range a :
  0 ≤ a → a + p - 1 < 2 ^ ptr_bits arch → a ≤ alignUp arch a < a + p.
Proof.
  intros Ha Hb. unfold alignUp.
  assert (0 < p) by (destruct (law_ptrSize (a := arch)); lia).
  rewrite pwrap_id by (split; lia). pose proof (alignDown_range (a + p - 1)).
  unfold alignDown in *. lia.
Qed.

Lemma length_string_data strs : Z.of_nat (length (string_data strs)) = sum_len strs.
Proof.
  induction strs as [|s strs IH]; [done|]. rewrite length_string_data_cons. simpl. lia.
Qed.

Lemma sum_len_nonneg strs : 0 ≤ sum_len strs.
Proof. rewrite <- length_string_data. lia. Qed.

(** The estimate leaves room for the shim path, both arrays and the padding
    of the two alignments. *)
Lemma estimateWriteSize_arrays shim argv envp :
  estimateWriteSize arch shim argv envp =
  Z.of_nat (length (cstring shim)) + p + array_size arch argv + p + array_size arch envp.
Proof.
  unfold estimateWriteSize, array_size, table_size.
  rewrite length_cstring, !length_string_data. lia.
Qed.

Lemma array_size_pos strs : 0 < array_size arch strs.
Proof. pose proof (table_size_pos arch strs). unfold array_size. lia. Qed.

End layout.

(** ** The exec rewrite *)

Section exec_theorems.
Context `{Regexp} {M : Type} `{TraceeVMLaws M} (arch : Arch) `{!ArchLaws arch}.
Variable cfg : Config.
Variable sysGetcwd : Z.
Variable fuel : nat.

Local Abbreviation p := (ptrSize arch).
Local Abbreviation shim := (ShimPath cfg).

(** The stack has room for the staged data: the addresses neither wrap nor
    reach the null page, and the bytes are writable. *)
Record stageable (m : M) (r : Regs) (argv envp : list string) : Prop := {
  st_sp : is_u (ptr_bits arch) (StackPointer arch r);
  st_room : p ≤ StackPointer arch r - 256 - estimateWriteSize arch shim argv envp;
  st_writable : mem_writable m (exec_cursor arch cfg r argv envp)
    (StackPointer arch r - 256 - exec_cursor arch cfg r argv envp);
}.

(** The part of it that concerns addresses only. *)
Record stack_room (r : Regs) (argv envp : list string) : Prop := {
  sr_sp : is_u (ptr_bits arch) (StackPointer arch r);
  sr_room : p ≤ StackPointer arch r - 256 - estimateWriteSize arch shim argv envp;
}.
Lemma stageable_room m r argv envp : stageable m r argv envp → stack_room r argv envp.
Proof. by intros [? ? _]. Qed.

(** The staged data as the kernel will read it. *)
Record staged (m m' : M) (r r' : Regs) (b : bool) (argv envp : list string) : Prop := {
  sg_path : ReadString m' (PathAddr arch b r') = Some shim;
  sg_argv : ReadStringArray arch fuel m' (ArgvAddr arch b r') = Ok argv;
  sg_envp : ReadStringArray arch fuel m' (EnvpAddr arch b r') = Ok envp;
  sg_sysno : SyscallNum arch r' = SyscallNum arch r;
  sg_frame : ∀ x, ¬ exec_cursor arch cfg r argv envp ≤ x < StackPointer arch r - 256 →
             byte_at m' x = byte_at m x;
}.

(** The three stores of the rewrite do not overlap and stay below the stack
    pointer. *)
Lemma stage_layout r argv envp :
  stack_room r argv envp →
  let c := exec_cursor arch cfg r argv envp in
  let L := Z.of_nat (length (cstring shim)) in
  let a1 := alignUp arch (pwrap arch (c + L)) in
  let a2 := alignUp arch (pwrap arch (a1 + array_size arch argv)) in
  0 < c ∧ c + L ≤ a1 ∧ a1 + array_size arch argv ≤ a2 ∧
  a2 + array_size arch envp ≤ StackPointer arch r - 256 ∧
  StackPointer arch r < 2 ^ ptr_bits arch.
Proof.
  intros [[Hsp0 Hsp] Hroom]. cbv zeta. unfold exec_cursor.
  rewrite (estimateWriteSize_arrays arch) in *.
  pose proof (array_size_pos arch argv). pose proof (array_size_pos arch envp).
  assert (0 < p) by (destruct (law_ptrSize (a := arch)); lia).
  assert (0 < Z.of_nat (length (cstring shim))) by (rewrite length_cstring; lia).
  set (L := Z.of_nat (length (cstring shim))) in *.
  set (B := StackPointer arch r - 256 - _) in *.
  rewrite (pwrap_id arch B) by (split; lia).
  pose proof (alignDown_range arch B). set (c := alignDown arch B) in *.
  rewrite (pwrap_id arch (c + L)) by (split; lia).
  pose proof (alignUp_range arch (c + L)). set (a1 := alignUp arch (c + L)) in *.
  rewrite (pwrap_id arch (a1 + array_size arch argv)) by (split; lia).
  pose proof (alignUp_range arch (a1 + array_size arch argv)). lia.
Qed.

Lemma write_exec_staged t r b argv envp :
  settable t = true → stageable (mem t) r argv envp →
  readable shim → Forall readable argv → Forall readable envp →
  (length argv < fuel)%nat → (length envp < fuel)%nat →
  ∃ r', regs (write_exec arch cfg t r b argv envp) = Some r' ∧
        killed (write_exec arch cfg t r b argv envp) = killed t ∧
        staged (mem t) (mem (write_exec arch cfg t r b argv envp)) r r' b argv envp.
Proof.
  intros Hset Hst Hs Ha He Hfa Hfe.
  destruct (stage_layout _ _ _ (stageable_room _ _ _ _ Hst)) as (Hc & HL1 & HL2 & HL3 & Hsp). destruct Hst as [_ _ Hw].
  unfold write_exec. cbv zeta. set (c := exec_cursor arch cfg r argv envp) in *.
  set (L := Z.of_nat (length (cstring shim))) in *.
  set (a1 := alignUp arch (pwrap arch (c + L))) in *.
  set (a2 := alignUp arch (pwrap arch (a1 + array_size arch argv))) in *.
  pose proof (array_size_pos arch argv). pose proof (array_size_pos arch envp).
  assert (0 ≤ L) by lia.
  destruct (WriteBytes_writable (mem t) c (cstring shim)) as (m1 & -> & Hm1 & Hf1 & Hw1).
  { intros x Hx. apply Hw. fold L in Hx. lia. }
  destruct (WriteStringArray_frame arch m1 a1 argv) as (m2 & -> & Hm2 & Hf2 & Hw2); [lia|lia| |].
  { intros x Hx. rewrite Hw1. apply Hw. lia. }
  destruct (WriteStringArray_frame arch m2 a2 envp) as (m3 & Hw3 & Hm3 & Hf3 & _); [lia|lia| |].
  { intros x Hx. rewrite Hw2, Hw1. apply Hw. lia. }
  fold a2. rewrite Hw3. unfold set_or_kill, SetRegs. simpl. rewrite Hset. simpl.
  eexists. split; [done|]. split; [done|]. fold L in Hf1. constructor; simpl.
  - rewrite law_path_envp, law_path_argv, law_path_get by (split; lia).
    apply ReadString_holds; [lia|by destruct Hs|by destruct Hs|].
    eapply mem_holds_frame; [|exact Hf3|fold L; lia].
    eapply mem_holds_frame; [exact Hm1|exact Hf2|fold L; lia].
  - rewrite law_argv_envp, law_argv_get by (split; lia).
    apply (array_at_read arch); [lia|lia|done|done|]. eapply (array_at_frame arch); [exact Hm2|exact Hf3|lia].
  - rewrite law_envp_get by (split; lia). apply (array_at_read arch); [lia|lia|done|done|done].
  - by rewrite law_sysno_envp, law_sysno_argv, law_sysno_path.
  - intros x Hx. rewrite Hf3, Hf2, Hf1 by lia. done.
Qed.

(** The registers of an exec's entry stop: [b] says which of the two calls it
    is. *)
Record exec_entry (t : Tracee M) (r : Regs) (b : bool) : Prop := {
  ee_regs : regs t = Some r;
  ee_getcwd : SyscallNum arch r ≠ sysGetcwd;
  ee_sysno : SyscallNum arch r = SysExecve arch ∨ SyscallNum arch r = SysExecveat arch;
  ee_b : b = (SyscallNum arch r =? SysExecveat arch);
}.

Local Abbreviation stop := (handleSyscallStop arch cfg sysGetcwd fuel).

Lemma getcwd_regs_other (t : Tracee M) r :
  regs t = Some r → SyscallNum arch r ≠ sysGetcwd → getcwd_regs arch cfg sysGetcwd t = None.
Proof.
  intros Hr Hn. unfold getcwd_regs. rewrite Hr. case_match; [|done].
  by rewrite (proj2 (Z.eqb_neq _ _)).
Qed.

(** On the entry phase the handler runs the exec branch. *)
Lemma stop_exec_entry base ps pm pid t r b :
  pm !! pid = Some ps → inSyscall ps = false → exec_entry t r b →
  stop base pm pid t =
    (<[pid := set_inSyscall true ps]> pm, handle_exec arch cfg fuel base t r b).
Proof.
  intros Hp Hi [Hr Hg Hs ->]. unfold handleSyscallStop.
  rewrite Hp, (getcwd_regs_other t r), Hi, Hr by done.
  destruct Hs as [->| ->]; by rewrite Z.eqb_refl, ?andb_false_r.
Qed.

(** On the exit phase it does nothing but flip the phase. *)
Lemma stop_exit base ps pm pid t r :
  pm !! pid = Some ps → inSyscall ps = true → regs t = Some r → SyscallNum arch r ≠ sysGetcwd →
  stop base pm pid t = (<[pid := set_inSyscall false ps]> pm, t).
Proof.
  intros Hp Hi Hr Hg. unfold handleSyscallStop.
  by rewrite Hp, (getcwd_regs_other t r), Hi.
Qed.

Lemma shouldAllow_false_nonempty path : shouldAllow cfg path = false → String.eqb path "" = false.
Proof. unfold shouldAllow. by destruct (String.eqb path ""). Qed.

Lemma handle_exec_rewrite base t r b path argv envp :
  ReadString (mem t) (PathAddr arch b r) = Some path → shouldAllow cfg path = false →
  ReadStringArray arch fuel (mem t) (ArgvAddr arch b r) = Ok argv →
  ReadStringArray arch fuel (mem t) (EnvpAddr arch b r) = Ok envp →
  handle_exec arch cfg fuel base t r b =
    write_exec arch cfg t r b (new_argv cfg path argv) (new_envp cfg base envp).
Proof.
  intros Hp Ha Hv He. unfold handle_exec.
  by rewrite Hp, (shouldAllow_false_nonempty path), andb_false_r, Ha, Hv, He.
Qed.

(** C2: an exec of a program that is not allowed to run locally is turned into
    an exec of the shim: the path the kernel will read is the shim, its argv is
    the shim, the original path and the original arguments, its envp is the
    injected environment; the syscall number is unchanged, the process is not
    killed and no byte outside the scratch area below the stack pointer
    changes. *)
Theorem exec_rewritten_to_shim base ps pm pid t r b path argv envp :
  pm !! pid = Some ps → inSyscall ps = false → exec_entry t r b →
  ReadString (mem t) (PathAddr arch b r) = Some path → shouldAllow cfg path = false →
  ReadStringArray arch fuel (mem t) (ArgvAddr arch b r) = Ok argv →
  ReadStringArray arch fuel (mem t) (EnvpAddr arch b r) = Ok envp →
  settable t = true →
  stageable (mem t) r (new_argv cfg path argv) (new_envp cfg base envp) →
  readable shim → Forall readable (new_argv cfg path argv) →
  Forall readable (new_envp cfg base envp) →
  (length (new_argv cfg path argv) < fuel)%nat → (length (new_envp cfg base envp) < fuel)%nat →
  ∃ t' r', stop base pm pid t = (<[pid := set_inSyscall true ps]> pm, t') ∧
    regs t' = Some r' ∧ killed t' = killed t ∧
    staged (mem t) (mem t') r r' b (new_argv cfg path argv) (new_envp cfg base envp).
Proof.
  intros Hp Hi He Hpath Hna Hv Hen Hset Hst Hs Hra Hre Hfa Hfe.
  rewrite (stop_exec_entry _ _ _ _ _ _ _ Hp Hi He), (handle_exec_rewrite _ _ _ _ path argv envp) by done.
  destruct (write_exec_staged t r b (new_argv cfg path argv) (new_envp cfg base envp))
    as (r' & ? & ? & ?); [done..|]. by eexists _, r'.
Qed.

(** What the tracer may leave behind for an exec it does not allow: a killed process, a
    syscall number that is no exec, or a path pointer at the shim's path. *)
Definition contained (t' : Tracee M) (r : Regs) (b : bool) : Prop :=
  killed t' = true ∨
  ∃ r', regs t' = Some r' ∧
    ((SyscallNum arch r' ∉ [SysExecve arch; SysExecveat arch]) ∨
     SyscallNum arch r' = SyscallNum arch r ∧ ReadString (mem t') (PathAddr arch b r') = Some shim).

(** The program the kernel runs when the process goes on.  [honours]: the kernel takes the
    syscall number from the registers the tracer stored; otherwise it keeps the one it read
    from [r], as the comments of [rewrite_linux_arm.go] and [rewrite_linux_s390x.go] say some
    kernels do. *)
Definition executed (honours : bool) (r : Regs) (b : bool) (t' : Tracee M) : option string :=
  if killed t' then None
  else
    r' ← regs t';
    if bool_decide (SyscallNum arch (if honours then r' else r) ∈ [SysExecve arch; SysExecveat arch])
    then ReadString (mem t') (PathAddr arch b r')
    else None.

Lemma contained_executed t' r b :
  contained t' r b → executed true r b t' = None ∨ executed true r b t' = Some shim.
Proof.
  intros [Hk|(r' & Hr & Hc)]; unfold executed; [rewrite Hk; by left|]. destruct (killed t'); [by left|].
  rewrite Hr. cbn. destruct Hc as [Hn|[_ Hp]]; [rewrite bool_decide_false by done; by left|].
  case_bool_decide; [by right|by left].
Qed.

Lemma blockExec_contained t r r0 b : contained (blockExec arch t r) r0 b.
Proof.
  unfold contained, blockExec, set_or_kill, SetRegs. case_match eqn:E; case_match; simplify_eq/=;
    [|by left]. right. eexists. split; [done|]. left.
  destruct (law_block (a := arch) r). set_solver.
Qed.

Lemma exec_cursor_u r argv envp : is_u (ptr_bits arch) (exec_cursor arch cfg r argv envp).
Proof.
  unfold exec_cursor. set (x := StackPointer arch r - 256 - _).
  assert (0 ≤ ptr_bits arch) as Hb by (unfold ptr_bits; destruct (law_ptrSize (a := arch)); lia).
  pose proof (uwrap_range (ptr_bits arch) x Hb) as [? ?]. fold (pwrap arch x) in *.
  pose proof (alignDown_range arch (pwrap arch x)). pose proof (alignDown_nonneg arch (pwrap arch x)).
  unfold is_u. lia.
Qed.

(** The area for the rewritten exec: below the stack pointer without wrapping, and the shim's
    path is stored there as a whole or not at all. *)
Definition area_ok (m : M) (r : Regs) (argv envp : list string) : Prop :=
  stack_room r argv envp ∧ whole_write m (exec_cursor arch cfg r argv envp) (cstring shim).

Lemma write_exec_contained t r b argv envp :
  readable shim → area_ok (mem t) r argv envp → contained (write_exec arch cfg t r b argv envp) r b.
Proof.
  intros [Hs1 Hs2] [Hroom Hwh]. destruct (stage_layout _ _ _ Hroom) as (Hc & HL1 & HL2 & HL3 & Hsp).
  pose proof (array_size_pos arch argv). pose proof (array_size_pos arch envp).
  unfold write_exec. cbv zeta. set (c := exec_cursor arch cfg r argv envp) in *.
  set (L := Z.of_nat (length (cstring shim))) in *. set (a1 := alignUp arch (pwrap arch (c + L))) in *.
  assert (0 ≤ L) by lia.
  destruct (WriteBytes (mem t) c (cstring shim)) as [m1|] eqn:Hw1; [|apply blockExec_contained].
  pose proof (WriteBytes_whole _ _ _ _ Hwh Hw1) as Hm.
  destruct (WriteStringArray arch m1 a1 argv) as [[n m2]|] eqn:Hw2; [|apply blockExec_contained].
  destruct (WriteStringArray_outside arch m1 a1 argv n m2 ltac:(lia) ltac:(lia) Hw2) as [-> Hf2].
  set (a2 := alignUp arch (pwrap arch (a1 + array_size arch argv))) in *.
  destruct (WriteStringArray arch m2 a2 envp) as [[n3 m3]|] eqn:Hw3; [|apply blockExec_contained].
  destruct (WriteStringArray_outside arch m2 a2 envp n3 m3 ltac:(lia) ltac:(lia) Hw3) as [_ Hf3].
  unfold contained, set_or_kill, SetRegs. simpl. destruct (settable t); simpl; [|by left].
  right. eexists. split; [done|]. right. rewrite law_sysno_envp, law_sysno_argv, law_sysno_path. split; [done|].
  rewrite law_path_envp, law_path_argv, law_path_get by apply exec_cursor_u.
  apply ReadString_holds; [lia|done|done|].
  eapply mem_holds_frame; [|exact Hf3|fold L; lia]. eapply mem_holds_frame; [exact Hm|exact Hf2|fold L; lia].
Qed.

(** C6: the tracer fails closed: whichever read, write or register call fails, an exec whose
    path cannot be read or is not allowed ends with the process killed, with the syscall
    number replaced by one that is no exec, or with the path pointer at memory that holds
    the shim's path.  So on a kernel that takes the syscall number from the registers it is
    given the program that runs is the shim, or none.  The stack pointer is assumed to leave
    room for the rewritten exec, and the shim's path to be stored as a whole or not at
    all. *)
Theorem exec_fails_closed base ps pm pid t r b :
  pm !! pid = Some ps → inSyscall ps = false → exec_entry t r b →
  (∀ path, ReadString (mem t) (PathAddr arch b r) = Some path → shouldAllow cfg path = false) →
  readable shim →
  (∀ path argv envp, ReadString (mem t) (PathAddr arch b r) = Some path →
     ReadStringArray arch fuel (mem t) (ArgvAddr arch b r) = Ok argv →
     ReadStringArray arch fuel (mem t) (EnvpAddr arch b r) = Ok envp →
     area_ok (mem t) r (new_argv cfg path argv) (new_envp cfg base envp)) →
  let t' := (stop base pm pid t).2 in
  contained t' r b ∧ (executed true r b t' = None ∨ executed true r b t' = Some shim).
Proof.
  intros Hp Hi He Hna Hsh Harea. cbv zeta. enough (contained (stop base pm pid t).2 r b) as Hc.
  { split; [done|by apply contained_executed]. }
  rewrite (stop_exec_entry _ _ _ _ _ _ _ Hp Hi He). simpl.
  unfold handle_exec. destruct (ReadString _ _) as [path|] eqn:E; [|apply blockExec_contained].
  specialize (Hna path eq_refl).
  rewrite (shouldAllow_false_nonempty path), andb_false_r, Hna by done.
  destruct (ReadStringArray _ _ _ (ArgvAddr _ _ _)) as [argv|]; [|apply blockExec_contained].
  destruct (ReadStringArray _ _ _ (EnvpAddr _ _ _)) as [envp|]; [|apply blockExec_contained].
  apply write_exec_contained; [done|]. by apply Harea.
Qed.

Lemma remapAllowedExecPWD_keeps t r b :
  regs t = Some r →
  let t' := remapAllowedExecPWD arch cfg fuel t r b in
  killed t' = killed t ∧
  ∃ r', regs t' = Some r' ∧ SyscallNum arch r' = SyscallNum arch r ∧
    PathAddr arch b r' = PathAddr arch b r ∧ ArgvAddr arch b r' = ArgvAddr arch b r.
Proof.
  intros Hr. cbv zeta. unfold remapAllowedExecPWD, SetRegs.
  repeat (case_match; simplify_eq/=); split; eauto using eq_trans.
  eexists. split; [done|]. by rewrite law_sysno_envp, law_path_envp, law_argv_envp.
Qed.

(** An exec that is allowed to run locally keeps its syscall number, its
    path and its argv, and the process is not killed; without cwd mapping the
    tracee is left exactly as it is. *)
Theorem allowed_exec_kept base ps pm pid t r b path :
  pm !! pid = Some ps → inSyscall ps = false → exec_entry t r b →
  ReadString (mem t) (PathAddr arch b r) = Some path → shouldAllow cfg path = true →
  let t' := (stop base pm pid t).2 in
  killed t' = killed t ∧ (cwdMapEnabled cfg = false → t' = t) ∧
  ∃ r', regs t' = Some r' ∧ SyscallNum arch r' = SyscallNum arch r ∧
    PathAddr arch b r' = PathAddr arch b r ∧ ArgvAddr arch b r' = ArgvAddr arch b r.
Proof.
  intros Hp Hi He Hrd Ha. cbv zeta. rewrite (stop_exec_entry _ _ _ _ _ _ _ Hp Hi He). simpl.
  destruct He as [Hr _ _ _]. unfold handle_exec. rewrite Hrd, Ha. case_match; [eauto 10|].
  destruct (remapAllowedExecPWD_keeps t r b Hr) as [Hk Hr'].
  destruct (cwdMapEnabled cfg); [by split|eauto 10].
Qed.

End exec_theorems.

(** ** The getcwd hook *)

Section getcwd_theorems.
Context `{Regexp} {M : Type} `{TraceeVMLaws M} (arch : Arch) `{!ArchLaws arch}.
Variable cfg : Config.
Variable sysGetcwd : Z.
Variable fuel : nat.

Local Abbreviation stop := (handleSyscallStop arch cfg sysGetcwd fuel).
Local Abbreviation map_cwd d := (RewritePathPrefix d (CwdFrom cfg) (CwdTo cfg)).

Lemma getcwd_regs_hit (t : Tracee M) r :
  cwdMapEnabled cfg = true → regs t = Some r → SyscallNum arch r = sysGetcwd →
  getcwd_regs arch cfg sysGetcwd t = Some r.
Proof. intros He Hr <-. unfold getcwd_regs. by rewrite He, Hr, Z.eqb_refl. Qed.

(** The two stops of one getcwd, whatever the entry/exit phase says. *)
Lemma getcwd_pair base pm pid ps (t1 t2 : Tracee M) r1 r2 :
  cwdMapEnabled cfg = true → pm !! pid = Some ps → cwdPending ps = false →
  regs t1 = Some r1 → SyscallNum arch r1 = sysGetcwd →
  regs t2 = Some r2 → SyscallNum arch r2 = sysGetcwd →
  let '(pm1, t1') := stop base pm pid t1 in
  let ps' := mkPid (inSyscall ps) (expectStop ps) false (PathAddr arch false r1) (ArgvAddr arch false r1) in
  t1' = t1 ∧
  stop base pm1 pid t2 =
    (<[pid := ps']> pm, rewriteGetcwd arch cfg t2 (mkPid (negb (inSyscall ps)) (expectStop ps) true
                          (PathAddr arch false r1) (ArgvAddr arch false r1)) r2).
Proof.
  intros He Hp Hn Hr1 Hs1 Hr2 Hs2. unfold handleSyscallStop at 1.
  rewrite Hp, (getcwd_regs_hit _ r1), Hn by done. simpl. split; [done|].
  unfold handleSyscallStop. rewrite lookup_insert_eq, (getcwd_regs_hit _ r2) by done. simpl.
  rewrite insert_insert_eq, negb_involutive. done.
Qed.

(** The mapping of one result. *)
Lemma rewriteGetcwd_maps (t : Tracee M) ps r ret cwd mapped :
  settable t = true → cwdBuf ps ≠ 0 → Ret arch r = (ret, true) → ret ≠ 0 →
  ReadString (mem t) (cwdBuf ps) = Some cwd → cwd ≠ "" →
  map_cwd cwd = (mapped, true) → mapped ≠ cwd → readable mapped →
  mem_writable (mem t) (cwdBuf ps) (cwdSize ps) →
  let t' := rewriteGetcwd arch cfg t ps r in
  let needed := Z.of_nat (slen mapped) + 1 in
  ∃ r', regs t' = Some r' ∧
    if cwdSize ps <? needed then (Ret arch r').2 = false ∧ mem t' = mem t
    else Ret arch r' = (needed, true) ∧ ReadString (mem t') (cwdBuf ps) = Some mapped ∧
         ∀ x, ¬ cwdBuf ps ≤ x < cwdBuf ps + needed → byte_at (mem t') x = byte_at (mem t) x.
Proof.
  intros Hset Hb Hret Hnz Hrd Hne Hmap Hdiff [Hnul Hlen] Hw. cbv zeta. unfold rewriteGetcwd.
  rewrite (proj2 (Z.eqb_neq _ _)), Hret, (proj2 (Z.eqb_neq ret 0)) by done. simpl.
  rewrite Hrd, (proj2 (String.eqb_neq cwd "")), Hmap, (proj2 (String.eqb_neq mapped cwd)) by done. simpl.
  set (needed := Z.of_nat (slen mapped) + 1) in *.
  assert (8 * 4 ≤ ptr_bits arch) as Hbits
    by (unfold ptr_bits; destruct (law_ptrSize (a := arch)); lia).
  assert (2 ^ 31 ≤ 2 ^ (ptr_bits arch - 1)) as Hpow by (apply Z.pow_le_mono_r; lia).
  unfold read_window in Hlen. destruct (Z.ltb_spec (cwdSize ps) needed) as [Hlt|Hge].
  - unfold SetRegs. rewrite Hset. simpl. eexists. split_and!; [done| |done].
    apply law_ret_err. unfold Errno.ERANGE. lia.
  - assert (Z.of_nat (length (cstring mapped)) = needed) as Hcl by (rewrite length_cstring; lia).
    destruct (WriteBytes_writable (mem t) (cwdBuf ps) (cstring mapped)) as (m & -> & Hm & Hf & _).
    { intros x Hx. apply Hw. lia. }
    unfold SetRegs. simpl. rewrite Hset. simpl. eexists. split_and!; [done| | |by rewrite <- Hcl].
    + apply law_ret_ok. lia.
    + by apply ReadString_holds.
Qed.

(** C28: getcwd remapping: when the entry and exit stops of a successful getcwd
    arrive, whatever phase the tracer believes it is in, a result below CwdFrom
    is replaced in the caller's buffer by its image below CwdTo with the
    matching length as result, or the call fails when the image does not fit the
    buffer the caller passed; nothing outside the buffer is written and the
    phase is back where it was. *)
Theorem getcwd_remapped base pm pid ps (t1 t2 : Tracee M) r1 r2 ret cwd mapped :
  cwdMapEnabled cfg = true → pm !! pid = Some ps → cwdPending ps = false →
  regs t1 = Some r1 → SyscallNum arch r1 = sysGetcwd →
  regs t2 = Some r2 → SyscallNum arch r2 = sysGetcwd → settable t2 = true →
  Ret arch r2 = (ret, true) → ret ≠ 0 →
  let buf := PathAddr arch false r1 in let size := ArgvAddr arch false r1 in
  buf ≠ 0 → ReadString (mem t2) buf = Some cwd → cwd ≠ "" →
  map_cwd cwd = (mapped, true) → mapped ≠ cwd → readable mapped →
  mem_writable (mem t2) buf size →
  let '(pm1, t1') := stop base pm pid t1 in
  let '(pm2, t2') := stop base pm1 pid t2 in
  let needed := Z.of_nat (slen mapped) + 1 in
  t1' = t1 ∧ pm2 !! pid = Some (mkPid (inSyscall ps) (expectStop ps) false buf size) ∧
  ∃ r', regs t2' = Some r' ∧
    if size <? needed then (Ret arch r').2 = false ∧ mem t2' = mem t2
    else Ret arch r' = (needed, true) ∧ ReadString (mem t2') buf = Some mapped ∧
         ∀ x, ¬ buf ≤ x < buf + needed → byte_at (mem t2') x = byte_at (mem t2) x.
Proof.
  intros He Hp Hn Hr1 Hs1 Hr2 Hs2 Hset Hret Hnz buf size Hb Hrd Hne Hmap Hdiff Hrdb Hw.
  pose proof (getcwd_pair base pm pid ps t1 t2 r1 r2 He Hp Hn Hr1 Hs1 Hr2 Hs2) as Hpair.
  destruct (stop base pm pid t1) as [pm1 t1']. destruct Hpair as [-> ->].
  split; [done|]. split; [by rewrite lookup_insert_eq|].
  by apply (rewriteGetcwd_maps t2 (mkPid _ _ _ buf size) r2 ret cwd mapped).
Qed.

End getcwd_theorems.

(** ** The event loop *)

Section loop_theorems.
Context `{Regexp} {M : Type} `{TraceeVM M} (arch : Arch).
Variable cfg : Config.
Variable sysGetcwd : Z.
Variable fuel : nat.

Local Abbreviation step := (trace_step arch cfg sysGetcwd fuel).
Local Abbreviation loop := (trace_loop arch cfg sysGetcwd fuel).
Local Abbreviation sysstop := (WStopped (Z.lor SIGTRAP 0x80) 0 None).

(** One round, by kind of event. *)
Lemma step_fork base childPid (st : TState M) ppid np ev :
  ev ∈ [PTRACE_EVENT_FORK; PTRACE_EVENT_VFORK; PTRACE_EVENT_CLONE] →
  step base childPid st ppid (WStopped SIGTRAP ev (Some np)) =
  resume (if pids st !! np is Some _ then st
          else with_pids st (<[np := set_expectStop true pid0]> (pids st))) ppid 0.
Proof.
  rewrite !elem_of_cons, elem_of_nil. unfold trace_step. change (Z.lor SIGTRAP 0x80) with 133.
  by intros [->|[->|[->|[]]]]; simpl; destruct (pids st !! np).
Qed.

Lemma step_sigstop base childPid (st : TState M) pid :
  step base childPid st pid (WStopped SIGSTOP 0 None) =
  match pids st !! pid with
  | None => resume (with_pids st (<[pid := pid0]> (pids st))) pid 0
  | Some ps =>
      if expectStop ps then resume (with_pids st (<[pid := set_expectStop false ps]> (pids st))) pid 0
      else resume st pid SIGSTOP
  end.
Proof. done. Qed.

Lemma step_exec_event base childPid (st : TState M) pid ps :
  pids st !! pid = Some ps →
  step base childPid st pid (WStopped SIGTRAP PTRACE_EVENT_EXEC None) =
  resume (with_pids st (<[pid := set_inSyscall false ps]> (pids st))) pid 0.
Proof.
  intros Hp. unfold trace_step. change (Z.lor SIGTRAP 0x80) with 133. simpl. by rewrite Hp.
Qed.

Lemma step_syscall base childPid (st : TState M) pid :
  step base childPid st pid sysstop = resume (syscall_stop arch cfg sysGetcwd fuel base st pid) pid 0.
Proof. done. Qed.

(** A syscall stop with the hook off, by phase. *)
Lemma syscall_stop_phase base (st : TState M) pid ps t :
  cwdMapEnabled cfg = false → pids st !! pid = Some ps → tracees st pid = t →
  let st' := syscall_stop arch cfg sysGetcwd fuel base st pid in
  pids st' = <[pid := set_inSyscall (negb (inSyscall ps)) ps]> (pids st) ∧
  resumed st' = resumed st ∧ (inSyscall ps = true → tracees st' pid = t).
Proof.
  intros He Hp Ht. cbv zeta. unfold syscall_stop, handleSyscallStop, getcwd_regs. rewrite He, Hp, Ht.
  destruct (inSyscall ps); simpl; [|by repeat case_match; simplify_eq/=].
  split_and!; [done..|]. intros _. by rewrite fn_lookup_insert.
Qed.

(** A new child is resumed without its initial SIGSTOP being delivered and
    starts in the entry phase with no stop expected, whether its own SIGSTOP or
    its parent's fork, vfork or clone event is reported first. *)
Theorem fork_stop_order base childPid (st : TState M) ppid np ev :
  ppid ≠ np → pids st !! np = None →
  ev ∈ [PTRACE_EVENT_FORK; PTRACE_EVENT_VFORK; PTRACE_EVENT_CLONE] →
  let fork s := step base childPid s ppid (WStopped SIGTRAP ev (Some np)) in
  let stop s := step base childPid s np (WStopped SIGSTOP 0 None) in
  let a := stop (fork st) in let b := fork (stop st) in
  pids a = <[np := pid0]> (pids st) ∧ pids b = pids a ∧
  tracees a = tracees st ∧ tracees b = tracees st ∧
  resumed a = resumed st ++ [(ppid, 0); (np, 0)] ∧
  resumed b = resumed st ++ [(np, 0); (ppid, 0)].
Proof.
  intros Hne Hnp Hev. cbv beta zeta. rewrite !step_fork, !step_sigstop, Hnp by done. simpl.
  rewrite !lookup_insert_eq. simpl. by rewrite insert_insert_eq, <- !app_assoc.
Qed.

(** The exit code is the child's own exit status, or 128 plus the signal
    that killed it, and events of other processes never change it; a process
    that ends is forgotten. *)
Theorem exit_code_from_child base childPid (st : TState M) pid ws :
  exitCode (step base childPid st pid ws) =
    (if pid =? childPid then
       match ws with WExited c => c | WSignaled s => 128 + s | _ => exitCode st end
     else exitCode st) ∧
  match ws with
  | WExited _ | WSignaled _ => pids (step base childPid st pid ws) = delete pid (pids st)
  | WStopped _ _ _ => ∃ sig, resumed (step base childPid st pid ws) = resumed st ++ [(pid, sig)]
  | WOther => step base childPid st pid ws = st
  end.
Proof.
  destruct ws as [c|s|sig ev msg|]; simpl; [done|done| |by destruct (pid =? childPid)].
  unfold syscall_stop. split; repeat (case_match; simplify_eq/=; eauto).
Qed.

(** One event of the loop for a known pid. *)
Lemma loop_known base childPid (st : TState M) pid ws t evs ps :
  pids st !! pid = Some ps →
  loop base childPid st ((pid, ws, t) :: evs) =
  loop base childPid (step base childPid (observe st pid t) pid ws) evs.
Proof. intros Hp. cbn [trace_loop]. case_decide as Hd; [|done]. by rewrite Hd in Hp. Qed.

Lemma loop_sysstop base childPid (st : TState M) pid ps t :
  cwdMapEnabled cfg = false → pids st !! pid = Some ps →
  ∃ st', (∀ evs, loop base childPid st ((pid, sysstop, t) :: evs) = loop base childPid st' evs) ∧
    pids st' !! pid = Some (set_inSyscall (negb (inSyscall ps)) ps) ∧
    resumed st' = resumed st ++ [(pid, 0)] ∧ (inSyscall ps = true → tracees st' pid = t).
Proof.
  intros He Hp. eexists. split; [intros; by eapply loop_known|]. rewrite step_syscall.
  destruct (syscall_stop_phase base (observe st pid t) pid ps t) as (H1 & H2 & H3); [done|done| |].
  { simpl. by rewrite fn_lookup_insert. }
  cbn [resume pids resumed tracees]. rewrite H1, H2. split_and!; [by rewrite lookup_insert_eq|done..].
Qed.

Lemma loop_exec_event base childPid (st : TState M) pid ps t :
  pids st !! pid = Some ps →
  ∃ st', (∀ evs, loop base childPid st ((pid, WStopped SIGTRAP PTRACE_EVENT_EXEC None, t) :: evs) =
                 loop base childPid st' evs) ∧
    pids st' !! pid = Some (set_inSyscall false ps) ∧ resumed st' = resumed st ++ [(pid, 0)].
Proof.
  intros Hp. eexists. split; [intros; by eapply loop_known|].
  rewrite (step_exec_event _ _ _ _ ps) by done. simpl. by rewrite lookup_insert_eq.
Qed.

(** An exec that follows an exec in the same process is not intercepted.
    The exec event clears the phase, the exit stop of that exec then counts as an
    entry, and so the entry stop of the next exec counts as an exit: the tracee
    is resumed exactly as it stopped, whatever path it is about to execute. *)
Theorem exec_after_exec_not_intercepted base childPid (st : TState M) ps pid t1 t2 t3 :
  cwdMapEnabled cfg = false → pids st !! pid = Some ps → inSyscall ps = false →
  let st' := loop base childPid st
    [(pid, sysstop, t1); (pid, WStopped SIGTRAP PTRACE_EVENT_EXEC None, t1);
     (pid, sysstop, t2); (pid, sysstop, t3)] in
  tracees st' pid = t3 ∧ resumed st' = resumed st ++ [(pid, 0); (pid, 0); (pid, 0); (pid, 0)].
Proof.
  intros He Hp Hi. cbv zeta.
  destruct (loop_sysstop base childPid st pid ps t1 He Hp) as (st1 & Hl1 & Hp1 & Hr1 & _).
  rewrite Hl1. clear Hl1.
  destruct (loop_exec_event base childPid st1 pid _ t1 Hp1) as (st2 & Hl2 & Hp2 & Hr2).
  rewrite Hl2. clear Hl2.
  destruct (loop_sysstop base childPid st2 pid _ t2 He Hp2) as (st3 & Hl3 & Hp3 & Hr3 & _).
  rewrite Hl3. clear Hl3.
  destruct (loop_sysstop base childPid st3 pid _ t3 He Hp3) as (st4 & Hl4 & _ & Hr4 & Ht4).
  rewrite Hl4. simpl. split; [by apply Ht4|].
  by rewrite Hr4, Hr3, Hr2, Hr1, <- !app_assoc.
Qed.

End loop_theorems.

(** ** Witnesses *)

Module Demo.
#[local] Existing Instance literal_engine.

(** A tracee about to run [/usr/bin/gcc -c], stack pointer 3000. *)
Definition put (m : gmap Z ascii) (a : Z) (s : string) : gmap Z ascii :=
  default m (WriteBytes m a (cstring s)).
Definition put_array (m : gmap Z ascii) (a : Z) (l : list string) : gmap Z ascii :=
  default m (snd <$> WriteStringArray arch_amd64 m a l).
Definition memory (path : string) : gmap Z ascii :=
  put_array (put_array (put (zeroed 1000 2000) 1008 path) 1200 ["gcc"; "-c"]) 1400 ["A=1"; "PWD=/w/x"].
Definition registers : Regs :=
  list_to_map [("Orig_rax", 59); ("Rdi", 1008); ("Rsi", 1200); ("Rdx", 1400); ("Rsp", 3000)].
Definition tracee (path : string) : Tracee (gmap Z ascii) :=
  mkTracee (Some registers) (memory path) true false.
Definition config : Config := mkConfig "/opt/shim" ["/bin/sh"] "" "".
Definition base : EnvBaseline := NewEnvBaselineFromSlice ["A=1"].

Lemma entry path : exec_entry arch_amd64 79 (tracee path) registers false.
Proof. split; [done|by vm_compute|by left|by vm_compute]. Qed.

Lemma read_path :
  ReadString (mem (tracee "/usr/bin/gcc")) (PathAddr arch_amd64 false registers) = Some "/usr/bin/gcc".
Proof. vm_compute. reflexivity. Qed.

Lemma exec_rewritten_to_shim_witness :
  ∃ t' r',
    handleSyscallStop arch_amd64 config 79 20 base {[7 := pid0]} 7 (tracee "/usr/bin/gcc") =
      (<[7 := set_inSyscall true pid0]> {[7 := pid0]}, t') ∧
    regs t' = Some r' ∧ killed t' = killed (tracee "/usr/bin/gcc") ∧
    staged arch_amd64 config 20 (mem (tracee "/usr/bin/gcc")) (mem t') registers r' false
      (new_argv config "/usr/bin/gcc" ["gcc"; "-c"]) (new_envp config base ["A=1"; "PWD=/w/x"]).
Proof.
  apply (exec_rewritten_to_shim arch_amd64 config 79 20 base pid0 {[7 := pid0]} 7
           (tracee "/usr/bin/gcc") registers false "/usr/bin/gcc" ["gcc"; "-c"] ["A=1"; "PWD=/w/x"]);
    [reflexivity|reflexivity|apply entry|vm_compute; reflexivity..|reflexivity| | | | | |].
  - split; [split; by vm_compute|by vm_compute|apply mem_writable_dec; vm_compute; reflexivity].
  - apply readable_dec. vm_compute. reflexivity.
  - apply readables_dec. vm_compute. reflexivity.
  - apply readables_dec. vm_compute. reflexivity.
  - apply Nat.ltb_lt. vm_compute. reflexivity.
  - apply Nat.ltb_lt. vm_compute. reflexivity.
Defined.

Lemma exec_fails_closed_witness :
  executed arch_amd64 true registers false
    (handleSyscallStop arch_amd64 config 79 20 base {[7 := pid0]} 7 (tracee "/usr/bin/gcc")).2 = Some "/opt/shim".
Proof.
  destruct (exec_fails_closed arch_amd64 config 79 20 base pid0 {[7 := pid0]} 7 (tracee "/usr/bin/gcc") registers false)
    as [_ [Hx|Hx]]; [done|done|apply entry| | | | |exact Hx].
  - intros path Hp. rewrite read_path in Hp. injection Hp as <-. vm_compute. reflexivity.
  - apply readable_dec. vm_compute. reflexivity.
  - intros path argv envp Hp Ha He. rewrite read_path in Hp. injection Hp as <-.
    vm_compute in Ha. injection Ha as <-. vm_compute in He. injection He as <-.
    split; [split; [split; by vm_compute|by vm_compute]|]. apply writable_whole, mem_writable_dec. vm_compute. reflexivity.
  - vm_compute in Hx. discriminate.
Defined.

(** A tracee on ARM whose argv is at an unmapped address: the exec is blocked, and a kernel
    that keeps the number it has read runs the original program all the same. *)
Definition arm_regs : Regs := list_to_map [("R7", 11); ("R0", 1008); ("R1", 9000); ("R2", 1400); ("R13", 3000)].
Example arm_block_needs_kernel :
  let t := mkTracee (Some arm_regs) (memory "/usr/bin/gcc") true false in
  let t' := (handleSyscallStop arch_arm config 183 20 base {[7 := pid0]} 7 t).2 in
  executed arch_arm true arm_regs false t' = None ∧
  executed arch_arm false arm_regs false t' = Some "/usr/bin/gcc".
Proof. split; vm_compute; reflexivity. Qed.

Lemma allowed_exec_kept_witness :
  killed (handleSyscallStop arch_amd64 config 79 20 base {[7 := pid0]} 7 (tracee "/bin/sh")).2 =
  killed (tracee "/bin/sh").
Proof.
  apply (allowed_exec_kept arch_amd64 config 79 20 base pid0 {[7 := pid0]} 7 (tracee "/bin/sh")
           registers false "/bin/sh"); [done|done|apply entry|vm_compute; reflexivity..].
Defined.

Lemma remapPWDEnv_first_witness :
  remapPWDEnv ["A=1"; "PWD=/w/x"; "PWD=/w"] "/w" "/r" = (["A=1"; "PWD=/r/x"; "PWD=/w"], true).
Proof. by apply (remapPWDEnv_first ["A=1"] "PWD=/w/x" ["PWD=/w"] "/w" "/r"); [constructor|]. Defined.

Definition state0 : TState (gmap Z ascii) := mkTState {[7 := pid0]} (λ _, tracee "/bin/sh") 127 [].

Lemma fork_stop_order_witness :
  let fork s := trace_step arch_amd64 config 79 20 base 7 s 7 (WStopped SIGTRAP PTRACE_EVENT_FORK (Some 8)) in
  let stop s := trace_step arch_amd64 config 79 20 base 7 s 8 (WStopped SIGSTOP 0 None) in
  pids (fork (stop state0)) = pids (stop (fork state0)).
Proof. apply (fork_stop_order arch_amd64 config 79 20 base 7 state0 7 8); [done|done|left]. Defined.

(** The second exec runs [/usr/bin/gcc], which is not allowed locally. *)
Lemma exec_after_exec_witness :
  shouldAllow config "/usr/bin/gcc" = false ∧
  ReadString (memory "/usr/bin/gcc") (PathAddr arch_amd64 false registers) = Some "/usr/bin/gcc" ∧
  tracees (trace_loop arch_amd64 config 79 20 base 7 state0
    [(7, WStopped (Z.lor SIGTRAP 0x80) 0 None, tracee "/bin/sh");
     (7, WStopped SIGTRAP PTRACE_EVENT_EXEC None, tracee "/bin/sh");
     (7, WStopped (Z.lor SIGTRAP 0x80) 0 None, mkTracee (Some {["Orig_rax" := 59]}) ∅ true false);
     (7, WStopped (Z.lor SIGTRAP 0x80) 0 None, tracee "/usr/bin/gcc")]) 7 = tracee "/usr/bin/gcc".
Proof.
  split; [vm_compute; reflexivity|]. split; [vm_compute; reflexivity|].
  by apply (exec_after_exec_not_intercepted arch_amd64 config 79 20 base 7 state0 pid0 7).
Defined.

(** getcwd in a 64-byte buffer at 1500, with [/w] shown as [/r]. *)
Definition cwd_config : Config := mkConfig "/opt/shim" [] "/w" "/remote".
Definition cwd_regs (rax : Z) : Regs :=
  list_to_map [("Orig_rax", 79); ("Rax", rax); ("Rdi", 1500); ("Rsi", 64)].
Definition cwd_tracee (rax : Z) : Tracee (gmap Z ascii) :=
  mkTracee (Some (cwd_regs rax)) (put (zeroed 1400 400) 1500 "/w/x") true false.

Lemma getcwd_remapped_witness :
  let '(pm1, t1') := handleSyscallStop arch_amd64 cwd_config 79 20 base {[7 := pid0]} 7 (cwd_tracee 0) in
  let '(pm2, t2') := handleSyscallStop arch_amd64 cwd_config 79 20 base pm1 7 (cwd_tracee 5) in
  t1' = cwd_tracee 0 ∧ pm2 !! 7 = Some (mkPid false false false 1500 64) ∧
  ∃ r', regs t2' = Some r' ∧ Ret arch_amd64 r' = (10, true) ∧ ReadString (mem t2') 1500 = Some "/remote/x" ∧
    ∀ x, ¬ 1500 ≤ x < 1500 + 10 → byte_at (mem t2') x = byte_at (mem (cwd_tracee 5)) x.
Proof.
  apply (getcwd_remapped arch_amd64 cwd_config 79 20 base {[7 := pid0]} 7 pid0 (cwd_tracee 0) (cwd_tracee 5)
           (cwd_regs 0) (cwd_regs 5) 5 "/w/x" "/remote/x"); [reflexivity|reflexivity|reflexivity|reflexivity|reflexivity|reflexivity|reflexivity|
      reflexivity|vm_compute; reflexivity|done|done|vm_compute; reflexivity|done|
      vm_compute; reflexivity|done| |].
  - apply readable_dec. vm_compute. reflexivity.
  - apply mem_writable_dec. vm_compute. reflexivity.
Defined.

End Demo.
