(* ===== verification/FileClient.v ===== *)
(** * FileClient: the remote file interface and programs over it

    [pkg/remote/backend.go] declares the interface every backend (SFTP, the
    agent, Docker) offers for file operations.  Here it is a type of requests
    with the reply of each; code that uses a [FileClient] is a program over these
    requests ([prog]), run against any implementation ([run]).  Two properties of
    programs are defined once: every request satisfies a predicate
    ([all_calls]), and every handle that is opened is closed ([leakfree]).

    The file also holds what the clients share of Go's [os] package:
    [os.FileMode] bits, [os.FileInfo] and the error classes that are mapped to
    errnos. *)

From S2P Require Import Prelude GoStrings.
Local Open Scope Z_scope.

(** ** os.FileMode *)

Definition ModeDir : Z := Z.shiftl 1 31.
Definition ModeSymlink : Z := Z.shiftl 1 27.
Definition ModeDevice : Z := Z.shiftl 1 26.
Definition ModeNamedPipe : Z := Z.shiftl 1 25.
Definition ModeSocket : Z := Z.shiftl 1 24.
Definition ModeSetuid : Z := Z.shiftl 1 23.
Definition ModeSetgid : Z := Z.shiftl 1 22.
Definition ModeCharDevice : Z := Z.shiftl 1 21.
Definition ModeSticky : Z := Z.shiftl 1 20.

(** [mode & bit != 0] *)
Definition has (mode bit : Z) : bool := negb (Z.land mode bit =? 0).
Definition IsDir (mode : Z) : bool := has mode ModeDir.
Definition Perm (mode : Z) : Z := Z.land mode o777.

(** ** Errors *)

(** What the code tells apart of an [error]: an errno in its chain, one of the
    [os] sentinels, [io.EOF], anything else. *)
Inductive go_err : Type :=
  | EErrno (n : Z)
  | ENotExist
  | EPermission
  | EExist
  | EInvalid
  | EEOF
  | EOther.

(** ** os.FileInfo and what [Sys()] may return *)

(** [agentproto.FileStat] *)
Record FileStat := mkFileStat {
  fs_Name : string; fs_Size : Z; fs_Mode : Z;
  fs_MTimeNanos : Z; fs_ATimeNanos : Z; fs_CTimeNanos : Z;
  fs_UID : Z; fs_GID : Z;
  fs_Nlink : Z; fs_Rdev : Z; fs_Blocks : Z; fs_Blksize : Z; fs_Ino : Z;
  fs_IsDir : bool;
}.

(** [syscall.Stat_t]; times in nanoseconds *)
Record Stat_t := mkStat_t {
  st_Mode : Z; st_Uid : Z; st_Gid : Z; st_Nlink : Z; st_Rdev : Z; st_Blocks : Z; st_Blksize : Z; st_Ino : Z;
  st_Atim : Z; st_Mtim : Z; st_Ctim : Z;
}.

(** [sftp.FileStat]; times in seconds *)
Record SftpStat := mkSftpStat { sf_UID : Z; sf_GID : Z; sf_Atime : Z; sf_Mtime : Z }.

(** The dynamic type of [FileInfo.Sys()]; [None] is a nil pointer. *)
Inductive Sys : Type :=
  | SysAgent (s : FileStat)
  | SysAgentPtr (s : option FileStat)
  | SysStat (s : option Stat_t)
  | SysSFTP (s : option SftpStat)
  | SysOther.

Record FileInfo := mkFI {
  fi_Name : string;
  fi_Size : Z;
  fi_Mode : Z;
  fi_ModTime : Z;
  fi_IsDir : bool;
  fi_Sys : Sys;
}.

Record Statfs := mkStatfs {
  sfs_Blocks : Z; sfs_Bfree : Z; sfs_Bavail : Z; sfs_Files : Z; sfs_Ffree : Z;
  sfs_Bsize : Z; sfs_Frsize : Z; sfs_NameLen : Z;
}.

(** ** Requests *)

Definition handle : Type := Z.

Inductive req : Type :=
  | FOpen (p : string)
  | FCreate (p : string)
  | FOpenFile (p : string) (flags mode : Z)
  | FStat (p : string)
  | FLstat (p : string)
  | FReadDir (p : string)
  | FReadlink (p : string)
  | FMkdir (p : string) (mode : Z)
  | FMkdirAll (p : string) (mode : Z)
  | FRemove (p : string)
  | FRename (p q : string)
  | FSymlink (target p : string)
  | FLink (p q : string)
  | FChmod (p : string) (mode : Z)
  | FChown (p : string) (uid gid : Z)
  | FChtimes (p : string) (atime mtime : Z)
  | FTruncate (p : string) (size : Z)
  | FStatfs (p : string)
  | FGetwd
  | HReadAt (h : handle) (off size : Z)
  | HWrite (h : handle) (data : string)
  | HWriteAt (h : handle) (data : string) (off : Z)
  | HStat (h : handle)
  | HTruncate (h : handle) (size : Z)
  | HSync (h : handle)
  | HClose (h : handle).

(** [ReadAt] and the writes return a count (here the bytes read, or the
    number written) together with an error. *)
Definition reply (r : req) : Type :=
  match r with
  | FOpen _ | FCreate _ | FOpenFile _ _ _ => result go_err handle
  | FStat _ | FLstat _ | HStat _ => result go_err FileInfo
  | FReadDir _ => result go_err (list FileInfo)
  | FReadlink _ | FGetwd => result go_err string
  | FStatfs _ => result go_err Statfs
  | HReadAt _ _ _ => string * option go_err
  | HWrite _ _ | HWriteAt _ _ _ => Z * option go_err
  | _ => option go_err
  end.

(** The paths a request names; the target of a symlink is data. *)
Definition req_paths (r : req) : list string :=
  match r with
  | FOpen p | FCreate p | FOpenFile p _ _ | FStat p | FLstat p | FReadDir p | FReadlink p
  | FMkdir p _ | FMkdirAll p _ | FRemove p
  | FSymlink _ p | FChmod p _ | FChown p _ _ | FChtimes p _ _ | FTruncate p _ | FStatfs p => [p]
  | FRename p q | FLink p q => [p; q]
  | _ => []
  end.

(** ** Programs *)

Inductive prog (A : Type) : Type :=
  | Ret (a : A)
  | Call (r : req) (k : reply r → prog A).
Arguments Ret {A} a.
Arguments Call {A} r k.

Fixpoint prog_bind {A B} (f : A → prog B) (p : prog A) : prog B :=
  match p with
  | Ret a => f a
  | Call r k => Call r (λ x, prog_bind f (k x))
  end.

#[export] Instance prog_mbind : MBind prog := λ A B, prog_bind.

(** Run a program against an implementation with state [W]. *)
Fixpoint run {W A} (impl : ∀ r : req, W → reply r * W) (p : prog A) (w : W) : A * W :=
  match p with
  | Ret a => (a, w)
  | Call r k => let '(x, w') := impl r w in run impl (k x) w'
  end.

(** Every request of every run satisfies [P]. *)
Fixpoint all_calls {A} (P : req → Prop) (p : prog A) : Prop :=
  match p with
  | Ret _ => True
  | Call r k => P r ∧ ∀ x, all_calls P (k x)
  end.

(** The handles open after a request, given its reply. *)
Definition handles_after (r : req) : reply r → list handle → list handle :=
  match r return reply r → list handle → list handle with
  | FOpen _ | FCreate _ | FOpenFile _ _ _ => λ x hs, match x with Ok h => h :: hs | Err _ => hs end
  | HClose h => λ _ hs, filter (λ h', h' ≠ h) hs
  | _ => λ _ hs, hs
  end.

(** With [hs] open at the start, every run ends in a state [Q] accepts. *)
Fixpoint ends_with {A} (Q : A → list handle → Prop) (p : prog A) (hs : list handle) : Prop :=
  match p with
  | Ret a => Q a hs
  | Call r k => ∀ x, ends_with Q (k x) (handles_after r x hs)
  end.

(** A program that closes every handle it opens. *)
Definition leakfree {A} (p : prog A) : Prop := ends_with (λ _ hs, hs = []) p [].

Lemma all_calls_bind {A B} P (p : prog A) (f : A → prog B) :
  all_calls P p → (∀ a, all_calls P (f a)) → all_calls P (p ≫= f).
Proof. intros Hp Hf. unfold mbind, prog_mbind. induction p as [a|r k IH]; simpl in *; [apply Hf|]. naive_solver. Qed.

(** The log of a run of a program whose calls satisfy [P] satisfies [P],
    whatever the implementation does. *)
Lemma all_calls_run {A W} P (impl : ∀ r : req, W → reply r * W) (p : prog A) w log :
  all_calls P p → Forall P log →
  Forall P (run (λ r s, let '(x, w') := impl r s.1 in (x, (w', s.2 ++ [r]))) p (w, log)).2.2.
Proof.
  revert w log. induction p as [a|r k IH]; intros w log Hp Hl; simpl in *; [done|].
  destruct (impl r w) as [x w']. destruct Hp as [Hr Hk]. apply IH; [done|].
  by apply Forall_app_2; [|constructor].
Qed.
