(* ===== verification/WorkspaceFS.v ===== *)
(** * WorkspaceFS: the remote workspace as a FUSE file system

    Models [pkg/workspacefs]: the path translation, the uid/gid mapping between
    the remote and the local view, the file operations as programs over the
    [FileClient] interface, the permission check and the FUSE node handlers
    ([filesystem.go], [access.go], [stat_*.go], [node_dir.go],
    [node_file.go]).  Logging is left out; a [time.Time] is its nanoseconds since
    the epoch. *)

From S2P Require Import Prelude GoStrings GoPaths FileClient.
Local Open Scope Z_scope.

(** ** Configuration *)

Inductive IDMode : Type := IDModeTransparent | IDModeOverride.
#[export] Instance IDMode_eq_dec : EqDecision IDMode.
Proof. solve_decision. Defined.

Record IDMapEntry := mkIDMap { RemoteID : Z; LocalID : Z; Count : Z }.

(** [None] stands for the empty mode string. *)
Record Options := mkOptions {
  UIDMode : option IDMode; GIDMode : option IDMode;
  UIDMap : list IDMapEntry; GIDMap : list IDMapEntry;
  LocalUID : Z; LocalGID : Z;
}.

Record FileSystem := mkFileSystem {
  root : string;
  uidMode : IDMode; gidMode : IDMode;
  uidMap : list IDMapEntry; gidMap : list IDMapEntry;
  localUID : Z; localGID : Z;
}.

Definition New (rootp : string) (opts : option Options) : FileSystem :=
  let cleanRoot := Clean rootp in
  let cleanRoot := if String.eqb cleanRoot "." then "/" else cleanRoot in
  match opts with
  | None => mkFileSystem cleanRoot IDModeOverride IDModeOverride [] [] 0 0
  | Some o =>
      mkFileSystem cleanRoot (default IDModeOverride (UIDMode o)) (default IDModeOverride (GIDMode o))
        (UIDMap o) (GIDMap o) (LocalUID o) (LocalGID o)
  end.

(** ** ID mapping *)

(** [uint32] arithmetic throughout. *)
Fixpoint mapToLocal (entries : list IDMapEntry) (remote : Z) : option Z :=
  match entries with
  | [] => None
  | e :: es =>
      if Count e =? 0 then mapToLocal es remote
      else if (RemoteID e <=? remote) && (remote - RemoteID e <? Count e)
      then Some (u32 (LocalID e + (remote - RemoteID e)))
      else mapToLocal es remote
  end.

Fixpoint mapToRemote (entries : list IDMapEntry) (local : Z) : option Z :=
  match entries with
  | [] => None
  | e :: es =>
      if Count e =? 0 then mapToRemote es local
      else if (LocalID e <=? local) && (local - LocalID e <? Count e)
      then Some (u32 (RemoteID e + (local - LocalID e)))
      else mapToRemote es local
  end.

(** What the platform and the SFTP library report of a file. *)
Definition currentUIDOS (sys : Sys) : option Z :=
  match sys with
  | SysStat (Some s) => Some (st_Uid s)
  | SysSFTP (Some s) => Some (sf_UID s)
  | _ => None
  end.
Definition currentGIDOS (sys : Sys) : option Z :=
  match sys with
  | SysStat (Some s) => Some (st_Gid s)
  | SysSFTP (Some s) => Some (sf_GID s)
  | _ => None
  end.
Definition currentATimeOS (sys : Sys) : option Z :=
  match sys with
  | SysStat (Some s) => Some (st_Atim s)
  | SysSFTP (Some s) => if sf_Atime s =? 0 then None else Some (sf_Atime s * 10 ^ 9)
  | _ => None
  end.

Definition currentUID (sys : Sys) : Z :=
  match sys with
  | SysAgent s | SysAgentPtr (Some s) => fs_UID s
  | _ => default 0 (currentUIDOS sys)
  end.

Definition currentGID (sys : Sys) : Z :=
  match sys with
  | SysAgent s | SysAgentPtr (Some s) => fs_GID s
  | _ => default 0 (currentGIDOS sys)
  end.

Definition currentATime (st : FileInfo) : Z :=
  let agent_time :=
    match fi_Sys st with
    | SysAgent s | SysAgentPtr (Some s) => if fs_ATimeNanos s =? 0 then None else Some (fs_ATimeNanos s)
    | _ => None
    end in
  match agent_time with
  | Some t => t
  | None => default (fi_ModTime st) (currentATimeOS (fi_Sys st))
  end.

Definition viewUID (f : FileSystem) (sys : Sys) : Z :=
  let remote := currentUID sys in
  match mapToLocal (uidMap f) remote with
  | Some mapped => mapped
  | None => if decide (uidMode f = IDModeOverride) then localUID f else remote
  end.

Definition viewGID (f : FileSystem) (sys : Sys) : Z :=
  let remote := currentGID sys in
  match mapToLocal (gidMap f) remote with
  | Some mapped => mapped
  | None => if decide (gidMode f = IDModeOverride) then localGID f else remote
  end.

(** ** Attributes *)

Definition S_IFMT : Z := o170000.
Definition S_IFDIR : Z := o40000.
Definition S_IFREG : Z := o100000.
Definition S_IFLNK : Z := o120000.
Definition S_IFIFO : Z := o10000.
Definition S_IFSOCK : Z := o140000.
Definition S_IFCHR : Z := o20000.
Definition S_IFBLK : Z := o60000.

Definition modeToDirEntryMode (mode : Z) : Z :=
  if IsDir mode then S_IFDIR
  else if has mode ModeSymlink then S_IFLNK
  else if has mode ModeNamedPipe then S_IFIFO
  else if has mode ModeSocket then S_IFSOCK
  else if has mode ModeDevice then (if has mode ModeCharDevice then S_IFCHR else S_IFBLK)
  else S_IFREG.

Definition modeToStable (mode : Z) : Z :=
  if IsDir mode then S_IFDIR else if has mode ModeSymlink then S_IFLNK else S_IFREG.

(** [if c then out |= bit] *)
Definition or_if (c : bool) (bit out : Z) : Z := if c then Z.lor out bit else out.

Definition fuseModeFromFileMode (mode : Z) : Z :=
  or_if (has mode ModeSticky) o1000
    (or_if (has mode ModeSetgid) o2000
      (or_if (has mode ModeSetuid) o4000 (Z.lor (modeToDirEntryMode mode) (Perm mode)))).

Definition posixFileMode (mode : Z) : Z :=
  or_if (has mode o1000) ModeSticky
    (or_if (has mode o2000) ModeSetgid
      (or_if (has mode o4000) ModeSetuid (Z.land mode o777))).

(** [fuse.Attr] *)
Record Attr := mkAttr {
  a_Ino : Z; a_Size : Z; a_Blocks : Z;
  a_Atime : Z; a_Mtime : Z; a_Ctime : Z;
  a_Atimensec : Z; a_Mtimensec : Z; a_Ctimensec : Z;
  a_Mode : Z; a_Nlink : Z; a_Uid : Z; a_Gid : Z; a_Rdev : Z; a_Blksize : Z;
}.

(** Seconds and nanoseconds of a [time.Time]. *)
Definition t_sec (t : Z) : Z := u64 (t / 10 ^ 9).
Definition t_nsec (t : Z) : Z := t mod 10 ^ 9.

(** [x] unless it is zero. *)
Definition nz (x dflt : Z) : Z := if x =? 0 then dflt else x.

Definition applyAgentStat (a : Attr) (s : FileStat) : Attr :=
  mkAttr (nz (fs_Ino s) (a_Ino a)) (a_Size a) (nz (fs_Blocks s) (a_Blocks a))
    (if fs_ATimeNanos s =? 0 then a_Atime a else t_sec (fs_ATimeNanos s))
    (if fs_MTimeNanos s =? 0 then a_Mtime a else t_sec (fs_MTimeNanos s))
    (if fs_CTimeNanos s =? 0 then a_Ctime a else t_sec (fs_CTimeNanos s))
    (if fs_ATimeNanos s =? 0 then a_Atimensec a else t_nsec (fs_ATimeNanos s))
    (if fs_MTimeNanos s =? 0 then a_Mtimensec a else t_nsec (fs_MTimeNanos s))
    (if fs_CTimeNanos s =? 0 then a_Ctimensec a else t_nsec (fs_CTimeNanos s))
    (a_Mode a) (nz (fs_Nlink s) (a_Nlink a)) (fs_UID s) (fs_GID s) (fs_Rdev s)
    (nz (fs_Blksize s) (a_Blksize a)).

Definition applySyscallStat (a : Attr) (s : Stat_t) : Attr :=
  mkAttr (st_Ino s) (a_Size a) (u64 (st_Blocks s))
    (t_sec (st_Atim s)) (t_sec (st_Mtim s)) (t_sec (st_Ctim s))
    (t_nsec (st_Atim s)) (t_nsec (st_Mtim s)) (t_nsec (st_Ctim s))
    (a_Mode a) (u32 (st_Nlink s)) (st_Uid s) (st_Gid s) (u32 (st_Rdev s)) (u32 (st_Blksize s)).

Definition applySFTPStat (a : Attr) (s : SftpStat) : Attr :=
  mkAttr (a_Ino a) (a_Size a) (a_Blocks a)
    (nz (sf_Atime s) (a_Atime a)) (nz (sf_Mtime s) (a_Mtime a)) (a_Ctime a)
    (if sf_Atime s =? 0 then a_Atimensec a else 0)
    (if sf_Mtime s =? 0 then a_Mtimensec a else 0) (a_Ctimensec a)
    (a_Mode a) (a_Nlink a) (sf_UID s) (sf_GID s) (a_Rdev a) (a_Blksize a).

Definition applyStatDetailsOS (a : Attr) (sys : Sys) : Attr :=
  match sys with
  | SysStat (Some s) => applySyscallStat a s
  | SysSFTP (Some s) => applySFTPStat a s
  | _ => a
  end.

Definition applyStatDetails (a : Attr) (sys : Sys) : Attr :=
  let a := match sys with SysAgent s | SysAgentPtr (Some s) => applyAgentStat a s | _ => a end in
  applyStatDetailsOS a sys.

(** [out] is a fresh reply: ino, uid, gid and rdev start at zero. *)
Definition applyFileInfo (st : FileInfo) : Attr :=
  let size := u64 (fi_Size st) in
  let sec := t_sec (fi_ModTime st) in let nsec := t_nsec (fi_ModTime st) in
  applyStatDetails
    (mkAttr 0 size (u64 (size + 511) / 512) sec sec sec nsec nsec nsec
       (fuseModeFromFileMode (fi_Mode st)) 1 0 0 0 4096)
    (fi_Sys st).

Definition with_ids (a : Attr) (uid gid : Z) : Attr :=
  mkAttr (a_Ino a) (a_Size a) (a_Blocks a) (a_Atime a) (a_Mtime a) (a_Ctime a)
    (a_Atimensec a) (a_Mtimensec a) (a_Ctimensec a) (a_Mode a) (a_Nlink a) uid gid (a_Rdev a) (a_Blksize a).
Definition with_mode (a : Attr) (mode : Z) : Attr :=
  mkAttr (a_Ino a) (a_Size a) (a_Blocks a) (a_Atime a) (a_Mtime a) (a_Ctime a)
    (a_Atimensec a) (a_Mtimensec a) (a_Ctimensec a) mode (a_Nlink a) (a_Uid a) (a_Gid a) (a_Rdev a) (a_Blksize a).

Definition applyAttr (f : FileSystem) (st : FileInfo) : Attr :=
  let out := applyFileInfo st in
  let uid :=
    match mapToLocal (uidMap f) (a_Uid out) with
    | Some mapped => mapped
    | None => if decide (uidMode f = IDModeOverride) then localUID f else a_Uid out
    end in
  let gid :=
    match mapToLocal (gidMap f) (a_Gid out) with
    | Some mapped => mapped
    | None => if decide (gidMode f = IDModeOverride) then localGID f else a_Gid out
    end in
  with_ids out uid gid.

(** ** access.go *)

(** [ctx]: uid and gid of the caller, when the context is a FUSE context. *)
Definition access (ctx : option (Z * Z)) (f : FileSystem) (st : FileInfo) (mask : Z) : Z :=
  if mask =? 0 then 0
  else
    let perm := Perm (fi_Mode st) in
    match ctx with
    | Some (0, _) =>
        if has mask 1 && (Z.land perm o111 =? 0) then Errno.EACCES else 0
    | _ =>
        let shift :=
          match ctx with
          | Some (u, g) =>
              if u =? viewUID f (fi_Sys st) then 6 else if g =? viewGID f (fi_Sys st) then 3 else 0
          | None => 0
          end in
        let allowed := Z.land (Z.shiftr perm shift) o7 in
        if has mask 4 && negb (has allowed 4) then Errno.EACCES
        else if has mask 2 && negb (has allowed 2) then Errno.EACCES
        else if has mask 1 && negb (has allowed 1) then Errno.EACCES
        else 0
    end.

(** ** FileSystem operations *)

Definition toErrno (e : go_err) : Z :=
  match e with
  | EErrno n => n
  | ENotExist => Errno.ENOENT
  | EPermission => Errno.EACCES
  | EExist => Errno.EEXIST
  | EInvalid => Errno.EINVAL
  | EEOF | EOther => Errno.EIO
  end.

Section operations.
Variable f : FileSystem.

Definition absPath (rel : string) : string :=
  let clean := Clean ("/" +:+ rel) in
  if String.eqb clean "/" then root f
  else PathJoin (root f) (TrimPrefix clean "/").

(** An operation that is one request with no result. *)
Definition errno_of (e : option go_err) : Z :=
  match e with Some e => toErrno e | None => 0 end.

Definition ReadFile (rel : string) (off size : Z) : prog (result Z string) :=
  Call (FOpen (absPath rel)) (λ fh,
    match fh with
    | Err e => Ret (Err (toErrno e))
    | Ok fh =>
        if size <=? 0 then Call (HClose fh) (λ _, Ret (Ok ""))
        else Call (HReadAt fh off size) (λ '(data, err),
               Call (HClose fh) (λ _,
                 match err with
                 | None | Some EEOF => Ret (Ok data)
                 | Some e => Ret (Err (toErrno e))
                 end))
    end).

Definition Stat (rel : string) : prog (result Z FileInfo) :=
  Call (FLstat (absPath rel)) (λ st,
    match st with Err e => Ret (Err (toErrno e)) | Ok st => Ret (Ok st) end).

Definition ReadDir (rel : string) : prog (result Z (list FileInfo)) :=
  Call (FReadDir (absPath rel)) (λ r,
    match r with Err e => Ret (Err (toErrno e)) | Ok l => Ret (Ok l) end).

Definition Readlink (rel : string) : prog (result Z string) :=
  Call (FReadlink (absPath rel)) (λ r,
    match r with Err e => Ret (Err (toErrno e)) | Ok l => Ret (Ok l) end).

(** The count and the errno. *)
Definition WriteFile (rel data : string) (off : Z) : prog (Z * Z) :=
  Call (FOpenFile (absPath rel) 1 0) (λ fh,
    match fh with
    | Err e => Ret (0, toErrno e)
    | Ok fh =>
        Call (HWriteAt fh data off) (λ '(n, err),
          Call (HClose fh) (λ cerr,
            match err with
            | Some e => Ret (u32 n, toErrno e)
            | None => Ret (u32 n, errno_of cerr)
            end))
    end).

Definition O_CREATE : Z := o100.
Definition O_APPEND : Z := o2000.

Definition CreateFile (rel : string) (flags mode : Z) : prog Z :=
  Call (FOpenFile (absPath rel) (Z.lor flags O_CREATE) (posixFileMode mode)) (λ fh,
    match fh with
    | Err e => Ret (toErrno e)
    | Ok fh => Call (HClose fh) (λ cerr, Ret (errno_of cerr))
    end).

Definition MkDir (rel : string) (mode : Z) : prog Z :=
  Call (FMkdir (absPath rel) (posixFileMode mode)) (λ e, Ret (errno_of e)).

Definition Unlink (rel : string) : prog Z :=
  st ← Stat rel;
  match st with
  | Err errno => Ret errno
  | Ok st =>
      if fi_IsDir st then Ret Errno.EISDIR
      else Call (FRemove (absPath rel)) (λ e, Ret (errno_of e))
  end.

Definition Rmdir (rel : string) : prog Z :=
  st ← Stat rel;
  match st with
  | Err errno => Ret errno
  | Ok st =>
      if negb (fi_IsDir st) then Ret Errno.ENOTDIR
      else Call (FRemove (absPath rel)) (λ e, Ret (errno_of e))
  end.

Definition Rename (oldRel newRel : string) : prog Z :=
  Call (FRename (absPath oldRel) (absPath newRel)) (λ e, Ret (errno_of e)).
Definition Symlink (target linkRel : string) : prog Z :=
  Call (FSymlink target (absPath linkRel)) (λ e, Ret (errno_of e)).
Definition Link (oldRel newRel : string) : prog Z :=
  Call (FLink (absPath oldRel) (absPath newRel)) (λ e, Ret (errno_of e)).
Definition Chmod (rel : string) (mode : Z) : prog Z :=
  Call (FChmod (absPath rel) mode) (λ e, Ret (errno_of e)).
Definition Chtimes (rel : string) (atime mtime : Z) : prog Z :=
  Call (FChtimes (absPath rel) atime mtime) (λ e, Ret (errno_of e)).
Definition Truncate (rel : string) (size : Z) : prog Z :=
  Call (FTruncate (absPath rel) size) (λ e, Ret (errno_of e)).

(** [None] is [chownNoop]. *)
Definition resolveChownUID (uid : Z) : option Z :=
  match mapToRemote (uidMap f) uid with
  | Some mapped => Some mapped
  | None => if decide (uidMode f = IDModeOverride) then None else Some uid
  end.

Definition resolveChownGID (gid : Z) : option Z :=
  match mapToRemote (gidMap f) gid with
  | Some mapped => Some mapped
  | None => if decide (gidMode f = IDModeOverride) then None else Some gid
  end.

Definition do_chown (rel : string) (uid gid : Z) : prog Z :=
  Call (FChown (absPath rel) uid gid) (λ e, Ret (errno_of e)).

Definition Chown (rel : string) (uid gid : Z) : prog Z :=
  match resolveChownUID uid, resolveChownGID gid with
  | None, None => Ret 0
  | Some finalUID, Some finalGID => do_chown rel finalUID finalGID
  | u, g =>
      st ← Stat rel;
      match st with
      | Err errno => Ret errno
      | Ok st => do_chown rel (default (currentUID (fi_Sys st)) u) (default (currentGID (fi_Sys st)) g)
      end
  end.

Definition StatfsOp (rel : string) : prog (result Z Statfs) :=
  Call (FStatfs (absPath rel)) (λ st,
    match st with Err e => Ret (Err (toErrno e)) | Ok st => Ret (Ok st) end).

Definition Fsync (rel : string) : prog Z :=
  Call (FOpen (absPath rel)) (λ fh,
    match fh with
    | Err e => Ret (toErrno e)
    | Ok fh =>
        Call (HSync fh) (λ err,
          Call (HClose fh) (λ cerr,
            match err with
            | Some e => Ret (toErrno e)
            | None => Ret (errno_of cerr)
            end))
    end).

End operations.

(** ** FUSE nodes *)

Definition FOPEN_DIRECT_IO : Z := 1.

(** [fileHandle]: the handle it reads from, the one it writes to, the open
    flags. *)
Record fileHandle := mkHandle { h_read : option handle; h_write : option handle; h_flags : Z }.

(** [fuse.Statx], the fields the handlers fill; the mode has 16 bits. *)
Record Statx := mkStatx {
  x_Mask : Z; x_Blksize : Z; x_Nlink : Z; x_Uid : Z; x_Gid : Z; x_Mode : Z; x_Ino : Z; x_Size : Z; x_Blocks : Z;
  x_Atime : Z * Z; x_Mtime : Z * Z; x_Ctime : Z * Z;
}.

(** What a node handler answers: an errno, or the fields it fills in. *)
Inductive node_kind : Type := KDir | KFile.
Inductive out : Type :=
  | OErrno (errno : Z)
  | OAttr (a : Attr)
  | OEntry (k : node_kind) (rel : string) (stable : Z) (a : Attr)
  | OCreated (rel : string) (a : Attr) (h : fileHandle) (fuseFlags : Z)
  | OOpened (h : fileHandle) (fuseFlags : Z)
  | OData (d : string)
  | OWritten (n : Z) (errno : Z)
  | ODirents (l : list (string * Z))
  | OStatfs (s : Statfs)
  | OSize (n : Z)
  | OStatx (x : Statx).

(** [h.Release] *)
Definition Release (h : fileHandle) : prog Z :=
  let close_write (errno : Z) : prog Z :=
    match h_write h with
    | None => Ret errno
    | Some w => Call (HClose w) (λ err,
        match err with
        | Some e => Ret (if errno =? 0 then toErrno e else errno)
        | None => Ret errno
        end)
    end in
  match h_read h with
  | None => close_write 0
  | Some r => Call (HClose r) (λ err, close_write (errno_of err))
  end.

Inductive dir_req : Type :=
  | DGetattr
  | DLookup (name : string)
  | DCreate (name : string) (flags mode : Z)
  | DMkdir (name : string) (mode : Z)
  | DMknod (name : string)
  | DSymlink (target name : string)
  | DLink (target : node_kind * string) (name : string)
  | DUnlink (name : string)
  | DRmdir (name : string)
  | DRename (name : string) (newParent : node_kind * string) (newName : string) (flags : Z)
  | DOpendir
  | DAccess (ctx : option (Z * Z)) (mask : Z)
  | DFsync
  | DStatfs
  | DGetxattr
  | DListxattr
  | DSetxattr
  | DRemovexattr
  | DReaddir
  | DStatx (mask : Z).

(** The reply of [Statx] from that of [Getattr]. *)
Definition Statx_of (mask : Z) (a : Attr) : Statx :=
  mkStatx mask (a_Blksize a) (a_Nlink a) (a_Uid a) (a_Gid a) (uwrap 16 (a_Mode a)) (a_Ino a) (a_Size a) (a_Blocks a)
    (a_Atime a, a_Atimensec a) (a_Mtime a, a_Mtimensec a) (a_Ctime a, a_Ctimensec a).
Definition statx_out (mask : Z) (o : out) : out :=
  match o with OAttr a => OStatx (Statx_of mask a) | _ => o end.

Section nodes.
Variable f : FileSystem.

(** [out.Mode] gets the file type when the mode has none. *)
Definition fix_type (ty : Z) (a : Attr) : Attr :=
  if Z.land (a_Mode a) S_IFMT =? 0
  then with_mode a (Z.lor (Z.ldiff (a_Mode a) S_IFMT) ty) else a.

(** An operation on a child followed by the stat of that child. *)
Definition entry_of (k : node_kind) (rel : string) (stable : FileInfo → Z) : prog out :=
  st ← Stat f rel;
  match st with
  | Err errno => Ret (OErrno errno)
  | Ok st => Ret (OEntry k rel (stable st) (applyAttr f st))
  end.

Definition then_entry (op : prog Z) (k : node_kind) (rel : string) (stable : FileInfo → Z) : prog out :=
  errno ← op;
  if negb (errno =? 0) then Ret (OErrno errno) else entry_of k rel stable.

Definition errno_out (op : prog Z) : prog out := errno ← op; Ret (OErrno errno).

Definition node_access (rel : string) (ctx : option (Z * Z)) (mask : Z) : prog out :=
  st ← Stat f rel;
  match st with
  | Err errno => Ret (OErrno errno)
  | Ok st => Ret (OErrno (access ctx f st mask))
  end.

Definition dir_Getattr (relPath : string) : prog out :=
  st ← Stat f relPath;
  match st with
  | Err errno => Ret (OErrno errno)
  | Ok st => Ret (OAttr (fix_type S_IFDIR (applyAttr f st)))
  end.

Definition dir_Statx (relPath : string) (mask : Z) : prog out := o ← dir_Getattr relPath; Ret (statx_out mask o).

Definition dir_Statfs (relPath : string) : prog out :=
  st ← StatfsOp f relPath;
  match st with Err errno => Ret (OErrno errno) | Ok st => Ret (OStatfs st) end.

Definition dir_Readdir (relPath : string) : prog out :=
  l ← ReadDir f relPath;
  match l with
  | Err errno => Ret (OErrno errno)
  | Ok l =>
      Ret (ODirents ((".", S_IFDIR) :: ("..", S_IFDIR) ::
             ((λ e, (fi_Name e, modeToDirEntryMode (fi_Mode e))) <$> l)))
  end.

(** Extended attributes of a directory. *)
Definition dir_xattr (list_them : bool) : prog out := Ret (if list_them then OSize 0 else OErrno Errno.ENOATTR).

Definition dirNode_handle (relPath : string) (r : dir_req) : prog out :=
  match r with
  | DGetattr => dir_Getattr relPath
  | DLookup name =>
      let rel := PathJoin relPath name in
      st ← Stat f rel;
      match st with
      | Err errno => Ret (OErrno errno)
      | Ok st =>
          Ret (OEntry (if fi_IsDir st then KDir else KFile) rel (modeToStable (fi_Mode st))
                 (applyAttr f st))
      end
  | DCreate name flags mode =>
      let rel := PathJoin relPath name in
      Call (FOpenFile (absPath f rel) (Z.lor flags O_CREATE) (posixFileMode mode)) (λ fh,
        match fh with
        | Err e => Ret (OErrno (toErrno e))
        | Ok fh =>
            let h := mkHandle None (Some fh) flags in
            st ← Stat f rel;
            match st with
            | Err errno => _ ← Release h; Ret (OErrno errno)
            | Ok st => Ret (OCreated rel (applyAttr f st) h FOPEN_DIRECT_IO)
            end
        end)
  | DMkdir name mode =>
      let rel := PathJoin relPath name in
      then_entry (MkDir f rel mode) KDir rel (λ _, S_IFDIR)
  | DMknod _ => Ret (OErrno Errno.ENOTSUP)
  | DSymlink target name =>
      let rel := PathJoin relPath name in
      then_entry (Symlink f target rel) KFile rel (λ _, S_IFLNK)
  | DLink (KDir, _) _ => Ret (OErrno Errno.EPERM)
  | DLink (KFile, old) name =>
      let rel := PathJoin relPath name in
      then_entry (Link f old rel) KFile rel (λ st, modeToStable (fi_Mode st))
  | DUnlink name => errno_out (Unlink f (PathJoin relPath name))
  | DRmdir name => errno_out (Rmdir f (PathJoin relPath name))
  | DRename name (k, newDir) newName flags =>
      if negb (flags =? 0) then Ret (OErrno Errno.ENOTSUP)
      else match k with
           | KFile => Ret (OErrno Errno.EINVAL)
           | KDir => errno_out (Rename f (PathJoin relPath name) (PathJoin newDir newName))
           end
  | DOpendir =>
      st ← Stat f relPath;
      match st with Err errno => Ret (OErrno errno) | Ok _ => Ret (OErrno 0) end
  | DAccess ctx mask => node_access relPath ctx mask
  | DFsync => Ret (OErrno 0)
  | DStatfs => dir_Statfs relPath
  | DListxattr => dir_xattr true
  | DGetxattr | DSetxattr | DRemovexattr => dir_xattr false
  | DReaddir => dir_Readdir relPath
  | DStatx mask => dir_Statx relPath mask
  end.

End nodes.

(** [fuse.SetAttrIn]: the validity bits and what its accessors return. *)
Record SetAttrIn := mkSetAttr {
  Valid : Z;
  GetUID : option Z; GetGID : option Z; GetMode : option Z;
  GetATime : option Z; GetMTime : option Z; GetSize : option Z;
}.

Definition FATTR_MODE : Z := 1.
Definition FATTR_UID : Z := 2.
Definition FATTR_GID : Z := 4.
Definition FATTR_SIZE : Z := 8.
Definition FATTR_ATIME : Z := 16.
Definition FATTR_MTIME : Z := 32.
Definition FATTR_FH : Z := 64.
Definition FATTR_ATIME_NOW : Z := 128.
Definition FATTR_MTIME_NOW : Z := 256.
Definition FATTR_LOCKOWNER : Z := 512.
Definition FATTR_KILL_SUIDGID : Z := 2048.

Definition supported : Z :=
  foldr Z.lor 0 [FATTR_MODE; FATTR_SIZE; FATTR_UID; FATTR_GID; FATTR_ATIME; FATTR_MTIME;
                 FATTR_ATIME_NOW; FATTR_MTIME_NOW; FATTR_FH; FATTR_LOCKOWNER; FATTR_KILL_SUIDGID].

Definition O_ACCMODE : Z := 3.

Inductive file_req : Type :=
  | RGetattr (fh : option fileHandle)
  | ROpen (flags : Z)
  | RReadlink
  | RRead (fh : option fileHandle) (len off : Z)
  | RWrite (fh : option fileHandle) (data : string) (off : Z)
  | RFsync (fh : option fileHandle)
  | RSetattr (fh : option fileHandle) (s : SetAttrIn)
  | RAccess (ctx : option (Z * Z)) (mask : Z)
  | RGetxattr
  | RListxattr
  | RSetxattr
  | RRemovexattr
  | RAllocate
  | RCopyFileRange
  | RGetlk
  | RSetlk
  | RSetlkw
  | RIoctl
  | RStatx (fh : option fileHandle) (mask : Z).

Section file_node.
Variable f : FileSystem.

(** The write handle of an optional file handle. *)
Definition write_handle (fh : option fileHandle) : option handle := fh ≫= h_write.

Definition file_Getattr (relPath : string) (fh : option fileHandle) : prog out :=
  match write_handle fh with
  | Some w =>
      Call (HStat w) (λ st,
        match st with
        | Err e => Ret (OErrno (toErrno e))
        | Ok st => Ret (OAttr (applyAttr f st))
        end)
  | None =>
      st ← Stat f relPath;
      match st with
      | Err errno => Ret (OErrno errno)
      | Ok st => Ret (OAttr (fix_type S_IFREG (applyAttr f st)))
      end
  end.

Definition file_Statx (relPath : string) (fh : option fileHandle) (mask : Z) : prog out :=
  o ← file_Getattr relPath fh; Ret (statx_out mask o).

(** The steps of [Setattr], each an errno. *)
Definition setattr_owner (relPath : string) (s : SetAttrIn) : prog Z :=
  match GetUID s, GetGID s with
  | Some uid, Some gid => Chown f relPath uid gid
  | Some uid, None =>
      st ← Stat f relPath;
      match st with
      | Err errno => Ret errno
      | Ok st => Chown f relPath uid (currentGID (fi_Sys st))
      end
  | None, Some gid =>
      st ← Stat f relPath;
      match st with
      | Err errno => Ret errno
      | Ok st => Chown f relPath (currentUID (fi_Sys st)) gid
      end
  | None, None => Ret 0
  end.

Definition setattr_mode (relPath : string) (s : SetAttrIn) : prog Z :=
  match GetMode s with
  | Some mode => Chmod f relPath (posixFileMode mode)
  | None => Ret 0
  end.

Definition setattr_times (relPath : string) (s : SetAttrIn) : prog Z :=
  match GetATime s, GetMTime s with
  | Some atime, Some mtime => Chtimes f relPath atime mtime
  | Some atime, None =>
      st ← Stat f relPath;
      match st with
      | Err errno => Ret errno
      | Ok st => Chtimes f relPath atime (fi_ModTime st)
      end
  | None, Some mtime =>
      st ← Stat f relPath;
      match st with
      | Err errno => Ret errno
      | Ok st => Chtimes f relPath (currentATime st) mtime
      end
  | None, None => Ret 0
  end.

Definition setattr_size (relPath : string) (fh : option fileHandle) (s : SetAttrIn) : prog Z :=
  match GetSize s with
  | None => Ret 0
  | Some sz =>
      match write_handle fh with
      | Some w => Call (HTruncate w (swrap 64 sz)) (λ e, Ret (errno_of e))
      | None => Truncate f relPath (swrap 64 sz)
      end
  end.

(** Go on when the errno is zero. *)
Definition and_then (op : prog Z) (k : prog out) : prog out :=
  errno ← op; if negb (errno =? 0) then Ret (OErrno errno) else k.

Definition Setattr (relPath : string) (fh : option fileHandle) (s : SetAttrIn) : prog out :=
  if negb (Z.ldiff (Valid s) supported =? 0) then Ret (OErrno Errno.ENOTSUP)
  else
    and_then (setattr_owner relPath s)
      (and_then (setattr_mode relPath s)
        (and_then (setattr_times relPath s)
          (and_then (setattr_size relPath fh s) (file_Getattr relPath fh)))).

Definition file_Read (relPath : string) (fh : option fileHandle) (len off : Z) : prog out :=
  let reader := match fh with
                | Some h => match h_write h with Some w => Some w | None => h_read h end
                | None => None
                end in
  match reader with
  | Some r =>
      if len =? 0 then Ret (OData "")
      else Call (HReadAt r off len) (λ '(data, err),
             match err with
             | None | Some EEOF => Ret (OData data)
             | Some e => Ret (OErrno (toErrno e))
             end)
  | None =>
      d ← ReadFile f relPath off len;
      match d with Err errno => Ret (OErrno errno) | Ok d => Ret (OData d) end
  end.

Definition file_Write (relPath : string) (fh : option fileHandle) (data : string) (off : Z) : prog out :=
  match fh, write_handle fh with
  | Some h, Some w =>
      let finish := λ '(n, err), Ret (OWritten (u32 n) (errno_of err)) in
      if has (h_flags h) O_APPEND then Call (HWrite w data) finish
      else Call (HWriteAt w data off) finish
  | _, _ => r ← WriteFile f relPath data off; Ret (OWritten r.1 r.2)
  end.

Definition file_Fsync (relPath : string) (fh : option fileHandle) : prog out :=
  let sync h := Call (HSync h) (λ e, Ret (OErrno (errno_of e))) in
  match fh with
  | Some (mkHandle _ (Some w) _) => sync w
  | Some (mkHandle (Some r) None _) => sync r
  | _ => errno_out (Fsync f relPath)
  end.

Definition file_Open (relPath : string) (flags : Z) : prog out :=
  if Z.land flags O_ACCMODE =? 0 then
    Call (FOpen (absPath f relPath)) (λ fh,
      match fh with
      | Err e => Ret (OErrno (toErrno e))
      | Ok fh => Ret (OOpened (mkHandle (Some fh) None flags) FOPEN_DIRECT_IO)
      end)
  else
    Call (FOpenFile (absPath f relPath) flags 0) (λ fh,
      match fh with
      | Err e => Ret (OErrno (toErrno e))
      | Ok fh => Ret (OOpened (mkHandle None (Some fh) flags) FOPEN_DIRECT_IO)
      end).

Definition file_Readlink (relPath : string) : prog out :=
  st ← Stat f relPath;
  match st with
  | Err errno => Ret (OErrno errno)
  | Ok st =>
      if negb (has (fi_Mode st) ModeSymlink) then Ret (OErrno Errno.EINVAL)
      else l ← Readlink f relPath;
           match l with Err errno => Ret (OErrno errno) | Ok l => Ret (OData l) end
  end.

Definition fileNode_handle (relPath : string) (r : file_req) : prog out :=
  match r with
  | RGetattr fh => file_Getattr relPath fh
  | ROpen flags => file_Open relPath flags
  | RReadlink => file_Readlink relPath
  | RRead fh len off => file_Read relPath fh len off
  | RWrite fh data off => file_Write relPath fh data off
  | RFsync fh => file_Fsync relPath fh
  | RSetattr fh s => Setattr relPath fh s
  | RAccess ctx mask => node_access f relPath ctx mask
  | RGetxattr => Ret (OErrno Errno.ENOATTR)
  | RListxattr => Ret (OSize 0)
  | RSetxattr | RRemovexattr => Ret (OErrno Errno.ENOATTR)
  | RAllocate | RCopyFileRange | RGetlk | RSetlk | RSetlkw => Ret (OErrno Errno.ENOTSUP)
  | RIoctl => Ret (OErrno Errno.ENOTTY)
  | RStatx fh mask => file_Statx relPath fh mask
  end.

End file_node.

(** ** Path confinement *)

(** [p] is the root or lexically below it. *)
Definition within (rootp p : string) : Prop :=
  ∃ k, Forall normal_comp k ∧ p = String slash (Join slash (rooted_comps (sdrop 1 rootp) ++ k)).

Definition within_req (rootp : string) (r : req) : Prop := Forall (within rootp) (req_paths r).

Lemma New_root rootp opts :
  IsAbs rootp = true → root (New rootp opts) = String slash (Join slash (rooted_comps (sdrop 1 rootp))).
Proof.
  intros [t ->]%IsAbs_spec. unfold New. rewrite Clean_rooted. simpl.
  destruct opts; done.
Qed.

Lemma absPath_New rootp opts rel :
  IsAbs rootp = true →
  absPath (New rootp opts) rel =
  String slash (Join slash (rooted_comps (sdrop 1 rootp) ++ rooted_comps rel)).
Proof.
  intros Hr. unfold absPath. rewrite (New_root _ _ Hr). change ("/" +:+ rel) with (String slash rel).
  rewrite Clean_rooted. pose proof (rooted_comps_normal rel) as Hn. case_match eqn:E.
  - apply seqb_true in E. injection E as E. apply Join_normal_empty in E; [|done].
    by rewrite E, app_nil_r.
  - rewrite <- PathJoin_rooted; [|apply rooted_comps_normal|done|].
    + done.
    + intros Hk. rewrite Hk in E. done.
Qed.

Lemma absPath_within rootp opts rel :
  IsAbs rootp = true → within rootp (absPath (New rootp opts) rel).
Proof. intros Hr. rewrite absPath_New by done. eexists. split; [apply rooted_comps_normal|done]. Qed.

(** Calls stay confined through the combinators: peel binds, requests and case
    distinctions. *)
Ltac confine :=
  repeat first
    [ progress intros
    | apply all_calls_bind
    | match goal with
      | |- all_calls _ (Call _ _) => split; [repeat constructor; by apply absPath_within|]
      | |- all_calls _ (Ret _) => exact I
      | |- all_calls _ (match ?x with _ => _ end) => destruct x
      | |- all_calls _ (if ?x then _ else _) => destruct x
      | |- all_calls _ (let '(_, _) := ?x in _) => destruct x
      end
    | progress cbn beta iota zeta ].

Section confinement.
Context (rootp : string) (opts : option Options).
Hypothesis Habs : IsAbs rootp = true.
Local Abbreviation f := (New rootp opts).
Local Abbreviation safe := (all_calls (within_req rootp)).

Lemma Stat_safe rel : safe (Stat f rel).
Proof. unfold Stat. confine. Qed.
Lemma Chown_safe rel u g : safe (Chown f rel u g).
Proof. unfold Chown, do_chown, Stat. confine. Qed.

Lemma Release_safe h : safe (Release h).
Proof. unfold Release. confine. Qed.

Lemma dirNode_safe rel r : safe (dirNode_handle f rel r).
Proof.
  destruct r; unfold dirNode_handle, dir_Statx, dir_Getattr, dir_Statfs, dir_xattr, dir_Readdir, then_entry, entry_of, errno_out, node_access, Stat, MkDir, Symlink,
    Link, Unlink, Rmdir, Rename, StatfsOp, ReadDir, Release, Stat; confine.
Qed.

Lemma Setattr_safe rel fh s : safe (Setattr f rel fh s).
Proof.
  unfold Setattr, and_then, setattr_owner, setattr_mode, setattr_times, setattr_size, file_Getattr,
    Chown, do_chown, Chmod, Chtimes, Truncate, Stat. confine.
Qed.

Lemma fileNode_safe rel r : safe (fileNode_handle f rel r).
Proof.
  destruct r; unfold fileNode_handle; try apply Setattr_safe;
    unfold file_Statx, file_Getattr, file_Open, file_Readlink, file_Read, file_Write, file_Fsync, node_access,
      errno_out, ReadFile, WriteFile, Fsync, Readlink, Stat; confine.
Qed.
End confinement.

(** Whatever names the kernel passes, dot-dot components included, and
    whatever the backend answers, every path the workspace file system asks the
    remote for is the workspace root or below it. *)
Theorem workspace_confined rootp opts rel dr fr {W} (impl : ∀ r : req, W → reply r * W) w :
  IsAbs rootp = true →
  let logged := λ r s, let '(x, w') := impl r s.1 in (x, (w', s.2 ++ [r])) in
  Forall (within_req rootp) (run logged (dirNode_handle (New rootp opts) rel dr) (w, [])).2.2 ∧
  Forall (within_req rootp) (run logged (fileNode_handle (New rootp opts) rel fr) (w, [])).2.2.
Proof.
  intros Habs. split; apply all_calls_run; [by apply dirNode_safe|done|by apply fileNode_safe|done].
Qed.

(** ** Handles *)

Lemma close_last h x : handles_after (HClose h) x [h] = [].
Proof. simpl. rewrite filter_cons_False, filter_nil; [done|]. naive_solver. Qed.

(** Follow every path of a program with its open handles. *)
Ltac follow_handles :=
  repeat first
    [ progress intros
    | rewrite close_last
    | match goal with
      | |- ends_with _ (match ?x with _ => _ end) _ => destruct x
      | |- ends_with _ (let '(_, _) := ?x in _) _ => destruct x
      | |- ends_with _ (if ?x then _ else _) _ => destruct x
      | |- ends_with _ (Call (HClose _) _) _ => intros ?; rewrite close_last
      | |- ends_with _ (Call _ _) _ => intros ?; cbn [handles_after]
      | |- ends_with _ (Ret _) _ => done
      | |- ends_with _ _ (match ?x with _ => _ end) => destruct x
      | |- ends_with _ (prog_bind _ (match ?x with _ => _ end)) _ => destruct x
      end
    | progress cbn [prog_bind h_read h_write] ].

(** Every operation that opens a remote file closes it again on every path,
    error paths included; creating a file keeps exactly the handle it hands out
    and none when it fails. *)
Theorem handles_closed f rel off size data flags mode name :
  leakfree (ReadFile f rel off size) ∧ leakfree (WriteFile f rel data off) ∧
  leakfree (CreateFile f rel flags mode) ∧ leakfree (Fsync f rel) ∧
  ends_with (λ o hs, match o with
                     | OCreated _ _ h _ => hs = option_list (h_write h) ∧ h_read h = None
                     | _ => hs = []
                     end) (dirNode_handle f rel (DCreate name flags mode)) [].
Proof.
  unfold leakfree, ReadFile, WriteFile, CreateFile, Fsync, dirNode_handle, Stat, Release, mbind, prog_mbind.
  split_and!; follow_handles.
Qed.

(** ** ID mapping *)

(** The range of an entry on either side. *)
Definition in_range (start count x : Z) : Prop := start ≤ x < start + count.

Definition disjoint_ranges (a b : Z) (m n : Z) : Prop :=
  ∀ x, in_range a m x → in_range b n x → False.

(** A usable map: both ranges of an entry lie in the 32-bit ids and no two
    entries overlap on either side. *)
Inductive map_wf : list IDMapEntry → Prop :=
  | map_wf_nil : map_wf []
  | map_wf_cons e es :
      0 ≤ RemoteID e → 0 ≤ LocalID e → 0 ≤ Count e →
      RemoteID e + Count e ≤ 2 ^ 32 → LocalID e + Count e ≤ 2 ^ 32 →
      Forall (λ e', disjoint_ranges (RemoteID e) (RemoteID e') (Count e) (Count e')) es →
      Forall (λ e', disjoint_ranges (LocalID e) (LocalID e') (Count e) (Count e')) es →
      map_wf es → map_wf (e :: es).

(** The map as a relation. *)
Definition maps_to (es : list IDMapEntry) (r l : Z) : Prop :=
  ∃ e, e ∈ es ∧ in_range (RemoteID e) (Count e) r ∧ l = LocalID e + (r - RemoteID e).

(** Swapping the two sides of a map. *)
Definition flip (e : IDMapEntry) : IDMapEntry := mkIDMap (LocalID e) (RemoteID e) (Count e).

Lemma mapToRemote_flip es l : mapToRemote es l = mapToLocal (flip <$> es) l.
Proof. induction es as [|e es IH]; simpl; [done|]. by rewrite IH. Qed.

Lemma map_wf_flip es : map_wf es → map_wf (flip <$> es).
Proof. induction 1; simpl; constructor; simpl; rewrite ?Forall_fmap; done. Qed.

Lemma maps_to_flip es r l : maps_to (flip <$> es) l r ↔ maps_to es r l.
Proof.
  unfold maps_to, in_range. split.
  - intros (? & (e & -> & He)%list_elem_of_fmap & Hr & ->). exists e. simpl in *. split; [done|lia].
  - intros (e & He & Hr & ->). exists (flip e). simpl. split; [by apply list_elem_of_fmap_2|lia].
Qed.

Lemma mapToLocal_maps es r l :
  map_wf es → mapToLocal es r = Some l ↔ maps_to es r l.
Proof.
  intros Hwf. induction Hwf as [|e es H1 H2 H3 H4 H5 Hdr Hdl Hwf IH]; simpl.
  - split; [done|]. by intros (? & ?%elem_of_nil & _).
  - assert (∀ b : bool, (b = true ↔ in_range (RemoteID e) (Count e) r) →
      (if b then Some (u32 (LocalID e + (r - RemoteID e))) else mapToLocal es r) = Some l ↔
      maps_to (e :: es) r l) as Hgen.
    { intros b Hb. unfold u32. destruct b.
      - assert (in_range (RemoteID e) (Count e) r) as Hin by by apply Hb. unfold in_range in Hin.
        rewrite uwrap_id by (unfold is_u; lia). split; [intros; simplify_eq; exists e; split; [left|done]|].
        intros (e' & [->|He']%elem_of_cons & Hr & ->); [done|].
        rewrite Forall_forall in Hdr. by destruct (Hdr e' He' r).
      - rewrite IH. split; intros (e' & He' & Hr & ->).
        + exists e'. split; [by right|done].
        + apply elem_of_cons in He' as [->|He']; [naive_solver|]. by exists e'. }
    destruct (Z.eqb_spec (Count e) 0) as [Hz|Hz].
    + apply (Hgen false). unfold in_range. split; [done|lia].
    + apply Hgen. unfold in_range. rewrite andb_true_iff, Z.leb_le, Z.ltb_lt. lia.
Qed.

(** On a map whose ranges do not overlap, the two translations are inverse
    to each other: a remote id is shown as [l] exactly when a chown to [l] is
    forwarded as that remote id. *)
Theorem id_map_inverse es r l : map_wf es → mapToLocal es r = Some l ↔ mapToRemote es l = Some r.
Proof.
  intros Hwf. rewrite mapToRemote_flip, !mapToLocal_maps by auto using map_wf_flip.
  by rewrite maps_to_flip.
Qed.

Lemma applyAttr_ids f st :
  a_Uid (applyAttr f st) = viewUID f (fi_Sys st) ∧ a_Gid (applyAttr f st) = viewGID f (fi_Sys st).
Proof.
  unfold applyAttr, viewUID, viewGID, applyFileInfo. simpl.
  by destruct (fi_Sys st) as [s|[s|]|[s|]|[s|]|].
Qed.

(** ** Mode bits *)

Lemma has_land_mask m k b : Z.land k b = b → has (Z.land m k) b = has m b.
Proof. intros Hb. unfold has. by rewrite <- Z.land_assoc, Hb. Qed.

Definition o7777 : Z := 4095.

Lemma posixFileMode_mask m : posixFileMode (Z.land m o7777) = posixFileMode m.
Proof.
  unfold posixFileMode. rewrite !has_land_mask by done. by rewrite <- Z.land_assoc.
Qed.

(** Permission, setuid, setgid and sticky bits survive the conversion to Go's
    file mode and back. *)
Theorem posix_mode_roundtrip m :
  fuseModeFromFileMode (posixFileMode m) = Z.lor S_IFREG (Z.land m o7777).
Proof.
  rewrite <- posixFileMode_mask. set (k := Z.land m o7777).
  assert (0 ≤ k < 4096) as Hk.
  { unfold k. change o7777 with (Z.ones 12). rewrite Z.land_ones by done. by apply Z.mod_pos_bound. }
  assert (forallb (λ k, fuseModeFromFileMode (posixFileMode k) =? Z.lor S_IFREG k) (seqZ 0 4096) = true)
    as Hall by (vm_compute; reflexivity).
  rewrite forallb_forall in Hall. apply Z.eqb_eq, Hall, list_elem_of_In, elem_of_seqZ. lia.
Qed.

(** *** statx *)

Lemma land_or_if c b x m : Z.land (or_if c b x) m = or_if c (Z.land b m) (Z.land x m).
Proof. destruct c; [|done]. apply Z.land_lor_distr_l. Qed.
Lemma fuse_mode_16 mode : Z.land (fuseModeFromFileMode mode) 65535 = fuseModeFromFileMode mode.
Proof.
  unfold fuseModeFromFileMode. rewrite !land_or_if, Z.land_lor_distr_l. unfold Perm. rewrite <- Z.land_assoc.
  assert (Z.land (modeToDirEntryMode mode) 65535 = modeToDirEntryMode mode) as ->
    by (unfold modeToDirEntryMode; by repeat case_match). done.
Qed.
Lemma fits_16 m : Z.land m 65535 = m → uwrap 16 m = m.
Proof. change 65535 with (Z.ones 16). by rewrite Z.land_ones. Qed.
Lemma fix_type_16 ty a :
  Z.land ty 65535 = ty → Z.land (a_Mode a) 65535 = a_Mode a → Z.land (a_Mode (fix_type ty a)) 65535 = a_Mode (fix_type ty a).
Proof.
  intros Ht Ha. unfold fix_type. case_match; [|done]. cbn. rewrite Z.land_lor_distr_l, Ht. f_equal.
  by rewrite !Z.ldiff_land, <- Z.land_assoc, (Z.land_comm (Z.lnot _)), Z.land_assoc, Ha.
Qed.
Lemma applyAttr_16 f st : Z.land (a_Mode (applyAttr f st)) 65535 = a_Mode (applyAttr f st).
Proof.
  assert (a_Mode (applyAttr f st) = fuseModeFromFileMode (fi_Mode st)) as ->; [|apply fuse_mode_16].
  unfold applyAttr, applyFileInfo. by destruct (fi_Sys st) as [|[]|[]|[]|].
Qed.

(** [statx] is [stat]: over any file client, the handler makes the requests of [Getattr]
    and reports what it reports, the mode unchanged by its narrower field. *)
Theorem statx_reports_getattr f rel fh mask {W} (impl : ∀ r : req, W → reply r * W) w :
  (let '(o, w') := run impl (file_Getattr f rel fh) w in
   run impl (file_Statx f rel fh mask) w = (statx_out mask o, w') ∧
   ∀ a, o = OAttr a → x_Mode (Statx_of mask a) = a_Mode a) ∧
  (let '(o, w') := run impl (dir_Getattr f rel) w in
   run impl (dir_Statx f rel mask) w = (statx_out mask o, w') ∧
   ∀ a, o = OAttr a → x_Mode (Statx_of mask a) = a_Mode a).
Proof.
  unfold file_Statx, dir_Statx, file_Getattr, dir_Getattr, Stat, mbind, prog_mbind. split.
  - destruct (write_handle fh) as [h|]; cbn [prog_bind run].
    + destruct (impl (HStat h) w) as [[st|e] w']; cbn [prog_bind run]; (split; [done|]); intros a [= <-].
      apply fits_16, applyAttr_16.
    + destruct (impl (FLstat (absPath f rel)) w) as [[st|e] w']; cbn [prog_bind run]; (split; [done|]); intros a [= <-].
      by apply fits_16, fix_type_16, applyAttr_16.
  - cbn [prog_bind run].
    destruct (impl (FLstat (absPath f rel)) w) as [[st|e] w']; cbn [prog_bind run]; (split; [done|]); intros a [= <-].
    by apply fits_16, fix_type_16, applyAttr_16.
Qed.

(** ** The permission check *)

(** The permission bits that apply to a caller, from the attributes the kernel
    has been given. *)
Definition class_bits (a : Attr) (uid gid : Z) : Z :=
  Z.land (Z.shiftr (a_Mode a) (if uid =? a_Uid a then 6 else if gid =? a_Gid a then 3 else 0)) o7.

(** The POSIX rule: every requested permission is in the class. *)
Definition permits (a : Attr) (uid gid mask : Z) : bool :=
  Z.ldiff (Z.land mask o7) (class_bits a uid gid) =? 0.

Lemma or_if_land c b x m : Z.land b m = 0 → Z.land (or_if c b x) m = Z.land x m.
Proof. intros Hb. destruct c; simpl; [|done]. by rewrite Z.land_lor_distr_l, Hb, Z.lor_0_r. Qed.

Lemma fuse_mode_perm mode : Z.land (fuseModeFromFileMode mode) o777 = Perm mode.
Proof.
  unfold fuseModeFromFileMode, Perm. rewrite !or_if_land by done.
  rewrite Z.land_lor_distr_l, <- Z.land_assoc. change (Z.land o777 o777) with o777.
  replace (Z.land (modeToDirEntryMode mode) o777) with 0; [done|].
  unfold modeToDirEntryMode. by repeat case_match.
Qed.

Lemma applyAttr_mode f st : a_Mode (applyAttr f st) = fuseModeFromFileMode (fi_Mode st).
Proof. unfold applyAttr, applyFileInfo. simpl. by destruct (fi_Sys st) as [s|[s|]|[s|]|[s|]|]. Qed.

Lemma class_of_perm mode s :
  s ∈ [6; 3; 0] → Z.land (Z.shiftr (fuseModeFromFileMode mode) s) o7 = Z.land (Z.shiftr (Perm mode) s) o7.
Proof.
  intros Hs. rewrite <- fuse_mode_perm, Z.shiftr_land, <- Z.land_assoc. f_equal.
  rewrite !elem_of_cons, elem_of_nil in Hs. by destruct Hs as [->|[->|[->|[]]]].
Qed.

(** The three tests of the code against one mask. *)
Lemma access_tests mask allowed :
  allowed = Z.land allowed o7 →
  (if has mask 4 && negb (has allowed 4) then Errno.EACCES
   else if has mask 2 && negb (has allowed 2) then Errno.EACCES
   else if has mask 1 && negb (has allowed 1) then Errno.EACCES else 0) =
  if Z.ldiff (Z.land mask o7) allowed =? 0 then 0 else Errno.EACCES.
Proof.
  intros Ha. rewrite <- (has_land_mask mask o7 4), <- (has_land_mask mask o7 2),
    <- (has_land_mask mask o7 1) by done.
  assert (∀ z, Z.land z o7 ∈ seqZ 0 8) as Hr.
  { intros z. apply elem_of_seqZ. change o7 with (Z.ones 3). rewrite Z.land_ones by done.
    by apply Z.mod_pos_bound. }
  pose proof (Hr mask) as Hm. pose proof (Hr allowed) as Hal. rewrite <- Ha in Hal.
  generalize dependent (Z.land mask o7). intros m Hm. clear Ha.
  assert (forallb (λ m, forallb (λ a, (if has m 4 && negb (has a 4) then Errno.EACCES
   else if has m 2 && negb (has a 2) then Errno.EACCES
   else if has m 1 && negb (has a 1) then Errno.EACCES else 0) =?
  (if Z.ldiff m a =? 0 then 0 else Errno.EACCES)) (seqZ 0 8)) (seqZ 0 8) = true) as Hall
    by (vm_compute; reflexivity).
  rewrite forallb_forall in Hall. specialize (Hall m (proj1 (list_elem_of_In _ _) Hm)).
  rewrite forallb_forall in Hall. by apply Z.eqb_eq, Hall, list_elem_of_In.
Qed.

(** For a caller other than root, the in-process permission check answers
    exactly what the POSIX rule says on the attributes reported to the kernel. *)
Theorem access_agrees_with_attr f st uid gid mask :
  uid ≠ 0 →
  access (Some (uid, gid)) f st mask = if permits (applyAttr f st) uid gid mask then 0 else Errno.EACCES.
Proof.
  intros Hu. destruct (applyAttr_ids f st) as [Hau Hag].
  unfold access, permits, class_bits. rewrite Hau, Hag, applyAttr_mode.
  destruct (Z.eqb_spec mask 0) as [->|Hm]; [by rewrite Z.land_0_l, Z.ldiff_0_l|].
  destruct uid as [|u|u]; [done|..]; rewrite access_tests, class_of_perm;
    try (repeat case_match; set_solver); by rewrite <- Z.land_assoc.
Qed.

(** ** A defect of chgrp *)

(** A backend with one file owned by remote uid 1000. *)
Definition demo_backend (r : req) (log : list req) : reply r * list req :=
  (match r return reply r with
   | FOpen _ | FCreate _ | FOpenFile _ _ _ => Err EOther
   | FStat _ | FLstat _ | HStat _ => Ok (mkFI "f" 0 420 0 false (SysAgent (mkFileStat "f" 0 420 0 0 0 1000 1000 1 0 0 0 0 false)))
   | FReadDir _ => Ok []
   | FReadlink _ | FGetwd => Err EInvalid
   | FStatfs _ => Err EOther
   | HReadAt _ _ _ => (EmptyString, None)
   | HWrite _ _ | HWriteAt _ _ _ => (0, None)
   | FMkdir _ _ | FMkdirAll _ _ | FRemove _ | FRename _ _ | FSymlink _ _ | FLink _ _ | FChmod _ _ | FChown _ _ _
   | FChtimes _ _ _ | FTruncate _ _ | HTruncate _ _ | HSync _ | HClose _ => None
   end, log ++ [r]).

(** Changing only the group can change the owner: the current remote owner is
    handed to [Chown] as if it were a local id and is translated again.  With
    remote root shown as local 1000, a chgrp of a file of remote user 1000 gives
    the file to remote root. *)
Theorem chgrp_changes_owner :
  let f := New "/w" (Some (mkOptions (Some IDModeTransparent) (Some IDModeTransparent)
                             [mkIDMap 0 1000 1] [] 1000 1000)) in
  let chgrp := mkSetAttr FATTR_GID None (Some 50) None None None None in
  FChown "/w/f" 0 50 ∈ (run demo_backend (Setattr f "f" None chgrp) []).2.
Proof. vm_compute. right. left. Qed.

(** ** Witnesses *)

Lemma workspace_confined_witness :
  let logged := λ r (s : list req * list req), let '(x, w') := demo_backend r s.1 in (x, (w', s.2 ++ [r])) in
  Forall (within_req "/w")
    (run logged (dirNode_handle (New "/w" None) "../.." (DUnlink "../../etc/passwd")) ([], [])).2.2.
Proof. by apply (workspace_confined "/w" None "../.." (DUnlink "../../etc/passwd") RReadlink demo_backend []). Defined.

Lemma demo_map_wf : map_wf [mkIDMap 0 1000 1; mkIDMap 1000 2000 10].
Proof.
  repeat constructor; simpl; try lia; unfold disjoint_ranges, in_range; simpl; lia.
Qed.

Lemma id_map_inverse_witness : mapToRemote [mkIDMap 0 1000 1; mkIDMap 1000 2000 10] 2003 = Some 1003.
Proof. by apply (id_map_inverse _ 1003 2003 demo_map_wf). Defined.

Lemma access_agrees_with_attr_witness :
  access (Some (1000, 1000)) (New "/w" None) (mkFI "f" 0 420 0 false SysOther) 2 = Errno.EACCES.
Proof. by rewrite (access_agrees_with_attr (New "/w" None)). Defined.
