(* ===== verification/Config.v ===== *)
(** * Config: the configuration, its defaults and its validation

    Models [pkg/config/config.go] and [pkg/config/load.go]: id-map entries,
    mount entries, the [Config] structure, [applyDefaults] with the identity
    mounts, [Validate] with its warnings, format detection and loading.  The
    YAML and TOML decoders, the user database, the environment and the file
    system are arguments, gathered in [Host]. *)

From S2P Require Import Prelude GoStrings GoPaths PathRules PathStub PathMapper WorkspaceFS.
Local Open Scope go_scope.

(** ** What the package asks of the machine it runs on *)

Record Host := mkHost {
  UserHomeDir : option string;               (** [os.UserHomeDir] *)
  Getwd : option string;                     (** [os.Getwd] *)
  XDG_CACHE_HOME : string;                   (** "" when unset *)
  DefaultCacheDir : string;                  (** packager override, "" by default *)
  DefaultAgentRemotePath : string;           (** packager override *)
  user_Lookup : string → option string;      (** [user.Lookup(name).Uid] *)
  user_LookupGroup : string → option string; (** [user.LookupGroup(name).Gid] *)
}.

(** ** Id-map entries *)

Inductive idmap_error : Type :=
  | ErrIDEmpty
  | ErrIDFields (n : nat)
  | ErrIDNoLookup (name : string)
  | ErrIDResolve (name : string)
  | ErrIDMapped (s : string)
  | ErrIDCount (s : string)
  | ErrIDCountZero.

Definition LookupUID (h : Host) (name : string) : option Z :=
  match user_Lookup h name with
  | None => None
  | Some Uid => ParseUint 32 Uid
  end.

Definition LookupGroupGID (h : Host) (name : string) : option Z :=
  match user_LookupGroup h name with
  | None => None
  | Some Gid => ParseUint 32 Gid
  end.

(** The first column: a number, or a name resolved by [lookup]. *)
Definition remote_id (name : string) (lookup : option (string → option Z)) : result idmap_error Z :=
  match ParseUint 32 name with
  | Some id => Ok id
  | None =>
      match lookup with
      | None => Err (ErrIDNoLookup name)
      | Some f => match f name with None => Err (ErrIDResolve name) | Some id => Ok id end
      end
  end.

Definition CompileIDMapEntry (s : string) (lookup : option (string → option Z)) :
    result idmap_error IDMapEntry :=
  if String.eqb s "" then Err ErrIDEmpty
  else
    let finish name mapped count :=
      remote ←? remote_id name lookup;
      match ParseUint 32 mapped with
      | None => Err (ErrIDMapped mapped)
      | Some local =>
          match count with
          | None => Ok (mkIDMap remote local 1)
          | Some c =>
              match ParseUint 32 c with
              | None => Err (ErrIDCount c)
              | Some n => if (n =? 0)%Z then Err ErrIDCountZero else Ok (mkIDMap remote local n)
              end
          end
      end in
    match Split ":" s with
    | [name; mapped] => finish name mapped None
    | [name; mapped; count] => finish name mapped (Some count)
    | parts => Err (ErrIDFields (List.length parts))
    end.

(** ** Mount entries *)

Inductive mount_error : Type :=
  | ErrMountEmpty
  | ErrMountHalf (s : string)
  | ErrMountLocal (s : string)
  | ErrMountRemote (s : string)
  | ErrMountHome (local : string) (e : home_error).

(** The two checks and the expansion, once the halves are known. *)
Definition finish_mount (home : option string) (s local remote : string) : result mount_error Mount :=
  if negb (isAbsOrHomeRelative local) then Err (ErrMountLocal s)
  else if negb (isAbsOrHomeRelative remote) then Err (ErrMountRemote s)
  else match ExpandLocalHome home local with
       | Err e => Err (ErrMountHome local e)
       | Ok expandedLocal => Ok (mkMount remote expandedLocal)
       end.

Definition ParseMount (home : option string) (s : string) : result mount_error Mount :=
  let s := TrimSpace s in
  if String.eqb s "" then Err ErrMountEmpty
  else match CutByte ":" s with
       | Some (local, remote) =>
           if String.eqb local "" || String.eqb remote "" then Err (ErrMountHalf s)
           else finish_mount home s local remote
       | None => finish_mount home s s s
       end.

Definition splitMountRaw (s : string) : option (string * string) :=
  let s := TrimSpace s in
  if String.eqb s "" then None
  else match CutByte ":" s with
       | Some lr => Some lr
       | None => Some (s, s)
       end.

(** ** The configuration record *)

Record LoggingConfig := mkLogging { Level : string; File : string; RecordingFile : string }.
Record SSHConfig := mkSSH { SSH_Host : string; SSH_User : string; SSH_Port : Z }.
Record DockerConfig := mkDocker { Docker_Container : string; Docker_Host : string }.
Record ComposeConfig := mkCompose {
  Compose_Project : string; Compose_Service : string; Compose_Sequence : Z; Compose_Host : string }.
Record RemoteConfig := mkRemote {
  Remote_Type : string; SSH : SSHConfig; Docker : DockerConfig; Compose : ComposeConfig;
  OS : string; Arch : string; Bind : string; BindInterface : string }.
Record ContainerConfig := mkContainer {
  LocalCommands : list string; Mounts : list string; AutoIdentityMounts : bool;
  WorkingDir : string; CwdMode : string; CwdRemap : string; EnvRemove : list string;
  PathProxy : string; PathStubDir : string;
  ForceResolveInitialCommandLocally : option bool;
  Container_UIDMode : string; Container_GIDMode : string;
  Container_UIDMap : list string; Container_GIDMap : list string }.
Record AgentConfig := mkAgent { Agent_EnvKeep : list string; Agent_EnvRemove : list string }.
Record ComponentsConfig := mkComponents {
  ShimPath : string; TracerPath : string; InterposerPath : string;
  AgentLocalPath : string; AgentRemotePath : string }.
Record Config := mkConfig {
  Logging : LoggingConfig; Remote : RemoteConfig; Container : ContainerConfig;
  Agent : AgentConfig; Components : ComponentsConfig }.

Inductive cfg_error : Type :=
  | ErrExpand (field : string) (e : home_error)
  | ErrGetwd (field : string)
  | ErrInvalid (field : string)     (** a value outside its range or enumeration *)
  | ErrRequired (field : string)    (** a value that must not be empty *)
  | ErrNotAbs (field : string)
  | ErrMount (e : mount_error)
  | ErrLocalCommand (e : cmd_error)
  | ErrIDMap (field : string) (e : idmap_error).

Definition UIDGIDModeTransparent : string := "transparent".
Definition UIDGIDModeOverride : string := "override".
Definition CwdModeInherit : string := "inherit".
Definition CwdModeLocal : string := "local".
Definition CwdModeRemote : string := "remote".
Definition CwdModeExplicit : string := "explicit".
Definition CwdRemapLocal : string := "local".
Definition CwdRemapRemote : string := "remote".

(** [switch v { case l...: }]. *)
Definition one_of (v : string) (l : list string) : bool := existsb (String.eqb v) l.

Definition validateUIDGIDMode (name value : string) : result cfg_error unit :=
  if one_of value [UIDGIDModeTransparent; UIDGIDModeOverride] then Ok tt else Err (ErrInvalid name).

(** ** Defaults *)

Definition or_default (v d : string) : string := if String.eqb v "" then d else v.
Definition or_default_list (v d : list string) : list string := match v with [] => d | _ => v end.

(** [filepath.Abs]. *)
Definition filepath_Abs (wd : option string) (p : string) : option string :=
  if IsAbs p then Some (Clean p)
  else match wd with None => None | Some wd => Some (PathJoin wd p) end.

(** One round of the loop over the local path fields. *)
Definition expand_field (h : Host) (name v : string) (abs : bool) : result cfg_error string :=
  if String.eqb v "" then Ok v
  else match ExpandLocalHome (UserHomeDir h) v with
       | Err e => Err (ErrExpand name e)
       | Ok expanded =>
           if abs then
             match filepath_Abs (Getwd h) expanded with
             | None => Err (ErrGetwd name)
             | Some p => Ok p
             end
           else Ok expanded
       end.

(** The remote paths already mounted at themselves. *)
Definition seed_seen (mounts : list string) : gset string :=
  fold_left (λ seen raw,
    match splitMountRaw raw with
    | Some (local, remote) => if String.eqb local remote then {[remote]} ∪ seen else seen
    | None => seen
    end) mounts ∅.

(** The second loop: [seen] and [added] along the mounts. *)
Definition identity_step (st : gset string * list string) (raw : string) : gset string * list string :=
  let '(seen, added) := st in
  match splitMountRaw raw with
  | None => st
  | Some (local, remote) =>
      if String.eqb local remote then st
      else if bool_decide (remote ∈ seen) then st
      else ({[remote]} ∪ seen, added ++ [remote +:+ ":" +:+ remote])
  end.

Definition applyAutoIdentityMounts (auto : bool) (mounts : list string) : list string :=
  if negb auto then mounts
  else mounts ++ (fold_left identity_step mounts (seed_seen mounts, [])).2.

Definition defaultEnvKeep : list string :=
  ["HOME"; "PATH"; "TERM"; "LANG"; "LC_*"; "USER"; "LOGNAME"; "SHELL"; "EDITOR"; "VISUAL"; "PAGER";
   "TZ"; "DISPLAY"; "SSH_AUTH_SOCK"; "XDG_*"].
Definition defaultAgentEnvRemove : list string := ["LD_PRELOAD"; "LD_LIBRARY_PATH"; "MPROXY_*"].

Definition set_RemoteType (t : string) (r : RemoteConfig) : RemoteConfig :=
  mkRemote t (SSH r) (Docker r) (Compose r) (OS r) (Arch r) (Bind r) (BindInterface r).

Definition applyDefaults (h : Host) (c : Config) : result cfg_error Config :=
  let k := Container c in
  let stubDir :=
    or_default (PathStubDir k) (defaultPathStubDir (DefaultCacheDir h) (XDG_CACHE_HOME h) (UserHomeDir h)) in
  logFile ←? expand_field h "logging.file" (File (Logging c)) false;
  pathStubDir ←? expand_field h "container.path_stub_dir" stubDir false;
  workingDir ←? expand_field h "container.working_dir" (WorkingDir k) false;
  shim ←? expand_field h "components.shim_path" (ShimPath (Components c)) true;
  tracer ←? expand_field h "components.tracer_path" (TracerPath (Components c)) true;
  interposer ←? expand_field h "components.interposer_path" (InterposerPath (Components c)) true;
  agentLocal ←? expand_field h "components.agent_local_path" (AgentLocalPath (Components c)) true;
  recording ←? expand_field h "logging.recording_file" (RecordingFile (Logging c)) false;
  Ok (mkConfig
        (mkLogging (or_default (Level (Logging c)) "info") logFile recording)
        (set_RemoteType (or_default (Remote_Type (Remote c)) "ssh") (Remote c))
        (mkContainer (LocalCommands k)
           (applyAutoIdentityMounts (AutoIdentityMounts k) (Mounts k)) (AutoIdentityMounts k)
           workingDir (or_default (CwdMode k) CwdModeInherit) (or_default (CwdRemap k) CwdRemapLocal)
           (or_default_list (EnvRemove k) ["MPROXY_*"])
           (or_default (PathProxy k) "append") pathStubDir
           (Some (default true (ForceResolveInitialCommandLocally k)))
           (or_default (Container_UIDMode k) UIDGIDModeOverride)
           (or_default (Container_GIDMode k) UIDGIDModeOverride)
           (Container_UIDMap k) (Container_GIDMap k))
        (mkAgent (or_default_list (Agent_EnvKeep (Agent c)) defaultEnvKeep)
           (or_default_list (Agent_EnvRemove (Agent c)) defaultAgentEnvRemove))
        (mkComponents shim tracer interposer agentLocal
           (or_default (AgentRemotePath (Components c)) (DefaultAgentRemotePath h)))).

(** ** Validation *)

Inductive warning : Type :=
  | WarnAgentCovered (mount : string)
  | WarnStubCovered (mount : string).

Definition warnMountOverlaps (h : Host) (c : Config) : list warning :=
  let agentRemote := AgentRemotePath (Components c) in
  let pathStub := PathStubDir (Container c) in
  flat_map (λ raw,
    match ParseMount (UserHomeDir h) raw with
    | Err _ => []
    | Ok m =>
        (if isPosixAncestor (mnt_RemotePath m) agentRemote then [WarnAgentCovered raw] else [])
        ++ (if isLocalAncestor (ContainerPath m) pathStub then [WarnStubCovered raw] else [])
    end) (Mounts (Container c)).

(** A loop that returns the first error, and an [if] that returns one. *)
Fixpoint for_each {A E} (f : A → result E unit) (l : list A) : result E unit :=
  match l with
  | [] => Ok tt
  | x :: l => _ ←? f x; for_each f l
  end.

Definition check_err {A E E'} (wrap : E → E') (r : result E A) : result E' unit :=
  match r with Ok _ => Ok tt | Err e => Err (wrap e) end.

Definition require {E} (b : bool) (e : E) : result E unit := if b then Ok tt else Err e.

Definition validateRemote (r : RemoteConfig) : result cfg_error unit :=
  if String.eqb (Remote_Type r) "ssh" then
    if String.eqb (SSH_Host (SSH r)) "" then Err (ErrRequired "remote.ssh.host")
    else if (SSH_Port (SSH r) <? 0)%Z || (65535 <? SSH_Port (SSH r))%Z then Err (ErrInvalid "remote.ssh.port")
    else Ok tt
  else if String.eqb (Remote_Type r) "docker" then
    if String.eqb (Docker_Container (Docker r)) "" then Err (ErrRequired "remote.docker.container")
    else Ok tt
  else if String.eqb (Remote_Type r) "compose" then
    if String.eqb (Compose_Service (Compose r)) "" then Err (ErrRequired "remote.compose.service")
    else if (Compose_Sequence (Compose r) <? 0)%Z then Err (ErrInvalid "remote.compose.sequence")
    else Ok tt
  else Err (ErrInvalid "remote.type").

Definition validateCwdMode (k : ContainerConfig) : result cfg_error unit :=
  if one_of (CwdMode k) [CwdModeInherit; CwdModeLocal; CwdModeRemote] then Ok tt
  else if String.eqb (CwdMode k) CwdModeExplicit then
    if String.eqb (WorkingDir k) "" then Err (ErrRequired "container.working_dir") else Ok tt
  else Err (ErrInvalid "container.cwd_mode").

Section validate.
Context `{Regexp}.

(** The warnings are what a valid configuration logs. *)
Definition Validate (h : Host) (c : Config) : result cfg_error (list warning) :=
  let k := Container c in
  _ ←? require (one_of (Level (Logging c)) ["trace"; "debug"; "info"; "warn"; "error"])
         (ErrInvalid "logging.level");
  _ ←? validateRemote (Remote c);
  _ ←? require (negb (bool_decide (Mounts k = []))) (ErrRequired "container.mounts");
  _ ←? for_each (λ m, check_err ErrMount (ParseMount (UserHomeDir h) m)) (Mounts k);
  _ ←? require (String.eqb (WorkingDir k) "" || IsAbs (WorkingDir k)) (ErrNotAbs "container.working_dir");
  _ ←? validateCwdMode k;
  _ ←? require (one_of (CwdRemap k) [CwdRemapLocal; CwdRemapRemote]) (ErrInvalid "container.cwd_remap");
  _ ←? for_each (λ p, check_err ErrLocalCommand (CompileLocalCommand p)) (LocalCommands k);
  _ ←? require (one_of (PathProxy k) ["prepend"; "append"; "disabled"]) (ErrInvalid "container.path_proxy");
  _ ←? validateUIDGIDMode "container.uid_mode" (Container_UIDMode k);
  _ ←? validateUIDGIDMode "container.gid_mode" (Container_GIDMode k);
  _ ←? for_each (λ e, check_err (ErrIDMap "container.uid_map")
                        (CompileIDMapEntry e (Some (LookupUID h)))) (Container_UIDMap k);
  _ ←? for_each (λ e, check_err (ErrIDMap "container.gid_map")
                        (CompileIDMapEntry e (Some (LookupGroupGID h)))) (Container_GIDMap k);
  _ ←? require (IsAbs (PathStubDir k)) (ErrNotAbs "container.path_stub_dir");
  Ok (warnMountOverlaps h c).

(** [Finalize] leaves the defaulted configuration in place and returns the
    outcome of the validation. *)
Definition Finalize (h : Host) (c : Config) : result cfg_error (Config * list warning) :=
  c' ←? applyDefaults h c;
  w ←? Validate h c';
  Ok (c', w).

(** ** Loading (load.go) *)

Inductive Format : Type := FormatYAML | FormatTOML.

(** [filepath.Ext]: from the last dot of the last path element. *)
Definition Ext (path : string) : string :=
  let last := match CutLastByte slash path with Some (_, b) => b | None => path end in
  match CutLastByte "." last with Some (_, e) => String "." e | None => "" end.

Definition formatFromExt (path : string) : option Format :=
  let e := ToLower (Ext path) in
  if one_of e [".yaml"; ".yml"; ".json"] then Some FormatYAML
  else if String.eqb e ".toml" then Some FormatTOML
  else None.

(** The longest line a [bufio.Scanner] delivers is one byte short of this. *)
Definition MaxScanTokenSize : Z := 64 * 1024.

(** The scanner loop over the lines; an over-long line ends it. *)
Fixpoint sniff_lines (lines : list string) : Format :=
  match lines with
  | [] => FormatYAML
  | raw :: lines =>
      if (MaxScanTokenSize <=? Z.of_nat (slen raw))%Z then FormatYAML
      else
        let line := TrimSpace raw in
        if String.eqb line "" || HasPrefix line "#" then sniff_lines lines
        else if HasPrefix line "[" then FormatTOML
        else sniff_lines lines
  end.

Definition detectFormat (data : string) : Format := sniff_lines (Split "010" data).

Inductive load_error : Type :=
  | ErrRead (path : string)
  | ErrDecode (f : Format)
  | ErrConfig (e : cfg_error).

Section load.
Context (ReadFile : string → option string) (decoder : Format → string → option Config) (h : Host).

Definition decode (data : string) (format : Format) : result load_error Config :=
  match decoder format data with None => Err (ErrDecode format) | Some c => Ok c end.

Definition LoadFileRaw (path : string) : result load_error Config :=
  match ReadFile path with
  | None => Err (ErrRead path)
  | Some data => decode data (default (detectFormat data) (formatFromExt path))
  end.

Definition finalize_loaded (c : Config) : result load_error (Config * list warning) :=
  match Finalize h c with Ok cw => Ok cw | Err e => Err (ErrConfig e) end.

Definition LoadFile (path : string) : result load_error (Config * list warning) :=
  cfg ←? LoadFileRaw path; finalize_loaded cfg.

(** [r] is what [io.ReadAll] gives. *)
Definition Load (r : option string) : result load_error (Config * list warning) :=
  match r with
  | None => Err (ErrRead "")
  | Some data => cfg ←? decode data (detectFormat data); finalize_loaded cfg
  end.

End load.
End validate.

(** ** Checks and loops *)

Lemma require_ok {E} b (e : E) : require b e = Ok tt ↔ b = true.
Proof. by destruct b. Qed.

Lemma check_err_ok {A E E'} (wrap : E → E') (r : result E A) :
  check_err wrap r = Ok tt ↔ ∃ a, r = Ok a.
Proof. destruct r; simpl; naive_solver. Qed.

Lemma for_each_ok {A E} (f : A → result E unit) l :
  for_each f l = Ok tt ↔ Forall (λ x, f x = Ok tt) l.
Proof.
  induction l as [|x l IH]; simpl; [done|]. rewrite Forall_cons, result_bind_ok, <- IH.
  split; [by intros ([] & ? & ?)|]. intros [? ?]. by exists tt.
Qed.

Lemma for_each_check {A B E E'} (wrap : E → E') (f : A → result E B) l :
  for_each (λ x, check_err wrap (f x)) l = Ok tt ↔ Forall (λ x, ∃ y, f x = Ok y) l.
Proof. rewrite for_each_ok. apply Forall_proper; [|done]. intros x. apply check_err_ok. Qed.

Lemma one_of_In v l : one_of v l = true ↔ v ∈ l.
Proof.
  unfold one_of. rewrite existsb_exists. rewrite list_elem_of_In.
  split; [by intros (x & ? & ->%seqb_true)|]. intros. exists v. by rewrite seqb_refl.
Qed.

(** ** Mount entries *)

(** The two readers of a mount entry agree: the raw split is what
    [ParseMount] validates and expands. *)
Lemma ParseMount_ok home s m :
  ParseMount home s = Ok m ↔
  ∃ l r, splitMountRaw s = Some (l, r) ∧ isAbsOrHomeRelative l = true ∧ isAbsOrHomeRelative r = true ∧
    ExpandLocalHome home l = Ok (ContainerPath m) ∧ mnt_RemotePath m = r.
Proof.
  assert (∀ l r, finish_mount home (TrimSpace s) l r = Ok m ↔
    isAbsOrHomeRelative l = true ∧ isAbsOrHomeRelative r = true ∧
    ExpandLocalHome home l = Ok (ContainerPath m) ∧ mnt_RemotePath m = r) as Hf.
  { intros l r. unfold finish_mount. destruct (isAbsOrHomeRelative l); simpl; [|naive_solver].
    destruct (isAbsOrHomeRelative r); simpl; [|naive_solver].
    destruct (ExpandLocalHome home l); [|naive_solver]. destruct m; simpl. naive_solver. }
  unfold ParseMount, splitMountRaw. destruct (String.eqb (TrimSpace s) ""); [naive_solver|].
  destruct (CutByte ":" (TrimSpace s)) as [[l r]|].
  - destruct (String.eqb l "") eqn:El; [apply seqb_true in El as ->; split; [done|by intros (? & ? & [= <- <-] & ? & ?)]|].
    destruct (String.eqb r "") eqn:Er; [apply seqb_true in Er as ->; split; [done|by intros (? & ? & [= <- <-] & ? & ? & ?)]|].
    simpl. rewrite Hf. split; [intros; by exists l, r|]. by intros (l' & r' & ? & ?); simplify_eq.
  - rewrite Hf. split; [intros ?; by eexists _, _|]. by intros (l' & r' & ? & ?); simplify_eq.
Qed.

Lemma home_relative_first r :
  isAbsOrHomeRelative r = true →
  ∃ c r', r = String c r' ∧ (∀ t, clear_of space_runes (String c t) = true) ∧
    forallb (λ x, negb (contains_byte c x)) (srev <$> space_runes) = true.
Proof.
  destruct r as [|c r]; [done|]. intros Hr. exists c, r. split; [done|]. unfold isAbsOrHomeRelative, IsAbs in Hr.
  destruct (Ascii.eqb "/" c) eqn:E1; [apply Ascii.eqb_eq in E1 as <-; done|].
  destruct (Ascii.eqb "~" c) eqn:E2; [apply Ascii.eqb_eq in E2 as <-; done|].
  cbn [HasPrefix String.eqb] in Hr. rewrite E1, E2, Ascii.eqb_sym, E2 in Hr. done.
Qed.

(** An identity entry reads back as the identity. *)
Lemma identity_entry_split s l r :
  splitMountRaw s = Some (l, r) → isAbsOrHomeRelative r = true → contains_byte ":" r = false →
  splitMountRaw (r +:+ ":" +:+ r) = Some (r, r).
Proof.
  intros Hs Hr Hc. assert (clear_of (srev <$> space_runes) (srev r) = true) as Hl.
  { destruct (TrimSpace_edges s) as [_ He]. unfold splitMountRaw in Hs.
    destruct (String.eqb (TrimSpace s) ""); [done|].
    destruct (CutByte ":" (TrimSpace s)) as [[l' r0]|] eqn:E; simplify_eq; [|done].
    apply CutByte_Some in E as [E _]. rewrite E, (srev_sapp l), (srev_cons ":"), <- sapp_assoc in He.
    by apply clear_of_prefix in He. }
  apply home_relative_first in Hr as (c & r' & Hrr & Hf & Hback).
  assert (TrimSpace (r +:+ ":" +:+ r) = r +:+ ":" +:+ r) as Ht.
  { apply TrimSpace_id; [rewrite Hrr at 1; rewrite !sapp_cons; apply Hf|].
    rewrite srev_sapp, srev_sapp, <- sapp_assoc. rewrite Hrr, srev_cons in Hl |- * at 1.
    rewrite <- sapp_assoc, sapp_cons. rewrite <- Hl. by apply clear_of_stop. }
  unfold splitMountRaw. rewrite Ht.
  assert (String.eqb (r +:+ ":" +:+ r) "" = false) as -> by (apply seqb_false; by destruct r).
  assert (CutByte ":" (r +:+ ":" +:+ r) = Some (r, r)) as -> by exact (CutByte_app ":" r r Hc).
  done.
Qed.

(** ** Identity mounts *)

(** The remote halves that get an identity entry. *)
Definition remaps (mounts : list string) (r : string) : Prop :=
  ∃ raw l, raw ∈ mounts ∧ splitMountRaw raw = Some (l, r) ∧ l ≠ r.
Definition has_identity (mounts : list string) (r : string) : Prop :=
  ∃ raw, raw ∈ mounts ∧ splitMountRaw raw = Some (r, r).

Lemma seed_seen_spec mounts r : r ∈ seed_seen mounts ↔ has_identity mounts r.
Proof.
  assert (∀ seen : gset string, r ∈ fold_left (λ seen raw,
    match splitMountRaw raw with
    | Some (local, remote) => if String.eqb local remote then {[remote]} ∪ seen else seen
    | None => seen
    end) mounts seen ↔ r ∈ seen ∨ has_identity mounts r) as Hg.
  2:{ unfold seed_seen. rewrite Hg. set_solver. }
  unfold has_identity. induction mounts as [|raw mounts IH]; intros seen; simpl; [set_solver|].
  rewrite IH. setoid_rewrite elem_of_cons.
  destruct (splitMountRaw raw) as [[l r']|] eqn:E; [destruct (String.eqb l r') eqn:Eq|].
  - apply seqb_true in Eq as ->. rewrite elem_of_union, elem_of_singleton. naive_solver.
  - apply seqb_false in Eq. naive_solver.
  - naive_solver.
Qed.

(** The loop invariant of the second loop: [rs] are the remotes added so far. *)
Lemma identity_fold mounts seen added :
  ∃ rs, (fold_left identity_step mounts (seen, added)).2 = added ++ ((λ r, r +:+ ":" +:+ r) <$> rs) ∧
    NoDup rs ∧ ∀ r, r ∈ rs ↔ remaps mounts r ∧ r ∉ seen.
Proof.
  revert seen added. induction mounts as [|raw mounts IH]; intros seen added.
  - exists []. rewrite app_nil_r. split; [done|]. split; [constructor|].
    unfold remaps. set_solver.
  - assert (∀ r, remaps (raw :: mounts) r ↔
      (∃ l, splitMountRaw raw = Some (l, r) ∧ l ≠ r) ∨ remaps mounts r) as Hcons.
    { intros r. unfold remaps. setoid_rewrite elem_of_cons. naive_solver. }
    cbn [fold_left]. destruct (identity_step (seen, added) raw) as [seen' added'] eqn:St.
    unfold identity_step in St.
    destruct (splitMountRaw raw) as [[l r]|] eqn:E;
      [destruct (String.eqb l r) eqn:Eq; [|destruct (bool_decide (r ∈ seen)) eqn:Es]|];
      inversion St; subst seen' added'; clear St.
    + apply seqb_true in Eq as ->. destruct (IH seen added) as (rs & H1 & H2 & H3). exists rs.
      split; [done|]. split; [done|]. intros r'. rewrite H3, Hcons. naive_solver.
    + apply bool_decide_eq_true in Es. destruct (IH seen added) as (rs & H1 & H2 & H3). exists rs.
      split; [done|]. split; [done|]. intros r'. rewrite H3, Hcons. naive_solver.
    + apply bool_decide_eq_false in Es. apply seqb_false in Eq.
      destruct (IH ({[r]} ∪ seen) (added ++ [r +:+ ":" +:+ r])) as (rs & H1 & H2 & H3).
      exists (r :: rs). rewrite H1, <- app_assoc. split; [done|]. split.
      * constructor; [|done]. rewrite H3. set_solver.
      * intros r'. rewrite elem_of_cons, H3, Hcons, not_elem_of_union, not_elem_of_singleton.
        destruct (decide (r' = r)) as [->|Hne]; [naive_solver|]. naive_solver.
    + destruct (IH seen added) as (rs & H1 & H2 & H3). exists rs.
      split; [done|]. split; [done|]. intros r'. rewrite H3, Hcons. naive_solver.
Qed.

Lemma applyAutoIdentityMounts_spec mounts :
  ∃ rs, applyAutoIdentityMounts true mounts = mounts ++ ((λ r, r +:+ ":" +:+ r) <$> rs) ∧ NoDup rs ∧
    ∀ r, r ∈ rs ↔ remaps mounts r ∧ ¬ has_identity mounts r.
Proof.
  unfold applyAutoIdentityMounts. simpl negb. cbv iota.
  destruct (identity_fold mounts (seed_seen mounts) []) as (rs & -> & ? & Hrs).
  exists rs. split; [done|]. split; [done|]. intros r. by rewrite Hrs, seed_seen_spec.
Qed.

(** With [auto_identity_mounts] set, the mounts the user wrote stay in
    place and in order, and every remote path they mount (absolute, without a
    colon) is afterwards also mounted at itself; the entries added are for
    distinct remote paths, and only for paths that were not already mounted at
    themselves. *)
Theorem auto_identity_mounts home mounts :
  ∃ rs, applyAutoIdentityMounts true mounts = mounts ++ ((λ r, r +:+ ":" +:+ r) <$> rs) ∧
    NoDup rs ∧ (∀ r, r ∈ rs → ¬ has_identity mounts r) ∧
    ∀ raw m, raw ∈ mounts → ParseMount home raw = Ok m →
      IsAbs (mnt_RemotePath m) = true → contains_byte ":" (mnt_RemotePath m) = false →
      ∃ raw', raw' ∈ applyAutoIdentityMounts true mounts ∧
        ParseMount home raw' = Ok (mkMount (mnt_RemotePath m) (mnt_RemotePath m)).
Proof.
  destruct (applyAutoIdentityMounts_spec mounts) as (rs & Hm & Hd & Hrs). exists rs.
  split; [done|]. split; [done|]. split; [intros r; rewrite Hrs; by intros [_ ?]|].
  intros raw m Hin Hp Habs Hc. apply ParseMount_ok in Hp as (l & r & Hs & Hl & Hr & He & Hmr).
  rewrite Hmr in *.
  assert (∃ raw', raw' ∈ applyAutoIdentityMounts true mounts ∧ splitMountRaw raw' = Some (r, r))
    as (raw' & Hin' & Hs').
  { rewrite Hm. setoid_rewrite elem_of_app. destruct (decide (l = r)) as [->|Hne]; [by eauto|].
    destruct (decide (r ∈ seed_seen mounts)) as [Hid|Hid]; rewrite seed_seen_spec in Hid.
    - destruct Hid as (raw' & ? & ?). eauto.
    - exists (r +:+ ":" +:+ r). split; [|by eapply identity_entry_split]. right.
      apply list_elem_of_fmap. exists r. split; [done|]. apply Hrs. split; [|done].
      by exists raw, l. }
  exists raw'. split; [done|]. apply ParseMount_ok. exists r, r. repeat split; try done.
  apply IsAbs_spec in Habs as [t ->]. done.
Qed.

Lemma auto_identity_mounts_witness :
  applyAutoIdentityMounts true ["/work:/srv/app"; "/data"] = ["/work:/srv/app"; "/data"; "/srv/app:/srv/app"] ∧
  ∃ raw', raw' ∈ applyAutoIdentityMounts true ["/work:/srv/app"; "/data"] ∧
    ParseMount None raw' = Ok (mkMount "/srv/app" "/srv/app").
Proof.
  split; [vm_compute; reflexivity|].
  destruct (auto_identity_mounts None ["/work:/srv/app"; "/data"]) as (rs & _ & _ & _ & Hid).
  apply (Hid "/work:/srv/app" (mkMount "/srv/app" "/work")); [left|reflexivity..].
Defined.

(** ** Defaults are a fixed point *)

(** A machine with absolute paths for the home and the working directory.  The kernel gives
    the latter; the former is HOME, which [os.UserHomeDir] hands on unchecked. *)
Definition host_ok (h : Host) : Prop :=
  (∀ home, UserHomeDir h = Some home → IsAbs home = true) ∧
  (∀ wd, Getwd h = Some wd → IsAbs wd = true).

Lemma ExpandLocalHome_IsAbs home p : IsAbs p = true → ExpandLocalHome home p = Ok p.
Proof. by intros [t ->]%IsAbs_spec. Qed.

Lemma ExpandLocalHome_idem home p q :
  (∀ d, home = Some d → IsAbs d = true) → ExpandLocalHome home p = Ok q →
  ExpandLocalHome home q = Ok q.
Proof.
  intros Hh. unfold ExpandLocalHome at 1.
  destruct (String.eqb p "~") eqn:E1; cbn [negb andb].
  - destruct home as [d|]; [|done]. destruct (String.eqb d ""); [done|]. intros [= <-].
    by apply ExpandLocalHome_IsAbs, Hh.
  - destruct (HasPrefix p "~/") eqn:E2; cbn [negb andb].
    + destruct home as [d|]; [|done]. destruct (String.eqb d ""); [done|]. intros [= <-].
      by apply ExpandLocalHome_IsAbs, PathJoin_IsAbs, Hh.
    + intros [= <-]. unfold ExpandLocalHome. by rewrite E1, E2.
Qed.

Lemma filepath_Abs_idem wd p q :
  (∀ d, wd = Some d → IsAbs d = true) → filepath_Abs wd p = Some q →
  IsAbs q = true ∧ filepath_Abs wd q = Some q.
Proof.
  intros Hw Hq.
  assert (∃ x, IsAbs x = true ∧ q = Clean x) as (x & Hx & ->).
  { unfold filepath_Abs in Hq. destruct (IsAbs p) eqn:Ep; [simplify_eq; eauto|].
    destruct wd as [d|]; [|done]. simplify_eq. specialize (Hw d eq_refl).
    exists (d +:+ String slash p). apply IsAbs_spec in Hw as [t ->]. done. }
  pose proof (Clean_IsAbs _ Hx). split; [done|]. unfold filepath_Abs.
  by rewrite Clean_IsAbs, Clean_rooted_idemp.
Qed.

Lemma expand_field_idem h name v abs q :
  host_ok h → expand_field h name v abs = Ok q →
  expand_field h name q abs = Ok q ∧ (abs = true → q = "" ∨ IsAbs q = true).
Proof.
  intros [Hh Hw]. unfold expand_field at 1.
  destruct (String.eqb v "") eqn:Ev; [apply seqb_true in Ev as ->; intros [= <-]; by auto|].
  destruct (ExpandLocalHome (UserHomeDir h) v) as [x|] eqn:Ex; [|done].
  destruct abs.
  - destruct (filepath_Abs (Getwd h) x) as [y|] eqn:Ey; [|done]. intros [= <-].
    apply filepath_Abs_idem in Ey as [Hy Ey]; [|done]. split; [|by auto]. unfold expand_field.
    destruct (String.eqb y ""); [done|]. by rewrite ExpandLocalHome_IsAbs, Ey.
  - intros [= <-]. split; [|done]. unfold expand_field.
    destruct (String.eqb x ""); [done|]. by rewrite (ExpandLocalHome_idem _ v x).
Qed.

Lemma or_default_idem v d : or_default (or_default v d) d = or_default v d.
Proof. unfold or_default. destruct (String.eqb v "") eqn:E; [|by rewrite E]. by destruct (String.eqb d ""). Qed.

Lemma or_default_list_idem v d : or_default_list (or_default_list v d) d = or_default_list v d.
Proof. destruct v; [by destruct d|done]. Qed.

(** The mount entries whose identity entry reads back as an identity. *)
Definition colon_free (mounts : list string) : Prop :=
  ∀ raw l r, raw ∈ mounts → splitMountRaw raw = Some (l, r) → contains_byte ":" r = false.

Lemma applyAutoIdentityMounts_idem home auto mounts :
  (auto = true → colon_free mounts) →
  Forall (λ raw, ∃ m, ParseMount home raw = Ok m) mounts →
  applyAutoIdentityMounts auto (applyAutoIdentityMounts auto mounts) = applyAutoIdentityMounts auto mounts.
Proof.
  intros Hcf Hp. destruct auto; [|done]. specialize (Hcf eq_refl). rewrite Forall_forall in Hp.
  destruct (applyAutoIdentityMounts_spec mounts) as (rs & Hm & _ & Hrs). rewrite Hm.
  set (ms := mounts ++ _).
  destruct (applyAutoIdentityMounts_spec ms) as (rs2 & -> & _ & Hrs2).
  assert (∀ r, remaps mounts r → splitMountRaw (r +:+ ":" +:+ r) = Some (r, r)) as Hentry.
  { intros r (raw & l & Hin & Hs & _). destruct (Hp _ Hin) as [m Hm'].
    apply ParseMount_ok in Hm' as (l' & r' & Hs' & _ & Hr & _). simplify_eq.
    eapply identity_entry_split; eauto. }
  destruct rs2 as [|r rs2]; [by rewrite app_nil_r|]. exfalso.
  destruct (proj1 (Hrs2 r)) as [(raw & l & Hin & Hs & Hne) Hno]; [left|].
  unfold ms in Hin. apply elem_of_app in Hin as [Hin|Hin].
  - assert (remaps mounts r) as Hr by (by exists raw, l). apply Hno.
    destruct (decide (r ∈ seed_seen mounts)) as [Hid|Hid]; rewrite seed_seen_spec in Hid.
    + destruct Hid as (raw' & ? & ?). exists raw'. split; [apply elem_of_app; by left|done].
    + exists (r +:+ ":" +:+ r). split; [|by apply Hentry]. apply elem_of_app. right.
      apply list_elem_of_fmap. exists r. split; [done|]. by apply Hrs.
  - apply list_elem_of_fmap in Hin as (r' & -> & Hin). apply Hrs in Hin as [Hr' _].
    rewrite (Hentry r' Hr') in Hs. by simplify_eq.
Qed.

(** ** What validation establishes *)

Definition valid_remote (r : RemoteConfig) : Prop :=
  (Remote_Type r = "ssh" ∧ SSH_Host (SSH r) ≠ "" ∧ (0 ≤ SSH_Port (SSH r) ≤ 65535)%Z) ∨
  (Remote_Type r = "docker" ∧ Docker_Container (Docker r) ≠ "") ∨
  (Remote_Type r = "compose" ∧ Compose_Service (Compose r) ≠ "" ∧ (0 ≤ Compose_Sequence (Compose r))%Z).

Lemma validateRemote_ok r : validateRemote r = Ok tt ↔ valid_remote r.
Proof.
  unfold validateRemote, valid_remote.
  destruct (String.eqb_spec (Remote_Type r) "ssh") as [->|H1]; [|destruct (String.eqb_spec (Remote_Type r) "docker")
    as [->|H2]; [|destruct (String.eqb_spec (Remote_Type r) "compose") as [->|H3]; [|naive_solver]]].
  - destruct (String.eqb_spec (SSH_Host (SSH r)) ""); [naive_solver|].
    destruct (Z.ltb_spec (SSH_Port (SSH r)) 0), (Z.ltb_spec 65535 (SSH_Port (SSH r))); simpl; naive_solver lia.
  - destruct (String.eqb_spec (Docker_Container (Docker r)) ""); naive_solver.
  - destruct (String.eqb_spec (Compose_Service (Compose r)) ""); [naive_solver|].
    destruct (Z.ltb_spec (Compose_Sequence (Compose r)) 0); naive_solver lia.
Qed.

Lemma validateCwdMode_ok k :
  validateCwdMode k = Ok tt ↔
  CwdMode k ∈ [CwdModeInherit; CwdModeLocal; CwdModeRemote] ∨ CwdMode k = CwdModeExplicit ∧ WorkingDir k ≠ "".
Proof.
  unfold validateCwdMode. destruct (one_of (CwdMode k) _) eqn:E; [apply one_of_In in E; naive_solver|].
  assert (CwdMode k ∉ [CwdModeInherit; CwdModeLocal; CwdModeRemote]) by (rewrite <- one_of_In, E; done).
  destruct (String.eqb_spec (CwdMode k) CwdModeExplicit); [|naive_solver].
  destruct (String.eqb_spec (WorkingDir k) ""); naive_solver.
Qed.

Lemma validateUIDGIDMode_ok name v :
  validateUIDGIDMode name v = Ok tt ↔ v ∈ [UIDGIDModeTransparent; UIDGIDModeOverride].
Proof. unfold validateUIDGIDMode. rewrite <- one_of_In. by destruct (one_of v _). Qed.

Section sound.
Context `{Regexp}.

Record valid_config (h : Host) (c : Config) : Prop := {
  v_level : Level (Logging c) ∈ ["trace"; "debug"; "info"; "warn"; "error"];
  v_remote : valid_remote (Remote c);
  v_mounts_some : Mounts (Container c) ≠ [];
  v_mounts : Forall (λ raw, ∃ m, ParseMount (UserHomeDir h) raw = Ok m) (Mounts (Container c));
  v_workdir : WorkingDir (Container c) = "" ∨ IsAbs (WorkingDir (Container c)) = true;
  v_cwd_mode : CwdMode (Container c) ∈ [CwdModeInherit; CwdModeLocal; CwdModeRemote] ∨
               CwdMode (Container c) = CwdModeExplicit ∧ WorkingDir (Container c) ≠ "";
  v_cwd_remap : CwdRemap (Container c) ∈ [CwdRemapLocal; CwdRemapRemote];
  v_commands : Forall (λ p, ∃ r, CompileLocalCommand p = Ok r) (LocalCommands (Container c));
  v_path_proxy : PathProxy (Container c) ∈ ["prepend"; "append"; "disabled"];
  v_uid_mode : Container_UIDMode (Container c) ∈ [UIDGIDModeTransparent; UIDGIDModeOverride];
  v_gid_mode : Container_GIDMode (Container c) ∈ [UIDGIDModeTransparent; UIDGIDModeOverride];
  v_uid_map : Forall (λ e, ∃ x, CompileIDMapEntry e (Some (LookupUID h)) = Ok x) (Container_UIDMap (Container c));
  v_gid_map : Forall (λ e, ∃ x, CompileIDMapEntry e (Some (LookupGroupGID h)) = Ok x) (Container_GIDMap (Container c));
  v_stub_dir : IsAbs (PathStubDir (Container c)) = true;
}.

Lemma unit_bind_ok {E B} (c : result E unit) (k : unit → result E B) b :
  result_bind c k = Ok b ↔ c = Ok tt ∧ k tt = Ok b.
Proof. rewrite result_bind_ok. split; [by intros ([] & ?)|]. intros. by exists tt. Qed.

(** [Validate] accepts exactly the valid configurations, and then logs the
    overlap warnings. *)
Lemma Validate_ok h c w : Validate h c = Ok w ↔ valid_config h c ∧ w = warnMountOverlaps h c.
Proof.
  unfold Validate. rewrite !unit_bind_ok, !require_ok, !for_each_check, !one_of_In, validateRemote_ok,
    validateCwdMode_ok, !validateUIDGIDMode_ok, negb_true_iff, bool_decide_eq_false, orb_true_iff, seqb_true.
  split.
  - intros (? & ? & ? & ? & ? & ? & ? & ? & ? & ? & ? & ? & ? & ? & [= <-]). by split.
  - intros [[] ->]. by repeat split.
Qed.

Lemma remote_id_range name lookup id :
  (∀ f n i, lookup = Some f → f n = Some i → is_u 32 i) → remote_id name lookup = Ok id → is_u 32 id.
Proof.
  intros Hl. unfold remote_id. destruct (ParseUint 32 name) as [x|] eqn:E.
  - intros [= <-]. by apply ParseUint_range in E.
  - destruct lookup as [f|]; [|done]. destruct (f name) as [i|] eqn:Ei; [|done]. intros [= <-]. eauto.
Qed.

Lemma CompileIDMapEntry_range s lookup e :
  (∀ f n i, lookup = Some f → f n = Some i → is_u 32 i) → CompileIDMapEntry s lookup = Ok e →
  is_u 32 (RemoteID e) ∧ is_u 32 (LocalID e) ∧ (1 ≤ Count e < 2 ^ 32)%Z.
Proof.
  intros Hl. unfold CompileIDMapEntry. destruct (String.eqb s ""); [done|].
  assert (∀ name mapped, ∀ r, remote_id name lookup = Ok r → ∀ l, ParseUint 32 mapped = Some l →
            is_u 32 r ∧ is_u 32 l) as Hrl
    by (intros; split; [by eapply remote_id_range|by eapply ParseUint_range]).
  destruct (Split ":" s) as [|name [|mapped [|count [|? ?]]]]; try done;
    intros (r & Hr & He)%result_bind_ok; destruct (ParseUint 32 mapped) as [l|] eqn:El; try done;
    destruct (Hrl _ _ _ Hr _ El) as [? ?].
  - by inversion_clear He.
  - destruct (ParseUint 32 count) as [n|] eqn:En; [|done]. apply ParseUint_range in En as [? ?].
    destruct (Z.eqb_spec n 0); [done|]. inversion_clear He. simpl. split; [done|]. split; [done|]. lia.
Qed.

Lemma Lookup_range h n i : LookupUID h n = Some i ∨ LookupGroupGID h n = Some i → is_u 32 i.
Proof.
  unfold LookupUID, LookupGroupGID. intros [Hl|Hl];
    [destruct (user_Lookup h n)|destruct (user_LookupGroup h n)]; try done; by apply ParseUint_range in Hl.
Qed.

(** The entries of a compiled id map stay in range. *)
Definition idmap_ok (lookup : string → option Z) (entries : list string) : Prop :=
  Forall (λ s, ∃ e, CompileIDMapEntry s (Some lookup) = Ok e ∧
    is_u 32 (RemoteID e) ∧ is_u 32 (LocalID e) ∧ (1 ≤ Count e < 2 ^ 32)%Z) entries.

Lemma idmap_ok_compiled lookup entries :
  (∀ n i, lookup n = Some i → is_u 32 i) →
  Forall (λ s, ∃ e, CompileIDMapEntry s (Some lookup) = Ok e) entries → idmap_ok lookup entries.
Proof.
  intros Hl Hf. unfold idmap_ok. eapply Forall_impl; [exact Hf|]. intros s [e He]. exists e. split; [done|].
  eapply CompileIDMapEntry_range; [|exact He]. intros f n i [= <-]. apply Hl.
Qed.

Lemma Finalize_ok h c c' w :
  Finalize h c = Ok (c', w) ↔ applyDefaults h c = Ok c' ∧ Validate h c' = Ok w.
Proof.
  unfold Finalize. rewrite result_bind_ok. split.
  - intros (c1 & Hd & (w1 & Hv & [= <- <-])%result_bind_ok). done.
  - intros [Hd Hv]. exists c'. split; [done|]. by rewrite Hv.
Qed.

(** The path fields after [applyDefaults]. *)
Lemma applyDefaults_components h c c' :
  host_ok h → applyDefaults h c = Ok c' →
  Forall (λ p, p = "" ∨ IsAbs p = true)
    [ShimPath (Components c'); TracerPath (Components c'); InterposerPath (Components c');
     AgentLocalPath (Components c')].
Proof.
  intros Hh Hd. unfold applyDefaults in Hd.
  apply result_bind_ok in Hd as (? & _ & Hd). apply result_bind_ok in Hd as (? & _ & Hd).
  apply result_bind_ok in Hd as (? & _ & Hd). apply result_bind_ok in Hd as (? & E1 & Hd).
  apply result_bind_ok in Hd as (? & E2 & Hd). apply result_bind_ok in Hd as (? & E3 & Hd).
  apply result_bind_ok in Hd as (? & E4 & Hd). apply result_bind_ok in Hd as (? & _ & [= <-]).
  apply expand_field_idem in E1 as [_ E1], E2 as [_ E2], E3 as [_ E3], E4 as [_ E4]; try done.
  rewrite !Forall_cons. simpl. by auto 10.
Qed.

Lemma applyDefaults_mounts h c c' :
  applyDefaults h c = Ok c' →
  AutoIdentityMounts (Container c') = AutoIdentityMounts (Container c) ∧
  Mounts (Container c') = applyAutoIdentityMounts (AutoIdentityMounts (Container c)) (Mounts (Container c)).
Proof.
  intros Hd. unfold applyDefaults in Hd. do 8 apply result_bind_ok in Hd as (? & _ & Hd).
  by inversion_clear Hd.
Qed.

(** The user's own entries stay at the front of the list. *)
Lemma applyAuto_original (P : string → Prop) auto mounts :
  Forall P (applyAutoIdentityMounts auto mounts) → Forall P mounts.
Proof. destruct auto; [|done]. unfold applyAutoIdentityMounts. simpl. by intros [? _]%Forall_app. Qed.

Lemma ParseMount_abs home raw m :
  (∀ d, home = Some d → IsAbs d = true) → ParseMount home raw = Ok m → IsAbs (ContainerPath m) = true.
Proof.
  intros Hh (l & r & _ & Hl & _ & He & _)%ParseMount_ok. unfold isAbsOrHomeRelative in Hl.
  destruct (IsAbs l) eqn:Ea.
  { rewrite ExpandLocalHome_IsAbs in He by done. by simplify_eq. }
  unfold ExpandLocalHome in He. cbn [orb] in Hl.
  destruct (String.eqb l "~"), (HasPrefix l "~/"); try done; cbn [negb andb] in He;
    (destruct home as [d|]; [|done]); (destruct (String.eqb d ""); [done|]);
    injection He as Hq; rewrite <- Hq; eauto using PathJoin_IsAbs.
Qed.

Lemma expand_stub_dir h v d q :
  host_ok h → expand_field h "container.path_stub_dir" (or_default v d) false = Ok q → q ≠ "" →
  expand_field h "container.path_stub_dir" (or_default q d) false = Ok q.
Proof.
  intros Hh Hq Hne. unfold or_default at 1. apply seqb_false in Hne as ->.
  eapply expand_field_idem; eauto.
Qed.

Lemma applyDefaults_fixpoint h c c' :
  host_ok h → applyDefaults h c = Ok c' → PathStubDir (Container c') ≠ "" →
  applyAutoIdentityMounts (AutoIdentityMounts (Container c')) (Mounts (Container c')) = Mounts (Container c') →
  applyDefaults h c' = Ok c'.
Proof.
  intros Hh Hd. unfold applyDefaults in Hd.
  apply result_bind_ok in Hd as (f1 & E1 & Hd). apply result_bind_ok in Hd as (f2 & E2 & Hd).
  apply result_bind_ok in Hd as (f3 & E3 & Hd). apply result_bind_ok in Hd as (f4 & E4 & Hd).
  apply result_bind_ok in Hd as (f5 & E5 & Hd). apply result_bind_ok in Hd as (f6 & E6 & Hd).
  apply result_bind_ok in Hd as (f7 & E7 & Hd). apply result_bind_ok in Hd as (f8 & E8 & [= <-]).
  intros Hstub Hm. cbn [Container PathStubDir Mounts AutoIdentityMounts] in Hstub, Hm.
  apply expand_stub_dir in E2; [|done..].
  apply expand_field_idem in E1 as [E1 _], E3 as [E3 _], E4 as [E4 _], E5 as [E5 _], E6 as [E6 _],
    E7 as [E7 _], E8 as [E8 _]; try done.
  unfold applyDefaults.
  cbn [Container Logging Components Remote Agent File RecordingFile Level PathStubDir WorkingDir
       ShimPath TracerPath InterposerPath AgentLocalPath AgentRemotePath LocalCommands Mounts
       AutoIdentityMounts CwdMode CwdRemap EnvRemove PathProxy ForceResolveInitialCommandLocally
       Container_UIDMode Container_GIDMode Container_UIDMap Container_GIDMap Agent_EnvKeep Agent_EnvRemove
       set_RemoteType Remote_Type SSH Docker Compose OS Arch Bind BindInterface default].
  rewrite E1, E2, E3, E4, E5, E6, E7, E8. cbn [result_bind].
  by rewrite !or_default_idem, !or_default_list_idem, Hm.
Qed.

(** C37: on a machine whose HOME and working directory are absolute
    ([host_ok]), a configuration that [Finalize] accepts is one the rest of the
    program can rely on: every enumerated field has one of its values, the
    remote section names its target with a port or replica number in range,
    there is at least one mount, every mount parses to an absolute path inside
    the container, the component binaries are unset or pinned to absolute
    paths, the local commands and the uid and gid maps compile, with every
    mapped id in 32 bits and every range non-empty, and the stub directory is
    absolute. *)
Theorem finalize_sound h c c' w :
  host_ok h → Finalize h c = Ok (c', w) →
  valid_config h c' ∧ w = warnMountOverlaps h c' ∧
  Forall (λ raw, ∃ m, ParseMount (UserHomeDir h) raw = Ok m ∧ IsAbs (ContainerPath m) = true)
    (Mounts (Container c')) ∧
  Forall (λ p, p = "" ∨ IsAbs p = true)
    [ShimPath (Components c'); TracerPath (Components c'); InterposerPath (Components c');
     AgentLocalPath (Components c')] ∧
  idmap_ok (LookupUID h) (Container_UIDMap (Container c')) ∧
  idmap_ok (LookupGroupGID h) (Container_GIDMap (Container c')).
Proof.
  intros Hh [Hd Hv]%Finalize_ok. apply Validate_ok in Hv as [Hv ->]. split; [done|]. split; [done|].
  split; [|split; [by eapply applyDefaults_components|split]].
  - eapply Forall_impl; [apply (v_mounts _ _ Hv)|]. intros raw [m Hm]. exists m. split; [done|].
    apply (ParseMount_abs (UserHomeDir h) raw); [apply Hh|done].
  - apply idmap_ok_compiled; [|apply (v_uid_map _ _ Hv)]. intros n i ?. apply (Lookup_range h n). by left.
  - apply idmap_ok_compiled; [|apply (v_gid_map _ _ Hv)]. intros n i ?. apply (Lookup_range h n). by right.
Qed.

(** Finalizing is idempotent: a configuration that was loaded and
    finalized can be finalized again (after command-line overrides that
    change nothing, say) without any field, mount or warning changing.  The
    remote halves of the mounts have to be free of colons when identity
    mounts are requested: see [Demo.colon_remote_grows]. *)
Theorem finalize_idempotent h c c' w :
  host_ok h →
  (AutoIdentityMounts (Container c) = true → colon_free (Mounts (Container c))) →
  Finalize h c = Ok (c', w) → Finalize h c' = Ok (c', w).
Proof.
  intros Hh Hcf Hf. apply Finalize_ok in Hf as [Hd Hv]. apply Finalize_ok. split; [|done].
  apply Validate_ok in Hv as [Hv _].
  assert (AutoIdentityMounts (Container c') = AutoIdentityMounts (Container c) ∧
    Mounts (Container c') = applyAutoIdentityMounts (AutoIdentityMounts (Container c)) (Mounts (Container c)))
    as [Ha Hm] by (by apply (applyDefaults_mounts h)).
  apply applyDefaults_fixpoint with c; [done..| |].
  - intros Hs. pose proof (v_stub_dir _ _ Hv) as Hsd. by rewrite Hs in Hsd.
  - rewrite Ha, Hm. apply (applyAutoIdentityMounts_idem (UserHomeDir h)); [done|].
    pose proof (v_mounts _ _ Hv) as Hms. rewrite Hm in Hms. by apply applyAuto_original in Hms.
Qed.

End sound.

(** ** Examples *)

Module Demo.

Definition host : Host :=
  mkHost (Some "/home/u") (Some "/home/u/src") "" "" "~/.cache/machineproxy/mproxy-agent"
    (λ n, if String.eqb n "root" then Some "0" else None) (λ _, None).

Definition cfg (auto : bool) (mounts : list string) : Config :=
  mkConfig (mkLogging "" "~/mp.log" "")
    (mkRemote "" (mkSSH "dev" "" 0) (mkDocker "" "") (mkCompose "" "" 0 "") "" "" "" "")
    (mkContainer ["git"; "/usr/bin/ls"] mounts auto "" "" "" [] "" "" None "" "" ["root:1000"; "5:7:3"] [])
    (mkAgent [] []) (mkComponents "bin/shim" "" "" "" "").

Definition done_cfg : Config :=
  mkConfig (mkLogging "info" "/home/u/mp.log" "")
    (mkRemote "ssh" (mkSSH "dev" "" 0) (mkDocker "" "") (mkCompose "" "" 0 "") "" "" "" "")
    (mkContainer ["git"; "/usr/bin/ls"] ["~/p:/srv/p"; "/srv/p:/srv/p"] true "" "inherit" "local" ["MPROXY_*"]
       "append" "/home/u/.cache/machineproxy/pathstub" (Some true) "override" "override"
       ["root:1000"; "5:7:3"] [])
    (mkAgent defaultEnvKeep defaultAgentEnvRemove)
    (mkComponents "/home/u/src/bin/shim" "" "" "" "~/.cache/machineproxy/mproxy-agent").

Lemma host_fine : host_ok host.
Proof. split; intros ? [= <-]; reflexivity. Qed.

Example finalize_runs : @Finalize literal_engine host (cfg true ["~/p:/srv/p"]) = Ok (done_cfg, []).
Proof. vm_compute. reflexivity. Qed.

(** A mount above the agent binary and the stub directory is accepted with
    both warnings; no mount at all is an error. *)
Example overlaps_warn :
  match @Finalize literal_engine host (cfg false ["~"]) with
  | Ok (_, w) => w = [WarnAgentCovered "~"; WarnStubCovered "~"]
  | Err _ => False
  end.
Proof. vm_compute. reflexivity. Qed.

Example no_mounts : @Finalize literal_engine host (cfg false []) = Err (ErrRequired "container.mounts").
Proof. vm_compute. reflexivity. Qed.

Example id_entries :
  CompileIDMapEntry "root:1000" (Some (LookupUID host)) = Ok (mkIDMap 0 1000 1) ∧
  CompileIDMapEntry "5:7:3" None = Ok (mkIDMap 5 7 3) ∧
  CompileIDMapEntry "root:1" None = Err (ErrIDNoLookup "root") ∧
  CompileIDMapEntry "5:7:0" None = Err ErrIDCountZero ∧
  CompileIDMapEntry "4294967296:1" (Some (LookupUID host)) = Err (ErrIDResolve "4294967296") ∧
  CompileIDMapEntry "1:2:3:4" None = Err (ErrIDFields 4).
Proof. repeat split. Qed.

Example formats :
  formatFromExt "/etc/machineproxy/machineproxy.TOML" = Some FormatTOML ∧
  formatFromExt "conf.d/x" = None ∧ formatFromExt "a.json" = Some FormatYAML ∧
  detectFormat ("# c" +:+ String "010" "[remote]") = FormatTOML ∧
  detectFormat "remote: {}" = FormatYAML.
Proof. repeat split. Qed.

Lemma finalize_sound_witness :
  valid_config (H := literal_engine) host done_cfg ∧ [] = warnMountOverlaps host done_cfg ∧
  Forall (λ raw, ∃ m, ParseMount (UserHomeDir host) raw = Ok m ∧ IsAbs (ContainerPath m) = true)
    (Mounts (Container done_cfg)) ∧
  Forall (λ p, p = "" ∨ IsAbs p = true)
    [ShimPath (Components done_cfg); TracerPath (Components done_cfg); InterposerPath (Components done_cfg);
     AgentLocalPath (Components done_cfg)] ∧
  idmap_ok (LookupUID host) (Container_UIDMap (Container done_cfg)) ∧
  idmap_ok (LookupGroupGID host) (Container_GIDMap (Container done_cfg)).
Proof.
  apply (finalize_sound (H := literal_engine) host (cfg true ["~/p:/srv/p"]) done_cfg []).
  - apply host_fine.
  - vm_compute. reflexivity.
Defined.

Lemma finalize_idempotent_witness :
  @Finalize literal_engine host (cfg true ["~/p:/srv/p"]) = Ok (done_cfg, []) ∧
  @Finalize literal_engine host done_cfg = Ok (done_cfg, []).
Proof.
  split; [vm_compute; reflexivity|].
  apply (finalize_idempotent (H := literal_engine) host (cfg true ["~/p:/srv/p"]) done_cfg []).
  - apply host_fine.
  - intros _ raw l r Hin Hs. simpl in Hin. rewrite list_elem_of_singleton in Hin. subst raw.
    vm_compute in Hs. injection Hs as <- <-. reflexivity.
  - vm_compute. reflexivity.
Defined.

(** A remote half with a colon is accepted, and its identity entry is read
    back as a different mount: "/l:/r:/y" asks for "/r:/y" at "/l", and the
    entry added for it mounts "/y:/r:/y" at "/r".  A second pass adds two
    more entries. *)
Lemma colon_remote_grows :
  ParseMount None "/l:/r:/y" = Ok (mkMount "/r:/y" "/l") ∧
  applyAutoIdentityMounts true ["/l:/r:/y"] = ["/l:/r:/y"; "/r:/y:/r:/y"] ∧
  ParseMount None "/r:/y:/r:/y" = Ok (mkMount "/y:/r:/y" "/r") ∧
  List.length (applyAutoIdentityMounts true (applyAutoIdentityMounts true ["/l:/r:/y"])) = 4%nat.
Proof. split_and!; vm_compute; reflexivity. Qed.

(** A home-relative remote half: its identity entry is mounted below the
    local user's home, not at the remote path. *)
Lemma home_relative_identity :
  applyAutoIdentityMounts true ["/w:~/app"] = ["/w:~/app"; "~/app:~/app"] ∧
  ParseMount (UserHomeDir host) "~/app:~/app" = Ok (mkMount "~/app" "/home/u/app") ∧
  ExpandRemoteHome "~/app" "/root" = Ok "/root/app".
Proof. split_and!; vm_compute; reflexivity. Qed.

End Demo.
