(* ===== verification/Destination.v ===== *)
(** * Destination: the target named on the command line

    Models [pkg/remote/destination.go]: the ssh, docker and compose forms of a
    destination, with every error branch.  [FormatDestination] is a printer
    the theorems use as a specification: whatever the parser accepts has a
    canonical spelling that parses to the same destination. *)

From S2P Require Import Prelude GoStrings.
Local Open Scope go_scope.

(** ** Data *)

Definition TypeSSH : string := "ssh".
Definition TypeDocker : string := "docker".
Definition TypeCompose : string := "compose".

Record Destination := mkDestination {
  dst_Type : string;
  dst_User : string;
  dst_Host : string;
  dst_Port : Z;
  dst_Service : string;
  dst_Sequence : Z;
  dst_Raw : string;
}.

Inductive dest_error : Type :=
  | ErrDestinationEmpty
  | ErrUnknownScheme (scheme : string)
  | ErrUnknownBackend (t : string)
  | ErrDockerEmpty
  | ErrDockerChar (rest : string)
  | ErrSSHNoHost
  | ErrUnclosedBracket
  | ErrTrailing (tail : string)
  | ErrPortEmpty
  | ErrPortSyntax (p : string)
  | ErrPortRange (port : Z)
  | ErrComposeForm
  | ErrProjectEmpty
  | ErrProjectChar
  | ErrSequence (seq : string)
  | ErrServiceEmpty
  | ErrServiceChar.

(** Assignments to fields of [*dst]. *)
Definition set_User (u : string) (d : Destination) : Destination :=
  mkDestination (dst_Type d) u (dst_Host d) (dst_Port d) (dst_Service d) (dst_Sequence d) (dst_Raw d).
Definition set_Host (h : string) (d : Destination) : Destination :=
  mkDestination (dst_Type d) (dst_User d) h (dst_Port d) (dst_Service d) (dst_Sequence d) (dst_Raw d).
Definition set_Port (p : Z) (d : Destination) : Destination :=
  mkDestination (dst_Type d) (dst_User d) (dst_Host d) p (dst_Service d) (dst_Sequence d) (dst_Raw d).
Definition set_Service (s : string) (d : Destination) : Destination :=
  mkDestination (dst_Type d) (dst_User d) (dst_Host d) (dst_Port d) s (dst_Sequence d) (dst_Raw d).
Definition set_Sequence (n : Z) (d : Destination) : Destination :=
  mkDestination (dst_Type d) (dst_User d) (dst_Host d) (dst_Port d) (dst_Service d) n (dst_Raw d).
Definition set_Raw (r : string) (d : Destination) : Destination :=
  mkDestination (dst_Type d) (dst_User d) (dst_Host d) (dst_Port d) (dst_Service d) (dst_Sequence d) r.

(** ** The parsers *)

Definition parsePort (p : string) (dst : Destination) : result dest_error Destination :=
  if String.eqb p "" then Err ErrPortEmpty
  else match Atoi p with
       | None => Err (ErrPortSyntax p)
       | Some port =>
           if (port <? 1)%Z || (65535 <? port)%Z then Err (ErrPortRange port)
           else Ok (set_Port port dst)
       end.

(** The part of [parseSSHTarget] after the user has been split off. *)
Definition parseHostPort (s : string) (dst : Destination) : result dest_error Destination :=
  if HasPrefix s "[" then
    match CutByte "]" s with
    | None => Err ErrUnclosedBracket
    | Some (upto, tail) =>
        let dst := set_Host (sdrop 1 upto) dst in
        if String.eqb tail "" then Ok dst
        else if negb (HasPrefix tail ":") then Err (ErrTrailing tail)
        else parsePort (sdrop 1 tail) dst
    end
  else if (2 <=? CountByte ":" s)%nat then Ok (set_Host s dst)
  else match CutLastByte ":" s with
       | Some (h, p) => parsePort p (set_Host h dst)
       | None => if String.eqb s "" then Err ErrSSHNoHost else Ok (set_Host s dst)
       end.

Definition parseSSHTarget (s : string) (dst : Destination) : result dest_error Destination :=
  if String.eqb s "" then Err ErrSSHNoHost
  else match CutLastByte "@" s with
       | Some (u, rest) => parseHostPort rest (set_User u dst)
       | None => parseHostPort s dst
       end.

(** The optional replica number after the second slash; 0 when absent. *)
Definition parseSequence (rest : string) : result dest_error (string * Z) :=
  match CutByte slash rest with
  | None => Ok (rest, 0%Z)
  | Some (service, seq) =>
      match Atoi seq with
      | None => Err (ErrSequence seq)
      | Some n => if (n <? 1)%Z then Err (ErrSequence seq) else Ok (service, n)
      end
  end.

Definition parseComposeTarget (s : string) (dst : Destination) : result dest_error Destination :=
  if String.eqb s "" then Err ErrComposeForm
  else match CutByte slash s with
  | None => Err ErrComposeForm
  | Some (project, rest) =>
      if String.eqb project "" then Err ErrProjectEmpty
      else if contains_byte "@" project || contains_byte ":" project then Err ErrProjectChar
      else
        sq ←? parseSequence rest;
        let '(service, n) := sq in
        if String.eqb service "" then Err ErrServiceEmpty
        else if contains_byte "@" service || contains_byte ":" service || contains_byte slash service
        then Err ErrServiceChar
        else Ok (set_Service service (set_Host project (set_Sequence n dst)))
  end.

(** The scheme switch: the backend type and the text after the scheme. *)
Definition splitScheme (s defaultType : string) : result dest_error (string * string) :=
  match CutStr "://" s with
  | None => Ok (defaultType, s)
  | Some (scheme, rest) =>
      if String.eqb scheme TypeSSH || String.eqb scheme TypeDocker || String.eqb scheme TypeCompose
      then Ok (scheme, rest)
      else Err (ErrUnknownScheme scheme)
  end.

Definition ParseDestination (s defaultType : string) : result dest_error Destination :=
  if String.eqb s "" then Err ErrDestinationEmpty
  else
    tr ←? splitScheme s defaultType;
    let '(t, rest) := tr in
    let t := if String.eqb t "" then TypeSSH else t in
    let dst := mkDestination t "" "" 0 "" 0 s in
    if String.eqb t TypeSSH then parseSSHTarget rest dst
    else if String.eqb t TypeDocker then
      if String.eqb rest "" then Err ErrDockerEmpty
      else if contains_byte "/" rest || contains_byte "@" rest then Err (ErrDockerChar rest)
      else Ok (set_Host rest dst)
    else if String.eqb t TypeCompose then parseComposeTarget rest dst
    else Err (ErrUnknownBackend t).

(** ** Specification: the canonical spelling *)

(** The host has to be bracketed where its bare spelling would be read as
    something else. *)
Definition needs_bracket (h : string) (port : Z) : bool :=
  String.eqb h "" || HasPrefix h "["
  || contains_byte ":" h && (negb (port =? 0)%Z || (CountByte ":" h <? 2)%nat).

Definition format_hostport (h : string) (port : Z) : string :=
  (if needs_bracket h port then "[" +:+ (h +:+ "]") else h)
  +:+ (if (port =? 0)%Z then "" else ":" +:+ Itoa port).

Definition format_target (d : Destination) : string :=
  if String.eqb (dst_Type d) TypeSSH then
    (if String.eqb (dst_User d) "" then "" else dst_User d +:+ "@")
    +:+ format_hostport (dst_Host d) (dst_Port d)
  else if String.eqb (dst_Type d) TypeDocker then dst_Host d
  else dst_Host d +:+ ("/" +:+ (dst_Service d
         +:+ (if (dst_Sequence d =? 0)%Z then "" else "/" +:+ Itoa (dst_Sequence d)))).

Definition FormatDestination (d : Destination) : string :=
  dst_Type d +:+ ("://" +:+ format_target d).

(** What every parsed destination satisfies; the host of an ssh destination may be empty. *)
Definition host_ok (h : string) (port : Z) : Prop :=
  contains_byte "@" h = false ∧ (needs_bracket h port = true → contains_byte "]" h = false).

Inductive spellable (d : Destination) : Prop :=
  | valid_ssh :
      dst_Type d = TypeSSH → (0 ≤ dst_Port d ≤ 65535)%Z → host_ok (dst_Host d) (dst_Port d) →
      dst_Service d = "" → dst_Sequence d = 0%Z → spellable d
  | valid_docker :
      dst_Type d = TypeDocker → dst_Host d ≠ "" → contains_byte "/" (dst_Host d) = false →
      contains_byte "@" (dst_Host d) = false → dst_User d = "" → dst_Port d = 0%Z →
      dst_Service d = "" → dst_Sequence d = 0%Z → spellable d
  | valid_compose :
      dst_Type d = TypeCompose → dst_Host d ≠ "" → dst_Service d ≠ "" →
      Forall (λ c, contains_byte c (dst_Host d) = false ∧ contains_byte c (dst_Service d) = false)
        ["/"; "@"; ":"]%char →
      (0 ≤ dst_Sequence d < 2 ^ 63)%Z → dst_User d = "" → dst_Port d = 0%Z → spellable d.

(** A destination as the comment promises it: with a host. *)
Definition valid_destination (d : Destination) : Prop := spellable d ∧ dst_Host d ≠ "".

(** The host and port of an ssh target that name no host. *)
Definition hostless (hp : string) : Prop := hp = "[]" ∨ ∃ p, hp = ":" +:+ p ∨ hp = "[]:" +:+ p.

(** ** Inversion of the parsers *)

Lemma parsePort_Ok p d d' :
  parsePort p d = Ok d' → ∃ port, (1 ≤ port ≤ 65535)%Z ∧ d' = set_Port port d.
Proof.
  unfold parsePort. destruct (String.eqb p ""); [done|]. destruct (Atoi p) as [port|]; [|done].
  destruct (Z.ltb_spec port 1), (Z.ltb_spec 65535 port); simpl; intros; simplify_eq.
  exists port. split; [lia|done].
Qed.

Lemma parsePort_Itoa port d : (1 ≤ port ≤ 65535)%Z → parsePort (Itoa port) d = Ok (set_Port port d).
Proof.
  intros Hp. unfold parsePort. rewrite Atoi_Itoa by lia.
  destruct (String.eqb (Itoa port) "") eqn:E.
  { apply seqb_true in E. by apply Itoa_not_empty in E. }
  destruct (Z.ltb_spec port 1); [lia|]. destruct (Z.ltb_spec 65535 port); [lia|]. done.
Qed.

Lemma contains_byte_sdrop c n s : contains_byte c s = false → contains_byte c (sdrop n s) = false.
Proof.
  intros H. rewrite <- (stake_sdrop n s), contains_byte_app in H. apply orb_false_elim in H as [_ H]. done.
Qed.

(** A host read without brackets never needs them. *)
Lemma bare_host_ok h port :
  contains_byte "@" h = false → HasPrefix h "[" = false → contains_byte ":" h = false → host_ok h port.
Proof.
  intros Hat Hb Hc. split; [done|]. unfold needs_bracket. rewrite Hb, Hc, !orb_false_r.
  intros ->%seqb_true. done.
Qed.

Lemma HasPrefix_byte_app c a b :
  HasPrefix (a +:+ b) (String c "") = false → HasPrefix a (String c "") = false.
Proof. destruct a as [|d a]; [done|]. rewrite sapp_cons. simpl. done. Qed.

Lemma parseHostPort_Ok s d d' :
  dst_Port d = 0%Z → contains_byte "@" s = false → parseHostPort s d = Ok d' →
  ∃ h port, d' = set_Port port (set_Host h d) ∧ (0 ≤ port ≤ 65535)%Z ∧ host_ok h port.
Proof.
  intros Hp Hat. unfold parseHostPort. destruct (HasPrefix s "[") eqn:Hb.
  - destruct (CutByte "]" s) as [[upto tail]|] eqn:E; [|done]. apply CutByte_Some in E as [-> E].
    assert (host_ok (sdrop 1 upto) 0 ∧ ∀ port, host_ok (sdrop 1 upto) port) as [? Hok].
    { rewrite contains_byte_app in Hat. apply orb_false_elim in Hat as [Hat _].
      assert (∀ port, host_ok (sdrop 1 upto) port); [|auto].
      intros port. split; [by apply contains_byte_sdrop|intros _; by apply contains_byte_sdrop]. }
    destruct (String.eqb tail ""); [|destruct (HasPrefix tail ":"); [|done]]; intros Hr.
    + inversion_clear Hr. exists (sdrop 1 upto), 0%Z. split; [|auto with lia].
      destruct d. unfold set_Port, set_Host. simpl in *. by subst.
    + apply parsePort_Ok in Hr as (port & ? & ->). exists (sdrop 1 upto), port. auto with lia.
  - destruct (2 <=? CountByte ":" s)%nat eqn:Hc.
    + intros Hr. inversion_clear Hr. exists s, 0%Z. repeat split; [|lia..|done|].
      * destruct d. unfold set_Port, set_Host. simpl in *. by subst.
      * apply Nat.leb_le in Hc. unfold needs_bracket. rewrite Hb. simpl.
        destruct (Nat.ltb_spec (CountByte ":" s) 2); [lia|].
        rewrite andb_false_r, !orb_false_r. intros ->%seqb_true. done.
    + apply Nat.leb_gt in Hc. destruct (CutLastByte ":" s) as [[h p]|] eqn:E.
      * apply CutLastByte_Some in E as [-> E]. intros (port & ? & ->)%parsePort_Ok.
        exists h, port. split; [done|]. split; [lia|].
        rewrite contains_byte_app in Hat. apply orb_false_elim in Hat as [Hat _].
        apply HasPrefix_byte_app in Hb. apply bare_host_ok; [done..|].
        apply CountByte_zero. rewrite CountByte_app in Hc. simpl in Hc. lia.
      * apply CutLastByte_None in E. destruct (String.eqb s ""); [done|]. intros Hr. inversion_clear Hr.
        exists s, 0%Z. split; [|split; [lia|]].
        -- destruct d. unfold set_Port, set_Host. simpl in *. by subst.
        -- by apply bare_host_ok.
Qed.

Lemma parseSSHTarget_Ok s d d' :
  dst_Port d = 0%Z → dst_User d = "" → parseSSHTarget s d = Ok d' →
  ∃ u h port, d' = set_Port port (set_Host h (set_User u d)) ∧ (0 ≤ port ≤ 65535)%Z ∧ host_ok h port.
Proof.
  intros Hp Hu. unfold parseSSHTarget. destruct (String.eqb s ""); [done|].
  destruct (CutLastByte "@" s) as [[u rest]|] eqn:E.
  - apply CutLastByte_Some in E as [-> E]. intros H.
    apply parseHostPort_Ok in H as (h & port & -> & ?); [|done..]. by exists u, h, port.
  - apply CutLastByte_None in E. intros H.
    apply parseHostPort_Ok in H as (h & port & -> & ?); [|done..]. exists "", h, port.
    split; [|done]. by destruct d; simpl in *; subst.
Qed.

Lemma parseSequence_Ok rest service n :
  parseSequence rest = Ok (service, n) → (0 ≤ n < 2 ^ 63)%Z ∧ contains_byte "/" service = false.
Proof.
  unfold parseSequence. destruct (CutByte slash rest) as [[sv seq]|] eqn:E.
  - apply CutByte_Some in E as [-> E]. destruct (Atoi seq) as [m|] eqn:Ea; [|done].
    destruct (Z.ltb_spec m 1); intros; simplify_eq. split; [|done].
    apply Atoi_range in Ea. lia.
  - apply CutByte_None in E. intros. simplify_eq. split; [lia|done].
Qed.

Lemma parseComposeTarget_Ok s d d' :
  parseComposeTarget s d = Ok d' →
  ∃ project service n, d' = set_Service service (set_Host project (set_Sequence n d)) ∧
    project ≠ "" ∧ service ≠ "" ∧ (0 ≤ n < 2 ^ 63)%Z ∧
    Forall (λ c, contains_byte c project = false ∧ contains_byte c service = false) ["/"; "@"; ":"]%char.
Proof.
  unfold parseComposeTarget. destruct (String.eqb s ""); [done|].
  destruct (CutByte slash s) as [[project rest]|] eqn:E; [|done]. apply CutByte_Some in E as [-> E].
  destruct (String.eqb project "") eqn:Ep; [done|].
  destruct (contains_byte "@" project || contains_byte ":" project) eqn:Ec; [done|]. bool_solve.
  intros ([service n] & Hs & Hf)%result_bind_ok. apply parseSequence_Ok in Hs as [? ?].
  destruct (String.eqb service "") eqn:Es; [done|].
  destruct (_ || contains_byte slash service) eqn:Ed; [done|]. bool_solve. simplify_eq.
  exists project, service, n. apply seqb_false in Ep. apply seqb_false in Es.
  repeat (split; [done|]). by repeat constructor.
Qed.

(** ** The printer is a right inverse of the parsers *)

Lemma sapp_byte c s : String c "" +:+ s = String c s.
Proof. done. Qed.

Lemma CutByte_skip c d s a b : c ≠ d → CutByte c s = Some (a, b) → CutByte c (String d s) = Some (String d a, b).
Proof. intros Hne H. simpl. apply not_eq_sym, Ascii.eqb_neq in Hne as ->. by rewrite H. Qed.

Lemma format_hostport_no_at h port :
  (0 ≤ port)%Z → contains_byte "@" h = false → contains_byte "@" (format_hostport h port) = false.
Proof.
  intros Hp Hh. unfold format_hostport. rewrite contains_byte_app. apply orb_false_intro.
  - destruct (needs_bracket h port); [|done]. by rewrite !contains_byte_app, Hh.
  - destruct (port =? 0)%Z; [done|]. rewrite contains_byte_app, Itoa_no; done.
Qed.

Lemma parse_bracketed h port d :
  contains_byte "]" h = false → (0 ≤ port ≤ 65535)%Z → dst_Port d = 0%Z →
  parseHostPort ("[" +:+ (h +:+ "]") +:+ (if (port =? 0)%Z then "" else ":" +:+ Itoa port)) d =
  Ok (set_Port port (set_Host h d)).
Proof.
  intros Hh Hp Hd. rewrite <- !sapp_assoc, !sapp_byte. unfold parseHostPort.
  rewrite (CutByte_skip _ _ _ h (if (port =? 0)%Z then "" else ":" +:+ Itoa port)); [|done|by apply CutByte_app].
  cbn [HasPrefix Ascii.eqb Bool.eqb andb]. cbn [sdrop].
  destruct (Z.eqb_spec port 0) as [->|Hne].
  - simpl. unfold set_Port, set_Host. destruct d. simpl in *. by subst.
  - rewrite sapp_byte. cbn [String.eqb HasPrefix Ascii.eqb Bool.eqb andb negb sdrop].
    rewrite parsePort_Itoa by lia. done.
Qed.

Lemma needs_bracket_false h port :
  needs_bracket h port = false →
  h ≠ "" ∧ HasPrefix h "[" = false ∧
  (contains_byte ":" h = false ∨ port = 0%Z ∧ (2 ≤ CountByte ":" h)%nat).
Proof.
  unfold needs_bracket. intros H. apply orb_false_elim in H as [H Hc].
  apply orb_false_elim in H as [Hh Hb]. apply seqb_false in Hh. split; [done|]. split; [done|].
  apply andb_false_iff in Hc as [?|Hc]; [by left|]. right.
  apply orb_false_elim in Hc as [H0 H2]. apply negb_false_iff, Z.eqb_eq in H0.
  apply Nat.ltb_ge in H2. done.
Qed.

Lemma parse_format_hostport h port d :
  host_ok h port → (0 ≤ port ≤ 65535)%Z → dst_Port d = 0%Z →
  parseHostPort (format_hostport h port) d = Ok (set_Port port (set_Host h d)).
Proof.
  intros [_ Hb] Hp Hd. unfold format_hostport. destruct (needs_bracket h port) eqn:E.
  { by apply parse_bracketed; [apply Hb| |]. }
  apply needs_bracket_false in E as (Hne & Hpre & Hc). unfold parseHostPort.
  destruct (Z.eqb_spec port 0) as [->|Hp0].
  - rewrite sapp_nil_r, Hpre.
    assert (set_Host h d = set_Port 0 (set_Host h d)) as Heq.
    { unfold set_Port, set_Host. destruct d. simpl in *. by subst. }
    apply seqb_false in Hne. destruct Hc as [Hc|[_ Hc]].
    + pose proof Hc as Hc'. apply CountByte_zero in Hc as ->. apply CutLastByte_None in Hc' as ->.
      simpl. rewrite Hne. by rewrite <- Heq.
    + apply Nat.leb_le in Hc as ->. by rewrite <- Heq.
  - destruct Hc as [Hc|[? _]]; [|done].
    assert (HasPrefix (h +:+ ":" +:+ Itoa port) "[" = false) as ->.
    { destruct h; [done|]. rewrite sapp_cons. by simpl in *. }
    assert (CountByte ":" (h +:+ ":" +:+ Itoa port) = 1%nat) as ->.
    { rewrite !CountByte_app. apply CountByte_zero in Hc as ->.
      assert (contains_byte ":" (Itoa port) = false) as Hi by (apply Itoa_no; [lia|done]).
      by apply CountByte_zero in Hi as ->. }
    assert (CutLastByte ":" (h +:+ ":" +:+ Itoa port) = Some (h, Itoa port)) as ->.
    { apply CutLastByte_Some. split; [done|]. apply Itoa_no; [lia|done]. }
    simpl. by rewrite parsePort_Itoa by lia.
Qed.

Lemma format_hostport_not_empty h port : format_hostport h port ≠ "".
Proof.
  unfold format_hostport. destruct (needs_bracket h port) eqn:E; [done|].
  apply needs_bracket_false in E as [? _]. by destruct h.
Qed.

Lemma parse_format_ssh u h port d :
  host_ok h port → (0 ≤ port ≤ 65535)%Z → dst_Port d = 0%Z → dst_User d = "" →
  parseSSHTarget ((if String.eqb u "" then "" else u +:+ "@") +:+ format_hostport h port) d =
  Ok (set_Port port (set_Host h (set_User u d))).
Proof.
  intros Hok Hp Hd Hu. unfold parseSSHTarget.
  assert (contains_byte "@" (format_hostport h port) = false) as Hat.
  { apply format_hostport_no_at; [lia|apply Hok]. }
  destruct (String.eqb u "") eqn:Eu.
  - apply seqb_true in Eu as ->. rewrite sapp_nil_l. apply CutLastByte_None in Hat as ->.
    destruct (String.eqb (format_hostport h port) "") eqn:Ef.
    { apply seqb_true in Ef. by apply format_hostport_not_empty in Ef. }
    rewrite parse_format_hostport by done.
    unfold set_Port, set_Host, set_User. destruct d. simpl in *. by subst.
  - rewrite <- sapp_assoc, sapp_byte.
    assert (CutLastByte "@" (u +:+ String "@" (format_hostport h port)) = Some (u, format_hostport h port)) as ->
      by by apply CutLastByte_Some.
    assert (String.eqb (u +:+ String "@" (format_hostport h port)) "" = false) as ->
      by (apply seqb_false; by destruct u).
    by rewrite parse_format_hostport.
Qed.

Lemma parse_format_compose project service n d :
  project ≠ "" → service ≠ "" → (0 ≤ n < 2 ^ 63)%Z →
  Forall (λ c, contains_byte c project = false ∧ contains_byte c service = false) ["/"; "@"; ":"]%char →
  parseComposeTarget (project +:+ "/" +:+ (service +:+ (if (n =? 0)%Z then "" else "/" +:+ Itoa n))) d =
  Ok (set_Service service (set_Host project (set_Sequence n d))).
Proof.
  intros Hp Hs Hn Hc. rewrite !Forall_cons in Hc. destruct Hc as ([Hp1 Hs1] & [Hp2 Hs2] & [Hp3 Hs3] & _).
  unfold parseComposeTarget. rewrite sapp_byte.
  assert (∀ x, String.eqb (project +:+ String "/" x) "" = false) as ->
    by (intros; apply seqb_false; by destruct project).
  rewrite CutByte_app by done. apply seqb_false in Hp as ->. rewrite Hp2, Hp3. simpl orb.
  assert (parseSequence (service +:+ (if (n =? 0)%Z then "" else "/" +:+ Itoa n)) = Ok (service, n)) as ->.
  { unfold parseSequence. destruct (Z.eqb_spec n 0) as [->|Hn0].
    - rewrite sapp_nil_r. apply CutByte_None in Hs1. unfold slash. by rewrite Hs1.
    - rewrite sapp_byte, CutByte_app by done. rewrite Atoi_Itoa by done.
      destruct (Z.ltb_spec n 1); [lia|done]. }
  cbn [result_bind]. apply seqb_false in Hs as ->. unfold slash. by rewrite Hs1, Hs2, Hs3.
Qed.

(** ** Theorems *)

Lemma ParseDestination_Ok s dt d : ParseDestination s dt = Ok d → spellable d ∧ dst_Raw d = s.
Proof.
  unfold ParseDestination. destruct (String.eqb s ""); [done|].
  intros ([t rest] & _ & Hf)%result_bind_ok. revert Hf.
  generalize (if String.eqb t "" then TypeSSH else t). clear t. intros t Hf.
  destruct (String.eqb t TypeSSH) eqn:E1; [|destruct (String.eqb t TypeDocker) eqn:E2;
    [|destruct (String.eqb t TypeCompose) eqn:E3; [|done]]].
  - apply seqb_true in E1 as ->. apply parseSSHTarget_Ok in Hf as (u & h & port & -> & ? & ?); [|done..].
    by split; [apply valid_ssh|].
  - apply seqb_true in E2 as ->. destruct (String.eqb rest "") eqn:Er; [done|].
    destruct (contains_byte "/" rest || contains_byte "@" rest) eqn:Ec; [done|]. bool_solve.
    inversion_clear Hf. apply seqb_false in Er. by split; [apply valid_docker|].
  - apply seqb_true in E3 as ->. apply parseComposeTarget_Ok in Hf as (p & sv & n & -> & ? & ? & ? & ?).
    by split; [apply valid_compose|].
Qed.

Lemma splitScheme_format t rest dt :
  t = TypeSSH ∨ t = TypeDocker ∨ t = TypeCompose → splitScheme (t +:+ ("://" +:+ rest)) dt = Ok (t, rest).
Proof. intros [-> | [-> | ->]]; reflexivity. Qed.

Lemma parse_format d dt :
  spellable d →
  ParseDestination (FormatDestination d) dt = Ok (set_Raw (FormatDestination d) d).
Proof.
  intros Hv. unfold ParseDestination.
  assert (∀ t x, t = TypeSSH ∨ t = TypeDocker ∨ t = TypeCompose → String.eqb (t +:+ x) "" = false) as Hne
    by (intros t x [-> | [-> | ->]]; reflexivity).
  unfold FormatDestination at 1 2.
  destruct Hv as [Ht Hp Hok Hs Hq|Ht Hh H1 H2 Hu Hp Hs Hq|Ht Hh Hsv Hc Hq Hu Hp];
    rewrite Hne, splitScheme_format by (rewrite Ht; auto); cbn [result_bind];
    unfold format_target; rewrite Ht; cbn.
  - rewrite parse_format_ssh by done. destruct d; simpl in *; by subst.
  - apply seqb_false in Hh as ->. rewrite H1, H2. destruct d; simpl in *; by subst.
  - rewrite parse_format_compose by done. destruct d; simpl in *; by subst.
Qed.

(** *** Destinations without a host *)

Lemma parseHostPort_hostless s d d' : parseHostPort s d = Ok d' → dst_Host d' = "" → hostless s.
Proof.
  unfold parseHostPort. destruct (HasPrefix s "[") eqn:Hb.
  - destruct (CutByte "]" s) as [[upto tail]|] eqn:E; [|done]. apply CutByte_Some in E as [-> _].
    assert (sdrop 1 upto = "" → upto = "[") as Hu.
    { destruct upto as [|c [|c' upto]]; [by rewrite sapp_nil_l in Hb| |done]. intros _. rewrite sapp_cons in Hb. cbn [HasPrefix] in Hb.
      rewrite andb_true_r in Hb. by apply Ascii.eqb_eq in Hb as <-. }
    destruct (String.eqb tail "") eqn:Et.
    + apply seqb_true in Et as ->. intros [= <-] Hh. cbn in Hh. rewrite (Hu Hh). by left.
    + destruct (HasPrefix tail ":") eqn:Hc; [|done]. apply HasPrefix_spec in Hc as [p ->]. cbn [negb].
      intros (port & _ & ->)%parsePort_Ok Hh. cbn [set_Port set_Host dst_Host] in Hh. rewrite (Hu Hh). right. exists p. by right.
  - destruct (2 <=? CountByte ":" s)%nat eqn:Hc; [intros [= <-] Hh; cbn in Hh; subst s; done|].
    destruct (CutLastByte ":" s) as [[h p]|] eqn:E.
    + apply CutLastByte_Some in E as [-> _]. intros (port & _ & ->)%parsePort_Ok Hh. cbn in Hh. subst h. right. exists p. by left.
    + destruct (String.eqb s "") eqn:Es; [done|]. intros [= <-] Hh. cbn in Hh. by subst s.
Qed.

Lemma CutStr_split sep s a b : CutStr sep s = Some (a, b) → s = a +:+ (sep +:+ b).
Proof.
  revert a. induction s as [|c s IH]; intros a; cbn [CutStr].
  - destruct (HasPrefix "" sep) eqn:E; [|done]. intros [= <- <-]. by apply HasPrefix_sdrop in E.
  - destruct (HasPrefix (String c s) sep) eqn:E; [intros [= <- <-]; by apply HasPrefix_sdrop in E|].
    destruct (CutStr sep s) as [[a' b']|]; [|done]. intros [= <- <-]. by rewrite sapp_cons, <- IH.
Qed.

(** They are ssh destinations whose target is a bare port or an empty pair of brackets. *)
Lemma ParseDestination_hostless s dt d :
  ParseDestination s dt = Ok d → dst_Host d = "" →
  dst_Type d = TypeSSH ∧ ∃ scheme user hp, s = scheme +:+ (user +:+ hp) ∧ hostless hp ∧
    (scheme = "" ∨ scheme = "ssh://") ∧ (user = "" ∨ ∃ u, user = u +:+ "@").
Proof.
  intros Hd Hh. destruct (ParseDestination_Ok _ _ _ Hd) as [Hv _]. destruct Hv as [Ht _ _ _ _|? ?|? ?]; [|done|done]. split; [done|].
  unfold ParseDestination in Hd. destruct (String.eqb s ""); [done|].
  apply result_bind_ok in Hd as ([t rest] & Hs & Hf). revert Hf. set (t' := if String.eqb t "" then TypeSSH else t).
  destruct (String.eqb t' TypeSSH) eqn:E1.
  2:{ intros Hf. exfalso. assert (dst_Type d = t') as Hty; [|apply seqb_false in E1; congruence].
      destruct (String.eqb t' TypeDocker).
      - destruct (String.eqb rest ""); [done|]. destruct (contains_byte "/" rest || contains_byte "@" rest); [done|]. by injection Hf as <-.
      - destruct (String.eqb t' TypeCompose); [|done]. by apply parseComposeTarget_Ok in Hf as (p & sv & n & -> & _). }
  intros Hf. assert (∃ scheme, s = scheme +:+ rest ∧ (scheme = "" ∨ scheme = "ssh://")) as (scheme & -> & Hsch).
  { unfold splitScheme in Hs. destruct (CutStr "://" s) as [[sc r]|] eqn:Ec; [|injection Hs as <- <-; exists ""; by split; [|left]].
    apply CutStr_split in Ec as ->. destruct (_ || _) eqn:Eo; [|done]. injection Hs as <- <-. unfold t' in E1.
    destruct (String.eqb sc "") eqn:E0; [apply seqb_true in E0 as ->; done|]. apply seqb_true in E1 as ->.
    exists "ssh://". split; [|by right]. by rewrite sapp_assoc. }
  assert (∃ user hp, rest = user +:+ hp ∧ hostless hp ∧ (user = "" ∨ ∃ u, user = u +:+ "@")) as (user & hp & -> & ? & ?); [|by exists scheme, user, hp].
  unfold parseSSHTarget in Hf. destruct (String.eqb rest ""); [done|].
  destruct (CutLastByte "@" rest) as [[u r]|] eqn:E.
  - apply CutLastByte_Some in E as [-> _]. exists (u +:+ "@"), r. split; [by rewrite <- sapp_assoc|].
    split; [by eapply parseHostPort_hostless|]. right. by exists u.
  - exists "", rest. split; [done|]. split; [by eapply parseHostPort_hostless|by left].
Qed.

(** C38: every destination the parser accepts keeps the text it came from and has a canonical
    spelling with an explicit scheme that parses back to the same destination whatever the
    default backend is: no host, user, port or replica number is lost or reinterpreted, IPv6
    literals included.  It is well formed (a host, a port in range, a docker name without
    slash or @, a compose project and service that are non-empty and free of separators, a
    non-negative 64-bit replica number) unless its host is empty, which the comment of the
    parser excludes and which it accepts for ssh targets that are just a port, as in [:22],
    or an empty pair of brackets, and for no others. *)
Theorem destination_canonical s defaultType d :
  ParseDestination s defaultType = Ok d →
  dst_Raw d = s ∧
  (∀ dt, ParseDestination (FormatDestination d) dt = Ok (set_Raw (FormatDestination d) d)) ∧
  (valid_destination d ∨
   dst_Host d = "" ∧ dst_Type d = TypeSSH ∧ ∃ scheme user hp, s = scheme +:+ (user +:+ hp) ∧ hostless hp ∧
     (scheme = "" ∨ scheme = "ssh://") ∧ (user = "" ∨ ∃ u, user = u +:+ "@")).
Proof.
  intros Hd. destruct (ParseDestination_Ok _ _ _ Hd) as [Hv Hr]. split; [done|]. split; [intros dt; by apply parse_format|].
  destruct (decide (dst_Host d = "")) as [Hh|Hh]; [right|by left]. split; [done|]. by eapply ParseDestination_hostless.
Qed.

Definition bob : Destination := mkDestination TypeSSH "bob" "fe80::1" 2222 "" 0 "bob@[fe80::1]:2222".
Lemma destination_canonical_witness :
  ParseDestination "bob@[fe80::1]:2222" "" = Ok bob ∧
  (∀ dt, ParseDestination (FormatDestination bob) dt = Ok (set_Raw (FormatDestination bob) bob)) ∧ valid_destination bob.
Proof.
  destruct (destination_canonical "bob@[fe80::1]:2222" "" bob) as (_ & Hp & [Hv|[Hh _]]); [vm_compute; reflexivity| |discriminate Hh].
  split; [vm_compute; reflexivity|]. split; [exact Hp|exact Hv].
Defined.

(** The ssh form lets an empty host through when a port or brackets are
    present, although the parser rejects the empty host elsewhere. *)
Lemma ssh_empty_host_accepted :
  ParseDestination "bob@:22" "ssh" = Ok (mkDestination TypeSSH "bob" "" 22 "" 0 "bob@:22") ∧
  ParseDestination "[]" "ssh" = Ok (mkDestination TypeSSH "" "" 0 "" 0 "[]") ∧
  ParseDestination "bob@" "ssh" = Err ErrSSHNoHost.
Proof. repeat split. Qed.

Example ipv6_without_brackets :
  ParseDestination "bob@2001:db8::1" "docker" = Err (ErrDockerChar "bob@2001:db8::1") ∧
  ParseDestination "bob@2001:db8::1" "ssh" =
    Ok (mkDestination TypeSSH "bob" "2001:db8::1" 0 "" 0 "bob@2001:db8::1").
Proof. split; reflexivity. Qed.

Example compose_replica :
  ParseDestination "compose://./web/3" "ssh" =
    Ok (mkDestination TypeCompose "" "." 0 "web" 3 "compose://./web/3").
Proof. reflexivity. Qed.
