(* ===== verification/Mux.v ===== *)
(** * Mux: the framed connection between the proxy and its agent

    Models [pkg/agentproto/mux.go] on the frames of [frame.go].  The dispatch
    loop [ReadLoop] is a function of the frames it decodes; what it does to its
    handlers is a list of effects.  The file-operation RPCs ([FileOp],
    [deliverFileResp], [failPending]) run concurrently, so they are a transition
    system whose actions are the regions the code executes atomically: between
    lock and unlock, one channel operation, one atomic add.

    A nil [pending] map behaves as an empty one for every access the code makes
    and is replaced by an empty one before the first insertion, so both are the
    empty map here.  Every [FileOp] call makes its own channel, which is therefore
    named by the call. *)

From S2P Require Import Prelude GoStrings PathStub FileClient.
Local Open Scope Z_scope.

(** ** frame.go *)

Record ExecMsg := mkExec {
  ex_Path : string; ex_Argv : list string; ex_Env : list string; ex_Cwd : string;
  ex_ExtraFDs : list Z;
}.
Record LogEntry := mkLog { lg_Level : Z; lg_Msg : string; lg_Attrs : list string }.

Record AgentConfig := mkAgentConfig { ac_EnvKeep : list string; ac_EnvRemove : list string }.
(** A [PathQuery] and a [PathInfo] are their only field. *)
Record PathQuery := mkQuery { Paths : list string }.
Record PathInfo := mkPathInfo { pi_Entries : list PathInfoEntry }.

Record FileOpReq := mkReq {
  ReqID : Z; Op : Z; rq_Path : string; rq_NewPath : string; rq_Flags : Z; rq_Mode : Z;
  rq_UID : Z; rq_GID : Z; rq_Handle : Z; rq_Offset : Z; rq_Size : Z;
  rq_AtimeNanos : Z; rq_MTimeNanos : Z; rq_Data : string;
}.

Record FileOpResp := mkResp {
  rs_ReqID : Z; rs_Errno : Z; rs_ErrMsg : string; rs_Handle : Z; rs_Data : string; rs_N : Z; rs_EOF : bool;
  rs_Path : string; rs_Stat : option FileStat; rs_Statfs : option Statfs; rs_Entries : list FileStat;
}.

(** The zero response. *)
Definition resp0 : FileOpResp := mkResp 0 0 "" 0 "" 0 false "" None None [].
Definition with_ReqID (id : Z) (r : FileOpResp) : FileOpResp :=
  mkResp id (rs_Errno r) (rs_ErrMsg r) (rs_Handle r) (rs_Data r) (rs_N r) (rs_EOF r) (rs_Path r) (rs_Stat r)
    (rs_Statfs r) (rs_Entries r).

Definition FrameExec : Z := 1.
Definition FrameData : Z := 2.
Definition FrameEOF : Z := 3.
Definition FrameSignal : Z := 4.
Definition FrameExit : Z := 5.
Definition FrameError : Z := 6.
Definition FrameLog : Z := 7.
Definition FrameConfig : Z := 8.
Definition FramePathQuery : Z := 9.
Definition FramePathInfo : Z := 10.
Definition FrameFileOp : Z := 11.
Definition FrameFileResp : Z := 12.

Record Frame := mkFrame {
  Type_ : Z; Stream : Z; Data : string; Signal : Z; Code : Z; ErrorStr : string;
  Exec : option ExecMsg; Log : option LogEntry; FConfig : option AgentConfig;
  Query : option PathQuery; Info : option PathInfo;
  FileOp_ : option FileOpReq; FileResp : option FileOpResp;
}.

(** The frame of type [ty] with every optional field absent. *)
Definition frame0 (ty : Z) : Frame := mkFrame ty 0 "" 0 0 "" None None None None None None None.

(** ** ReadLoop *)

(** Which callbacks are set and which streams are registered. *)
Record handlers := mkHandlers {
  streams : gset Z;
  onExec : bool; onSignal : bool; onExit : bool; onError : bool; onLog : bool;
  onFileOp : option (FileOpReq → option FileOpResp);
}.

(** [NewMux] and the calls that set it up. *)
Definition NewMux : handlers := mkHandlers ∅ false false false false false None.
Definition RegisterStream (id : Z) (h : handlers) : handlers :=
  mkHandlers ({[id]} ∪ streams h) (onExec h) (onSignal h) (onExit h) (onError h) (onLog h) (onFileOp h).
Definition OnSignal (h : handlers) : handlers :=
  mkHandlers (streams h) (onExec h) true (onExit h) (onError h) (onLog h) (onFileOp h).
Definition OnLog (h : handlers) : handlers :=
  mkHandlers (streams h) (onExec h) (onSignal h) (onExit h) (onError h) true (onFileOp h).
Definition OnFileOp (fn : FileOpReq → option FileOpResp) (h : handlers) : handlers :=
  mkHandlers (streams h) (onExec h) (onSignal h) (onExit h) (onError h) (onLog h) (Some fn).

Inductive effect : Type :=
  | EffExec (m : ExecMsg)
  | EffWrite (stream : Z) (data : string)
  | EffEOF (stream : Z)
  | EffSignal (sig : Z)
  | EffExit (code : Z) (err : string)
  | EffError (err : string)
  | EffLog (e : LogEntry)
  | EffSend (resp : FileOpResp)
  | EffDeliver (resp : FileOpResp)
  | EffFailPending.

(** What one frame does; the exit frame ends the loop with its code. *)
Definition dispatch (h : handlers) (f : Frame) : list effect * option Z :=
  if Type_ f =? FrameExec then
    (match Exec f with Some m => if onExec h then [EffExec m] else [] | None => [] end, None)
  else if Type_ f =? FrameData then
    (if bool_decide (Stream f ∈ streams h) && (0 <? Z.of_nat (slen (Data f)))
     then [EffWrite (Stream f) (Data f)] else [], None)
  else if Type_ f =? FrameEOF then
    (if bool_decide (Stream f ∈ streams h) then [EffEOF (Stream f)] else [], None)
  else if Type_ f =? FrameSignal then
    (if onSignal h then [EffSignal (Signal f)] else [], None)
  else if Type_ f =? FrameExit then
    (if onExit h then [EffExit (Code f) (ErrorStr f)] else [], Some (Code f))
  else if Type_ f =? FrameError then
    (if onError h then [EffError (ErrorStr f)] else [], None)
  else if Type_ f =? FrameLog then
    (match Log f with Some e => if onLog h then [EffLog e] else [] | None => [] end, None)
  else if Type_ f =? FrameFileOp then
    (match onFileOp h, FileOp_ f with
     | Some serve, Some q => [EffSend (with_ReqID (ReqID q) (default resp0 (serve q)))]
     | _, _ => []
     end, None)
  else if Type_ f =? FrameFileResp then
    (match FileResp f with Some r => [EffDeliver r] | None => [] end, None)
  else ([], None).

(** [ReadLoop] on the frames it decodes; the decoder fails (or the context is
    cancelled) when they end.  The result is the exit code and whether the loop
    ended with an error. *)
Fixpoint ReadLoop (h : handlers) (fs : list Frame) : list effect * Z * bool :=
  match fs with
  | [] => ([EffFailPending], -1, true)
  | f :: fs =>
      let '(effs, code) := dispatch h f in
      match code with
      | Some c => (effs ++ [EffFailPending], c, false)
      | None => let '(rest, c, e) := ReadLoop h fs in (effs ++ rest, c, e)
      end
  end.

(** ** The RPC table *)

Inductive call_result : Type :=
  | RespOk (r : FileOpResp)
  | ErrSend
  | ErrCtx
  | ErrUnexpectedEOF.

(** Where a [FileOp] call is; every state carries its request id. *)
Inductive call_state : Type :=
  | CAlloc (id : Z)
  | CReg (id : Z)
  | CWait (id : Z)
  | CRet (id : Z) (r : call_result)
  | CDone (id : Z) (r : call_result).

Definition call_id (c : call_state) : Z :=
  match c with CAlloc id | CReg id | CWait id | CRet id _ | CDone id _ => id end.

(** A channel of capacity one: its element and whether it is closed. *)
Record chan := mkChan { ch_buf : option FileOpResp; ch_closed : bool }.

(** The reader between its atomic regions. *)
Inductive reader : Type :=
  | RRun
  | RDeliver (c : nat) (r : FileOpResp)
  | RClosing (l : list nat)
  | RStop.

Record mux := mkMux {
  nextReqID : Z;
  pending : gmap Z nat;
  chans : gmap nat chan;
  calls : gmap nat call_state;
  rd : reader;
  panicked : bool;
}.

Definition mux0 : mux := mkMux 0 ∅ ∅ ∅ RRun false.

Inductive action : Type :=
  | ABegin (c : nat)
  | ARegister (c : nat)
  | ASend (c : nat) (ok : bool)
  | AReceive (c : nat)
  | ACancel (c : nat)
  | ACleanup (c : nat)
  | ADeliver (r : FileOpResp)
  | APush
  | AEnd
  | AClose.

(** [nextReqID.Add(1)], skipping zero. *)
Definition alloc_id (n : Z) : Z :=
  let id := u32 (n + 1) in if id =? 0 then u32 (id + 1) else id.

Definition set_call (m : mux) (c : nat) (s : call_state) : mux :=
  mkMux (nextReqID m) (pending m) (chans m) (<[c := s]> (calls m)) (rd m) (panicked m).
Definition set_rd (m : mux) (r : reader) : mux :=
  mkMux (nextReqID m) (pending m) (chans m) (calls m) r (panicked m).
Definition set_chan (m : mux) (c : nat) (ch : chan) : mux :=
  mkMux (nextReqID m) (pending m) (<[c := ch]> (chans m)) (calls m) (rd m) (panicked m).
Definition set_pending (m : mux) (p : gmap Z nat) : mux :=
  mkMux (nextReqID m) p (chans m) (calls m) (rd m) (panicked m).
Definition panic (m : mux) : mux :=
  mkMux (nextReqID m) (pending m) (chans m) (calls m) (rd m) true.

(** One atomic region; [None] when it is not enabled. *)
Definition act (a : action) (m : mux) : option mux :=
  match a with
  | ABegin c =>
      match calls m !! c with
      | Some _ => None
      | None =>
          let id := alloc_id (nextReqID m) in
          Some (mkMux id (pending m) (chans m) (<[c := CAlloc id]> (calls m)) (rd m) (panicked m))
      end
  | ARegister c =>
      match calls m !! c with
      | Some (CAlloc id) =>
          Some (set_call (set_pending (set_chan m c (mkChan None false)) (<[id := c]> (pending m))) c (CReg id))
      | _ => None
      end
  | ASend c ok =>
      match calls m !! c with
      | Some (CReg id) => Some (set_call m c (if ok then CWait id else CRet id ErrSend))
      | _ => None
      end
  | AReceive c =>
      match calls m !! c, chans m !! c with
      | Some (CWait id), Some (mkChan (Some r) cl) =>
          Some (set_call (set_chan m c (mkChan None cl)) c (CRet id (RespOk r)))
      | Some (CWait id), Some (mkChan None true) => Some (set_call m c (CRet id ErrUnexpectedEOF))
      | _, _ => None
      end
  | ACancel c =>
      match calls m !! c with
      | Some (CWait id) => Some (set_call m c (CRet id ErrCtx))
      | _ => None
      end
  | ACleanup c =>
      match calls m !! c with
      | Some (CRet id r) => Some (set_call (set_pending m (delete id (pending m))) c (CDone id r))
      | _ => None
      end
  | ADeliver r =>
      match rd m with
      | RRun =>
          match pending m !! rs_ReqID r with
          | Some c => Some (set_rd (set_pending m (delete (rs_ReqID r) (pending m))) (RDeliver c r))
          | None => Some m
          end
      | _ => None
      end
  | APush =>
      match rd m with
      | RDeliver c r =>
          match chans m !! c with
          | Some (mkChan _ true) => Some (panic m)
          | Some (mkChan None false) => Some (set_rd (set_chan m c (mkChan (Some r) false)) RRun)
          | _ => Some (set_rd m RRun)
          end
      | _ => None
      end
  | AEnd =>
      match rd m with
      | RRun => Some (set_rd (set_pending m ∅) (RClosing (snd <$> map_to_list (pending m))))
      | _ => None
      end
  | AClose =>
      match rd m with
      | RClosing [] => Some (set_rd m RStop)
      | RClosing (c :: l) =>
          match chans m !! c with
          | Some (mkChan b false) => Some (set_rd (set_chan m c (mkChan b true)) (RClosing l))
          | _ => Some (panic m)
          end
      | _ => None
      end
  end.

Fixpoint acts (l : list action) (m : mux) : option mux :=
  match l with
  | [] => Some m
  | a :: l => match act a m with Some m' => acts l m' | None => None end
  end.

(** ** The invariant of the RPC table *)

(** A call that waits for the reader, or will. *)
Definition live (s : call_state) : bool :=
  match s with CReg _ | CWait _ => true | _ => false end.

(** The reader has taken [c] out of the table and is about to wake it. *)
Definition claimed (r : reader) (c : nat) : Prop :=
  match r with
  | RDeliver c' _ => c = c'
  | RClosing l => c ∈ l
  | _ => False
  end.

Definition unlisted (m : mux) (c : nat) : Prop := ∀ id, pending m !! id ≠ Some c.
Definition open_empty (m : mux) (c : nat) : Prop := chans m !! c = Some (mkChan None false).

(** [c] is the call with id [id]. *)
Definition owns (m : mux) (c : nat) (id : Z) : Prop := call_id <$> calls m !! c = Some id.

Record Inv (m : mux) : Prop := {
  inv_panic : panicked m = false;
  inv_id c id : owns m c id → 1 ≤ id ≤ nextReqID m;
  inv_inj c1 c2 id : owns m c1 id → owns m c2 id → c1 = c2;
  inv_pending id c : pending m !! id = Some c → owns m c id ∧ open_empty m c;
  inv_buf c r cl : chans m !! c = Some (mkChan (Some r) cl) → owns m c (rs_ReqID r);
  inv_chan c : is_Some (chans m !! c) → is_Some (calls m !! c);
  inv_alloc c id : calls m !! c = Some (CAlloc id) → chans m !! c = None;
  inv_ret c id r : calls m !! c = Some (CRet id (RespOk r)) ∨ calls m !! c = Some (CDone id (RespOk r)) →
                   rs_ReqID r = id;
  inv_claimed c : claimed (rd m) c → open_empty m c ∧ unlisted m c;
  inv_deliver c r : rd m = RDeliver c r → owns m c (rs_ReqID r);
  inv_closing l : rd m = RClosing l → NoDup l;
  inv_live c s : calls m !! c = Some s → live s = true → open_empty m c →
                 pending m !! call_id s = Some c ∨ claimed (rd m) c;
  inv_has c s : calls m !! c = Some s → live s = true → is_Some (chans m !! c);
}.

(** Case analysis on updated maps. *)
Ltac map_cases :=
  repeat match goal with
  | H : context [<[?i := _]> _ !! ?j] |- _ =>
      destruct (decide (i = j)); [subst; rewrite lookup_insert_eq in H | rewrite lookup_insert_ne in H by done]
  | |- context [<[?i := _]> _ !! ?j] =>
      destruct (decide (i = j)); [subst; rewrite lookup_insert_eq | rewrite lookup_insert_ne by done]
  | H : context [delete ?i _ !! ?j] |- _ =>
      destruct (decide (i = j)); [subst; rewrite lookup_delete_eq in H | rewrite lookup_delete_ne in H by done]
  | |- context [delete ?i _ !! ?j] =>
      destruct (decide (i = j)); [subst; rewrite lookup_delete_eq | rewrite lookup_delete_ne by done]
  end; simplify_eq/=.

Lemma owns_lookup m c s : calls m !! c = Some s → owns m c (call_id s).
Proof. intros Hc. unfold owns. by rewrite Hc. Qed.

Lemma inv_mux0 : Inv mux0.
Proof.
  split; unfold owns, open_empty; simpl; intros; rewrite ?lookup_empty in *; simplify_eq/=; try done;
    try (match goal with H : is_Some None |- _ => by destruct H end). naive_solver.
Qed.

(** Use the invariant's facts about a call with no state. *)
Lemma unknown_call m c :
  Inv m → calls m !! c = None →
  chans m !! c = None ∧ unlisted m c ∧ ¬ claimed (rd m) c ∧ (∀ r, rd m ≠ RDeliver c r) ∧ ∀ id, ¬ owns m c id.
Proof.
  intros HI Hc. assert (chans m !! c = None) as Hch.
  { destruct (chans m !! c) eqn:E; [|done]. destruct (inv_chan m HI c); [by rewrite E|]. congruence. }
  assert (∀ id, ¬ owns m c id) as Ho by (unfold owns; rewrite Hc; done).
  split_and!; [done| | | |done].
  - intros id Hp. by apply (inv_pending m HI) in Hp as [? _]; eapply Ho.
  - intros [Hoe _]%(inv_claimed m HI). unfold open_empty in Hoe. congruence.
  - intros r Hr. by apply (inv_deliver m HI) in Hr; eapply Ho.
Qed.

Lemma inv_begin m c m' :
  Inv m → 0 ≤ nextReqID m < 2 ^ 32 - 1 → act (ABegin c) m = Some m' → Inv m'.
Proof.
  intros HI Hn. simpl. destruct (calls m !! c) eqn:Hc; [done|]. intros [= <-].
  assert (alloc_id (nextReqID m) = nextReqID m + 1) as ->.
  { unfold alloc_id, u32. rewrite uwrap_id by (unfold is_u; lia). rewrite (proj2 (Z.eqb_neq _ _)); lia. }
  destruct (unknown_call m c HI Hc) as (Hch & Hul & Hncl & Hnd & Hnc).
  destruct HI as [? Hid Hinj Hp Hb Hck Ha Hr Hcl Hd Hclo Hl Hh].
  split; unfold owns, open_empty, unlisted in *; simpl in *; intros; map_cases; try done; try (by eauto).
  all: try (match goal with Ho : call_id <$> _ = Some ?i |- _ => apply Hid in Ho; lia end).
  - lia.
  - by edestruct Hul.
  - by destruct_or?.
  - by edestruct Hnd.
Qed.

(** The remaining actions keep every call's id. *)
Lemma owns_same m m' c s s' :
  calls m !! c = Some s → call_id s' = call_id s → calls m' = <[c := s']> (calls m) →
  ∀ c' id, owns m' c' id ↔ owns m c' id.
Proof. intros Hc Hid Heq c' id. unfold owns. rewrite Heq. map_cases; rewrite ?Hc; simpl; by rewrite ?Hid. Qed.

(** Prove the fields of the invariant: ids are as before by [How], the maps by
    cases. *)
Ltac inv_fields How :=
  split; unfold open_empty, unlisted in *; simpl in *; intros;
  repeat match goal with H : owns _ _ _ |- _ => rewrite How in H end;
  rewrite ?How; map_cases; try done; try (by eauto).

Lemma inv_register m c m' : Inv m → act (ARegister c) m = Some m' → Inv m'.
Proof.
  intros HI. simpl. destruct (calls m !! c) as [[id| | | |]|] eqn:Hc; try done. intros [= <-].
  assert (owns m c id) as Ho by (unfold owns; by rewrite Hc).
  match goal with |- Inv ?m' =>
    pose proof (owns_same m m' c (CAlloc id) (CReg id) Hc eq_refl eq_refl) as How end.
  destruct HI as [? Hid Hinj Hp Hb Hck Ha Hr Hcl Hd Hclo Hl Hh].
  assert (chans m !! c = None) as Hch by eauto.
  assert (unlisted m c) as Hul.
  { intros id' Hp'. apply Hp in Hp' as [_ Hoe]. unfold open_empty in Hoe. congruence. }
  assert (¬ claimed (rd m) c) as Hncl by (intros [Hoe _]%Hcl; unfold open_empty in Hoe; congruence).
  inv_fields How.
  - by edestruct Hul.
  - by destruct_or?.
  - split; [naive_solver|]. intros id'. map_cases; [naive_solver|]. by apply Hcl.
  - left. f_equal. eauto using owns_lookup.
Qed.

(** A step of a call that leaves table and channels alone. *)
Lemma inv_call m c s s' :
  Inv m → calls m !! c = Some s → call_id s' = call_id s → (live s' = true → live s = true) →
  (∀ id, s' ≠ CAlloc id) → (∀ id r, s' ≠ CRet id (RespOk r) ∧ s' ≠ CDone id (RespOk r)) →
  Inv (set_call m c s').
Proof.
  intros HI Hc Hsame Hlive Hna Hnr.
  pose proof (owns_same m (set_call m c s') c s s' Hc Hsame eq_refl) as How.
  destruct HI as [? Hid Hinj Hp Hb Hck Ha Hr Hcl Hd Hclo Hl Hh]. inv_fields How.
  - by edestruct Hna.
  - destruct (Hnr id r). by destruct_or?; simplify_eq.
  - rewrite Hsame. apply Hl; eauto.
Qed.

Lemma inv_receive m c m' : Inv m → act (AReceive c) m = Some m' → Inv m'.
Proof.
  intros HI. simpl. destruct (calls m !! c) as [[| |id| |]|] eqn:Hc; try done.
  assert (∀ r cl, chans m !! c = Some (mkChan (Some r) cl) →
    Inv (set_call (set_chan m c (mkChan None cl)) c (CRet id (RespOk r)))) as Hresp.
  { intros r cl Hch.
    match goal with |- Inv ?m' =>
      pose proof (owns_same m m' c (CWait id) (CRet id (RespOk r)) Hc eq_refl eq_refl) as How end.
    assert (rs_ReqID r = id) as Hrid
      by (pose proof (inv_buf m HI _ _ _ Hch) as Ho; unfold owns in Ho; rewrite Hc in Ho; by injection Ho).
    destruct HI as [? Hid Hinj Hp Hb Hck Ha Hr Hcl Hd Hclo Hl Hh]. inv_fields How.
    - exfalso. edestruct Hp; [done|]. congruence.
    - by destruct_or?; simplify_eq.
    - exfalso. edestruct Hcl; [done|]. congruence. }
  destruct (chans m !! c) as [[[r|] [|]]|] eqn:Hch; try done; intros [= <-]; [by apply Hresp..|].
  by eapply inv_call.
Qed.

Lemma inv_cleanup m c m' : Inv m → act (ACleanup c) m = Some m' → Inv m'.
Proof.
  intros HI. simpl. destruct (calls m !! c) as [[| | |id r|]|] eqn:Hc; try done. intros [= <-].
  match goal with |- Inv ?m' =>
    pose proof (owns_same m m' c (CRet id r) (CDone id r) Hc eq_refl eq_refl) as How end.
  pose proof (owns_lookup m c _ Hc) as Ho. simpl in Ho.
  destruct HI as [? Hid Hinj Hp Hb Hck Ha Hr Hcl Hd Hclo Hl Hh]. inv_fields How.
  - by destruct_or?; simplify_eq; eauto.
  - split; [by apply Hcl|]. intros id'. map_cases; [done|by apply Hcl].
  - by match goal with H : CDone _ _ = ?s |- _ => rewrite <- H in * end.
  - exfalso. match goal with H : calls m !! ?c' = Some ?s, n : _ ≠ ?c' |- _ =>
      apply n, (Hinj _ _ (call_id s)); [done|by apply owns_lookup] end.
Qed.

Lemma inv_deliver_step m r m' : Inv m → act (ADeliver r) m = Some m' → Inv m'.
Proof.
  intros HI. simpl. destruct (rd m) eqn:Hrd; try done.
  destruct (pending m !! rs_ReqID r) as [c|] eqn:Hpc; intros [= <-]; [|done].
  destruct HI as [? Hid Hinj Hp Hb Hck Ha Hr Hcl Hd Hclo Hl Hh]. rewrite Hrd in *.
  destruct (Hp _ _ Hpc) as [Ho Hoe].
  split; unfold open_empty, unlisted in *; simpl in *; intros; map_cases; try done; try (by eauto).
  - split; [done|]. intros id'. map_cases; [done|]. intros Hp'. apply Hp in Hp' as [Ho' _].
    unfold owns in *. congruence.
  - match goal with H : calls m !! ?c0 = Some ?s |- _ => destruct (Hl c0 s) as [Hq|[]]; [done..|];
      destruct (decide (call_id s = rs_ReqID r)) as [He|] end.
    + right. rewrite He in Hq. congruence.
    + left. by rewrite lookup_delete_ne.
Qed.

Lemma inv_push m m' : Inv m → act APush m = Some m' → Inv m'.
Proof.
  intros HI. simpl. destruct (rd m) as [|c r| |] eqn:Hrd; try done.
  destruct HI as [? Hid Hinj Hp Hb Hck Ha Hr Hcl Hd Hclo Hl Hh]. rewrite Hrd in *.
  destruct (Hcl c eq_refl) as [Hoe Hul]. unfold open_empty in Hoe. rewrite Hoe. intros [= <-].
  pose proof (Hd _ _ eq_refl) as Ho.
  split; unfold open_empty, unlisted in *; simpl in *; intros; map_cases; try done; try (by eauto).
  - by edestruct Hul.
  - exfalso. match goal with H : calls m !! _ = Some (CAlloc _) |- _ => apply Ha in H end. congruence.
  - left. match goal with H : calls m !! ?c0 = Some ?s |- _ => destruct (Hl c0 s) as [Hq|Hq]; [done..|] end.
    by subst.
Qed.

Lemma inv_end m m' : Inv m → act AEnd m = Some m' → Inv m'.
Proof.
  intros HI. simpl. destruct (rd m) eqn:Hrd; try done. intros [= <-].
  destruct HI as [? Hid Hinj Hp Hb Hck Ha Hr Hcl Hd Hclo Hl Hh]. rewrite Hrd in *.
  assert (∀ c, c ∈ (snd <$> map_to_list (pending m)) ↔ ∃ id, pending m !! id = Some c) as Hel.
  { intros c. rewrite list_elem_of_fmap. setoid_rewrite elem_of_map_to_list'. split.
    - intros ([id c'] & -> & ?). eauto.
    - intros [id ?]. by exists (id, c). }
  split; unfold open_empty, unlisted in *; simpl in *; intros; try done; try (by eauto).
  - apply Hel in H as [id Hid']. split; [by eapply Hp|]. intros id'. by rewrite lookup_empty.
  - simplify_eq. apply NoDup_fmap_2_strong; [|apply NoDup_map_to_list].
    intros [i c1] [j c2] H1%elem_of_map_to_list H2%elem_of_map_to_list Heq. simpl in Heq. subst.
    apply Hp in H1 as [Ho1 _]. apply Hp in H2 as [Ho2 _]. unfold owns in *. congruence.
  - right. apply Hel. destruct (Hl c s) as [?|[]]; [done..|]. eauto.
Qed.

Lemma inv_close m m' : Inv m → act AClose m = Some m' → Inv m'.
Proof.
  intros HI. simpl. destruct (rd m) as [| |[|c l]|] eqn:Hrd; try done.
  all: destruct HI as [? Hid Hinj Hp Hb Hck Ha Hr Hcl Hd Hclo Hl Hh]; rewrite Hrd in *.
  - intros [= <-]. split; unfold open_empty, unlisted in *; simpl in *; intros; try done; try (by eauto).
    left. destruct (Hl c s) as [?|?%elem_of_nil]; [done..|]. done.
  - destruct (Hcl c (list_elem_of_here _ _)) as [Hoe Hul]. unfold open_empty in Hoe. rewrite Hoe.
    intros [= <-]. pose proof (Hclo _ eq_refl) as [Hnin Hnd]%NoDup_cons.
    split; unfold open_empty, unlisted in *; simpl in *; intros; map_cases; try done; try (by eauto).
    + by edestruct Hul.
    + exfalso. match goal with H : calls m !! _ = Some (CAlloc _) |- _ => apply Ha in H end. congruence.
    + apply Hcl. by right.
    + match goal with H : calls m !! ?c0 = Some ?s |- _ =>
        destruct (Hl c0 s) as [Hq|[Hq|Hq]%elem_of_cons]; [done|done|done|by left|by subst|by right] end.
Qed.

(** Every action keeps the invariant while the ids have not wrapped. *)
Lemma act_inv a m m' :
  Inv m → 0 ≤ nextReqID m < 2 ^ 32 - 1 → act a m = Some m' →
  Inv m' ∧ nextReqID m ≤ nextReqID m' ≤ nextReqID m + 1.
Proof.
  intros HI Hn Ha. split.
  - destruct a; eauto using inv_begin, inv_register, inv_receive, inv_cleanup, inv_deliver_step,
      inv_push, inv_end, inv_close; simpl in Ha.
    + destruct (calls m !! c) as [[]|] eqn:Hc; try done. destruct ok; simplify_eq; by eapply inv_call.
    + destruct (calls m !! c) as [[]|] eqn:Hc; try done. simplify_eq. by eapply inv_call.
  - destruct a; simpl in Ha; repeat case_match; simplify_eq/=; try lia.
    unfold alloc_id, u32. rewrite uwrap_id by (unfold is_u; lia). rewrite (proj2 (Z.eqb_neq _ _)); lia.
Qed.

Lemma acts_inv l m m' :
  Inv m → 0 ≤ nextReqID m → nextReqID m + Z.of_nat (length l) < 2 ^ 32 → acts l m = Some m' → Inv m'.
Proof.
  revert m. induction l as [|a l IH]; intros m HI Hn Hl; simpl; [by intros [= <-]|].
  destruct (act a m) as [m1|] eqn:Ha; [|done]. simpl in Hl.
  destruct (act_inv a m m1) as [HI1 Hn1]; [done|lia|done|]. apply IH; [done|lia|lia].
Qed.

Lemma reach_inv l m : Z.of_nat (length l) < 2 ^ 32 → acts l mux0 = Some m → Inv m.
Proof.
  intros Hl. apply acts_inv; [apply inv_mux0|done|]. change (nextReqID mux0) with 0. lia.
Qed.

Lemma acts_app l1 l2 m : acts (l1 ++ l2) m = acts l1 m ≫= acts l2.
Proof. revert m. induction l1 as [|a l1 IH]; intros m; simpl; [done|]. destruct (act a m); simpl; eauto. Qed.

(** C10: responses reach the call that asked: whatever the interleaving of calls,
    cancellations, responses in any order (duplicates and unknown ids included)
    and the end of the connection, a call that returns a response returns one
    with its own request id, no two calls share an id, and no channel is closed
    twice or written after it is closed. *)
Theorem mux_responses_matched l m :
  Z.of_nat (length l) < 2 ^ 32 → acts l mux0 = Some m →
  panicked m = false ∧
  (∀ c id r, calls m !! c = Some (CRet id (RespOk r)) ∨ calls m !! c = Some (CDone id (RespOk r)) →
     rs_ReqID r = id) ∧
  (∀ c1 c2 s1 s2, calls m !! c1 = Some s1 → calls m !! c2 = Some s2 → c1 ≠ c2 → call_id s1 ≠ call_id s2).
Proof.
  intros Hl Ha. assert (Inv m) as HI by by eapply reach_inv.
  split_and!; [by apply inv_panic|by apply inv_ret|]. intros c1 c2 s1 s2 H1 H2 Hne Heq. apply Hne.
  apply owns_lookup in H1, H2. rewrite Heq in H1. by eapply inv_inj.
Qed.

(** A call that has left the table never returns to it. *)
Lemma act_unlisted a m m' c :
  Inv m → act a m = Some m' → is_Some (chans m !! c) → unlisted m c →
  is_Some (chans m' !! c) ∧ unlisted m' c.
Proof.
  intros HI Ha Hch Hul. unfold unlisted in *.
  destruct a; simpl in Ha; repeat case_match; simplify_eq/=; split; intros; map_cases; try done; eauto.
  intros [= ->]. match goal with H : calls m !! c = Some (CAlloc _) |- _ => apply (inv_alloc m HI) in H end.
  destruct Hch. congruence.
Qed.

Lemma acts_unlisted l m m' c :
  Inv m → 0 ≤ nextReqID m → nextReqID m + Z.of_nat (length l) < 2 ^ 32 → acts l m = Some m' →
  is_Some (chans m !! c) → unlisted m c → is_Some (chans m' !! c) ∧ unlisted m' c.
Proof.
  revert m. induction l as [|a l IH]; intros m HI Hn Hl; simpl; [by intros [= <-]|].
  destruct (act a m) as [m1|] eqn:Ha; [|done]. simpl in Hl. intros Hacts Hch Hul.
  destruct (act_inv a m m1) as [HI1 Hn1]; [done|lia|done|].
  destruct (act_unlisted a m m1 c) as [Hch1 Hul1]; [done..|]. apply (IH m1); [done|lia|lia|done..].
Qed.

Lemma acts_ids l m m' :
  Inv m → 0 ≤ nextReqID m → nextReqID m + Z.of_nat (length l) < 2 ^ 32 → acts l m = Some m' →
  0 ≤ nextReqID m' ≤ nextReqID m + Z.of_nat (length l).
Proof.
  revert m. induction l as [|a l IH]; intros m HI Hn Hl; simpl; [intros [= <-]; lia|].
  destruct (act a m) as [m1|] eqn:Ha; [|done]. simpl in Hl. intros Hacts.
  destruct (act_inv a m m1) as [HI1 Hn1]; [done|lia|done|].
  assert (0 ≤ nextReqID m' ≤ nextReqID m1 + Z.of_nat (length l)); [|lia].
  apply (IH m1); [done|lia|lia|done].
Qed.

(** C17: nobody hangs at the end of the connection: once the read loop has ended
    and failed the pending table, every call that was registered before the end
    and still waits can take its response or the end-of-file error at once. *)
Theorem mux_end_unblocks l1 l2 m m1 m2 c s id :
  Z.of_nat (length l1) + Z.of_nat (length l2) < 2 ^ 32 - 1 →
  acts l1 mux0 = Some m → act AEnd m = Some m1 → acts l2 m1 = Some m2 → rd m2 = RStop →
  calls m !! c = Some s → live s = true → calls m2 !! c = Some (CWait id) →
  is_Some (act (AReceive c) m2).
Proof.
  intros Hlen H1 Hend H2 Hstop Hc Hs Hc2.
  assert (Inv m) as HI by (apply (reach_inv l1); [lia|done]).
  assert (0 ≤ nextReqID m ≤ 0 + Z.of_nat (length l1)) as Hids
    by (apply (acts_ids l1 mux0 m inv_mux0); [done|change (nextReqID mux0) with 0; lia|done]).
  assert (Inv m1) as HI1 by by eapply inv_end.
  assert (nextReqID m1 = nextReqID m ∧ chans m1 = chans m ∧ pending m1 = ∅) as (Hn1 & Hch1 & Hp1).
  { simpl in Hend. destruct (rd m); by simplify_eq/=. }
  assert (Inv m2) as HI2 by (apply (acts_inv l2 m1); [done|lia|lia|done]).
  destruct (acts_unlisted l2 m1 m2 c) as [[ch Hch] Hul]; [done|lia|lia|done| | |].
  { rewrite Hch1. by eapply inv_has. }
  { intros id'. by rewrite Hp1, lookup_empty. }
  simpl. rewrite Hc2, Hch. destruct ch as [[r|] [|]]; [done..|]. exfalso.
  destruct (inv_live m2 HI2 c (CWait id)) as [Hp|Hcl]; [done..| |].
  - by apply (Hul id).
  - by rewrite Hstop in Hcl.
Qed.

(** A waiting call of a stopped reader stays as it is. *)
Lemma stopped_call_stuck a m m' c id :
  rd m = RStop → calls m !! c = Some (CWait id) → open_empty m c → a ≠ ACancel c →
  act a m = Some m' → rd m' = RStop ∧ calls m' !! c = Some (CWait id) ∧ open_empty m' c.
Proof.
  intros Hrd Hc Hch Hna Ha. unfold open_empty in *.
  destruct a; simpl in Ha; rewrite ?Hrd in Ha; repeat case_match; simplify_eq/=;
    split_and!; map_cases; try done; congruence.
Qed.

(** A call that starts after the read loop has ended waits for ever: it puts
    itself into a fresh table that nothing will read, and no action of any
    component but its own cancellation ever wakes it. *)
Theorem mux_late_call_hangs l :
  ∃ m, acts [AEnd; AClose; ABegin 0; ARegister 0; ASend 0 true] mux0 = Some m ∧
    calls m !! 0%nat = Some (CWait 1) ∧
    ∀ m', (ACancel 0 ∉ l) → acts l m = Some m' → calls m' !! 0%nat = Some (CWait 1).
Proof.
  eexists. split; [reflexivity|]. split; [reflexivity|].
  match goal with |- ∀ _, _ → acts _ ?m = _ → _ => generalize (eq_refl : rd m = RStop) as Hrd;
    generalize (eq_refl : calls m !! 0%nat = Some (CWait 1)) as Hc;
    generalize (eq_refl : open_empty m 0%nat) as Hch; generalize m end.
  induction l as [|a l IH]; intros m Hch Hc Hrd m' Hn; simpl; [by intros [= <-]|].
  destruct (act a m) as [m1|] eqn:Ha; [|done]. apply not_elem_of_cons in Hn as [Hne Hn].
  destruct (stopped_call_stuck a m m1 0 1) as (? & ? & ?); [done..|]. by apply IH.
Qed.

(** ** The dispatch loop *)

(** A frame that ends the loop. *)
Definition is_exit (f : Frame) : bool := Type_ f =? FrameExit.

Lemma dispatch_code h f : (dispatch h f).2 = if is_exit f then Some (Code f) else None.
Proof.
  unfold dispatch, is_exit. destruct (Z.eqb_spec (Type_ f) FrameExit) as [->|Hn]; [done|].
  by repeat case_match.
Qed.

(** The loop handles the frames in order up to and including the first exit
    frame and nothing after it, returns that frame's code, or minus one and an
    error when the frames end without one, and in every case fails the pending
    calls last. *)
Theorem ReadLoop_spec h pre post :
  Forall (λ f, is_exit f = false) pre →
  ReadLoop h pre = ((pre ≫= λ f, (dispatch h f).1) ++ [EffFailPending], -1, true) ∧
  ∀ f, is_exit f = true →
    ReadLoop h (pre ++ f :: post) =
      (((pre ++ [f]) ≫= λ f, (dispatch h f).1) ++ [EffFailPending], Code f, false).
Proof.
  induction 1 as [|g pre Hg _ [IH1 IH2]]; simpl.
  - split; [done|]. intros f Hf. pose proof (dispatch_code h f) as Hd. rewrite Hf in Hd.
    destruct (dispatch h f) as [effs code]. simpl in *. subst. by rewrite app_nil_r.
  - pose proof (dispatch_code h g) as Hd. rewrite Hg in Hd.
    destruct (dispatch h g) as [effs code]. simpl in *. subst. rewrite IH1. split; [by rewrite app_assoc|].
    intros f Hf. rewrite IH2 by done. by rewrite app_assoc.
Qed.

(** The frames before the first exit frame, and that frame. *)
Fixpoint before_exit (fs : list Frame) : list Frame * option Frame :=
  match fs with
  | [] => ([], None)
  | f :: fs => if is_exit f then ([], Some f) else let '(pre, o) := before_exit fs in (f :: pre, o)
  end.

Lemma before_exit_spec fs pre o :
  before_exit fs = (pre, o) →
  Forall (λ f, is_exit f = false) pre ∧
  match o with Some f => is_exit f = true ∧ ∃ post, fs = pre ++ f :: post | None => fs = pre end.
Proof.
  revert pre. induction fs as [|f fs IH]; simpl; intros pre H; [by simplify_eq|].
  destruct (is_exit f) eqn:E; [simplify_eq; split; [done|]; by eauto|].
  destruct (before_exit fs) as [pre' o']. simplify_eq.
  destruct (IH pre' eq_refl) as [? Ho]. split; [by constructor|].
  destruct o; [destruct Ho as (? & post & ->); by eauto|by subst].
Qed.

Lemma ReadLoop_before_exit h fs :
  ReadLoop h fs =
  let '(pre, o) := before_exit fs in
  match o with
  | Some f => (((pre ++ [f]) ≫= λ f, (dispatch h f).1) ++ [EffFailPending], Code f, false)
  | None => ((pre ≫= λ f, (dispatch h f).1) ++ [EffFailPending], -1, true)
  end.
Proof.
  destruct (before_exit fs) as [pre o] eqn:E. apply before_exit_spec in E as [Hpre Ho].
  destruct o as [f|].
  - destruct Ho as (Hf & post & ->). by apply ReadLoop_spec.
  - subst. by apply (ReadLoop_spec h pre []).
Qed.

(** The bytes written to stream [k], and the bytes the frames carry for it. *)
Definition written (k : Z) (effs : list effect) : string :=
  sconcat (omap (λ e, match e with EffWrite s d => if s =? k then Some d else None | _ => None end) effs).
Definition is_data (k : Z) (f : Frame) : bool := (Type_ f =? FrameData) && (Stream f =? k).
Definition stream_data (k : Z) (fs : list Frame) : string :=
  sconcat (omap (λ f, if is_data k f then Some (Data f) else None) fs).

Lemma stream_data_cons k f fs :
  stream_data k (f :: fs) = (if is_data k f then Data f else "") +:+ stream_data k fs.
Proof. unfold stream_data. simpl. by destruct (is_data k f). Qed.

Lemma stream_data_app k fs gs : stream_data k (fs ++ gs) = stream_data k fs +:+ stream_data k gs.
Proof. unfold stream_data. by rewrite omap_app, sconcat_app. Qed.

Lemma written_app k l1 l2 : written k (l1 ++ l2) = written k l1 +:+ written k l2.
Proof. unfold written. by rewrite omap_app, sconcat_app. Qed.

Lemma written_dispatch h k f :
  k ∈ streams h → written k (dispatch h f).1 = if is_data k f then Data f else "".
Proof.
  intros Hk. unfold dispatch, is_data.
  destruct (Z.eqb_spec (Type_ f) FrameExec) as [->|_]; [simpl; repeat case_match; done|].
  destruct (Z.eqb_spec (Type_ f) FrameData) as [_|_].
  - destruct (bool_decide (Stream f ∈ streams h)) eqn:Eb; cbn [andb].
    + destruct (Z.ltb_spec 0 (Z.of_nat (slen (Data f)))) as [Hl|Hl].
      * unfold written. simpl. destruct (Stream f =? k); [|done]. apply sapp_nil_r.
      * destruct (Data f); [|simpl in Hl; lia]. by destruct (Stream f =? k).
    + destruct (Z.eqb_spec (Stream f) k) as [<-|]; [|done]. by apply bool_decide_eq_false in Eb.
  - cbn [andb]. repeat case_match; done.
Qed.

(** The loop hands a registered stream the bytes of its data frames, in
    order, up to the exit frame. *)
Lemma written_ReadLoop h k fs effs code err :
  k ∈ streams h → ReadLoop h fs = (effs, code, err) →
  written k effs = stream_data k (before_exit fs).1.
Proof.
  intros Hk. rewrite ReadLoop_before_exit.
  destruct (before_exit fs) as [pre o] eqn:E. apply before_exit_spec in E as [_ Ho].
  assert (∀ l, written k (l ≫= λ f, (dispatch h f).1) = stream_data k l) as Hl.
  { induction l as [|f l IH]; [done|]. cbn [mbind list_bind]. rewrite written_app, written_dispatch, IH by done.
    unfold stream_data. simpl. by destruct (is_data k f). }
  destruct o as [f|]; intros; simplify_eq; rewrite written_app, Hl; simpl.
  - unfold stream_data. rewrite omap_app, sconcat_app. simpl.
    destruct Ho as [Hf _]. unfold is_exit in Hf. apply Z.eqb_eq in Hf.
    unfold is_data. rewrite Hf. simpl. by rewrite !sapp_nil_r.
  - by rewrite sapp_nil_r.
Qed.

(** ** Witnesses *)

Definition resp (id : Z) : FileOpResp := with_ReqID id resp0.

(** Two calls answered in reverse order. *)
Definition two_calls : list action :=
  [ABegin 0; ABegin 1; ARegister 1; ARegister 0; ASend 0 true; ASend 1 true;
   ADeliver (resp 2); APush; ADeliver (resp 7); ADeliver (resp 1); APush; AReceive 0; AReceive 1].

Definition after_two_calls : mux := default mux0 (acts two_calls mux0).

Lemma mux_responses_matched_witness :
  calls after_two_calls !! 1%nat = Some (CRet 2 (RespOk (resp 2))) ∧
  panicked after_two_calls = false ∧
  (∀ c id r, calls after_two_calls !! c = Some (CRet id (RespOk r)) ∨
             calls after_two_calls !! c = Some (CDone id (RespOk r)) → rs_ReqID r = id) ∧
  (∀ c1 c2 s1 s2, calls after_two_calls !! c1 = Some s1 → calls after_two_calls !! c2 = Some s2 →
     c1 ≠ c2 → call_id s1 ≠ call_id s2).
Proof.
  split; [vm_compute; reflexivity|].
  apply (mux_responses_matched two_calls after_two_calls); vm_compute; reflexivity.
Defined.

Definition early_call : list action := [ABegin 0; ARegister 0].
Definition ending : list action := [ASend 0 true; AClose; AClose].
Definition early : mux := default mux0 (acts early_call mux0).
Definition ended : mux := default mux0 (act AEnd early).
Definition stopped : mux := default mux0 (acts ending ended).

Lemma mux_end_unblocks_witness : is_Some (act (AReceive 0) stopped).
Proof.
  apply (mux_end_unblocks early_call ending early ended stopped 0 (CReg 1) 1); vm_compute; reflexivity.
Defined.

Definition frame (ty stream : Z) (data : string) (code : Z) : Frame :=
  mkFrame ty stream data 0 code "" None None None None None None None.
Definition agent_handlers : handlers :=
  mkHandlers {[1]} true true true true true (Some (λ _, None)).

Lemma ReadLoop_spec_witness :
  ReadLoop agent_handlers ([frame FrameData 1 "hi" 0; frame FrameData 9 "lost" 0] ++
                           frame FrameExit 0 "" 3 :: [frame FrameData 1 "late" 0]) =
  ([EffWrite 1 "hi"; EffExit 3 ""; EffFailPending], 3, false).
Proof.
  by apply (ReadLoop_spec agent_handlers [frame FrameData 1 "hi" 0; frame FrameData 9 "lost" 0]);
    [repeat constructor|].
Defined.
