(* ===== verification/AgentFS.v ===== *)
(** * AgentFS: file operations tunnelled through the agent

    Models both ends of the file-operation protocol: the agent's
    [FileOpServer] ([pkg/agentproto/fileop_server.go], [filemode.go],
    [fileop_stat_unix.go], [fileop_stat_linux.go]), which keeps a table of open
    files and performs [os] calls, and the client [agentFileClient]
    ([pkg/remote/docker/fileclient.go]), which implements the [FileClient]
    interface by one request per operation.  The operating system is a parameter:
    a function that answers the same requests as [FileClient], plus the directory
    listing with its per-entry [Info].  What becomes of a call on the connection
    (see [Mux]) is an argument.

    The refinement theorem says that client, wire encoding and server together do
    exactly what [spec_over] says: on a connection that delivers, the [os] call
    itself, with handles looked up in the table, modes cut to the bits a mode can
    carry, times to the range of an int64, and errors in the form the client gives
    them; on one that does not, an error, with or without the effect of the call. *)

From S2P Require Import Prelude GoStrings FileClient Mux.
Local Open Scope Z_scope.

(** ** filemode.go and fileModeToPOSIX *)

Definition ModeIrregular : Z := Z.shiftl 1 19.
Definition ModeType : Z :=
  foldr Z.lor 0 [ModeDir; ModeSymlink; ModeNamedPipe; ModeSocket; ModeDevice; ModeCharDevice; ModeIrregular].

Definition lor_if (c : bool) (bit out : Z) : Z := if c then Z.lor out bit else out.

Definition fileModeFromPOSIX (mode : Z) : Z :=
  lor_if (has mode o1000 || has mode ModeSticky) ModeSticky
    (lor_if (has mode o2000 || has mode ModeSetgid) ModeSetgid
      (lor_if (has mode o4000 || has mode ModeSetuid) ModeSetuid (Z.land mode o777))).

Definition modeFromUnix (mode : Z) : Z :=
  let out := fileModeFromPOSIX mode in
  let ty := Z.land mode o170000 in
  if ty =? o40000 then Z.lor out ModeDir
  else if ty =? o120000 then Z.lor out ModeSymlink
  else if ty =? o10000 then Z.lor out ModeNamedPipe
  else if ty =? o140000 then Z.lor out ModeSocket
  else if ty =? o60000 then Z.lor out ModeDevice
  else if ty =? o20000 then Z.lor out (Z.lor ModeDevice ModeCharDevice)
  else out.

Definition fileModeToPOSIX (mode : Z) : Z :=
  lor_if (has mode ModeSticky) o1000
    (lor_if (has mode ModeSetgid) o2000
      (lor_if (has mode ModeSetuid) o4000 (Perm mode))).

(** ** Stat data *)

Definition fillStatTimes (s : FileStat) (st : Stat_t) : FileStat :=
  mkFileStat (fs_Name s) (fs_Size s) (fs_Mode s) (st_Mtim st) (st_Atim st) (st_Ctim st)
    (fs_UID s) (fs_GID s) (fs_Nlink s) (fs_Rdev s) (fs_Blocks s) (fs_Blksize s) (fs_Ino s) (fs_IsDir s).
Definition augmentStatFromSys (s : FileStat) (sys : Sys) : FileStat :=
  match sys with
  | SysStat (Some st) =>
      fillStatTimes
        (mkFileStat (fs_Name s) (fs_Size s) (fs_Mode s) (fs_MTimeNanos s) (fs_ATimeNanos s) (fs_CTimeNanos s)
          (st_Uid st) (st_Gid st) (u32 (st_Nlink st)) (u32 (st_Rdev st)) (u64 (st_Blocks st))
          (u32 (st_Blksize st)) (u64 (st_Ino st)) (fs_IsDir s)) st
  | _ => s
  end.
Definition unixModeFromSys (sys : Sys) : option Z :=
  match sys with SysStat (Some st) => Some (u32 (st_Mode st)) | _ => None end.

Definition statFromInfo (info : FileInfo) : FileStat :=
  let mode := fi_Mode info in
  let mode :=
    if Z.land mode ModeType =? ModeIrregular then
      match unixModeFromSys (fi_Sys info) with
      | Some sysMode => Z.lor (modeFromUnix sysMode) (Perm mode)
      | None => mode
      end
    else mode in
  augmentStatFromSys
    (mkFileStat (fi_Name info) (fi_Size info) (u32 mode) (fi_ModTime info) 0 0 0 0 0 0 0 0 0 (fi_IsDir info))
    (fi_Sys info).

(** [statInfo]: the client's view of a [FileStat]. *)
Definition statInfo (s : FileStat) : FileInfo :=
  mkFI (fs_Name s) (fs_Size s) (fs_Mode s) (fs_MTimeNanos s) (fs_IsDir s) (SysAgent s).

(** ** The server *)

Record server := mkServer { handles : gmap Z handle; next : Z }.

Definition put (s : server) (f : handle) : Z * server :=
  let n := u32 (next s + 1) in
  let n := if n =? 0 then 1 else n in
  (n, mkServer (<[n := f]> (handles s)) n).
Definition get (s : server) (h : Z) : option handle := handles s !! h.
Definition take_ (s : server) (h : Z) : option handle * server :=
  (handles s !! h, mkServer (delete h (handles s)) (next s)).

Section agent.
Context {W : Type}.
(** The operating system; [os_readdir] is [os.ReadDir] with the [Info] of every
    entry, each of which may fail on its own. *)
Variable os : ∀ r : req, W → reply r * W.
Variable os_readdir : string → W → result go_err (list (result go_err FileInfo)) * W.
(** [err.Error()] *)
Variable Error : go_err → string.

Definition errno_of_err (e : go_err) : Z :=
  match e with
  | EErrno n => u32 n
  | ENotExist => Errno.ENOENT
  | EPermission => Errno.EACCES
  | EExist => Errno.EEXIST
  | EInvalid => Errno.EINVAL
  | EEOF | EOther => Errno.EIO
  end.

Definition errResp (e : go_err) : FileOpResp :=
  mkResp 0 (errno_of_err e) (Error e) 0 "" 0 false "" None None [].

Definition EBADF : go_err := EErrno Errno.EBADF.

(** Responses with one field set. *)
Definition resp_handle (h : Z) : FileOpResp := mkResp 0 0 "" h "" 0 false "" None None [].
Definition resp_path (p : string) : FileOpResp := mkResp 0 0 "" 0 "" 0 false p None None [].
Definition resp_stat (s : FileStat) : FileOpResp := mkResp 0 0 "" 0 "" 0 false "" (Some s) None [].
Definition resp_statfs (s : Statfs) : FileOpResp := mkResp 0 0 "" 0 "" 0 false "" None (Some s) [].
Definition resp_data (d : string) (eof : bool) : FileOpResp :=
  mkResp 0 0 "" 0 d (Z.of_nat (slen d)) eof "" None None [].
Definition resp_n (n : Z) : FileOpResp := mkResp 0 0 "" 0 "" n false "" None None [].
Definition resp_entries (l : list FileStat) : FileOpResp := mkResp 0 0 "" 0 "" 0 false "" None None l.
Definition with_N (n : Z) (r : FileOpResp) : FileOpResp :=
  mkResp (rs_ReqID r) (rs_Errno r) (rs_ErrMsg r) (rs_Handle r) (rs_Data r) n (rs_EOF r) (rs_Path r)
    (rs_Stat r) (rs_Statfs r) (rs_Entries r).

(** Shapes of the cases of [Handle]: open a file, a call without result, a call
    with one. *)
Definition serve_open (s : server) (x : result go_err handle * W) : FileOpResp * server * W :=
  match x.1 with
  | Err e => (errResp e, s, x.2)
  | Ok f => let '(h, s') := put s f in (resp_handle h, s', x.2)
  end.
Definition serve_unit (s : server) (x : option go_err * W) : FileOpResp * server * W :=
  (match x.1 with Some e => errResp e | None => resp0 end, s, x.2).
Definition serve_val {A} (k : A → FileOpResp) (s : server) (x : result go_err A * W)
    : FileOpResp * server * W :=
  (match x.1 with Err e => errResp e | Ok a => k a end, s, x.2).
(** A case that needs an open file. *)
Definition with_file (s : server) (w : W) (h : Z) (k : handle → FileOpResp * server * W)
    : FileOpResp * server * W :=
  match get s h with None => (errResp EBADF, s, w) | Some f => k f end.

(** The loop over the directory entries. *)
Fixpoint collect (l : list (result go_err FileInfo)) : result go_err (list FileStat) :=
  match l with
  | [] => Ok []
  | Err e :: _ => Err e
  | Ok i :: l => match collect l with Ok r => Ok (statFromInfo i :: r) | Err e => Err e end
  end.

Definition Handle (s : server) (w : W) (q : FileOpReq) : FileOpResp * server * W :=
  match Op q with
  | 1 => serve_open s (os (FOpen (rq_Path q)) w)
  | 2 => serve_open s (os (FCreate (rq_Path q)) w)
  | 3 => serve_open s (os (FOpenFile (rq_Path q) (rq_Flags q) (fileModeFromPOSIX (rq_Mode q))) w)
  | 4 =>
      let '(f, s') := take_ s (rq_Handle q) in
      match f with
      | None => (errResp EBADF, s', w)
      | Some f => serve_unit s' (os (HClose f) w)
      end
  | 5 =>
      with_file s w (rq_Handle q) (λ f,
        if rq_Size q <=? 0 then (resp0, s, w)
        else let '((d, err), w') := os (HReadAt f (rq_Offset q) (rq_Size q)) w in
             match err with
             | None => (resp_data d false, s, w')
             | Some EEOF => (resp_data d true, s, w')
             | Some e => (errResp e, s, w')
             end)
  | 6 =>
      with_file s w (rq_Handle q) (λ f,
        let '((n, err), w') :=
          if rq_Offset q <? 0 then os (HWrite f (rq_Data q)) w
          else os (HWriteAt f (rq_Data q) (rq_Offset q)) w in
        (match err with None => resp_n n | Some e => with_N n (errResp e) end, s, w'))
  | 7 => serve_val (λ i, resp_stat (statFromInfo i)) s (os (FStat (rq_Path q)) w)
  | 8 => serve_val (λ i, resp_stat (statFromInfo i)) s (os (FLstat (rq_Path q)) w)
  | 9 =>
      let '(x, w') := os_readdir (rq_Path q) w in
      (match x with
       | Err e => errResp e
       | Ok l => match collect l with Err e => errResp e | Ok l => resp_entries l end
       end, s, w')
  | 10 => serve_unit s (os (FMkdir (rq_Path q) (fileModeFromPOSIX (rq_Mode q))) w)
  | 11 => serve_unit s (os (FMkdirAll (rq_Path q) (fileModeFromPOSIX (rq_Mode q))) w)
  | 12 => serve_unit s (os (FRemove (rq_Path q)) w)
  | 13 => serve_unit s (os (FRename (rq_Path q) (rq_NewPath q)) w)
  | 14 => serve_unit s (os (FChmod (rq_Path q) (fileModeFromPOSIX (rq_Mode q))) w)
  | 15 => serve_unit s (os (FTruncate (rq_Path q) (rq_Size q)) w)
  | 16 => serve_val resp_path s (os FGetwd w)
  | 17 => with_file s w (rq_Handle q) (λ f, serve_unit s (os (HSync f) w))
  | 18 => serve_val resp_path s (os (FReadlink (rq_Path q)) w)
  | 19 => serve_unit s (os (FSymlink (rq_Path q) (rq_NewPath q)) w)
  | 20 => serve_unit s (os (FLink (rq_Path q) (rq_NewPath q)) w)
  | 21 => serve_unit s (os (FChown (rq_Path q) (rq_UID q) (rq_GID q)) w)
  | 22 => serve_unit s (os (FChtimes (rq_Path q) (rq_AtimeNanos q) (rq_MTimeNanos q)) w)
  | 23 => serve_val resp_statfs s (os (FStatfs (rq_Path q)) w)
  | 24 => with_file s w (rq_Handle q) (λ f,
            serve_val (λ i, resp_stat (statFromInfo i)) s (os (HStat f) w))
  | 25 => with_file s w (rq_Handle q) (λ f, serve_unit s (os (HTruncate f (rq_Size q)) w))
  | _ => (mkResp 0 Errno.ENOSYS "unknown file op" 0 "" 0 false "" None None [], s, w)
  end.

(** [CloseAll]: every open file is closed, errors ignored; the map is walked in
    an order of Go's choosing, here that of [map_to_list]. *)
Definition CloseAll (s : server) (w : W) : server * W :=
  (mkServer ∅ (next s),
   fold_left (λ w hf, (os (HClose hf.2) w).2) (map_to_list (handles s)) w).
End agent.

(** ** The client *)

(** What the client keeps per open file: its open flags and, for sequential
    writes, its position. *)
Record client := mkClient { c_flags : gmap Z Z; c_pos : gmap Z Z }.

(** What becomes of a request on the connection: it is answered; it is not sent or not
    served ([Send] fails, the connection or the context ends first); it is served and its
    answer does not arrive.  [Mux.FileOp] never returns a nil response without an error, but
    the client tests for one. *)
Inductive transport : Type := Delivered | NotServed | AnswerLost | NilResponse.

Section client.
Context {W : Type}.
Variable os : ∀ r : req, W → reply r * W.
Variable os_readdir : string → W → result go_err (list (result go_err FileInfo)) * W.
Variable Error : go_err → string.
Variable link : transport.

Record agent := mkAgent { srv : server; cli : client; osw : W }.

Definition errnoToErr (r : FileOpResp) : go_err :=
  let n := rs_Errno r in
  if n =? Errno.ENOENT then ENotExist
  else if n =? Errno.EACCES then EPermission
  else if n =? Errno.EEXIST then EExist
  else if n =? Errno.EINVAL then EInvalid
  else if negb (n =? 0) then EErrno n
  else EOther.

(** [Mux.FileOp] and the server behind it: the response (or nil), or an error. *)
Definition FileOp (a : agent) (q : FileOpReq) : result go_err (option FileOpResp) * agent :=
  let '(r, s, w) := Handle os os_readdir Error (srv a) (osw a) q in
  match link with
  | Delivered => (Ok (Some r), mkAgent s (cli a) w)
  | NotServed => (Err EOther, a)
  | AnswerLost => (Err EOther, mkAgent s (cli a) w)
  | NilResponse => (Ok None, a)
  end.

(** [do]: the response, or an error and the response when there is one. *)
Definition do (a : agent) (q : FileOpReq) : result (go_err * option FileOpResp) FileOpResp * agent :=
  let '(x, a') := FileOp a q in
  (match x with
   | Err e => Err (e, None)
   | Ok None => Err (EOther, None)
   | Ok (Some r) =>
       if negb (rs_Errno r =? 0) || negb (String.eqb (rs_ErrMsg r) "") then Err (errnoToErr r, Some r) else Ok r
   end, a').

(** Requests with the fields the client sets. *)
Definition rq (op : Z) (p np : string) (fl mo uid gid h off sz at_ mt : Z) (d : string) : FileOpReq :=
  mkReq 0 op p np fl mo uid gid h off sz at_ mt d.
Definition rq_p (op : Z) (p : string) : FileOpReq := rq op p "" 0 0 0 0 0 0 0 0 0 "".
Definition rq_pp (op : Z) (p np : string) : FileOpReq := rq op p np 0 0 0 0 0 0 0 0 0 "".
Definition rq_pm (op : Z) (p : string) (mode : Z) : FileOpReq :=
  rq op p "" 0 (fileModeToPOSIX mode) 0 0 0 0 0 0 0 "".
Definition rq_h (op h : Z) : FileOpReq := rq op "" "" 0 0 0 0 h 0 0 0 0 "".

(** A call without result, with a result, and one that opens a file. *)
Definition call_unit (q : FileOpReq) (a : agent) : option go_err * agent :=
  let '(x, a') := do a q in (match x with Err (e, _) => Some e | Ok _ => None end, a').
Definition call_val {A} (k : FileOpResp → result go_err A) (q : FileOpReq) (a : agent)
    : result go_err A * agent :=
  let '(x, a') := do a q in (match x with Err (e, _) => Err e | Ok r => k r end, a').
Definition register (a : agent) (h flags : Z) : agent :=
  mkAgent (srv a) (mkClient (<[h := flags]> (c_flags (cli a))) (<[h := 0]> (c_pos (cli a)))) (osw a).
Definition call_open (q : FileOpReq) (flags : Z) (a : agent) : result go_err handle * agent :=
  let '(x, a') := do a q in
  match x with
  | Err (e, _) => (Err e, a')
  | Ok r => (Ok (rs_Handle r), register a' (rs_Handle r) flags)
  end.

Definition get_stat (r : FileOpResp) : result go_err FileInfo :=
  match rs_Stat r with Some s => Ok (statInfo s) | None => Err EOther end.

Definition O_APPEND : Z := o2000.
Definition appending (a : agent) (h : Z) : bool := has (default 0 (c_flags (cli a) !! h)) O_APPEND.
Definition pos (a : agent) (h : Z) : Z := default 0 (c_pos (cli a) !! h).
Definition advance (a : agent) (h n : Z) : agent :=
  mkAgent (srv a) (mkClient (c_flags (cli a)) (<[h := swrap 64 (pos a h + n)]> (c_pos (cli a)))) (osw a).

(** [writeAt]; after an error the count is that of the response, if there is one. *)
Definition respN (r : option FileOpResp) : Z := match r with None => 0 | Some r => rs_N r end.
Definition writeAt (h : Z) (data : string) (off : Z) (a : agent) : (Z * option go_err) * agent :=
  let '(x, a') := do a (rq 6 "" "" 0 0 0 0 h off 0 0 0 data) in
  (match x with Err (e, r) => (respN r, Some e) | Ok r => (rs_N r, None) end, a').

(** The methods of the two kinds of open files. *)
Definition remoteFile_ReadAt (h off size : Z) (a : agent) : (string * option go_err) * agent :=
  let '(x, a') := do a (rq 5 "" "" 0 0 0 0 h off size 0 0 "") in
  match x with
  | Err (e, _) => (("", Some e), a')
  | Ok r => ((stake (Z.to_nat size) (rs_Data r), if rs_EOF r then Some EEOF else None), a')
  end.
Definition remoteFile_Close (h : Z) : agent → option go_err * agent := call_unit (rq_h 4 h).
Definition remoteFile_Sync (h : Z) : agent → option go_err * agent := call_unit (rq_h 17 h).
Definition remoteWriteFile_Write (h : Z) (data : string) (a : agent) : (Z * option go_err) * agent :=
  if appending a h then writeAt h data (-1) a
  else let '((n, e), a') := writeAt h data (pos a h) a in ((n, e), advance a' h n).
Definition remoteWriteFile_WriteAt (h : Z) (data : string) (off : Z) (a : agent) : (Z * option go_err) * agent :=
  if appending a h then writeAt h data (-1) a else writeAt h data off a.
Definition remoteWriteFile_Truncate (h sz : Z) : agent → option go_err * agent :=
  call_unit (rq 25 "" "" 0 0 0 0 h 0 sz 0 0 "").

(** Reading through a writable file. *)
Definition remoteWriteFile_ReadAt (h off size : Z) (a : agent) : (Z * string * option go_err) * agent :=
  let '(x, a') := do a (rq 5 "" "" 0 0 0 0 h off size 0 0 "") in
  match x with
  | Err (e, r) => ((respN r, "", Some e), a')
  | Ok r =>
      let d := stake (Z.to_nat size) (rs_Data r) in
      ((Z.of_nat (slen d), d, if rs_EOF r then Some EEOF else None), a')
  end.
Definition remoteWriteFile_Stat (h : Z) : agent → result go_err FileInfo * agent := call_val get_stat (rq_h 24 h).
Definition remoteWriteFile_Sync (h : Z) : agent → option go_err * agent := call_unit (rq_h 17 h).
Definition remoteWriteFile_Close (h : Z) : agent → option go_err * agent := call_unit (rq_h 4 h).

(** [UnixNano]: an int64, which wraps outside the years 1678 to 2262. *)
Definition UnixNano (t : Z) : Z := swrap 64 t.

Definition agent_call_over (r : req) : agent → reply r * agent :=
  match r return agent → reply r * agent with
  | FOpen p => call_open (rq_p 1 p) 0
  | FCreate p => call_open (rq_p 2 p) 0
  | FOpenFile p flags mode =>
      call_open (rq 3 p "" (swrap 32 flags) (fileModeToPOSIX mode) 0 0 0 0 0 0 0 "") flags
  | FStat p => call_val get_stat (rq_p 7 p)
  | FLstat p => call_val get_stat (rq_p 8 p)
  | FReadDir p => call_val (λ r, Ok (statInfo <$> rs_Entries r)) (rq_p 9 p)
  | FReadlink p => call_val (λ r, Ok (rs_Path r)) (rq_p 18 p)
  | FMkdir p mode => call_unit (rq_pm 10 p mode)
  | FMkdirAll p mode => call_unit (rq_pm 11 p mode)
  | FRemove p => call_unit (rq_p 12 p)
  | FRename p q => call_unit (rq_pp 13 p q)
  | FSymlink t p => call_unit (rq_pp 19 t p)
  | FLink p q => call_unit (rq_pp 20 p q)
  | FChmod p mode => call_unit (rq_pm 14 p mode)
  | FChown p uid gid => call_unit (rq 21 p "" 0 0 (u32 uid) (u32 gid) 0 0 0 0 0 "")
  | FChtimes p at_ mt => call_unit (rq 22 p "" 0 0 0 0 0 0 0 (UnixNano at_) (UnixNano mt) "")
  | FTruncate p sz => call_unit (rq 15 p "" 0 0 0 0 0 0 sz 0 0 "")
  | FStatfs p =>
      call_val (λ r, match rs_Statfs r with Some s => Ok s | None => Err EOther end) (rq_p 23 p)
  | FGetwd => call_val (λ r, Ok (rs_Path r)) (rq_p 16 "")
  | HReadAt h off size => remoteFile_ReadAt h off size
  | HWrite h data => remoteWriteFile_Write h data
  | HWriteAt h data off => remoteWriteFile_WriteAt h data off
  | HStat h => call_val get_stat (rq_h 24 h)
  | HTruncate h sz => remoteWriteFile_Truncate h sz
  | HSync h => remoteFile_Sync h
  | HClose h => remoteFile_Close h
  end.

(** A file opened for writing reads like one opened for reading, and the count it returns is
    that of the bytes it gives, also after an error. *)
Lemma write_file_reads h off size a :
  let '((n, d, e), a') := remoteWriteFile_ReadAt h off size a in
  remoteFile_ReadAt h off size a = ((d, e), a') ∧ n = Z.of_nat (slen d).
Proof.
  unfold remoteWriteFile_ReadAt, remoteFile_ReadAt, do, FileOp. destruct (Handle _ _ _ _ _ _) as [[r s] w] eqn:Hh.
  destruct link; try done.
  destruct (negb (rs_Errno r =? 0) || negb (String.eqb (rs_ErrMsg r) "")) eqn:Ee; [|done]. split; [done|].
  cbn [Handle rq Op] in Hh. unfold with_file in Hh. cbn [respN].
  repeat (case_match; simplify_eq); try done; cbn in Ee |- *; try done.
Qed.

(** ** The specification *)

(** The bits of a mode that survive. *)
Definition mode_bits : Z := Z.lor (Z.lor (Z.lor o777 ModeSetuid) ModeSetgid) ModeSticky.
Definition wire_mode (mode : Z) : Z := Z.land mode mode_bits.

(** How an error reaches the caller. *)
Definition wire_err (e : go_err) : go_err :=
  match e with
  | EErrno n =>
      let m := u32 n in
      if m =? 0 then EOther
      else if m =? Errno.ENOENT then ENotExist
      else if m =? Errno.EACCES then EPermission
      else if m =? Errno.EEXIST then EExist
      else if m =? Errno.EINVAL then EInvalid
      else EErrno m
  | EEOF | EOther => EErrno Errno.EIO
  | _ => e
  end.

Definition wire_info (i : FileInfo) : FileInfo := statInfo (statFromInfo i).

Definition with_os (a : agent) (w : W) : agent := mkAgent (srv a) (cli a) w.

Definition spec_unit (x : option go_err * W) (a : agent) : option go_err * agent :=
  (wire_err <$> x.1, with_os a x.2).
Definition spec_val {A B} (k : A → B) (x : result go_err A * W) (a : agent) : result go_err B * agent :=
  (match x.1 with Ok v => Ok (k v) | Err e => Err (wire_err e) end, with_os a x.2).
(** A new file gets the next handle. *)
Definition spec_open (x : result go_err handle * W) (flags : Z) (a : agent) : result go_err handle * agent :=
  match x.1 with
  | Err e => (Err (wire_err e), with_os a x.2)
  | Ok f => let '(h, s) := put (srv a) f in (Ok h, register (mkAgent s (cli a) x.2) h flags)
  end.
(** An operation on an open file. *)
Definition spec_file {A} (a : agent) (h : Z) (bad : A) (k : handle → A * agent) : A * agent :=
  match get (srv a) h with None => (bad, a) | Some f => k f end.

Definition spec_write (h : Z) (data : string) (off : Z) (a : agent) : (Z * option go_err) * agent :=
  spec_file a h (0, Some EBADF) (λ f,
    let '((n, e), w) :=
      if off <? 0 then os (HWrite f data) (osw a) else os (HWriteAt f data off) (osw a) in
    ((n, wire_err <$> e), with_os a w)).

Fixpoint sequence_infos (l : list (result go_err FileInfo)) : result go_err (list FileInfo) :=
  match l with
  | [] => Ok []
  | Err e :: _ => Err e
  | Ok i :: l => match sequence_infos l with Ok r => Ok (i :: r) | Err e => Err e end
  end.

Definition spec_call (r : req) : agent → reply r * agent :=
  match r return agent → reply r * agent with
  | FOpen p => λ a, spec_open (os (FOpen p) (osw a)) 0 a
  | FCreate p => λ a, spec_open (os (FCreate p) (osw a)) 0 a
  | FOpenFile p flags mode => λ a,
      spec_open (os (FOpenFile p (swrap 32 flags) (wire_mode mode)) (osw a)) flags a
  | FStat p => λ a, spec_val wire_info (os (FStat p) (osw a)) a
  | FLstat p => λ a, spec_val wire_info (os (FLstat p) (osw a)) a
  | FReadDir p => λ a,
      let '(x, w) := os_readdir p (osw a) in
      spec_val (λ l, wire_info <$> l)
        (match x with Ok l => sequence_infos l | Err e => Err e end, w) a
  | FReadlink p => λ a, spec_val (λ t, t) (os (FReadlink p) (osw a)) a
  | FMkdir p mode => λ a, spec_unit (os (FMkdir p (wire_mode mode)) (osw a)) a
  | FMkdirAll p mode => λ a, spec_unit (os (FMkdirAll p (wire_mode mode)) (osw a)) a
  | FRemove p => λ a, spec_unit (os (FRemove p) (osw a)) a
  | FRename p q => λ a, spec_unit (os (FRename p q) (osw a)) a
  | FSymlink t p => λ a, spec_unit (os (FSymlink t p) (osw a)) a
  | FLink p q => λ a, spec_unit (os (FLink p q) (osw a)) a
  | FChmod p mode => λ a, spec_unit (os (FChmod p (wire_mode mode)) (osw a)) a
  | FChown p uid gid => λ a, spec_unit (os (FChown p (u32 uid) (u32 gid)) (osw a)) a
  | FChtimes p at_ mt => λ a, spec_unit (os (FChtimes p (UnixNano at_) (UnixNano mt)) (osw a)) a
  | FTruncate p sz => λ a, spec_unit (os (FTruncate p sz) (osw a)) a
  | FStatfs p => λ a, spec_val (λ s, s) (os (FStatfs p) (osw a)) a
  | FGetwd => λ a, spec_val (λ t, t) (os FGetwd (osw a)) a
  | HReadAt h off size => λ a,
      spec_file a h ("", Some EBADF) (λ f,
        if size <=? 0 then (("", None), a)
        else let '((d, e), w) := os (HReadAt f off size) (osw a) in
             (match e with
              | None => (stake (Z.to_nat size) d, None)
              | Some EEOF => (stake (Z.to_nat size) d, Some EEOF)
              | Some e => ("", Some (wire_err e))
              end, with_os a w))
  | HWrite h data => λ a,
      if appending a h then spec_write h data (-1) a
      else let '((n, e), a') := spec_write h data (pos a h) a in ((n, e), advance a' h n)
  | HWriteAt h data off => λ a,
      if appending a h then spec_write h data (-1) a else spec_write h data off a
  | HStat h => λ a,
      spec_file a h (Err EBADF) (λ f, spec_val wire_info (os (HStat f) (osw a)) a)
  | HTruncate h sz => λ a, spec_file a h (Some EBADF) (λ f, spec_unit (os (HTruncate f sz) (osw a)) a)
  | HSync h => λ a, spec_file a h (Some EBADF) (λ f, spec_unit (os (HSync f) (osw a)) a)
  | HClose h => λ a,
      spec_file a h (Some EBADF) (λ f,
        let '(x, w) := os (HClose f) (osw a) in
        (wire_err <$> x, mkAgent (mkServer (delete h (handles (srv a))) (next (srv a))) (cli a) w))
  end.

(** The reply to a call that got no answer. *)
Definition failed (r : req) : reply r :=
  match r return reply r with
  | FOpen _ | FCreate _ | FOpenFile _ _ _ | FStat _ | FLstat _ | FReadDir _ | FReadlink _ | FStatfs _ | FGetwd
  | HStat _ => Err EOther
  | HReadAt _ _ _ => ("", Some EOther)
  | HWrite _ _ | HWriteAt _ _ _ => (0, Some EOther)
  | FMkdir _ _ | FMkdirAll _ _ | FRemove _ | FRename _ _ | FSymlink _ _ | FLink _ _ | FChmod _ _
  | FChown _ _ _ | FChtimes _ _ _ | FTruncate _ _ | HTruncate _ _ | HSync _ | HClose _ => Some EOther
  end.
(** The client then remembers nothing new; a sequential write stays where it was. *)
Definition unmoved (r : req) (a : agent) : agent :=
  match r with HWrite h _ => if appending a h then a else advance a h 0 | _ => a end.

Definition spec_over (r : req) (a : agent) : reply r * agent :=
  match link with
  | Delivered => spec_call r a
  | NotServed | NilResponse => (failed r, unmoved r a)
  | AnswerLost =>
      let a' := (spec_call r a).2 in (failed r, unmoved r (mkAgent (srv a') (cli a) (osw a')))
  end.
End client.

(** The calls on a connection that delivers. *)
Definition agent_call {W} (os : ∀ r : req, W → reply r * W) os_readdir Error : ∀ r : req, agent → reply r * agent :=
  agent_call_over os os_readdir Error Delivered.

(** ** Modes over the wire *)

Lemma has_lor x y b : has (Z.lor x y) b = has x b || has y b.
Proof.
  unfold has. rewrite Z.land_lor_distr_l. rewrite <- negb_andb. f_equal.
  destruct (Z.eqb_spec (Z.lor (Z.land x b) (Z.land y b)) 0) as [Hz|Hz].
  - apply Z.lor_eq_0_iff in Hz as [-> ->]. done.
  - symmetry. apply andb_false_iff. rewrite !Z.eqb_neq.
    destruct (decide (Z.land x b = 0)) as [Hx|]; [right|by left]. intros Hy. by rewrite Hx, Hy in Hz.
Qed.

Lemma has_lor_if c bit x b : has (lor_if c bit x) b = has x b || (c && has bit b).
Proof. destruct c; simpl; [by rewrite has_lor|by rewrite orb_false_r]. Qed.

Lemma has_mask m k b : Z.land k b = 0 → has (Z.land m k) b = false.
Proof. intros Hb. unfold has. by rewrite <- Z.land_assoc, Hb, Z.land_0_r. Qed.

Lemma land_lor_if c bit x k :
  Z.land bit k = 0 → Z.land (lor_if c bit x) k = Z.land x k.
Proof. intros Hb. destruct c; simpl; [|done]. by rewrite Z.land_lor_distr_l, Hb, Z.lor_0_r. Qed.

(** One bit of a mode. *)
Lemma land_bit m k : 0 ≤ k → Z.land m (2 ^ k) = if has m (2 ^ k) then 2 ^ k else 0.
Proof.
  intros Hk. assert (Z.land m (2 ^ k) = if Z.testbit m k then 2 ^ k else 0) as Hl.
  { apply Z.bits_inj'. intros n Hn. rewrite Z.land_spec, (Z.pow2_bits_eqb k n Hk).
    destruct (Z.eqb_spec k n) as [->|].
    - rewrite andb_true_r. destruct (Z.testbit m n); [by rewrite Z.pow2_bits_true|by rewrite Z.bits_0].
    - rewrite andb_false_r. destruct (Z.testbit m k); [by rewrite Z.pow2_bits_false|by rewrite Z.bits_0]. }
  unfold has. rewrite Hl. destruct (Z.testbit m k); [|done].
  pose proof (Z.pow_pos_nonneg 2 k). by rewrite (proj2 (Z.eqb_neq (2 ^ k) 0)) by lia.
Qed.

Lemma lor_if_land m k x : 0 ≤ k → lor_if (has m (2 ^ k)) (2 ^ k) x = Z.lor x (Z.land m (2 ^ k)).
Proof. intros Hk. rewrite land_bit by done. destruct (has m (2 ^ k)); simpl; by rewrite ?Z.lor_0_r. Qed.

Lemma mode_wire mode : fileModeFromPOSIX (fileModeToPOSIX mode) = wire_mode mode.
Proof.
  unfold fileModeFromPOSIX. set (p := fileModeToPOSIX mode).
  assert (has p o1000 = has mode ModeSticky ∧ has p ModeSticky = false ∧
          has p o2000 = has mode ModeSetgid ∧ has p ModeSetgid = false ∧
          has p o4000 = has mode ModeSetuid ∧ has p ModeSetuid = false ∧
          Z.land p o777 = Z.land mode o777) as (-> & -> & -> & -> & -> & -> & ->).
  { unfold p, fileModeToPOSIX. rewrite !has_lor_if, !land_lor_if by done. unfold Perm.
    rewrite !has_mask by done. rewrite <- Z.land_assoc.
    split_and!; simpl; by destruct (has mode ModeSticky), (has mode ModeSetgid), (has mode ModeSetuid). }
  rewrite !orb_false_r. unfold wire_mode, mode_bits. rewrite !Z.land_lor_distr_r.
  change ModeSticky with (2 ^ 20). change ModeSetgid with (2 ^ 22). change ModeSetuid with (2 ^ 23).
  by rewrite !lor_if_land by done.
Qed.

(** ** Refinement *)

Ltac unfold_files :=
  unfold remoteFile_ReadAt, remoteFile_Close, remoteFile_Sync, remoteWriteFile_Write, remoteWriteFile_WriteAt,
    remoteWriteFile_Truncate.

Section refinement.
Context {W : Type}.
Variable os : ∀ r : req, W → reply r * W.
Variable os_readdir : string → W → result go_err (list (result go_err FileInfo)) * W.
Variable Error : go_err → string.
(** Errors have a text. *)
Hypothesis Error_text : ∀ e, Error e ≠ "".

Local Abbreviation call := (agent_call_over os os_readdir Error Delivered).
Local Abbreviation spec := (spec_call os os_readdir).

Lemma errResp_err e n :
  let r := with_N n (errResp Error e) in
  (if negb (rs_Errno r =? 0) || negb (String.eqb (rs_ErrMsg r) "") then Err (errnoToErr r, Some r) else Ok r) =
  Err (wire_err e, Some r).
Proof.
  simpl. rewrite (proj2 (String.eqb_neq _ _) (Error_text e)), orb_true_r. do 2 f_equal.
  unfold errnoToErr. simpl. destruct e as [k| | | | | |]; try done. simpl.
  generalize (u32 k). intros m. destruct (Z.eqb_spec m 0) as [->|]; done.
Qed.

Lemma errResp_err0 e :
  let r := errResp Error e in
  (if negb (rs_Errno r =? 0) || negb (String.eqb (rs_ErrMsg r) "") then Err (errnoToErr r, Some r) else Ok r) =
  Err (wire_err e, Some r).
Proof. apply (errResp_err e 0). Qed.

Lemma collect_infos l :
  match collect l with
  | Ok r => ∃ k, sequence_infos l = Ok k ∧ r = statFromInfo <$> k
  | Err e => sequence_infos l = Err e
  end.
Proof.
  induction l as [|[i|e] l IH]; simpl; [by exists []| |done].
  destruct (collect l) as [r|e]; [|by rewrite IH]. destruct IH as (k & -> & ->). by exists (i :: k).
Qed.

(** Client, wire and server on the three shapes of an operation. *)
Lemma call_unit_spec q a (x : option go_err * W) :
  Handle os os_readdir Error (srv a) (osw a) q = serve_unit Error (srv a) x →
  call_unit os os_readdir Error Delivered q a = spec_unit x a.
Proof.
  intros Hh. unfold call_unit, do, FileOp. rewrite Hh. destruct x as [[e|] w]; unfold serve_unit; simpl fst; [|done].
  cbv beta iota zeta. by rewrite errResp_err0.
Qed.

Lemma call_val_spec {A B} (k : A → FileOpResp) (k' : FileOpResp → result go_err B) (g : A → B) q a
    (x : result go_err A * W) :
  Handle os os_readdir Error (srv a) (osw a) q = serve_val Error k (srv a) x →
  (∀ v, rs_Errno (k v) = 0 ∧ rs_ErrMsg (k v) = "" ∧ k' (k v) = Ok (g v)) →
  call_val os os_readdir Error Delivered k' q a = spec_val g x a.
Proof.
  intros Hh Hk. unfold call_val, do, FileOp. rewrite Hh. destruct x as [[v|e] w]; unfold serve_val; simpl fst.
  - destruct (Hk v) as (He & Hm & Hv). cbv beta iota zeta. rewrite He, Hm. simpl. by rewrite Hv.
  - cbv beta iota zeta. by rewrite errResp_err0.
Qed.

Lemma call_open_spec q a flags (x : result go_err handle * W) :
  Handle os os_readdir Error (srv a) (osw a) q = serve_open Error (srv a) x →
  call_open os os_readdir Error Delivered q flags a = spec_open x flags a.
Proof.
  intros Hh. unfold call_open, do, FileOp. rewrite Hh. destruct x as [[f|e] w]; unfold serve_open, spec_open; simpl fst.
  - by destruct (put (srv a) f) as [h s].
  - cbv beta iota zeta. by rewrite errResp_err0.
Qed.

(** An operation on a handle that is not open. *)
Lemma do_bad_handle q a :
  Handle os os_readdir Error (srv a) (osw a) q = (errResp Error EBADF, srv a, osw a) →
  do os os_readdir Error Delivered a q = (Err (EBADF, Some (errResp Error EBADF)), a).
Proof. intros Hh. unfold do, FileOp. rewrite Hh. rewrite errResp_err0. by destruct a. Qed.

Lemma writeAt_spec h data off a :
  writeAt os os_readdir Error Delivered h data off a = spec_write os h data off a.
Proof.
  unfold writeAt, spec_write, spec_file, do, FileOp. cbn [Handle rq Op rq_Handle rq_Offset rq_Data].
  unfold with_file. destruct (get (srv a) h) as [f|].
  - destruct (if off <? 0 then _ else _) as [[n [e|]] w]; cbv beta iota zeta; [|done].
    by rewrite errResp_err.
  - cbv beta iota zeta. rewrite errResp_err0. by destruct a.
Qed.

(** Operations on an open file. *)
Lemma call_unit_file q h a (x : handle → option go_err * W) :
  Handle os os_readdir Error (srv a) (osw a) q =
    with_file Error (srv a) (osw a) h (λ f, serve_unit Error (srv a) (x f)) →
  call_unit os os_readdir Error Delivered q a = spec_file a h (Some EBADF) (λ f, spec_unit (x f) a).
Proof.
  unfold with_file, spec_file. destruct (get (srv a) h); [by apply call_unit_spec|].
  intros Hh. unfold call_unit. by rewrite do_bad_handle.
Qed.

Lemma close_spec h a :
  call_unit os os_readdir Error Delivered (rq_h 4 h) a = spec (HClose h) a.
Proof.
  unfold call_unit, do, FileOp. cbn [Handle rq_h rq Op rq_Handle take_]. cbn [spec_call]. unfold spec_file.
  unfold get. destruct (_ !! h) as [f|] eqn:Hf.
  - destruct (os (HClose f) (osw a)) as [[e|] w]; unfold serve_unit; cbn [fst snd]; cbv beta iota zeta;
      [by rewrite errResp_err0|done].
  - cbv beta iota zeta. rewrite errResp_err0, delete_id by done. by destruct a as [[]].
Qed.

Lemma readAt_spec h off size a : call (HReadAt h off size) a = spec (HReadAt h off size) a.
Proof.
  cbn [agent_call_over spec_call]; unfold_files. unfold spec_file.
  destruct (get (srv a) h) as [f|] eqn:Hf;
    [|by rewrite do_bad_handle by
       (cbn [Handle rq Op rq_Handle]; unfold with_file; by rewrite Hf)].
  unfold do, FileOp. cbn [Handle rq Op rq_Handle rq_Offset rq_Size]. unfold with_file. rewrite Hf.
  destruct (Z.leb_spec size 0) as [Hs|Hs].
  - cbn. rewrite Z2Nat.nonpos by done. by destruct a.
  - destruct (os (HReadAt f off size) (osw a)) as [[d [e|]] w]; [|done].
    destruct e; cbv beta iota zeta; try done; by rewrite errResp_err0.
Qed.

Lemma readdir_spec p a : call (FReadDir p) a = spec (FReadDir p) a.
Proof.
  cbn [agent_call_over spec_call]; unfold_files. unfold call_val, do, FileOp. cbn [Handle rq_p rq Op rq_Path].
  destruct (os_readdir p (osw a)) as [[l|e] w]; cbv beta iota zeta; [|by rewrite errResp_err0].
  pose proof (collect_infos l) as Hc. destruct (collect l) as [r|e].
  - destruct Hc as (k & -> & ->). unfold spec_val. simpl. by rewrite <- list_fmap_compose.
  - rewrite Hc, errResp_err0. done.
Qed.

Lemma fstat_spec h a : call (HStat h) a = spec (HStat h) a.
Proof.
  cbn [agent_call_over spec_call]; unfold_files. unfold spec_file. destruct (get (srv a) h) as [f|] eqn:Hf.
  - apply (call_val_spec (λ i, resp_stat (statFromInfo i))); [|by intros v; split_and!].
    cbn [Handle rq_h rq Op rq_Handle]. unfold with_file. by rewrite Hf.
  - unfold call_val. by rewrite do_bad_handle by
      (cbn [Handle rq_h rq Op rq_Handle]; unfold with_file; by rewrite Hf).
Qed.

Lemma delivered_spec (r : req) (a : agent) : call r a = spec r a.
Proof.
  destruct r; first [apply readAt_spec | apply readdir_spec | apply close_spec | apply fstat_spec | idtac];
    cbn [agent_call_over spec_call]; unfold_files;
    first [ apply call_unit_spec; cbn [Handle rq_p rq_pp rq_pm rq Op rq_Path rq_NewPath rq_Mode]; by rewrite ?mode_wire
          | apply call_open_spec; cbn [Handle rq_p rq Op rq_Path rq_Flags rq_Mode]; by rewrite ?mode_wire
          | eapply call_val_spec; [done|by intros v; split_and!]
          | by apply (call_unit_file _ h)
          | idtac ].
  - by rewrite !writeAt_spec.
  - by rewrite !writeAt_spec.
Qed.

Lemma agent_call_spec (r : req) (a : agent) : agent_call os os_readdir Error r a = spec r a.
Proof. apply delivered_spec. Qed.

(** Without an answer the server and the system are where the call would have left them, or
    where they were. *)
Lemma lost_effect (r : req) (a : agent) :
  agent_call_over os os_readdir Error AnswerLost r a =
    (failed r, unmoved r (mkAgent (srv (call r a).2) (cli a) (osw (call r a).2))).
Proof.
  destruct r; cbn [agent_call_over failed unmoved]; unfold_files;
    unfold call_unit, call_val, call_open, writeAt, do, FileOp; cbn [cli];
    try (destruct (appending a h) eqn:Ea; change (appending (mkAgent _ (cli a) _) h) with (appending a h); try rewrite Ea);
    repeat (destruct (Handle _ _ _ _ _ _) as [[? ?] ?]); cbn; try done; repeat case_match; simplify_eq; done.
Qed.

Lemma unserved (link : transport) (r : req) (a : agent) :
  link = NotServed ∨ link = NilResponse →
  agent_call_over os os_readdir Error link r a = (failed r, unmoved r a).
Proof.
  intros [-> | ->]; destruct r; cbn [agent_call_over failed unmoved]; unfold_files;
    unfold call_unit, call_val, call_open, writeAt, do, FileOp;
    repeat (destruct (Handle _ _ _ _ _ _) as [[? ?] ?]); try done; by destruct (appending a h).
Qed.


(** A program over the [FileClient] interface cannot tell the agent from the
    system: run over client, wire and server it returns the same result and
    leaves the same state as run over the specification. *)
Theorem programs_over_agent {A} (p : prog A) (a : agent) :
  run (agent_call os os_readdir Error) p a = run spec p a.
Proof.
  revert a. induction p as [x|r k IH]; intros a; simpl; [done|].
  rewrite agent_call_spec. destruct (spec r a) as [x a']. apply IH.
Qed.
End refinement.

(** A handle the server hands out is a non-zero 32-bit number that names the
    file just opened; no other handle changes; once closed it is refused. *)
Theorem server_handles s f :
  let '(h, s') := put s f in
  get s' h = Some f ∧ 0 < h < 2 ^ 32 ∧
  (∀ h', h' ≠ h → get s' h' = get s h') ∧
  (take_ s' h).1 = Some f ∧ get (take_ s' h).2 h = None.
Proof.
  unfold put. assert (is_u 32 (u32 (next s + 1))) as [Hu0 Hu] by (apply uwrap_range; lia).
  set (n := u32 (next s + 1)) in *. cbv zeta.
  assert (0 < (if n =? 0 then 1 else n) < 2 ^ 32) as Hn by (destruct (Z.eqb_spec n 0); lia).
  unfold get, take_. simpl. rewrite lookup_insert_eq, lookup_delete_eq. split_and!; try done; try lia.
  intros h' Hne. by rewrite lookup_insert_ne.
Qed.

(** ** Witnesses *)

(** A system that logs its calls, fails opens of one path and knows one file. *)
Definition demo_os (r : req) (log : list req) : reply r * list req :=
  (match r return reply r with
   | FOpen p | FCreate p | FOpenFile p _ _ => if String.eqb p "/none" then Err (EErrno Errno.ENOENT) else Ok 42
   | FStat p | FLstat p =>
       Ok (mkFI p 5 420 7 false (SysStat (Some (mkStat_t 33188 1 2 1 0 8 4096 9 3 7 4))))
   | HStat _ => Err EOther
   | FReadDir _ => Ok []
   | FReadlink p => Ok p
   | FGetwd => Ok "/"
   | FStatfs _ => Err (EErrno Errno.ENOSYS)
   | HReadAt _ _ _ => ("data", Some EEOF)
   | HWrite _ d | HWriteAt _ d _ => (Z.of_nat (slen d), None)
   | FMkdir _ _ | FMkdirAll _ _ | FRemove _ | FRename _ _ | FSymlink _ _ | FLink _ _ | FChmod _ _
   | FChown _ _ _ | FChtimes _ _ _ | FTruncate _ _ | HTruncate _ _ | HSync _ | HClose _ => None
   end, log ++ [r]).
Definition demo_readdir (p : string) (log : list req)
    : result go_err (list (result go_err FileInfo)) * list req := (Ok [], log).
Definition demo_agent : agent (W := list req) := mkAgent (mkServer ∅ 0) (mkClient ∅ ∅) [].

(** A time after the year 2262 (here the start of 2300) arrives as one before 1970. *)
Example far_time_wraps : UnixNano (10413792000 * 10 ^ 9) = -8032952073709551616.
Proof. reflexivity. Qed.

