(* ===== verification/Stack.v ===== *)
(** * Stack: the workspace file system over the agent

    Composes the layers: the FUSE handlers of [WorkspaceFS] are programs over the
    [FileClient] interface, and [AgentFS] implements that interface through the
    agent.  The theorems say what survives the composition: the errno the kernel
    sees, and the confinement of every system call on the remote side to the
    workspace root. *)

From S2P Require Import Prelude GoStrings GoPaths FileClient Mux AgentFS WorkspaceFS.
Local Open Scope Z_scope.

(** An error a system call can return: its errno, when it carries one, is a
    positive 32-bit number. *)
Definition proper_err (e : go_err) : Prop :=
  match e with EErrno n => 0 < n < 2 ^ 32 | _ => True end.

(** The errno the kernel gets is the one the remote system call failed with:
    turning an error into a wire errno, back into a Go error on the client and
    into a FUSE errno loses nothing. *)
Theorem errno_survives_wire e :
  proper_err e → WorkspaceFS.toErrno (AgentFS.wire_err e) = WorkspaceFS.toErrno e.
Proof.
  destruct e as [n| | | | | |]; simpl; try done. intros Hn. unfold u32.
  rewrite uwrap_id by (unfold is_u; lia). rewrite (proj2 (Z.eqb_neq n 0)) by lia.
  repeat case_match; simpl; bool_solve; try done; by rewrite Z.eqb_eq in *.
Qed.

(** ** Confinement on the remote side *)

Section confinement.
Context {W0 : Type}.
Variable os : ∀ r : req, W0 → reply r * W0.
Variable os_readdir : string → W0 → result go_err (list (result go_err FileInfo)) * W0.
Variable Error : go_err → string.
Hypothesis Error_text : ∀ e, Error e ≠ "".

(** The same system with a log of its calls. *)
Definition logged (r : req) (s : W0 * list req) : reply r * (W0 * list req) :=
  let '(x, w) := os r s.1 in (x, (w, s.2 ++ [r])).
Definition logged_readdir (p : string) (s : W0 * list req)
    : result go_err (list (result go_err FileInfo)) * (W0 * list req) :=
  let '(x, w) := os_readdir p s.1 in (x, (w, s.2 ++ [FReadDir p])).

Local Abbreviation call := (agent_call logged logged_readdir Error).
Local Abbreviation spec := (spec_call logged logged_readdir).
Local Abbreviation log_ok Q a := (Forall (λ r, Forall Q (req_paths r)) (osw a).2).

(** Serving a request calls the system on the paths of that request only. *)
Lemma spec_call_paths (Q : string → Prop) r (a : agent (W := W0 * list req)) :
  log_ok Q a → Forall Q (req_paths r) → log_ok Q (spec r a).2.
Proof.
  intros Hlog Hr. destruct r; cbn [spec_call];
    unfold spec_open, spec_val, spec_unit, spec_write, spec_file, register, with_os, advance, logged, logged_readdir;
    repeat (case_match; simplify_eq/=); rewrite ?Forall_app; auto.
Qed.

Lemma run_paths {A} (Q : string → Prop) (p : prog A) (a : agent (W := W0 * list req)) :
  log_ok Q a → all_calls (λ r, Forall Q (req_paths r)) p → log_ok Q (run spec p a).2.
Proof.
  revert a. induction p as [x|r k IH]; intros a Hlog Hp; simpl; [done|]. destruct Hp as [Hr Hk].
  pose proof (spec_call_paths Q r a Hlog Hr) as Hlog'. destruct (spec r a) as [x a']. by apply IH.
Qed.

Lemma run_agent {A} (p : prog A) (a : agent (W := W0 * list req)) : run call p a = run spec p a.
Proof.
  revert a. induction p as [x|r k IH]; intros a; simpl; [done|].
  rewrite agent_call_spec by done. destruct (spec r a) as [x a']. apply IH.
Qed.

(** C9: end to end, no request of the local kernel makes the agent touch anything
    outside the workspace root: every path in every system call the agent
    performs while a workspace handler runs is the root or below it. *)
Theorem agent_calls_confined rootp opts rel dr fr cl s w :
  IsAbs rootp = true →
  let a := mkAgent s cl (w, []) in
  Forall (λ r, Forall (within rootp) (req_paths r))
    (osw (run call (WorkspaceFS.dirNode_handle (New rootp opts) rel dr) a).2).2 ∧
  Forall (λ r, Forall (within rootp) (req_paths r))
    (osw (run call (WorkspaceFS.fileNode_handle (New rootp opts) rel fr) a).2).2.
Proof.
  intros Habs a. rewrite !run_agent. split; apply run_paths; try done.
  - by apply dirNode_safe.
  - by apply fileNode_safe.
Qed.
End confinement.

(** ** Witnesses *)

Lemma errno_survives_wire_witness :
  WorkspaceFS.toErrno (AgentFS.wire_err (EErrno Errno.ENOTDIR)) = Errno.ENOTDIR.
Proof. by apply (errno_survives_wire (EErrno Errno.ENOTDIR)). Defined.

Lemma agent_calls_confined_witness :
  let a := mkAgent (mkServer ∅ 0) (mkClient ∅ ∅) ([], []) in
  Forall (λ r, Forall (within "/w") (req_paths r))
    (osw (run (agent_call (logged demo_os) (logged_readdir demo_readdir) (λ _, "error"))
      (WorkspaceFS.dirNode_handle (New "/w" None) "../a" (DRmdir "../../../etc")) a).2).2.
Proof.
  assert (∀ e : go_err, "error" ≠ "") as He by done.
  exact (proj1 (agent_calls_confined demo_os demo_readdir (λ _, "error") He "/w" None "../a"
                  (DRmdir "../../../etc") RReadlink (mkClient ∅ ∅) (mkServer ∅ 0) [] eq_refl)).
Defined.
