(* ===== verification/RemoteExec.v ===== *)
(** * RemoteExec: running a command on the remote machine

    Models [pkg/remoteexec]: the shell command line of the plain runner
    ([ssh_runner.go]: [shellQuote], [buildRemoteCommand], [SSHRunner.Run]), the
    agent runner ([agent_runner.go]: [RunWithControl], [EnumeratePaths],
    [bridgeReaderToMux]) and the cached upload of [pkg/agenttransfer].  A
    session is an environment: what each of its calls answers; a runner is a
    function of it that returns the calls it made and its result.

    The shell that reads the command line is specified by [lex], the token rules
    of the POSIX shell for the characters that can occur; everything the rules
    do not cover makes it fail, so a theorem that it succeeds also says that no
    other special character is left unquoted. *)

From S2P Require Import Prelude GoStrings Streams Mux.
Local Open Scope Z_scope.

(** ** Requests and quoting *)

Record Request := mkRequest {
  Path : string; Argv : list string; Env : list string; Cwd : string; ExtraFDs : list Z;
}.

(** [strings.ReplaceAll(s, string(c), rep)]. *)
Fixpoint ReplaceAllByte (c : ascii) (rep s : string) : string :=
  match s with
  | EmptyString => EmptyString
  | String d s => (if Ascii.eqb d c then rep else String d "") +:+ ReplaceAllByte c rep s
  end.

Definition quote : ascii := "'"%char.
Definition backslash : ascii := "\"%char.
(** The four bytes quote, backslash, quote, quote. *)
Definition quote_escape : string := String quote (String backslash (String quote (String quote ""))).

Definition shellQuote (s : string) : string :=
  if String.eqb s "" then String quote (String quote "")
  else String quote (ReplaceAllByte quote quote_escape s +:+ String quote "").

Definition buildRemoteCommand (req : Request) : string :=
  let parts :=
    shellQuote (Path req) ::
    (if (1 <? length (Argv req))%nat then shellQuote <$> drop 1 (Argv req) else []) in
  let cmd := Join " " parts in
  if String.eqb (Cwd req) "" then cmd
  else "cd " +:+ (shellQuote (Cwd req) +:+ (" && " +:+ cmd)).

(** ** The shell, as a specification *)

Inductive token : Type := Word (w : string) | AndIf.

(** Bytes that stand for themselves outside quotes. *)
Definition plain (c : ascii) : bool :=
  let n := N_of_ascii c in
  ((97 <=? n) && (n <=? 122) || (65 <=? n) && (n <=? 90) || (48 <=? n) && (n <=? 57))%N
  || Ascii.eqb c "/" || Ascii.eqb c "." || Ascii.eqb c "_" || Ascii.eqb c "-" || Ascii.eqb c ":".

(** An equals sign stands for itself in an option; elsewhere it may make an assignment. *)
Definition in_option (cur : option string) (c : ascii) : bool :=
  Ascii.eqb c "=" && match cur with Some w => HasPrefix w "-" | None => false end.

Definition emit (cur : option string) (l : list token) : list token :=
  match cur with Some w => Word w :: l | None => l end.
Definition grow (cur : option string) (c : ascii) : option string :=
  Some (default "" cur +:+ String c "").

(** Token recognition: [quoted] inside single quotes, [cur] the word read so
    far.  Inside single quotes every byte is literal up to the next quote; a
    backslash makes the next byte literal; blanks end a word. *)
Fixpoint lex (quoted : bool) (cur : option string) (s : string) : option (list token) :=
  match s with
  | EmptyString => if quoted then None else Some (emit cur [])
  | String c s =>
      if quoted then
        if Ascii.eqb c quote then lex false cur s else lex true (grow cur c) s
      else if Ascii.eqb c quote then lex true (Some (default "" cur)) s
      else if Ascii.eqb c backslash then
        match s with
        | String d s => if Ascii.eqb d "010" then lex false cur s else lex false (grow cur d) s
        | EmptyString => None
        end
      else if Ascii.eqb c " " || Ascii.eqb c "009" then emit cur <$> lex false None s
      else if Ascii.eqb c "&" then
        match s with
        | String d s => if Ascii.eqb d "&" then (λ l, emit cur (AndIf :: l)) <$> lex false None s else None
        | EmptyString => None
        end
      else if plain c || in_option cur c then lex false (grow cur c) s
      else None
  end.

(** The commands of an and-list. *)
Fixpoint and_list (cur : list string) (l : list token) : list (list string) :=
  match l with
  | [] => [cur]
  | Word w :: l => and_list (cur ++ [w]) l
  | AndIf :: l => cur :: and_list [] l
  end.

Definition shell_read (s : string) : option (list (list string)) := and_list [] <$> lex false None s.

(** ** Quoting is exact *)

Lemma lex_escape w rest :
  lex true (Some w) (quote_escape +:+ rest) = lex true (Some (w +:+ String quote "")) rest.
Proof. reflexivity. Qed.

Lemma lex_quoted w s rest :
  lex true (Some w) (ReplaceAllByte quote quote_escape s +:+ String quote rest) = lex false (Some (w +:+ s)) rest.
Proof.
  revert w. induction s as [|d s IH]; intros w.
  - rewrite sapp_nil_r. reflexivity.
  - cbn [ReplaceAllByte]. destruct (Ascii.eqb_spec d quote) as [->|Hd].
    + rewrite <- sapp_assoc, lex_escape, IH, <- sapp_assoc. done.
    + rewrite sapp_cons, sapp_nil_l, sapp_cons. cbn [lex].
      apply Ascii.eqb_neq in Hd as ->. unfold grow. cbn [default]. rewrite IH, <- sapp_assoc. done.
Qed.

(** Whatever the bytes of [s], the shell reads its quotation back as [s],
    glued to the word before it. *)
Lemma lex_shellQuote cur s rest :
  lex false cur (shellQuote s +:+ rest) = lex false (Some (default "" cur +:+ s)) rest.
Proof.
  unfold shellQuote. destruct (String.eqb_spec s "") as [->|Hs].
  - rewrite sapp_nil_r. reflexivity.
  - rewrite sapp_cons. cbn [lex]. rewrite <- sapp_assoc. apply lex_quoted.
Qed.

Lemma lex_blank cur t : lex false cur (String " " t) = emit cur <$> lex false None t.
Proof. reflexivity. Qed.

Lemma lex_and t :
  lex false None (String "&" (String "&" t)) = (λ l, AndIf :: l) <$> lex false None t.
Proof. reflexivity. Qed.

Lemma lex_words ws :
  ws ≠ [] → lex false None (Join " " (shellQuote <$> ws)) = Some (Word <$> ws).
Proof.
  induction ws as [|w ws IH]; [done|]. intros _. destruct ws as [|w' ws].
  - cbn [fmap list_fmap Join]. rewrite <- (sapp_nil_r (shellQuote w)), lex_shellQuote. reflexivity.
  - rewrite !fmap_cons, Join_cons by done. rewrite lex_shellQuote, <- fmap_cons.
    rewrite lex_blank, IH by done. reflexivity.
Qed.

Lemma and_list_words cur ws l : and_list cur ((Word <$> ws) ++ l) = and_list (cur ++ ws) l.
Proof.
  revert cur. induction ws as [|w ws IH]; intros cur; [by rewrite app_nil_r|].
  rewrite fmap_cons. simpl. rewrite IH, <- app_assoc. done.
Qed.

(** The arguments the runner passes on: [Argv[1:]]. *)
Definition request_args (req : Request) : list string := drop 1 (Argv req).

(** C13: the command line the plain runner builds is read back by the shell as
    exactly the requested program with exactly the requested arguments, in the
    requested directory: whatever bytes path, arguments and directory contain
    (spaces, quotes, dollar signs, newlines, semicolons, empty strings), no word
    is split, expanded, lost or turned into an operator. *)
Theorem remote_command_exact req :
  shell_read (buildRemoteCommand req) =
  Some ((if String.eqb (Cwd req) "" then [] else [["cd"; Cwd req]]) ++ [Path req :: request_args req]).
Proof.
  unfold shell_read, buildRemoteCommand.
  assert ((if (1 <? length (Argv req))%nat then shellQuote <$> drop 1 (Argv req) else []) =
          (shellQuote <$> request_args req)) as ->.
  { unfold request_args. destruct (Argv req) as [|a [|b l]]; done. }
  rewrite <- fmap_cons. set (ws := Path req :: request_args req).
  destruct (String.eqb (Cwd req) "").
  - rewrite lex_words by done. cbn [fmap option_fmap option_map].
    rewrite <- (app_nil_r (Word <$> ws)), and_list_words. done.
  - assert (∀ t, lex false None ("cd " +:+ t) = (λ l, Word "cd" :: l) <$> lex false None t) as ->
      by reflexivity.
    rewrite lex_shellQuote.
    assert (∀ w t, lex false (Some w) (" && " +:+ t) =
      (λ l, Word w :: AndIf :: l) <$> lex false None t) as ->.
    { intros w t. change (" && " +:+ t) with (String " " (String "&" (String "&" (String " " t)))).
      rewrite lex_blank, lex_and, lex_blank. destruct (lex false None t); reflexivity. }
    rewrite lex_words by done. cbn [fmap option_fmap option_map default].
    rewrite sapp_nil_l. cbn [and_list app]. rewrite <- (app_nil_r (Word <$> ws)), and_list_words. done.
Qed.

Example quoting_example :
  shell_read (buildRemoteCommand (mkRequest "/bin/echo" ["echo"; "it's"; ""; "$(rm -rf /)"; "a;b"] [] "/a b" [])) =
  Some [["cd"; "/a b"]; ["/bin/echo"; "it's"; ""; "$(rm -rf /)"; "a;b"]].
Proof. vm_compute. reflexivity. Qed.

Example lex_rejects_unquoted : shell_read "echo $HOME" = None ∧ shell_read "echo 'a" = None.
Proof. split; vm_compute; reflexivity. Qed.

(** ** Sessions *)

Inductive wait_result : Type := WaitOk | WaitExit (code : Z) | WaitErr.

(** What the calls on an opened session answer. *)
Record session := mkSession {
  s_stdin : bool; s_stdout : bool; s_stderr : bool;
  s_start : string → bool;
  s_wait : wait_result;
}.

(** A runner's [SessionProvider]: absent (nil), failing, or giving a session. *)
Definition provider : Type := option (option session).

Inductive run_err : Type :=
  | ErrProviderNil | ErrTransfererNil | ErrEnsure | ErrNewSession | ErrPipe | ErrStart
  | ErrSendConfig | ErrSendExec | ErrSendQuery | ErrReadLoop | ErrWaitFailed
  | ErrReadInfo | ErrAgent (msg : string).

(** The calls of the runner's own goroutine, in order. *)
Inductive op : Type :=
  | ONewSession | OSetenv (k v : string)
  | OStdinPipe | OStdoutPipe | OStderrPipe
  | OStart (cmd : string) | OWait | OClose
  | OSend (f : Frame) | OEffect (e : effect)
  | OCloseSessIn | OCloseStdin | OCloseFD (fd : Z)
  | ORecStart (m : ExecMsg) | OSetRecorder | ORecEnd (code : Z)
  | ODrainStderr (to_caller : bool).    (** start the goroutine that copies the session's stderr *)

Definition outcome : Type := Z * option run_err.

(** [session, err := NewSession(ctx); ...; defer session.Close()]. *)
Definition with_session {R} (p : option session) (fail : run_err → R) (k : session → list op * R) : list op * R :=
  match p with
  | None => ([ONewSession], fail ErrNewSession)
  | Some s => let '(ops, r) := k s in (ONewSession :: ops ++ [OClose], r)
  end.

(** The three pipe calls, with the early return of each. *)
Definition with_pipes {R} (s : session) (fail : run_err → R) (k : list op * R) : list op * R :=
  if negb (s_stdin s) then ([OStdinPipe], fail ErrPipe)
  else if negb (s_stdout s) then ([OStdinPipe; OStdoutPipe], fail ErrPipe)
  else if negb (s_stderr s) then ([OStdinPipe; OStdoutPipe; OStderrPipe], fail ErrPipe)
  else let '(ops, r) := k in ([OStdinPipe; OStdoutPipe; OStderrPipe] ++ ops, r).

Definition fail127 (e : run_err) : outcome := (127, Some e).

(** ** SSHRunner *)

(** The variables passed on: entries with a non-empty name. *)
Definition setenv_ops (env : list string) : list op :=
  omap (λ kv,
    match CutByte "=" kv with
    | Some (k, v) => if String.eqb k "" then None else Some (OSetenv k v)
    | None => None
    end) env.

Definition SSHRunner_Run (p : provider) (req : Request) : list op * outcome :=
  match p with
  | None => ([], fail127 ErrProviderNil)
  | Some p =>
      with_session p fail127 (λ s,
        let '(ops, r) :=
          with_pipes s fail127 (
            let cmd := buildRemoteCommand req in
            if negb (s_start s cmd) then ([OStart cmd], fail127 ErrStart)
            else
              ([OStart cmd; OWait],
               match s_wait s with
               | WaitOk => (0, None)
               | WaitExit code => (code, None)
               | WaitErr => (127, Some ErrWaitFailed)
               end)) in
        (setenv_ops (Env req) ++ ops, r))
  end.

(** ** The cached upload (agenttransfer) *)

Record Transferer := mkTransferer {
  tr_backend : bool;             (** the backend is not nil *)
  tr_localPath : string;
  tr_remotePath : string;
  tr_resolved : string;
}.

Definition Transferer_New (backend : bool) (localPath remotePath : string) : Transferer :=
  mkTransferer backend localPath remotePath "".

(** [upload] is what [UploadAgent] answers if it is called; the last component
    says whether it was called. *)
Definition Ensure (upload : option string) (t : Transferer) : option string * Transferer * bool :=
  if negb (String.eqb (tr_resolved t) "") then (Some (tr_resolved t), t, false)
  else if negb (tr_backend t) then (None, t, false)
  else match upload with
       | None => (None, t, true)
       | Some r => (Some r, mkTransferer (tr_backend t) (tr_localPath t) (tr_remotePath t) r, true)
       end.

(** A sequence of calls, with what the backend would answer to each. *)
Fixpoint Ensures (uploads : list (option string)) (t : Transferer) : list (option string * bool) :=
  match uploads with
  | [] => []
  | u :: uploads => let '(r, t', called) := Ensure u t in (r, called) :: Ensures uploads t'
  end.

(** ** AgentRunner *)

Record AgentRunner := mkAgentRunner {
  ar_Provider : provider;
  ar_Ensure : option (option string);   (** the transferer (or nil) and what [Ensure] answers *)
  ar_Recorder : option bool;            (** the recorder (or nil): does [WriteCommandStart] succeed *)
  ar_AgentConfig : option AgentConfig;
}.

Definition exec_msg (req : Request) : ExecMsg :=
  mkExec (Path req) (Argv req) (Env req) (Cwd req) (ExtraFDs req).
Definition config_frame (c : AgentConfig) : Frame :=
  mkFrame FrameConfig 0 "" 0 0 "" None None (Some c) None None None None.
Definition exec_frame (m : ExecMsg) : Frame :=
  mkFrame FrameExec 0 "" 0 0 "" (Some m) None None None None None None.
Definition query_frame (paths : list string) : Frame :=
  mkFrame FramePathQuery 0 "" 0 0 "" None None None (Some (mkQuery paths)) None None None.
Definition data_frame (stream : Z) (data : string) : Frame :=
  mkFrame FrameData stream data 0 0 "" None None None None None None None.
Definition eof_frame (stream : Z) : Frame :=
  mkFrame FrameEOF stream "" 0 0 "" None None None None None None None.

(** The stream handlers and callbacks the runner registers. *)
Definition runner_handlers (fds : list Z) : handlers :=
  mkHandlers ({[1; 2]} ∪ list_to_set fds) false false false false true None.

(** They are what the calls on a new mux leave. *)
Lemma runner_handlers_built fds :
  runner_handlers fds = OnLog (foldr RegisterStream (RegisterStream 2 (RegisterStream 1 NewMux)) fds).
Proof.
  assert (∀ h, foldr RegisterStream h fds =
    mkHandlers (list_to_set fds ∪ streams h) (onExec h) (onSignal h) (onExit h) (onError h) (onLog h) (onFileOp h)) as ->.
  { intros h. induction fds as [|fd fds IH]; cbn; [destruct h; cbn; f_equal; set_solver|]. rewrite IH. unfold RegisterStream. cbn. f_equal. set_solver. }
  unfold runner_handlers, OnLog. cbn. f_equal. set_solver.
Qed.

(** The checks and calls up to a started agent: [start] continues with it. *)
Definition start_agent {R} (r : AgentRunner) (fail : run_err → R) (start : session → list op * R) : list op * R :=
  match ar_Provider r with
  | None => ([], fail ErrProviderNil)
  | Some p =>
      match ar_Ensure r with
      | None => ([], fail ErrTransfererNil)
      | Some None => ([], fail ErrEnsure)
      | Some (Some agentPath) =>
          with_session p fail (λ s, with_pipes s fail (
            let cmd := shellQuote agentPath in
            if negb (s_start s cmd) then ([OStart cmd], fail ErrStart)
            else let '(ops, r) := start s in (OStart cmd :: ops, r)))
      end
  end.

(** Sending the configuration, when there is one. *)
Definition send_config {R} (c : option AgentConfig) (ok : bool) (fail : run_err → R) (k : list op * R) : list op * R :=
  match c with
  | None => k
  | Some c =>
      if negb ok then ([OSend (config_frame c)], fail ErrSendConfig)
      else let '(ops, r) := k in (OSend (config_frame c) :: ops, r)
  end.

(** From the exec frame on.  [exec_ok] is the outcome of the send, [fs] the
    frames the agent sends, [fds] the keys of [ctrl.ExtraFDs] in the order they
    are visited.  The bridges run beside it: [bridgeReaderToMux]. *)
Definition run_exec (r : AgentRunner) (req : Request) (fds : list Z) (exec_ok : bool) (fs : list Frame) :
    list op * outcome :=
  let send := OSend (exec_frame (exec_msg req)) in
  if negb exec_ok then ([send], fail127 ErrSendExec)
  else
    let '(effs, exitCode, muxErr) := ReadLoop (runner_handlers fds) fs in
    (send :: (OEffect <$> effs)
       ++ [OCloseSessIn; OCloseStdin] ++ (OCloseFD <$> fds) ++ [OWait]
       ++ (match ar_Recorder r with Some _ => [ORecEnd exitCode] | None => [] end),
     if muxErr && (exitCode <? 0) then (127, Some ErrReadLoop) else (exitCode, None)).

(** The command start record, and the recorder set when it was written. *)
Definition record_start (r : AgentRunner) (req : Request) : list op :=
  match ar_Recorder r with
  | None => []
  | Some true => [ORecStart (exec_msg req); OSetRecorder]
  | Some false => [ORecStart (exec_msg req)]
  end.

(** [RunWithControl]: the calls of the runner's own goroutine.  [cfg_ok] is the outcome of
    sending the configuration; [ctrl.Stdin] is a closer, as the broker's is.  What the
    goroutine behind [ODrainStderr] writes is in [caller_writes]. *)
Definition RunWithControl (r : AgentRunner) (req : Request) (fds : list Z) (cfg_ok exec_ok : bool)
    (fs : list Frame) : list op * outcome :=
  start_agent r fail127 (λ s,
    let '(ops, res) := send_config (ar_AgentConfig r) cfg_ok fail127 (run_exec r req fds exec_ok fs) in
    (ODrainStderr true :: record_start r req ++ ops, res)).

Definition AgentRunner_Run (r : AgentRunner) (req : Request) (cfg_ok exec_ok : bool) (fs : list Frame) :=
  RunWithControl r req [] cfg_ok exec_ok fs.

(** ** Bridges *)

(** The frames that reach the wire when the connection takes [budget] more
    frames: a failing [SendData] ends the loop, a failing [SendEOF] is ignored. *)
Definition send_eof (stream : Z) (budget : nat) : list Frame :=
  match budget with O => [] | S _ => [eof_frame stream] end.

Fixpoint bridgeReaderToMux (stream : Z) (rs : reads) (budget : nat) : list Frame :=
  match rs with
  | [] => []
  | (data, err) :: rs =>
      if (0 <? slen data)%nat then
        match budget with
        | O => []
        | S budget =>
            data_frame stream data ::
            (if err then send_eof stream budget else bridgeReaderToMux stream rs budget)
        end
      else if err then send_eof stream budget else bridgeReaderToMux stream rs budget
  end.

(** ** EnumeratePaths *)

(** The loop over the decoded frames; the decoder fails when they end. *)
Fixpoint enum_loop (fs : list Frame) : list op * (result run_err (list PathStub.PathInfoEntry)) :=
  match fs with
  | [] => ([], Err ErrReadInfo)
  | f :: fs =>
      if Type_ f =? FramePathInfo then
        ([OCloseSessIn; OWait], Ok (match Info f with Some i => pi_Entries i | None => [] end))
      else if Type_ f =? FrameLog then
        let '(ops, r) := enum_loop fs in
        (match Log f with Some e => OEffect (EffLog e) :: ops | None => ops end, r)
      else if Type_ f =? FrameError then ([], Err (ErrAgent (ErrorStr f)))
      else enum_loop fs
  end.

Definition EnumeratePaths (r : AgentRunner) (paths : list string) (cfg_ok query_ok : bool) (fs : list Frame) :
    list op * result run_err (list PathStub.PathInfoEntry) :=
  start_agent r Err (λ s,
    let '(ops, res) :=
      send_config (ar_AgentConfig r) cfg_ok Err (
        if negb query_ok then ([OSend (query_frame paths)], Err ErrSendQuery)
        else let '(ops, res) := enum_loop fs in (OSend (query_frame paths) :: ops, res)) in
    (ODrainStderr false :: ops, res)).

(** ** Lemmas: sessions *)

Definition session_edge (o : op) : bool := match o with ONewSession | OClose => true | _ => false end.

(** A session that was opened is closed, once, as the last thing. *)
Definition session_closed (ops : list op) : Prop :=
  ops = [] ∨ ops = [ONewSession] ∨
  ∃ mid, ops = ONewSession :: mid ++ [OClose] ∧ Forall (λ o, session_edge o = false) mid.

Definition inner {R} (k : list op * R) : Prop := Forall (λ o, session_edge o = false) k.1.

Lemma inner_cons {R} o (k : list op * R) :
  session_edge o = false → inner k → inner (let '(ops, r) := k in (o :: ops, r)).
Proof. destruct k. intros ? Hk. by constructor. Qed.

Lemma inner_app {R} l (k : list op * R) :
  Forall (λ o, session_edge o = false) l → inner k → inner (let '(ops, r) := k in (l ++ ops, r)).
Proof. destruct k. intros Hl Hk. by apply Forall_app. Qed.

Lemma with_session_closed {R} p (fail : run_err → R) k :
  (∀ s, inner (k s)) → session_closed (with_session p fail k).1.
Proof.
  intros Hk. unfold with_session. destruct p as [s|]; [|by right; left].
  specialize (Hk s). destruct (k s) as [ops r]. right; right. by exists ops.
Qed.

Lemma with_pipes_inner {R} s (fail : run_err → R) k : inner k → inner (with_pipes s fail k).
Proof.
  intros Hk. unfold with_pipes. repeat (case_match; [by repeat constructor|]). subst.
  apply (inner_app [OStdinPipe; OStdoutPipe; OStderrPipe]); [by repeat constructor|done].
Qed.

Lemma send_config_inner {R} c ok (fail : run_err → R) k : inner k → inner (send_config c ok fail k).
Proof.
  intros Hk. unfold send_config. destruct c; [|done]. destruct ok; simpl; [by apply inner_cons|].
  by repeat constructor.
Qed.

Lemma start_agent_closed {R} r (fail : run_err → R) start :
  (∀ s, inner (start s)) → session_closed (start_agent r fail start).1.
Proof.
  intros Hk. unfold start_agent. destruct (ar_Provider r) as [p|]; [|by left].
  destruct (ar_Ensure r) as [[path|]|]; [|by left..]. apply with_session_closed. intros s.
  apply with_pipes_inner. destruct (negb (s_start s (shellQuote path))); [by repeat constructor|].
  by apply inner_cons.
Qed.

(** Everything up to a running agent succeeds. *)
Definition agent_started (r : AgentRunner) : Prop :=
  ∃ s path, ar_Provider r = Some (Some s) ∧ ar_Ensure r = Some (Some path) ∧
    s_stdin s = true ∧ s_stdout s = true ∧ s_stderr s = true ∧ s_start s (shellQuote path) = true.

(** Either the agent runs and the session's part decides, or the call fails. *)
Lemma start_agent_result {R} r (fail : run_err → R) start :
  (agent_started r ∧ ∃ s, ∃ pre post, start_agent r fail start = (pre ++ (start s).1 ++ post, (start s).2) ∧
     Forall (λ o, match o with OEffect _ => False | _ => True end) (pre ++ post)) ∨
  (¬ agent_started r ∧ ∃ e, (start_agent r fail start).2 = fail e).
Proof.
  unfold start_agent, agent_started. destruct (ar_Provider r) as [[s|]|] eqn:Ep.
  2,3: right; split; [by intros (? & ? & ? & ?)|]; destruct (ar_Ensure r) as [[?|]|]; by eexists.
  destruct (ar_Ensure r) as [[path|]|] eqn:Ee.
  2,3: right; split; [by intros (? & ? & ? & ? & ?)|]; by eexists.
  unfold with_session, with_pipes.
  destruct (s_stdin s) eqn:E1; [|right; split; [naive_solver congruence|by eexists]].
  destruct (s_stdout s) eqn:E2; [|right; split; [naive_solver congruence|by eexists]].
  destruct (s_stderr s) eqn:E3; [|right; split; [naive_solver congruence|by eexists]].
  destruct (s_start s (shellQuote path)) eqn:E4; [|right; split; [naive_solver congruence|by eexists]].
  left. split; [naive_solver|]. exists s. simpl. destruct (start s) as [ops res].
  exists [ONewSession; OStdinPipe; OStdoutPipe; OStderrPipe; OStart (shellQuote path)], [OClose].
  split; [done|]. by repeat constructor.
Qed.

(** The bytes the runner writes to stream [k] of its caller. *)
Definition op_effect (o : op) : option effect := match o with OEffect e => Some e | _ => None end.
Definition op_written (k : Z) (ops : list op) : string := written k (omap op_effect ops).

(** The writes the runner's own goroutine makes to stream [k]. *)
Definition op_chunks (k : Z) (ops : list op) : list string :=
  omap (λ e, match e with EffWrite s d => if s =? k then Some d else None | _ => None end) (omap op_effect ops).

(** The goroutine that copies the session's stderr, on the reads [diag]: nobody waits for it,
    so that it has written [w], which can end before the reads do or inside one. *)
Definition copied (diag w : list string) : Prop := ∃ rest, sconcat diag = sconcat w +:+ rest.

Definition drains (ops : list op) : bool := existsb (λ o, match o with ODrainStderr b => b | _ => false end) ops.

(** What the caller's stream [k] gets, write by write (a pipe takes one write at a time): the
    runner's writes, and on stderr those of the goroutine in between. *)
Definition caller_writes (ops : list op) (diag : list string) (k : Z) (m : list string) : Prop :=
  if (k =? 2) && drains ops then ∃ w, copied diag w ∧ merges [op_chunks 2 ops; w] m
  else m = op_chunks k ops.

(** Calls that are neither session edges nor effects. *)
Definition quiet (o : op) : Prop := session_edge o = false ∧ op_effect o = None.

Lemma op_written_app k l1 l2 : op_written k (l1 ++ l2) = op_written k l1 +:+ op_written k l2.
Proof. unfold op_written. by rewrite omap_app, written_app. Qed.

Lemma op_written_none k l : Forall (λ o, op_effect o = None) l → op_written k l = "".
Proof.
  intros Hl. unfold op_written. assert (omap op_effect l = []) as ->; [|done].
  induction Hl as [|o l Ho _ IH]; [done|]. cbn. by rewrite Ho.
Qed.

Lemma op_written_effects k effs : op_written k (OEffect <$> effs) = written k effs.
Proof.
  unfold op_written. f_equal. induction effs as [|e l IH]; [done|]. rewrite fmap_cons. cbn. by rewrite IH.
Qed.

Lemma quiet_edges l : Forall quiet l → Forall (λ o, session_edge o = false) l.
Proof. intros Hl. eapply Forall_impl; [exact Hl|]. by intros o [? _]. Qed.

Lemma quiet_written k l : Forall quiet l → op_written k l = "".
Proof. intros Hl. apply op_written_none. eapply Forall_impl; [exact Hl|]. by intros o [_ ?]. Qed.

Lemma record_start_quiet r req : Forall quiet (record_start r req).
Proof. unfold record_start. destruct (ar_Recorder r) as [[]|]; by repeat constructor. Qed.

Lemma closing_ops_quiet fds r exitCode :
  Forall quiet ([OCloseSessIn; OCloseStdin] ++ (OCloseFD <$> fds) ++ [OWait]
      ++ (match ar_Recorder r with Some _ => [ORecEnd exitCode] | None => [] end)).
Proof.
  rewrite !Forall_app. split; [by repeat constructor|]. split; [|split; [by repeat constructor|]].
  - induction fds; by constructor.
  - destruct (ar_Recorder r); by repeat constructor.
Qed.

(** What a stage that runs between start and close establishes. *)
Definition stage_ok (ready : Prop) (fds : list Z) (fs : list Frame) (k : list op * outcome) : Prop :=
  inner k ∧ (k.2.2 = None ↔ ready) ∧ (k.2.2 ≠ None → k.2.1 = 127) ∧
  (k.2.2 = None → ∀ f, (before_exit fs).2 = Some f → k.2.1 = Code f ∧
     ∀ s, s ∈ streams (runner_handlers fds) → op_written s k.1 = stream_data s (before_exit fs).1).

Lemma stage_prefix ready fds fs l k :
  Forall quiet l → stage_ok ready fds fs k → stage_ok ready fds fs (let '(ops, r) := k in (l ++ ops, r)).
Proof.
  destruct k as [ops r]. intros Hl (H1 & H2 & H3 & H4). split; [|split; [done|split; [done|]]].
  - by apply Forall_app; split; [apply quiet_edges|].
  - intros He f Hf. destruct (H4 He f Hf) as [? Hw]. split; [done|]. intros s Hs.
    simpl. rewrite op_written_app, quiet_written, Hw by done. done.
Qed.

Lemma run_exec_stage r req fds exec_ok fs :
  stage_ok (exec_ok = true ∧ (before_exit fs).2 ≠ None) fds fs (run_exec r req fds exec_ok fs).
Proof.
  unfold run_exec. destruct exec_ok; cbn [negb]; [|by split; [repeat constructor|]; split; [naive_solver|]].
  destruct (ReadLoop (runner_handlers fds) fs) as [[effs exitCode] muxErr] eqn:Er.
  pose proof (λ k Hk, written_ReadLoop _ k fs _ _ _ Hk Er) as Hw.
  rewrite ReadLoop_before_exit in Er. pose proof (closing_ops_quiet fds r exitCode) as Hcl.
  set (tl := [OCloseSessIn; OCloseStdin] ++ _) in *.
  apply (stage_prefix _ fds fs [_] (_, _)); [by repeat constructor|].
  split; [|destruct (before_exit fs) as [pre [f|]]; simplify_eq].
  - apply Forall_app. split; [|by apply quiet_edges]. by apply Forall_fmap, Forall_true.
  - simpl. split; [naive_solver|]. split; [done|]. intros _ g [= ->]. split; [done|]. intros s Hs.
    by rewrite op_written_app, op_written_effects, quiet_written, sapp_nil_r, Hw.
  - simpl. split; [naive_solver|]. by split.
Qed.

(** Running a command through the agent reports an error exactly when
    the agent could not be started, a frame could not be sent or the connection
    ended without an exit frame, and then the code is 127; otherwise the code is
    the one of the agent's first exit frame and the runner's own goroutine wrote to
    the caller's stdout, stderr and extra descriptors exactly the bytes of their data
    frames before it ([caller_writes] adds what the other goroutine copies to stderr).
    On every path a session that was opened is closed, once and last. *)
Theorem agent_run_outcome r req fds cfg_ok exec_ok fs ops code err :
  RunWithControl r req fds cfg_ok exec_ok fs = (ops, (code, err)) →
  session_closed ops ∧
  (err = None ↔ agent_started r ∧ (ar_AgentConfig r = None ∨ cfg_ok = true) ∧ exec_ok = true ∧
                (before_exit fs).2 ≠ None) ∧
  (err ≠ None → code = 127) ∧
  (err = None → ∀ f, (before_exit fs).2 = Some f → code = Code f ∧
     ∀ s, s = 1 ∨ s = 2 ∨ s ∈ fds → op_written s ops = stream_data s (before_exit fs).1).
Proof.
  unfold RunWithControl. set (body := λ _ : session, _).
  assert (∀ s, stage_ok ((ar_AgentConfig r = None ∨ cfg_ok = true) ∧ exec_ok = true ∧ (before_exit fs).2 ≠ None)
    fds fs (body s)) as Hb.
  { intros s. apply (stage_prefix _ fds fs (ODrainStderr true :: record_start r req));
      [constructor; [done|apply record_start_quiet]|]. unfold send_config.
    pose proof (run_exec_stage r req fds exec_ok fs) as Hs.
    destruct (ar_AgentConfig r) as [c|], cfg_ok; cbn [negb].
    - apply (stage_prefix _ fds fs [_]); [by repeat constructor|]. destruct Hs as (? & Hs & ?).
      split; [done|]. split; [rewrite Hs; naive_solver|done].
    - by split; [repeat constructor|]; split; [naive_solver|].
    - destruct Hs as (? & Hs & ?). split; [done|]. split; [rewrite Hs; naive_solver|done].
    - destruct Hs as (? & Hs & ?). split; [done|]. split; [rewrite Hs; naive_solver|done]. }
  intros Hr. split; [|].
  { pose proof (start_agent_closed r fail127 body) as Hc. rewrite Hr in Hc. apply Hc. intros s. apply Hb. }
  destruct (start_agent_result r fail127 body) as [(Hst & s & pre & post & He & Hq)|(Hst & e & He)];
    rewrite Hr in He.
  - destruct (Hb s) as (_ & H2 & H3 & H4). destruct (body s) as [bops [bc be]]. simpl in *. simplify_eq.
    split; [rewrite H2; naive_solver|]. split; [done|]. intros Hn f Hf. destruct (H4 Hn f Hf) as [? Hw].
    split; [done|]. intros k Hk. apply Forall_app in Hq as [Hq1 Hq2].
    rewrite !op_written_app, (op_written_none k pre), (op_written_none k post), Hw, sapp_nil_r; [done|..].
    + set_solver.
    + eapply Forall_impl; [exact Hq2|]. by intros [].
    + eapply Forall_impl; [exact Hq1|]. by intros [].
  - injection He as -> ->. split; [naive_solver|]. by split.
Qed.

(** ** Lemmas: bridges and uploads *)

(** On a connection that holds, the bridge forwards every chunk and then the
    end of the stream. *)
Lemma bridge_complete stream rs budget :
  ends rs → (length (chunks_of rs) < budget)%nat →
  bridgeReaderToMux stream rs budget = (data_frame stream <$> chunks_of rs) ++ [eof_frame stream].
Proof.
  intros He. revert budget. unfold chunks_of. induction rs as [|[data err] rs IH]; intros budget Hb.
  { by inversion He. }
  cbn [bridgeReaderToMux pump] in *. destruct (0 <? slen data)%nat.
  - destruct budget as [|budget]; [lia|]. simpl in *. destruct err; simpl in *.
    + unfold send_eof. destruct budget; [lia|done].
    + f_equal. apply IH; [by apply Exists_cons in He as [?|?]|lia].
  - simpl in *. destruct err; simpl in *.
    + unfold send_eof. destruct budget; [lia|done].
    + apply IH; [by apply Exists_cons in He as [?|?]|lia].
Qed.

(** When it breaks, what was forwarded is a prefix. *)
Lemma bridge_prefix stream rs budget :
  ∃ rest, sconcat (chunks_of rs) = stream_data stream (bridgeReaderToMux stream rs budget) +:+ rest.
Proof.
  unfold chunks_of. revert budget.
  induction rs as [|[data err] rs IH]; intros budget; [by exists ""|].
  cbn [bridgeReaderToMux pump].
  assert (∀ b, stream_data stream (send_eof stream b) = "") as Heof by (by intros []).
  assert (is_data stream (data_frame stream data) = true) as Hd by apply Z.eqb_refl.
  destruct (0 <? slen data)%nat; [destruct budget as [|budget]|].
  - by eexists.
  - rewrite stream_data_cons, Hd. cbn [app id]. rewrite sconcat_cons. destruct err.
    + exists "". by rewrite Heof, !sapp_nil_r.
    + destruct (IH budget) as [rest ->]. exists rest. by rewrite sapp_assoc.
  - destruct err; [exists ""; by rewrite Heof|apply IH].
Qed.

Lemma Ensures_resolved uploads t :
  tr_resolved t ≠ "" → Ensures uploads t = (λ _, (Some (tr_resolved t), false)) <$> uploads.
Proof.
  intros Ht. induction uploads as [|u uploads IH]; [done|]. cbn [Ensures]. unfold Ensure.
  apply seqb_false in Ht. rewrite Ht. simpl. f_equal. done.
Qed.

(** The agent binary is uploaded until it succeeds once; from then on every
    caller gets that path and nothing is uploaded again. *)
Theorem upload_once uploads1 r uploads2 t :
  tr_backend t = true → tr_resolved t = "" → Forall (λ u, u = None) uploads1 → r ≠ "" →
  Ensures (uploads1 ++ Some r :: uploads2) t =
    ((λ _, (None, true)) <$> uploads1) ++ (Some r, true) :: ((λ _, (Some r, false)) <$> uploads2).
Proof.
  intros Hb Ht Hu Hr. induction Hu as [|u uploads1 -> _ IH]; simpl; unfold Ensure; rewrite Ht, Hb; simpl.
  - f_equal. by rewrite Ensures_resolved.
  - f_equal. apply IH.
Qed.

(** ** The plain runner and the enumeration *)

(** The plain runner closes its session, starts exactly one command, the
    quoted one, and reports the exit status of that command or 127 with an
    error. *)
Theorem ssh_run_outcome p req ops code err :
  SSHRunner_Run p req = (ops, (code, err)) →
  session_closed ops ∧
  (∀ cmd, OStart cmd ∈ ops → cmd = buildRemoteCommand req) ∧
  match err with
  | Some _ => code = 127
  | None => OStart (buildRemoteCommand req) ∈ ops ∧
      ∃ s, p = Some (Some s) ∧ (s_wait s = WaitOk ∧ code = 0 ∨ s_wait s = WaitExit code)
  end.
Proof.
  unfold SSHRunner_Run. destruct p as [p|]; [|intros; simplify_eq; split; [by left|set_solver]].
  assert (Forall (λ o, session_edge o = false ∧ ∀ c, o ≠ OStart c) (setenv_ops (Env req))) as Henv.
  { unfold setenv_ops. induction (Env req) as [|kv env IH]; [done|]. cbn.
    destruct (CutByte "=" kv) as [[k v]|]; [destruct (String.eqb k "")|]; [done| |done].
    by constructor. }
  assert (∀ c, OStart c ∉ setenv_ops (Env req)) as Hns.
  { intros c Hin. rewrite Forall_forall in Henv. destruct (Henv _ Hin) as [_ Hc]. by apply (Hc c). }
  intros Hr. split.
  { match type of Hr with ?x = _ => replace ops with x.1 by by rewrite Hr end.
    apply with_session_closed. intros s. apply (inner_app _ (with_pipes s _ _)).
    - eapply Forall_impl; [exact Henv|]. by intros o [? _].
    - apply with_pipes_inner. case_match; by repeat constructor. }
  unfold with_session, with_pipes in Hr. destruct p as [s|]; [|simplify_eq; set_solver].
  destruct (s_stdin s); [|simplify_eq/=; split; [set_solver|done]].
  destruct (s_stdout s); [|simplify_eq/=; split; [set_solver|done]].
  destruct (s_stderr s); [|simplify_eq/=; split; [set_solver|done]].
  destruct (s_start s _); [|simplify_eq/=; split; [set_solver|done]].
  simpl in Hr. destruct (s_wait s) eqn:Ew; simplify_eq; (split; [set_solver|]); [|..|done];
    (split; [set_solver|]); exists s; auto.
Qed.

(** A frame the enumeration passes over. *)
Definition enum_skip (f : Frame) : Prop := Type_ f ≠ FramePathInfo ∧ Type_ f ≠ FrameError.
Definition info_entries (f : Frame) : list PathStub.PathInfoEntry :=
  match Info f with Some i => pi_Entries i | None => [] end.

Lemma enum_loop_result pre post :
  Forall enum_skip pre →
  (enum_loop pre).2 = Err ErrReadInfo ∧
  ∀ f, (Type_ f = FramePathInfo → (enum_loop (pre ++ f :: post)).2 = Ok (info_entries f)) ∧
       (Type_ f = FrameError → (enum_loop (pre ++ f :: post)).2 = Err (ErrAgent (ErrorStr f))).
Proof.
  induction 1 as [|g pre [Hg1 Hg2] _ IH].
  - split; [done|]. intros f. simpl. split; intros ->; done.
  - apply Z.eqb_neq in Hg1, Hg2.
    assert (∀ l, (enum_loop (g :: l)).2 = (enum_loop l).2) as Hskip.
    { intros l. cbn [enum_loop]. rewrite Hg1, Hg2. destruct (enum_loop l). by destruct (Type_ g =? FrameLog). }
    destruct IH as [IH1 IH2]. split; [by rewrite Hskip|]. intros f. cbn [app]. rewrite !Hskip. apply IH2.
Qed.

(** The enumeration returns the entries of the first path-info frame, over any
    log and unknown frames, unless the agent reports an error before it. *)
Theorem enumerate_outcome r paths cfg_ok pre f post :
  agent_started r → ar_AgentConfig r = None ∨ cfg_ok = true → Forall enum_skip pre → Type_ f = FramePathInfo →
  (EnumeratePaths r paths cfg_ok true (pre ++ f :: post)).2 = Ok (info_entries f) ∧
  (EnumeratePaths r paths cfg_ok true pre).2 = Err ErrReadInfo ∧
  session_closed (EnumeratePaths r paths cfg_ok true (pre ++ f :: post)).1.
Proof.
  intros Hst Hcfg Hpre Hf. destruct (enum_loop_result pre post Hpre) as [Hend Hres].
  destruct (Hres f) as [Hinfo _]. specialize (Hinfo Hf).
  assert (∀ fs, (EnumeratePaths r paths cfg_ok true fs).2 = (enum_loop fs).2) as He.
  { intros fs. unfold EnumeratePaths. set (body := λ _ : session, _).
    destruct (start_agent_result r Err body) as [(_ & s & p & q & -> & _)|(? & _)]; [|done].
    unfold body, send_config. simpl. destruct (ar_AgentConfig r) as [c|], cfg_ok; simpl;
      destruct (enum_loop fs); try done. by destruct Hcfg. }
  rewrite !He. split; [done|]. split; [done|]. apply start_agent_closed. intros s.
  apply (inner_cons (ODrainStderr false)); [done|]. apply send_config_inner. simpl. apply inner_cons; [done|].
  generalize (pre ++ f :: post). clear. intros fs. unfold inner. induction fs as [|g fs IH]; [done|].
  cbn [enum_loop]. destruct (enum_loop fs) as [ops res]. repeat case_match; simplify_eq; by repeat constructor.
Qed.

(** ** Witnesses *)

Module Demo.

Definition sess : session := mkSession true true true (λ _, true) WaitOk.
Definition runner : AgentRunner :=
  mkAgentRunner (Some (Some sess)) (Some (Some "/home/u/agent")) None (Some (mkAgentConfig ["HOME"] [])).
Definition req : Request := mkRequest "/bin/true" ["true"] [] "/" [3].
Definition exit_frame (code : Z) : Frame :=
  mkFrame FrameExit 0 "" 0 code "" None None None None None None None.
Definition frames : list Frame :=
  [data_frame 1 "he"; data_frame 7 "x"; data_frame 1 "llo"; exit_frame 3; data_frame 1 "late"].

Lemma agent_run_outcome_witness :
  (RunWithControl runner req [3] true true frames).2 = (3, None) ∧
  op_written 1 (RunWithControl runner req [3] true true frames).1 = "hello".
Proof.
  destruct (RunWithControl runner req [3] true true frames) as [ops [code err]] eqn:E.
  destruct (agent_run_outcome runner req [3] true true frames ops code err E) as (_ & [_ H1] & _ & H2).
  assert (err = None) as ->.
  { apply H1. split; [|split; [by right|split; [done|vm_compute; done]]].
    exists sess, "/home/u/agent". repeat split. }
  destruct (H2 eq_refl (exit_frame 3)) as [-> Hw]; [reflexivity|]. split; [reflexivity|].
  simpl. rewrite Hw by auto. reflexivity.
Defined.

End Demo.
