(* ===== verification/Broker.v ===== *)
(** * Broker: the local end of a forwarded exec

    Models [pkg/broker] (the frames of [protocol.go] and the connection handler
    of [server.go]) and the shim that talks to it ([cmd/mproxy-shim/main.go],
    [fd_linux.go]).  The remote runner behind the broker is a function from the
    request to what it writes and returns.  The goroutines that copy streams are
    read loops over pipes ([Streams]); what goes over the connection is any
    interleaving of their frames. *)

From S2P Require Import Prelude GoStrings Streams RemoteExec.
Local Open Scope Z_scope.

(** ** protocol.go *)

Definition StreamStdin : string := "stdin".
Definition StreamStdout : string := "stdout".
Definition StreamStderr : string := "stderr".
Definition StreamExit : string := "exit".
Definition StreamSignal : string := "signal".
Definition StreamFDPrefix : string := "fd:".

Record BFrame := mkBFrame {
  b_Stream : string; b_Data : string; b_Code : Z; b_Error : string; b_Signal : Z;
}.

Definition data_bframe (stream data : string) : BFrame := mkBFrame stream data 0 "" 0.
Definition fd_stream (fd : Z) : string := StreamFDPrefix +:+ Itoa fd.

(** ** server.go *)

(** What a runner does with a request: its writes to each stream (1, 2 and the
    extra descriptors), the code and the error it returns. *)
Record run_result := mkRun { rr_out : Z → list string; rr_code : Z; rr_err : option string }.

Record Deps := mkDeps {
  d_Remote : bool;                                   (** the runner is not nil *)
  d_Signalable : bool;                               (** it is a [SignalableRunner] *)
  d_EnvFilter : option (list string → list string);
  d_PathMapper : option (string → string);
}.

(** The request as the runner gets it. *)
Definition prepare_request (d : Deps) (req : Request) : Request :=
  let env := match d_EnvFilter d with Some f => f (Env req) | None => Env req end in
  let map_path := default id (d_PathMapper d) in
  mkRequest (map_path (Path req)) (Argv req) env (map_path (Cwd req)) (ExtraFDs req).

(** [streamPipe]: a read loop over a pipe. *)
Definition streamPipe (rs : reads) (stream : string) : list BFrame := pump (data_bframe stream) rs.

Definition runRemote (d : Deps) (run : Request → run_result) (req : Request) : run_result :=
  if negb (d_Remote d) then mkRun (λ _, []) 127 (Some "io: read/write on closed pipe")
  else
    let r := run req in
    match rr_err r with
    | Some e => if rr_code r =? 0 then mkRun (rr_out r) 127 (Some e) else r
    | None => r
    end.

Definition exit_bframe (code : Z) (err : option string) : BFrame :=
  mkBFrame StreamExit "" code (default "" err) 0.

(** [serveConn] on what it decodes: the frames of each copying goroutine, and
    the exit frame that is sent when all of them are done. *)
Definition serveConn (d : Deps) (run : Request → run_result) (dec : result string Request) :
    list (list BFrame) * BFrame :=
  match dec with
  | Err e => ([], exit_bframe 127 (Some e))
  | Ok req =>
      let req := prepare_request d req in
      let piped res fd stream := streamPipe (pipe_reads BufSize (rr_out res fd)) stream in
      if d_Remote d && d_Signalable d then
        let res := run req in
        (piped res 1 StreamStdout :: piped res 2 StreamStderr ::
           ((λ fd, piped res fd (fd_stream fd)) <$> ExtraFDs req),
         exit_bframe (rr_code res) (rr_err res))
      else
        let res := runRemote d run req in
        ([piped res 1 StreamStdout; piped res 2 StreamStderr], exit_bframe (rr_code res) (rr_err res))
  end.

(** What the other end of the connection can see. *)
Definition serves (d : Deps) (run : Request → run_result) (dec : result string Request) (out : list BFrame) : Prop :=
  ∃ body, merges (serveConn d run dec).1 body ∧ out = body ++ [(serveConn d run dec).2].

(** *** Frames from the shim *)

(** [fmt.Sscanf(s, "%d", &n)] with a [uint32]: blanks are skipped, a run of
    digits is taken, what follows is ignored. *)
Fixpoint digits_prefix (s : string) : string :=
  match s with
  | String c s => match digit_val c with Some _ => String c (digits_prefix s) | None => EmptyString end
  | EmptyString => EmptyString
  end.
Definition Sscanf_uint32 (s : string) : option Z :=
  ParseUint 32 (digits_prefix (trim_left (λ c, Ascii.eqb c " " || Ascii.eqb c "009") s)).

Inductive broker_act : Type :=
  | BStdin (data : string)
  | BSignal (sig : Z)
  | BFD (fd : Z) (data : string)
  | BCloseSignals
  | BCloseStdin.

(** [readFrames] over the decoded frames; [stdin_ok] is how many writes to the
    stdin pipe succeed.  The deferred calls run in reverse order. *)
Fixpoint readFrames (fds : list Z) (stdin_ok : nat) (fs : list BFrame) : list broker_act :=
  match fs with
  | [] => [BCloseSignals; BCloseStdin]
  | f :: fs =>
      if String.eqb (b_Stream f) StreamStdin then
        if (0 <? slen (b_Data f))%nat then
          match stdin_ok with
          | O => [BCloseSignals; BCloseStdin]
          | S n => BStdin (b_Data f) :: readFrames fds n fs
          end
        else readFrames fds stdin_ok fs
      else if String.eqb (b_Stream f) StreamSignal then
        BSignal (b_Signal f) :: readFrames fds stdin_ok fs
      else if HasPrefix (b_Stream f) StreamFDPrefix then
        match Sscanf_uint32 (sdrop (slen StreamFDPrefix) (b_Stream f)) with
        | None => readFrames fds stdin_ok fs
        | Some fd =>
            if bool_decide (fd ∈ fds) && (0 <? slen (b_Data f))%nat
            then BFD fd (b_Data f) :: readFrames fds stdin_ok fs
            else readFrames fds stdin_ok fs
        end
      else readFrames fds stdin_ok fs
  end.

Fixpoint readFramesBasic (stdin_ok : nat) (fs : list BFrame) : list broker_act :=
  match fs with
  | [] => [BCloseStdin]
  | f :: fs =>
      if negb (String.eqb (b_Stream f) StreamStdin) then readFramesBasic stdin_ok fs
      else if (slen (b_Data f) =? 0)%nat then readFramesBasic stdin_ok fs
      else match stdin_ok with
           | O => [BCloseStdin]
           | S n => BStdin (b_Data f) :: readFramesBasic n fs
           end
  end.

(** *** The descriptor pair *)

(** [fdPipePair.Close] under [sync.Once]: which of its three ends are closed. *)
Record fdPipePair := mkPair3 { reader_closed : bool; writer_closed : bool; remoteW_closed : bool; once_done : bool }.
Definition pair_Close (p : fdPipePair) : fdPipePair :=
  if once_done p then p else mkPair3 true true true true.

(** ** The shim *)

Definition targetArgv (args : list string) : list string := drop 2 args.

(** What the shim reads of /proc/self/fd: the names, the descriptor flags and
    the link targets. *)
Record proc_fd := mkProc {
  pf_names : option (list string);
  pf_getfd : Z → option Z;
  pf_readlink : string → option string;
}.
Definition FD_CLOEXEC : Z := 1.

Definition keep_fd (p : proc_fd) (brokerFD dirFD : Z) (name : string) : option Z :=
  match ParseUint 32 name with
  | None => None
  | Some fd =>
      if (fd <? 3) || (fd =? dirFD) || (fd =? brokerFD) then None
      else match pf_getfd p fd with
           | None => None
           | Some flags =>
               if negb (Z.land flags FD_CLOEXEC =? 0) then None
               else match pf_readlink p ("/proc/self/fd/" +:+ name) with
                    | None => None
                    | Some target => if HasPrefix target "anon_inode:" then None else Some fd
                    end
           end
  end.

Definition detectExtraFDs (p : proc_fd) (brokerFD dirFD : Z) : list Z :=
  match pf_names p with
  | None => []
  | Some names => omap (keep_fd p brokerFD dirFD) names
  end.

Definition shim_request (args env : list string) (cwd : option string) (fds : list Z) : Request :=
  mkRequest (nth 1 args "") (targetArgv args) env (default "" cwd) fds.

Inductive shim_out : Type :=
  | SStdout (data : string) | SStderr (data : string) | SFD (fd : Z) (data : string).

(** The loop over the broker's frames; 127 when they end without an exit
    frame. *)
Fixpoint shim_loop (fs : list BFrame) : list shim_out * Z :=
  match fs with
  | [] => ([], 127)
  | f :: fs =>
      if String.eqb (b_Stream f) StreamStdout then
        let '(o, c) := shim_loop fs in (SStdout (b_Data f) :: o, c)
      else if String.eqb (b_Stream f) StreamStderr then
        let '(o, c) := shim_loop fs in (SStderr (b_Data f) :: o, c)
      else if String.eqb (b_Stream f) StreamExit then ([], b_Code f)
      else if HasPrefix (b_Stream f) StreamFDPrefix then
        match ParseUint 32 (sdrop (slen StreamFDPrefix) (b_Stream f)) with
        | Some fd =>
            let '(o, c) := shim_loop fs in
            (if (0 <? slen (b_Data f))%nat then SFD fd (b_Data f) :: o else o, c)
        | None => shim_loop fs
        end
      else shim_loop fs
  end.

(** [Run]: [sock] is $MPROXY_BROKER_SOCK, [dial] and [enc] whether connecting
    and sending the request succeed, [fs] the frames of the broker. *)
Definition shim_Run (args : list string) (sock : string) (dial enc : bool) (fs : list BFrame) : list shim_out * Z :=
  if (length args <? 2)%nat then ([], 127)
  else if String.eqb sock "" then ([], 127)
  else if negb dial then ([], 127)
  else if negb enc then ([], 127)
  else shim_loop fs.

Definition streamStdin (rs : reads) : list BFrame := pump (data_bframe StreamStdin) rs.
Definition streamFD (fd : Z) (rs : reads) : list BFrame := pump (data_bframe (fd_stream fd)) rs.

(** What happens on the shim's side of the connection, in time order. *)
Inductive shim_event : Type :=
  | EvStdin (data : string)
  | EvStdinEOF
  | EvSignal (sig : Z)
  | EvFD (fd : Z) (data : string).

Definition event_frame (e : shim_event) : option BFrame :=
  match e with
  | EvStdin data => Some (data_bframe StreamStdin data)
  | EvSignal sig => Some (mkBFrame StreamSignal "" 0 "" sig)
  | EvFD fd data => Some (data_bframe (fd_stream fd) data)
  | EvStdinEOF => None
  end.

(** The frames that reach the broker: the end of stdin shuts down the write
    side of the connection ([CloseWrite]), and what is sent later fails and is
    ignored. *)
Fixpoint shim_sends (evs : list shim_event) : list BFrame :=
  match evs with
  | [] => []
  | EvStdinEOF :: _ => []
  | e :: evs => match event_frame e with Some f => f :: shim_sends evs | None => shim_sends evs end
  end.

(** ** The shim sees what the runner wrote *)

Definition is_exit_frame (f : BFrame) : bool := String.eqb (b_Stream f) StreamExit.

(** What the shim does with one frame that is not the exit frame. *)
Definition frame_out (f : BFrame) : option shim_out :=
  if String.eqb (b_Stream f) StreamStdout then Some (SStdout (b_Data f))
  else if String.eqb (b_Stream f) StreamStderr then Some (SStderr (b_Data f))
  else if HasPrefix (b_Stream f) StreamFDPrefix then
    match ParseUint 32 (sdrop (slen StreamFDPrefix) (b_Stream f)) with
    | Some fd => if (0 <? slen (b_Data f))%nat then Some (SFD fd (b_Data f)) else None
    | None => None
    end
  else None.

Lemma shim_loop_body body f post :
  Forall (λ g, is_exit_frame g = false) body → is_exit_frame f = true →
  shim_loop (body ++ f :: post) = (omap frame_out body, b_Code f).
Proof.
  intros Hb Hf. induction Hb as [|g body Hg _ IH].
  - simpl. unfold is_exit_frame in Hf. apply seqb_true in Hf. by rewrite Hf.
  - cbn [app shim_loop]. rewrite IH. unfold is_exit_frame in Hg.
    change (omap frame_out (g :: body)) with
      (match frame_out g with Some o => o :: omap frame_out body | None => omap frame_out body end).
    generalize (omap frame_out body). intros rest. unfold frame_out. rewrite Hg.
    destruct (String.eqb (b_Stream g) StreamStdout); [done|].
    destruct (String.eqb (b_Stream g) StreamStderr); [done|].
    destruct (HasPrefix (b_Stream g) StreamFDPrefix); [|done].
    destruct (ParseUint 32 _); [|done]. by destruct (0 <? slen (b_Data g))%nat.
Qed.

(** The bytes the shim writes to its stdout (1), stderr (2) or to descriptor
    [k]. *)
Definition sel (k : Z) (o : shim_out) : option string :=
  match o with
  | SStdout d => if k =? 1 then Some d else None
  | SStderr d => if k =? 2 then Some d else None
  | SFD fd d => if fd =? k then Some d else None
  end.
Definition shim_bytes (k : Z) (o : list shim_out) : string := sconcat (omap (sel k) o).

(** The name of stream [k] on the connection. *)
Definition stream_name (k : Z) : string :=
  if k =? 1 then StreamStdout else if k =? 2 then StreamStderr else fd_stream k.

Lemma fd_stream_out fd d :
  is_u 32 fd → d ≠ "" → frame_out (data_bframe (fd_stream fd) d) = Some (SFD fd d).
Proof.
  intros Hfd Hd. unfold frame_out. cbn [b_Stream b_Data data_bframe].
  change (fd_stream fd) with ("fd:" +:+ Itoa fd).
  assert (HasPrefix ("fd:" +:+ Itoa fd) StreamFDPrefix = true) as -> by apply HasPrefix_app.
  assert (String.eqb ("fd:" +:+ Itoa fd) StreamStdout = false) as -> by done.
  assert (String.eqb ("fd:" +:+ Itoa fd) StreamStderr = false) as -> by done.
  assert (sdrop (slen StreamFDPrefix) ("fd:" +:+ Itoa fd) = Itoa fd) as -> by apply sdrop_app.
  rewrite ParseUint_Itoa by (done || lia). by destruct d.
Qed.

Lemma stream_name_out k j d :
  (j = 1 ∨ j = 2 ∨ 3 ≤ j ∧ is_u 32 j) → 1 ≤ k → d ≠ "" →
  frame_out (data_bframe (stream_name j) d) ≫= sel k = if j =? k then Some d else None.
Proof.
  intros Hj Hk Hd. destruct Hj as [->|[->|[H3 Hu]]].
  - destruct (Z.eqb_spec 1 k); simpl; [by subst|]. destruct (Z.eqb_spec k 1); [lia|done].
  - destruct (Z.eqb_spec 2 k); simpl; [by subst|]. destruct (Z.eqb_spec k 2); [lia|done].
  - unfold stream_name. destruct (Z.eqb_spec j 1); [lia|]. destruct (Z.eqb_spec j 2); [lia|].
    by rewrite fd_stream_out.
Qed.

Lemma omap_frames_same k j cs :
  (j = 1 ∨ j = 2 ∨ 3 ≤ j ∧ is_u 32 j) → 1 ≤ k → Forall (λ c, c ≠ "") cs →
  omap (λ f, frame_out f ≫= sel k) (data_bframe (stream_name j) <$> cs) = if j =? k then cs else [].
Proof.
  intros Hj Hk. induction 1 as [|c cs Hc _ IH]; [by destruct (j =? k)|].
  rewrite fmap_cons. cbn [omap list_omap]. rewrite (stream_name_out k j c Hj Hk Hc), IH. by destruct (j =? k).
Qed.

(** The stream numbers of a request: stdout, stderr, the extra descriptors. *)
Definition stream_ids (req : Request) : list Z := 1 :: 2 :: ExtraFDs req.

(** The descriptors the shim announces: beyond stderr, 32 bits, distinct. *)
Definition fds_ok (fds : list Z) : Prop := NoDup fds ∧ Forall (λ fd, 3 ≤ fd ∧ is_u 32 fd) fds.

Lemma stream_ids_ok req :
  fds_ok (ExtraFDs req) →
  NoDup (stream_ids req) ∧ Forall (λ j, j = 1 ∨ j = 2 ∨ 3 ≤ j ∧ is_u 32 j) (stream_ids req).
Proof.
  intros [Hn Hf]. unfold stream_ids. rewrite Forall_forall in Hf. split.
  - constructor; [|constructor; [|done]].
    + rewrite elem_of_cons. intros [?|Hin]; [lia|]. destruct (Hf _ Hin). lia.
    + intros Hin. destruct (Hf _ Hin). lia.
  - rewrite !Forall_cons. split; [by auto|]. split; [by auto|].
    apply Forall_forall. intros j Hin. destruct (Hf _ Hin). auto.
Qed.

(** The frames of a signalable runner's streams, by stream number. *)
Lemma serve_streams d run req :
  d_Remote d = true → d_Signalable d = true → Forall (λ j, 3 ≤ j) (ExtraFDs req) →
  serveConn d run (Ok req) =
  ((λ j, data_bframe (stream_name j) <$>
      chunks_of (pipe_reads BufSize (rr_out (run (prepare_request d req)) j))) <$> stream_ids req,
   exit_bframe (rr_code (run (prepare_request d req))) (rr_err (run (prepare_request d req)))).
Proof.
  intros Hr Hs Hf. unfold serveConn. rewrite Hr, Hs. cbn [andb]. unfold streamPipe, stream_ids.
  rewrite !fmap_cons, !pump_chunks. f_equal. do 2 f_equal.
  cbn [prepare_request ExtraFDs]. apply list_fmap_ext. intros i fd Hi. rewrite pump_chunks.
  unfold stream_name. pose proof (Forall_lookup_1 _ _ _ _ Hf Hi) as H3. cbv beta in H3.
  destruct (Z.eqb_spec fd 1); [lia|]. destruct (Z.eqb_spec fd 2); [lia|]. done.
Qed.

(** Whatever way the broker's copying goroutines interleave their frames,
    the shim returns the exit code of the remote command and writes exactly the
    bytes the command wrote, in order, to stdout, stderr and every extra
    descriptor; the exit frame cannot overtake output. *)
Theorem shim_transparent d run req out o code :
  d_Remote d = true → d_Signalable d = true → fds_ok (ExtraFDs req) →
  serves d run (Ok req) out → shim_loop out = (o, code) →
  code = rr_code (run (prepare_request d req)) ∧
  ∀ k, k ∈ stream_ids req → shim_bytes k o = sconcat (rr_out (run (prepare_request d req)) k).
Proof.
  intros Hr Hs Hfd (body & Hm & ->) Hloop. destruct (stream_ids_ok req Hfd) as [Hnd Hids].
  assert (Forall (λ j, 3 ≤ j) (ExtraFDs req)) as H3.
  { eapply Forall_impl; [apply Hfd|]. by intros ? [? _]. }
  rewrite serve_streams in Hm, Hloop by done. set (res := run (prepare_request d req)) in *. cbn [fst snd] in Hm, Hloop.
  set (cs := λ j, chunks_of (pipe_reads BufSize (rr_out res j))) in *.
  assert (∀ j, Forall (λ c, c ≠ "") (cs j)) as Hcs by (intros; apply chunks_of_nonempty).
  rewrite shim_loop_body in Hloop; [|eapply merges_Forall; [exact Hm|]|done].
  2:{ apply Forall_fmap. eapply Forall_impl; [exact Hids|]. intros j Hj. apply Forall_fmap.
      apply Forall_true. intros c. unfold is_exit_frame, stream_name. simpl.
      destruct Hj as [->|[->|[? _]]]; [done..|].
      destruct (Z.eqb_spec j 1); [done|]. destruct (Z.eqb_spec j 2); done. }
  simplify_eq. split; [done|]. intros k Hk.
  assert (1 ≤ k) as Hk1 by (rewrite Forall_forall in Hids; destruct (Hids _ Hk) as [?|[?|[? _]]]; lia).
  destruct (list_elem_of_lookup_1 _ _ Hk) as [i Hi].
  unfold shim_bytes. rewrite omap_omap.
  rewrite (merges_observe _ _ _ i (data_bframe (stream_name k) <$> cs k) Hm).
  - rewrite omap_frames_same, Z.eqb_refl by (done || by rewrite Forall_forall in Hids; apply Hids).
    apply pipe_chunks.
  - by rewrite list_lookup_fmap, Hi.
  - intros j l Hne Hl. rewrite list_lookup_fmap in Hl.
    destruct (stream_ids req !! j) as [q|] eqn:Hq; [|done]. injection Hl as <-.
    apply Forall_fmap. eapply Forall_impl; [apply (Hcs q)|]. intros c Hc. unfold compose.
    rewrite stream_name_out; [|by apply (Forall_lookup_1 _ _ _ _ Hids Hq)|done|done].
    destruct (Z.eqb_spec q k) as [->|]; [|done]. by destruct (Hne (NoDup_lookup _ _ _ _ Hnd Hq Hi)).
Qed.

(** ** What the runner gets from the shim *)

Lemma Sscanf_Itoa fd : is_u 32 fd → Sscanf_uint32 (Itoa fd) = Some fd.
Proof.
  intros Hfd. unfold Sscanf_uint32.
  assert (∀ s, all_digits s → digits_prefix s = s ∧
    trim_left (λ c, Ascii.eqb c " " || Ascii.eqb c "009") s = s) as Hs.
  { induction s as [|c s IH]; [done|]. intros [[x Hc] Hs]. destruct (IH Hs) as [IH1 _].
    cbn [digits_prefix trim_left]. rewrite Hc, IH1. split; [done|].
    destruct (Ascii.eqb_spec c " ") as [->|]; [done|]. by destruct (Ascii.eqb_spec c "009") as [->|]. }
  destruct (Hs (Itoa fd)) as [H1 H2]; [apply Itoa_all_digits, Hfd|]. rewrite H2, H1.
  apply ParseUint_Itoa; [lia|done].
Qed.

(** What the broker does for one event of the shim. *)
Definition event_act (e : shim_event) : option broker_act :=
  match e with
  | EvStdin data => Some (BStdin data)
  | EvSignal sig => Some (BSignal sig)
  | EvFD fd data => Some (BFD fd data)
  | EvStdinEOF => None
  end.

Definition event_ok (fds : list Z) (e : shim_event) : Prop :=
  match e with
  | EvStdin data => data ≠ ""
  | EvFD fd data => data ≠ "" ∧ fd ∈ fds ∧ is_u 32 fd
  | _ => True
  end.

Fixpoint before_eof (evs : list shim_event) : list shim_event :=
  match evs with
  | [] => []
  | EvStdinEOF :: _ => []
  | e :: evs => e :: before_eof evs
  end.

Lemma readFrames_fd fds n fd data fs :
  data ≠ "" → fd ∈ fds → is_u 32 fd →
  readFrames fds n (data_bframe (fd_stream fd) data :: fs) = BFD fd data :: readFrames fds n fs.
Proof.
  intros Hd Hin Hfd. cbn [readFrames b_Stream b_Data data_bframe].
  change (fd_stream fd) with ("fd:" +:+ Itoa fd).
  assert (String.eqb ("fd:" +:+ Itoa fd) StreamStdin = false) as -> by done.
  assert (String.eqb ("fd:" +:+ Itoa fd) StreamSignal = false) as -> by done.
  assert (HasPrefix ("fd:" +:+ Itoa fd) StreamFDPrefix = true) as -> by apply HasPrefix_app.
  assert (sdrop (slen StreamFDPrefix) ("fd:" +:+ Itoa fd) = Itoa fd) as -> by apply sdrop_app.
  rewrite Sscanf_Itoa, bool_decide_true by done. by destruct data.
Qed.

(** The remote command receives from the shim exactly what happened before
    the end of its standard input, in order: the input bytes, the signals and
    the data of the extra descriptors; then its signal channel and its stdin are
    closed.  So a signal that arrives after standard input has ended (which is at
    once for a command started with /dev/null) is never forwarded. *)
Theorem shim_input_until_eof fds n evs :
  Forall (event_ok fds) evs → (length evs ≤ n)%nat →
  readFrames fds n (shim_sends evs) = omap event_act (before_eof evs) ++ [BCloseSignals; BCloseStdin].
Proof.
  intros Hev. revert n. induction Hev as [|e evs He _ IH]; intros n Hn; [done|]. simpl in Hn.
  destruct e as [data| |sig|fd data]; cbn [shim_sends event_frame before_eof].
  - destruct n as [|n]; [lia|]. cbn in He. destruct data as [|c data]; [done|].
    cbn [readFrames b_Stream b_Data data_bframe]. change (String.eqb StreamStdin StreamStdin) with true.
    cbn [slen Nat.ltb Nat.leb]. cbn. f_equal. apply IH. lia.
  - done.
  - cbn. f_equal. apply IH. lia.
  - destruct He as (? & ? & ?). rewrite readFrames_fd by done. cbn. f_equal. apply IH. lia.
Qed.

(** The descriptors the shim announces are none of the first three, nor its
    own connection or directory handle. *)
Theorem detectExtraFDs_spec p brokerFD dirFD fd :
  fd ∈ detectExtraFDs p brokerFD dirFD ↔
  ∃ names name flags target, pf_names p = Some names ∧ name ∈ names ∧ ParseUint 32 name = Some fd ∧
    3 ≤ fd ∧ fd ≠ dirFD ∧ fd ≠ brokerFD ∧ pf_getfd p fd = Some flags ∧ Z.land flags FD_CLOEXEC = 0 ∧
    pf_readlink p ("/proc/self/fd/" +:+ name) = Some target ∧ HasPrefix target "anon_inode:" = false.
Proof.
  unfold detectExtraFDs. destruct (pf_names p) as [names|]; [|set_solver].
  rewrite list_elem_of_omap. split.
  - intros (name & Hin & Hk). unfold keep_fd in Hk. destruct (ParseUint 32 name) as [n|] eqn:En; [|done].
    destruct ((n <? 3) || (n =? dirFD) || (n =? brokerFD)) eqn:Eg; [done|].
    apply orb_false_elim in Eg as [Eg E3]. apply orb_false_elim in Eg as [E1 E2].
    destruct (pf_getfd p n) as [flags|] eqn:Ef; [|done].
    destruct (Z.land flags FD_CLOEXEC =? 0) eqn:Ec; cbn [negb] in Hk; [|done].
    destruct (pf_readlink p ("/proc/self/fd/" +:+ name)) as [target|] eqn:Et; [|done].
    destruct (HasPrefix target "anon_inode:") eqn:Ea; simplify_eq.
    apply Z.ltb_ge in E1. apply Z.eqb_neq in E2, E3. apply Z.eqb_eq in Ec.
    exists names, name, flags, target. by split_and!.
  - intros (names' & name & flags & target & [= <-] & Hin & Hn & H3 & Hd & Hb & Hf & Hc & Ht & Ha).
    exists name. split; [done|]. unfold keep_fd. rewrite Hn.
    destruct (Z.ltb_spec fd 3), (Z.eqb_spec fd dirFD), (Z.eqb_spec fd brokerFD); try lia; try done.
    cbn [orb]. by rewrite Hf, Hc, Ht, Ha.
Qed.

(** ** Witnesses *)

Module Demo.

Definition deps : Deps := mkDeps true true None (Some (λ p, "/remote" +:+ p)).
Definition run (req : Request) : run_result :=
  mkRun (λ k, if k =? 1 then ["hel"; "lo"] else if k =? 5 then [Path req] else []) 42 None.
Definition req : Request := mkRequest "/bin/x" ["x"] [] "/w" [5].
Definition wire : list BFrame :=
  [data_bframe "fd:5" "/remote/bin/x"; data_bframe "stdout" "hel"; data_bframe "stdout" "lo"; exit_bframe 42 None].

Lemma wire_serves : serves deps run (Ok req) wire.
Proof.
  exists (take 3 wire). split; [|vm_compute; reflexivity].
  apply (merges_step 2 _ []); [reflexivity|]. apply (merges_step 0 _ [data_bframe "stdout" "lo"]); [reflexivity|].
  apply (merges_step 0 _ []); [reflexivity|]. apply merges_nil. by repeat constructor.
Qed.

Lemma shim_transparent_witness :
  (shim_loop wire).2 = 42 ∧ shim_bytes 1 (shim_loop wire).1 = "hello" ∧
  shim_bytes 5 (shim_loop wire).1 = "/remote/bin/x".
Proof.
  destruct (shim_loop wire) as [o code] eqn:E.
  destruct (shim_transparent deps run req wire o code) as [-> Hb];
    [reflexivity|reflexivity| |apply wire_serves|exact E|].
  - split; [repeat constructor; set_solver|]. by repeat constructor.
  - split; [reflexivity|]. simpl. split; apply Hb; unfold stream_ids; simpl; set_solver.
Defined.

Lemma shim_input_until_eof_witness :
  readFrames [5] 9 (shim_sends [EvStdin "a"; EvFD 5 "b"; EvSignal 2; EvStdinEOF; EvSignal 15]) =
    [BStdin "a"; BFD 5 "b"; BSignal 2; BCloseSignals; BCloseStdin].
Proof.
  apply (shim_input_until_eof [5] 9 [EvStdin "a"; EvFD 5 "b"; EvSignal 2; EvStdinEOF; EvSignal 15]).
  - repeat constructor; try done; set_solver.
  - simpl. lia.
Defined.

End Demo.
