(* ===== verification/ChildProc.v ===== *)
(** * ChildProc: starting the remote command and collecting its status

    Models [pkg/childproc] (the command of a [Spec], its pipes and extra
    descriptors, exit codes, signals to the process group) for unix.  Descriptors
    are numbers of a ledger that records which are open, so that a leak is visible;
    the kernel grants a limited number of pairs, after which creating one fails. *)

From S2P Require Import Prelude GoStrings.
Local Open Scope Z_scope.

(** ** Descriptors *)

(** The open descriptors, how many pairs the kernel still grants, and the pairs it made. *)
Record ledger := mkLedger { next_fd : nat; open_fds : gset nat; budget : nat; made : list (nat * nat) }.

(** [os.Pipe] and [socketpair]: two new descriptors, or an error.  The first of a pipe is its
    read end, the first of a socket pair the parent's. *)
Definition new_pair (l : ledger) : option (nat * nat * ledger) :=
  match budget l with
  | O => None
  | S b =>
      let a := next_fd l in
      Some (a, S a, mkLedger (S (S a)) ({[a; S a]} ∪ open_fds l) b (made l ++ [(a, S a)]))
  end.

Definition close_fd (fd : nat) (l : ledger) : ledger :=
  mkLedger (next_fd l) (open_fds l ∖ {[fd]}) (budget l) (made l).
Definition close_all (fds : list nat) (l : ledger) : ledger := foldl (λ l fd, close_fd fd l) l fds.

(** ** Commands *)

Record Spec := mkSpec {
  sp_Path : string; sp_Argv : list string; sp_Env : list string; sp_Cwd : string;
  sp_ExtraFDs : list Z; DropSudoCredentials : bool;
}.

(** The fields of [exec.Cmd] the package sets; a nil file is [None]. *)
Record Cmd := mkCmd {
  cmd_Path : string; cmd_Args : list string; cmd_Env : list string; cmd_Dir : string;
  cmd_Stdin : option nat; cmd_Stdout : option nat; cmd_Stderr : option nat;
  ExtraFiles : list (option nat);
  Setpgid : bool; Credential : option (Z * Z);
}.

Record Pipes := mkPipes {
  p_Stdin : option nat; p_Stdout : option nat; p_Stderr : option nat; p_Extra : gmap Z nat;
}.

(** [exec.Command]: a name without a slash is looked up in PATH. *)
Definition exec_Command (LookPath : string → option string) (name : string) (args : list string) : Cmd :=
  mkCmd (if contains_byte slash name then name else default name (LookPath name))
    (name :: args) [] "" None None None [] false None.

Definition newCmd (LookPath : string → option string) (spec : Spec) : Cmd :=
  let cmd :=
    if (length (sp_Argv spec) <=? 1)%nat then exec_Command LookPath (sp_Path spec) []
    else exec_Command LookPath (sp_Path spec) (drop 1 (sp_Argv spec)) in
  mkCmd (cmd_Path cmd) (cmd_Args cmd) (sp_Env spec) (sp_Cwd spec) None None None [] false None.

(** [Pipes.Close]. *)
Definition pipes_Close (p : Pipes) (l : ledger) : Pipes * ledger :=
  let l := close_all (option_list (p_Stdin p) ++ option_list (p_Stdout p) ++ option_list (p_Stderr p)) l in
  let l := close_all (snd <$> map_to_list (p_Extra p)) l in
  (mkPipes None None None ∅, l).

Definition CloseChildSide (c : Cmd) (l : ledger) : ledger :=
  close_all (option_list (cmd_Stdin c) ++ option_list (cmd_Stdout c) ++ option_list (cmd_Stderr c)
             ++ omap id (ExtraFiles c)) l.

Definition with_std (c : Cmd) (i o e : nat) : Cmd :=
  mkCmd (cmd_Path c) (cmd_Args c) (cmd_Env c) (cmd_Dir c) (Some i) (Some o) (Some e) (ExtraFiles c)
    (Setpgid c) (Credential c).
Definition with_attr (c : Cmd) (cred : option (Z * Z)) : Cmd :=
  mkCmd (cmd_Path c) (cmd_Args c) (cmd_Env c) (cmd_Dir c) (cmd_Stdin c) (cmd_Stdout c) (cmd_Stderr c)
    (ExtraFiles c) true cred.
Definition with_extra (c : Cmd) (files : list (option nat)) : Cmd :=
  mkCmd (cmd_Path c) (cmd_Args c) (cmd_Env c) (cmd_Dir c) (cmd_Stdin c) (cmd_Stdout c) (cmd_Stderr c)
    files (Setpgid c) (Credential c).

Definition setupStdPipes (c : Cmd) (l : ledger) : option (Cmd * Pipes) * ledger :=
  match new_pair l with
  | None => (None, l)
  | Some (stdinR, stdinW, l1) =>
      match new_pair l1 with
      | None => (None, close_all [stdinR; stdinW] l1)
      | Some (stdoutR, stdoutW, l2) =>
          match new_pair l2 with
          | None => (None, close_all [stdinR; stdinW; stdoutR; stdoutW] l2)
          | Some (stderrR, stderrW, l3) =>
              (Some (with_std c stdinR stdoutW stderrW,
                     mkPipes (Some stdinW) (Some stdoutR) (Some stderrR) ∅), l3)
          end
      end
  end.

Inductive build_error : Type :=
  | ErrSudoUID (v : string) | ErrSudoGID (v : string) | ErrStdPipes | ErrSocketpair (fd : Z).

(** An index below zero is a run-time panic. *)
Inductive build_result : Type :=
  | BuildOk (c : Cmd) (p : Pipes)
  | BuildErr (e : build_error)
  | BuildPanic.

(** The credential of $SUDO_UID and $SUDO_GID ("" when unset). *)
Definition sudo_credential (uidv gidv : string) : result build_error (option (Z * Z)) :=
  if String.eqb uidv "" then Ok None
  else match ParseUint 32 uidv with
       | None => Err (ErrSudoUID uidv)
       | Some uid =>
           if String.eqb gidv "" then Ok (Some (uid, uid))
           else match ParseUint 32 gidv with
                | None => Err (ErrSudoGID gidv)
                | Some gid => Ok (Some (uid, gid))
                end
       end.

(** Pad to [idx] and store. *)
Definition put_file (files : list (option nat)) (idx : nat) (fd : nat) : list (option nat) :=
  <[idx := Some fd]> (files ++ replicate (S idx - length files) None).

(** The loop over the extra descriptors. *)
Fixpoint extra_loop (fds : list Z) (c : Cmd) (p : Pipes) (l : ledger) : build_result * ledger :=
  match fds with
  | [] => (BuildOk c p, l)
  | fd :: fds =>
      match new_pair l with
      | None => (BuildErr (ErrSocketpair fd), (pipes_Close p l).2)
      | Some (agentEnd, childEnd, l) =>
          if fd <? 3 then (BuildPanic, l)
          else
            extra_loop fds (with_extra c (put_file (ExtraFiles c) (Z.to_nat (fd - 3)) childEnd))
              (mkPipes (p_Stdin p) (p_Stdout p) (p_Stderr p) (<[fd := agentEnd]> (p_Extra p))) l
      end
  end.

Definition Build (LookPath : string → option string) (sudoUID sudoGID : string) (spec : Spec) (l : ledger) :
    build_result * ledger :=
  let c := newCmd LookPath spec in
  match (if DropSudoCredentials spec then sudo_credential sudoUID sudoGID else Ok None) with
  | Err e => (BuildErr e, l)
  | Ok cred =>
      match setupStdPipes (with_attr c cred) l with
      | (None, l) => (BuildErr ErrStdPipes, l)
      | (Some (c, p), l) => extra_loop (sp_ExtraFDs spec) c p l
      end
  end.

(** ** Status and signals *)

(** A raw wait status: the low seven bits and the exit byte. *)
Definition Signaled (ws : Z) : bool := negb (Z.land ws 127 =? 127) && negb (Z.land ws 127 =? 0).
Definition Exited (ws : Z) : bool := Z.land ws 127 =? 0.
Definition ws_Signal (ws : Z) : Z := if Signaled ws then Z.land ws 127 else -1.
Definition ws_ExitStatus (ws : Z) : Z := if Exited ws then Z.land (Z.shiftr ws 8) 255 else -1.

Definition ExitCodeFromWaitStatus (ws : Z) : Z :=
  if Signaled ws then 128 + ws_Signal ws else ws_ExitStatus ws.

(** [ExitCode]: [Sys()] is a wait status on unix. *)
Definition ExitCode (sys : option Z) (state_ExitCode : Z) : Z :=
  match sys with None => state_ExitCode | Some ws => ExitCodeFromWaitStatus ws end.

(** The kill calls of [SignalGroup]: to the group, or to the process when the
    group is unknown. *)
Inductive kill_call : Type := KillGroup (pgid sig : Z) | KillProcess (pid sig : Z).
Definition SignalGroup (pid : option Z) (Getpgid : Z → option Z) (sig : Z) : option kill_call :=
  match pid with
  | None => None
  | Some pid => Some (match Getpgid pid with Some g => KillGroup g sig | None => KillProcess pid sig end)
  end.

(** ** What [Build] leaves open *)

Definition child_fds (c : Cmd) : list nat :=
  option_list (cmd_Stdin c) ++ option_list (cmd_Stdout c) ++ option_list (cmd_Stderr c)
  ++ omap id (ExtraFiles c).
Definition parent_fds (p : Pipes) : list nat :=
  option_list (p_Stdin p) ++ option_list (p_Stdout p) ++ option_list (p_Stderr p)
  ++ (snd <$> map_to_list (p_Extra p)).

(** The kernel hands out descriptors that are not open. *)
Definition ledger_ok (l : ledger) : Prop := ∀ fd, fd ∈ open_fds l → (fd < next_fd l)%nat.

(** Both descriptors of every pair. *)
Definition both_ends (l : list (nat * nat)) : list nat := l.*1 ++ l.*2.

(** The pairs of a command: the child reads [i] and writes [o] and [e], the parent has the
    other ends; for the [n]-th extra descriptor, the child has the second end of the [n]-th
    pair of [ss] under that number, the parent the first. *)
Record wired (fds : list Z) (i o e : nat * nat) (ss : list (nat * nat)) (c : Cmd) (p : Pipes) : Prop := {
  w_stdin : cmd_Stdin c = Some i.1 ∧ p_Stdin p = Some i.2;
  w_stdout : cmd_Stdout c = Some o.2 ∧ p_Stdout p = Some o.1;
  w_stderr : cmd_Stderr c = Some e.2 ∧ p_Stderr p = Some e.1;
  w_len : length ss = length fds;
  w_low : Forall (λ fd, 3 <= fd) fds;
  w_parent : ∀ fd a, p_Extra p !! fd = Some a ↔ ∃ b, (fd, (a, b)) ∈ zip fds ss;
  w_child : ∀ n b, ExtraFiles c !! n = Some (Some b) ↔ ∃ a, (Z.of_nat n + 3, (a, b)) ∈ zip fds ss;
}.

Lemma open_close_all fds l : open_fds (close_all fds l) = open_fds l ∖ list_to_set fds.
Proof.
  unfold close_all. revert l. induction fds as [|fd fds IH]; intros l; simpl; [set_solver|].
  rewrite IH. simpl. set_solver.
Qed.

Lemma pipes_Close_open p l : open_fds (pipes_Close p l).2 = open_fds l ∖ list_to_set (parent_fds p).
Proof.
  unfold pipes_Close, parent_fds. simpl. rewrite !open_close_all, !list_to_set_app_L. set_solver.
Qed.

Lemma CloseChildSide_open c l : open_fds (CloseChildSide c l) = open_fds l ∖ list_to_set (child_fds c).
Proof. unfold CloseChildSide, child_fds. apply open_close_all. Qed.

Lemma new_pair_fresh l a b l' :
  ledger_ok l → new_pair l = Some (a, b, l') →
  (a < b)%nat ∧ (a ∉ open_fds l) ∧ (b ∉ open_fds l) ∧ open_fds l' = {[a; b]} ∪ open_fds l ∧
  made l' = made l ++ [(a, b)] ∧ ledger_ok l'.
Proof.
  unfold new_pair. intros Hok H. destruct (budget l); [discriminate|]. injection H as <- <- <-.
  split_and!; [lia| | |done|done|]; [intros ?%Hok; lia..|].
  intros fd; simpl. rewrite !elem_of_union, !elem_of_singleton. intros [[->| ->]|?%Hok]; lia.
Qed.

Lemma put_file_lookup files idx fd i :
  put_file files idx fd !! i =
  if decide (i = idx) then Some (Some fd)
  else (files ++ replicate (S idx - length files) None) !! i.
Proof.
  unfold put_file. case_decide as Hi.
  - subst. apply list_lookup_insert_eq. rewrite length_app, length_replicate. lia.
  - by apply list_lookup_insert_ne.
Qed.

Lemma put_file_some files idx fd i b :
  put_file files idx fd !! i = Some (Some b) ↔ i = idx ∧ b = fd ∨ i ≠ idx ∧ files !! i = Some (Some b).
Proof.
  rewrite put_file_lookup. case_decide as Hi; [naive_solver|].
  rewrite lookup_app_Some. split.
  - intros [?|[_ [? _]%lookup_replicate]]; [naive_solver|done].
  - naive_solver.
Qed.

(** What holds between two rounds of the loop: the ledger [l] has the pairs made since [l0],
    all open, all different and none of them open in [l0]. *)
Record built (l0 : ledger) (fds : list Z) (i o e : nat * nat) (ss : list (nat * nat)) (c : Cmd) (p : Pipes)
    (l : ledger) : Prop := {
  b_ok : ledger_ok l;
  b_made : made l = made l0 ++ i :: o :: e :: ss;
  b_open : open_fds l = open_fds l0 ∪ list_to_set (both_ends (i :: o :: e :: ss));
  b_nodup : NoDup (both_ends (i :: o :: e :: ss));
  b_fresh : Forall (λ fd, fd ∉ open_fds l0) (both_ends (i :: o :: e :: ss));
  b_wired : wired fds i o e ss c p;
}.

(** The ends each side holds. *)
Definition child_ends (i o e : nat * nat) (ss : list (nat * nat)) : list nat := i.1 :: o.2 :: e.2 :: ss.*2.
Definition parent_ends (i o e : nat * nat) (ss : list (nat * nat)) : list nat := i.2 :: o.1 :: e.1 :: ss.*1.

Lemma elem_of_zip_snd {A B} (l : list A) (k : list B) y :
  length k = length l → y ∈ k ↔ ∃ x, (x, y) ∈ zip l k.
Proof.
  intros Hl. split.
  - intros [n Hn]%list_elem_of_lookup. destruct (lookup_lt_is_Some_2 l n) as [x Hx].
    { rewrite <- Hl. by eapply lookup_lt_Some. }
    exists x. apply list_elem_of_lookup. exists n. by rewrite lookup_zip_with, Hx, Hn.
  - intros [x Hx]. by apply elem_of_zip_r in Hx.
Qed.

Lemma wired_child fds i o e ss c p x :
  wired fds i o e ss c p → x ∈ child_fds c ↔ x ∈ child_ends i o e ss.
Proof.
  intros [[H1 _] [H2 _] [H3 _] Hl Hlow _ Hc]. unfold child_fds, child_ends. rewrite H1, H2, H3. unfold option_list. cbn [option_rect app].
  rewrite !elem_of_cons, list_elem_of_omap, list_elem_of_fmap.
  assert ((∃ f, f ∈ ExtraFiles c ∧ id f = Some x) ↔ ∃ y, x = y.2 ∧ y ∈ ss) as ->; [|done]. split.
  - intros (f & [n Hn]%list_elem_of_lookup & Hf). cbn in Hf. subst f. apply Hc in Hn as [a Ha].
    exists (a, x). split; [done|]. by apply elem_of_zip_r in Ha.
  - intros ([a b] & -> & Hin). apply (elem_of_zip_snd fds) in Hin as [fd Hfd]; [|done]. exists (Some b). split; [|done].
    pose proof (elem_of_zip_l _ _ _ _ Hfd) as Hge. rewrite Forall_forall in Hlow. apply Hlow in Hge.
    apply list_elem_of_lookup. exists (Z.to_nat (fd - 3)). apply Hc. exists a.
    by replace (Z.of_nat (Z.to_nat (fd - 3)) + 3) with fd by lia.
Qed.

Lemma wired_parent fds i o e ss c p x :
  wired fds i o e ss c p → x ∈ parent_fds p ↔ x ∈ parent_ends i o e ss.
Proof.
  intros [[_ H1] [_ H2] [_ H3] Hl _ Hp _]. unfold parent_fds, parent_ends. rewrite H1, H2, H3. unfold option_list. cbn [option_rect app].
  rewrite !elem_of_cons, !list_elem_of_fmap.
  assert ((∃ y : Z * nat, x = y.2 ∧ y ∈ map_to_list (p_Extra p)) ↔ ∃ y : nat * nat, x = y.1 ∧ y ∈ ss) as ->; [|done]. split.
  - intros ([fd a] & -> & Hin). apply elem_of_map_to_list, Hp in Hin as [b Hb].
    exists (a, b). split; [done|]. by apply elem_of_zip_r in Hb.
  - intros ([a b] & -> & Hin). apply (elem_of_zip_snd fds) in Hin as [fd Hfd]; [|done].
    exists (fd, a). split; [done|]. apply elem_of_map_to_list, Hp. by exists b.
Qed.

Lemma both_ends_split i o e ss : both_ends (i :: o :: e :: ss) ≡ₚ child_ends i o e ss ++ parent_ends i o e ss.
Proof. unfold both_ends, child_ends, parent_ends. cbn. solve_Permutation. Qed.

Lemma setupStdPipes_built c l :
  ledger_ok l → ExtraFiles c = [] →
  match setupStdPipes c l with
  | (Some (c', p), l') => ∃ i o e, built l [] i o e [] c' p l'
  | (None, l') => open_fds l' = open_fds l
  end.
Proof.
  intros Hok He. unfold setupStdPipes.
  destruct (new_pair l) as [[[a1 b1] l1]|] eqn:H1; [|done].
  destruct (new_pair_fresh _ _ _ _ Hok H1) as (Hlt1 & Ha1 & Hb1 & Ho1 & Hm1 & Hok1).
  destruct (new_pair l1) as [[[a2 b2] l2]|] eqn:H2.
  2: { rewrite open_close_all, Ho1. simpl. set_solver. }
  destruct (new_pair_fresh _ _ _ _ Hok1 H2) as (Hlt2 & Ha2 & Hb2 & Ho2 & Hm2 & Hok2).
  destruct (new_pair l2) as [[[a3 b3] l3]|] eqn:H3.
  2: { rewrite open_close_all, Ho2, Ho1. simpl. set_solver. }
  destruct (new_pair_fresh _ _ _ _ Hok2 H3) as (Hlt3 & Ha3 & Hb3 & Ho3 & Hm3 & Hok3).
  rewrite Ho2, Ho1 in *. exists (a1, b1), (a2, b2), (a3, b3).
  constructor; [done| | | | |].
  - by rewrite Hm3, Hm2, Hm1, <- !app_assoc.
  - rewrite Ho3. unfold both_ends. cbn. set_solver.
  - unfold both_ends. cbn. rewrite !NoDup_cons. split_and!; try apply NoDup_nil_2; set_solver by lia.
  - unfold both_ends. cbn. rewrite !Forall_cons, Forall_nil. set_solver.
  - split; try done; cbn.
    + intros fd a. rewrite lookup_empty. split; [done|]. by intros [b ?%elem_of_nil].
    + intros n b. rewrite He. cbn. split; [done|]. by intros [a ?%elem_of_nil].
Qed.

Lemma wired_extra fds fd i o e ss c p a b :
  wired fds i o e ss c p → fd ∉ fds → 3 <= fd →
  wired (fds ++ [fd]) i o e (ss ++ [(a, b)])
    (with_extra c (put_file (ExtraFiles c) (Z.to_nat (fd - 3)) b))
    (mkPipes (p_Stdin p) (p_Stdout p) (p_Stderr p) (<[fd := a]> (p_Extra p))).
Proof.
  intros [Hi Ho He Hl Hlow Hp Hc] Hfd H3.
  assert (∀ x y, (x, y) ∈ zip (fds ++ [fd]) (ss ++ [(a, b)]) ↔ (x, y) ∈ zip fds ss ∨ x = fd ∧ y = (a, b)) as Hz.
  { intros x y. rewrite zip_with_app by done. cbn. rewrite elem_of_app, list_elem_of_singleton. naive_solver. }
  assert (∀ x y, (x, y) ∈ zip fds ss → x ≠ fd) as Hne.
  { intros x y Hin ->. by apply Hfd, (elem_of_zip_l _ _ _ _ Hin). }
  split; try done; cbn.
  - rewrite !length_app, Hl. done.
  - apply Forall_app. split; [done|]. by repeat constructor.
  - intros fd' a'. rewrite lookup_insert_Some, Hp. setoid_rewrite Hz. split.
    + intros [[-> ->]|[Hn [b' Hb]]]; [exists b|exists b']; naive_solver.
    + intros [b' [Hin|[-> [= -> ->]]]]; [right|by left]. split; [|by exists b']. intros ->. by apply (Hne _ _ Hin).
  - intros n b'. rewrite put_file_some, Hc. setoid_rewrite Hz. split.
    + intros [[-> ->]|[Hn [a' Ha]]]; [exists a; right; split; [lia|done]|exists a'; by left].
    + intros [a' [Hin|[Hn [= -> ->]]]]; [right|left; split; [lia|done]].
      split; [|by exists a']. intros ->. apply (Hne _ _ Hin). lia.
Qed.

Lemma built_extra l0 fds fd i o e ss c p l a b l' :
  built l0 fds i o e ss c p l → fd ∉ fds → 3 <= fd → new_pair l = Some (a, b, l') →
  built l0 (fds ++ [fd]) i o e (ss ++ [(a, b)]) (with_extra c (put_file (ExtraFiles c) (Z.to_nat (fd - 3)) b))
    (mkPipes (p_Stdin p) (p_Stdout p) (p_Stderr p) (<[fd := a]> (p_Extra p))) l'.
Proof.
  intros [Hok Hm Hopen Hnd Hfr Hw] Hfd H3 Hp.
  destruct (new_pair_fresh _ _ _ _ Hok Hp) as (Hlt & Ha & Hb & Hopen' & Hm' & Hok').
  assert (both_ends (i :: o :: e :: ss ++ [(a, b)]) ≡ₚ a :: b :: both_ends (i :: o :: e :: ss)) as Hall.
  { unfold both_ends. cbn. rewrite !fmap_app. cbn. solve_Permutation. }
  rewrite Hopen in Ha, Hb. constructor; [done| | | | |].
  - rewrite Hm', Hm, <- app_assoc. done.
  - rewrite Hopen', Hopen. apply leibniz_equiv. rewrite Hall. set_solver.
  - rewrite Hall, !NoDup_cons, elem_of_cons. split_and!; [|set_solver|done]. intros [?|?]; [lia|set_solver].
  - rewrite Hall, !Forall_cons. split_and!; [set_solver..|done].
  - by apply wired_extra.
Qed.

Lemma built_close l0 fds i o e ss c p l :
  built l0 fds i o e ss c p l → open_fds (pipes_Close p (CloseChildSide c l)).2 = open_fds l0.
Proof.
  intros [_ _ Hopen _ Hfr Hw]. rewrite pipes_Close_open, CloseChildSide_open, Hopen.
  rewrite Forall_forall in Hfr. apply set_eq. intros x.
  rewrite !elem_of_difference, !elem_of_union, !elem_of_list_to_set.
  rewrite (wired_child _ _ _ _ _ _ _ x Hw), (wired_parent _ _ _ _ _ _ _ x Hw).
  specialize (Hfr x). rewrite (both_ends_split i o e ss) in Hfr |- *. rewrite elem_of_app in *. tauto.
Qed.

(** [Pipes.Close] alone closes the parent's ends. *)
Lemma built_half_close l0 fds i o e ss c p l :
  built l0 fds i o e ss c p l →
  open_fds (pipes_Close p l).2 = open_fds l0 ∪ list_to_set (child_ends i o e ss).
Proof.
  intros [_ _ Hopen Hnd Hfr Hw]. rewrite pipes_Close_open, Hopen.
  rewrite (both_ends_split i o e ss) in Hnd. apply NoDup_app in Hnd as (_ & Hdis & _).
  rewrite (both_ends_split i o e ss) in Hfr. rewrite Forall_forall in Hfr. apply set_eq. intros x.
  rewrite !elem_of_difference, !elem_of_union, !elem_of_list_to_set, (both_ends_split i o e ss), elem_of_app.
  rewrite (wired_parent _ _ _ _ _ _ _ x Hw). specialize (Hdis x). specialize (Hfr x). rewrite elem_of_app in Hfr. tauto.
Qed.

(** The pairs that were made: distinct descriptors that were not open before. *)
Definition new_pairs (l0 l : ledger) (ps : list (nat * nat)) : Prop :=
  made l = made l0 ++ ps ∧ NoDup (both_ends ps) ∧ Forall (λ fd, fd ∉ open_fds l0) (both_ends ps).

Definition build_ends (l0 : ledger) (all : list Z) (r : build_result * ledger) : Prop :=
  match r with
  | (BuildOk c p, l) =>
      ∃ i o e ss, new_pairs l0 l (i :: o :: e :: ss) ∧ wired all i o e ss c p ∧
        open_fds l = open_fds l0 ∪ list_to_set (both_ends (i :: o :: e :: ss)) ∧
        open_fds (pipes_Close p (CloseChildSide c l)).2 = open_fds l0
  | (BuildErr (ErrSocketpair fd), l) =>
      ∃ before after i o e ss, all = before ++ fd :: after ∧ length ss = length before ∧
        new_pairs l0 l (i :: o :: e :: ss) ∧
        open_fds l = open_fds l0 ∪ list_to_set (child_ends i o e ss)
  | (BuildErr _, l) => open_fds l = open_fds l0
  | (BuildPanic, _) => ∃ fd, fd ∈ all ∧ fd < 3
  end.

Lemma made_close_all fds l : made (close_all fds l) = made l.
Proof. unfold close_all. revert l. induction fds as [|fd fds IH]; intros l; [done|]. cbn. by rewrite IH. Qed.

Lemma extra_loop_ends l0 before fds i o e ss c p l :
  NoDup (before ++ fds) → built l0 before i o e ss c p l →
  build_ends l0 (before ++ fds) (extra_loop fds c p l).
Proof.
  revert before ss c p l. induction fds as [|fd fds IH]; intros before ss c p l Hnd Hb; simpl.
  - rewrite app_nil_r. exists i, o, e, ss. destruct Hb as [? Hm ? ? ? ?] eqn:E. split_and!; [by split|done|done|].
    clear E. eapply built_close. by split.
  - destruct (new_pair l) as [[[a b] l']|] eqn:Hp.
    2: { exists before, fds, i, o, e, ss. split; [done|]. split; [apply Hb|].
         split; [|by eapply built_half_close]. destruct Hb. split_and!; [|done|done].
         unfold pipes_Close. cbn. by rewrite !made_close_all. }
    destruct (Z.ltb_spec fd 3) as [Hlt|Hge].
    + exists fd. split; [|done]. set_solver.
    + rewrite cons_middle, (assoc_L (++)) in Hnd |- *. eapply (IH _ (ss ++ [(a, b)])); [done|].
      apply NoDup_app in Hnd as (Hnd & _ & _). apply NoDup_app in Hnd as (_ & Hnd & _).
      eapply built_extra; [done| |done|done]. intros Hin. apply (Hnd _ Hin). set_solver.
Qed.

Lemma Build_ends LookPath sudoUID sudoGID spec l :
  ledger_ok l → NoDup (sp_ExtraFDs spec) →
  build_ends l (sp_ExtraFDs spec) (Build LookPath sudoUID sudoGID spec l).
Proof.
  intros Hok Hnd. unfold Build.
  destruct (if DropSudoCredentials spec then _ else _) as [cred|e] eqn:Hcred.
  2: { destruct e; try done. exfalso. destruct (DropSudoCredentials spec); [|done].
       unfold sudo_credential in Hcred. by repeat case_match. }
  pose proof (setupStdPipes_built (with_attr (newCmd LookPath spec) cred) l Hok eq_refl) as Hstd.
  destruct (setupStdPipes _ l) as [[[c p]|] l']; [|done]. destruct Hstd as (i & o & e & Hstd).
  by apply (extra_loop_ends l [] _ i o e []).
Qed.

(** C32: [Build], asked for distinct extra descriptors: the child reads one end of a new
    pipe as its stdin and writes one end of a new pipe each as stdout and stderr, the
    parent holding the other ends; as descriptor [n], for every extra [n] asked for and no
    other, it has the child's end of a socket pair whose parent's end is the parent's entry
    for [n].  Closing the child's side and the pipes afterwards leaves exactly the
    descriptors that were open before.  A failed standard pipe or an invalid sudo identity
    leaves nothing open.  A failed socket pair closes the parent's ends and leaves the
    child's ends of everything made before it open.  A panic means a descriptor below 3
    was asked for. *)
Theorem build_outcome LookPath sudoUID sudoGID spec l :
  ledger_ok l → NoDup (sp_ExtraFDs spec) →
  build_ends l (sp_ExtraFDs spec) (Build LookPath sudoUID sudoGID spec l).
Proof. apply Build_ends. Qed.

(** ** Exit codes *)

(** The statuses of a process that ended, as [wait(2)] gives them: the exit byte above eight
    zero bits, or the signal with the core flag. *)
Definition exit_status (code : Z) : Z := Z.shiftl code 8.
Definition signal_status (sig : Z) (core : bool) : Z := sig + (if core then 128 else 0).

Lemma exit_code_arith ws :
  0 <= ws →
  ExitCodeFromWaitStatus ws =
    if ws mod 128 =? 0 then ws / 256 mod 256 else if ws mod 128 =? 127 then -1 else 128 + ws mod 128.
Proof.
  intros Hws. unfold ExitCodeFromWaitStatus, ws_Signal, ws_ExitStatus, Exited, Signaled.
  assert (Hlo : Z.land ws 127 = ws mod 128) by exact (Z.land_ones ws 7 ltac:(lia)).
  assert (Hhi : Z.land (Z.shiftr ws 8) 255 = ws / 256 mod 256).
  { rewrite Z.shiftr_div_pow2 by lia. exact (Z.land_ones _ 8 ltac:(lia)). }
  rewrite Hlo, Hhi. destruct (Z.eqb_spec (ws mod 128) 127) as [E|], (Z.eqb_spec (ws mod 128) 0); simpl; try done; lia.
Qed.

(** C40: the code of a process that exited is the exit status it gave, and that of a process
    killed by a signal is 128 plus the signal, with or without a core file: a number below
    256 in either case.  So a code above 128 is a signal's or the child's own status, a
    status of neither kind (a stopped child) is -1, and nothing else occurs. *)
Theorem exit_code_bounds :
  (∀ code, 0 <= code <= 255 → ExitCodeFromWaitStatus (exit_status code) = code) ∧
  (∀ sig core, 1 <= sig <= 126 →
     ExitCodeFromWaitStatus (signal_status sig core) = 128 + sig ∧ 128 + sig < 256) ∧
  (∀ ws, 0 <= ws → 128 < ExitCodeFromWaitStatus ws →
     (∃ sig, 1 <= sig <= 126 ∧ ws mod 128 = sig ∧ ExitCodeFromWaitStatus ws = 128 + sig) ∨
     (ws mod 128 = 0 ∧ ExitCodeFromWaitStatus ws = ws / 256 mod 256)) ∧
  (∀ ws, 0 <= ws → ws mod 128 = 127 → ExitCodeFromWaitStatus ws = -1).
Proof.
  split_and!.
  - intros code Hc. unfold exit_status. rewrite Z.shiftl_mul_pow2 by lia. change (2 ^ 8) with 256.
    rewrite exit_code_arith by lia. replace (code * 256) with (code * 2 * 128) at 1 by lia.
    rewrite Z.mod_mul, Z.div_mul by lia. simpl. by apply Z.mod_small; lia.
  - intros sig core Hs. split; [|lia]. unfold signal_status. rewrite exit_code_arith by (destruct core; lia).
    assert ((sig + (if core then 128 else 0)) mod 128 = sig) as ->.
    { destruct core; [|rewrite Z.add_0_r; apply Z.mod_small; lia].
      replace (sig + 128) with (sig + 1 * 128) by lia. rewrite Z.mod_add by lia. apply Z.mod_small. lia. }
    destruct (Z.eqb_spec sig 0), (Z.eqb_spec sig 127); [lia..|done].
  - intros ws Hws. rewrite exit_code_arith by done. pose proof (Z.mod_pos_bound ws 128).
    destruct (Z.eqb_spec (ws mod 128) 0); [by right|]. destruct (Z.eqb_spec (ws mod 128) 127); [lia|].
    intros _. left. exists (ws mod 128). split_and!; [lia..|done|done].
  - intros ws Hws E. rewrite exit_code_arith, E by done. done.
Qed.

(** The child's [argv[0]] is the path it was started with, whatever the caller's was. *)
Lemma newCmd_argv0 LookPath spec : head (cmd_Args (newCmd LookPath spec)) = Some (sp_Path spec).
Proof. unfold newCmd. by case_match. Qed.

Module Demo.
Definition spec := mkSpec "/bin/dash" ["-sh"; "-c"; "true"] ["A=1"] "/w" [5; 3] true.
Definition l0 := mkLedger 10 {[0%nat; 1%nat; 2%nat]} 100 [].

Lemma l0_ok : ledger_ok l0.
Proof. intros fd; simpl. rewrite !elem_of_union, !elem_of_singleton. lia. Qed.

Lemma build_outcome_witness :
  build_ends l0 [5; 3] (Build (λ _, None) "1000" "" spec l0).
Proof.
  apply (build_outcome (λ _, None) "1000" "" spec l0); [exact l0_ok|].
  apply (bool_decide_unpack _). vm_compute. exact I.
Defined.

(** The three outcomes, computed: two extra descriptors with a gap between them; a
    ledger that runs out at the second pair; the argument vector's first element. *)
Example build_two :
  match (Build (λ _, None) "1000" "" spec l0).1 with
  | BuildOk c p => ExtraFiles c = [Some 19%nat; None; Some 17%nat] ∧ Credential c = Some (1000, 1000)
                   ∧ cmd_Args c = ["/bin/dash"; "-c"; "true"] ∧ map_to_list (p_Extra p) = [(5, 16%nat); (3, 18%nat)]
  | _ => False
  end.
Proof. vm_compute. repeat split. Qed.

Example build_leaks :
  let r := Build (λ _, None) "" "" spec (mkLedger 10 ∅ 4 []) in
  r.1 = BuildErr (ErrSocketpair 3) ∧ elements (open_fds r.2) ≡ₚ [10; 13; 15; 17]%nat.
Proof. vm_compute. split; [done|]. solve_Permutation. Qed.

Lemma exit_code_bounds_witness :
  ExitCodeFromWaitStatus (exit_status 3) = 3 ∧ ExitCodeFromWaitStatus (signal_status 11 true) = 139.
Proof.
  destruct exit_code_bounds as (He & Hs & _). split; [apply He; lia|]. apply (Hs 11 true). lia.
Defined.
End Demo.
