(* ===== verification/Reaper.v ===== *)
(** * Reaper: one waiter for all children

    Models [pkg/subreaper/reap_unix.go]: the reaper goroutine ([Run], [reapAll],
    [deliver]), the callers of [WaitFor] and the kernel (children that run, turn into
    zombies and raise SIGCHLD) as one transition system in which every critical
    section is one step.  The process starts each command once and waits for it at
    most once; a process id is not given to a second child. *)

From stdpp Require Import fin_map_dom.
From S2P Require Import Prelude GoStrings ChildProc.
Local Open Scope Z_scope.

Definition pid := positive.

(** [Reaper]: the pids with a channel registered, and the statuses collected before. *)
Record Reaper := mkReaper { watched : gset pid; pending : gmap pid Z }.
Definition NewReaper : Reaper := mkReaper ∅ ∅.

(** The program counter of [Run]: before [signal.Notify]; in [reapAll] ([final] on the
    shutdown drain); in [reapAll] with a status to deliver; at the select; returned. *)
Inductive run_pc : Type :=
  | RStart | RDrain (final : bool) | RGot (final : bool) (p : pid) (ws : Z) | RIdle | RStopped.

Inductive child : Type := Running | Zombie (ws : Z).
Inductive waiter : Type := WBlocked | WDone (code : Z).

Record state := mkState {
  kids : gmap pid child;          (* unreaped children *)
  exits : gmap pid Z;             (* how each child ended, for the statements *)
  sigpend : bool;                 (* SIGCHLD raised, not yet in the channel *)
  sigch : nat;                    (* signals in the channel of capacity 8 *)
  cancelled : bool;
  pc : run_pc;
  rp : Reaper;
  chans : gmap pid Z;             (* a status sent on the channel of a waiter *)
  waiters : gmap pid waiter;
}.

Definition sigcap : nat := 8.
Definition init : state := mkState ∅ ∅ false 0 false RStart NewReaper ∅ ∅.

(** ** The operations *)

(** [deliver]: the status goes to the registered channel, else it is kept. *)
Definition deliver (p : pid) (ws : Z) (r : Reaper) (ch : gmap pid Z) : Reaper * gmap pid Z :=
  if decide (p ∈ watched r) then (mkReaper (watched r ∖ {[p]}) (pending r), <[p := ws]> ch)
  else (mkReaper (watched r) (<[p := ws]> (pending r)), ch).

(** The critical section of [WaitFor]: a kept status is the result, otherwise the
    caller registers and blocks on its channel. *)
Definition WaitFor_register (p : pid) (r : Reaper) : waiter * Reaper :=
  match pending r !! p with
  | Some ws => (WDone (ExitCodeFromWaitStatus ws), mkReaper (watched r) (delete p (pending r)))
  | None => (WBlocked, mkReaper ({[p]} ∪ watched r) (pending r))
  end.

(** [WaitFor] without a started process. *)
Definition WaitFor_not_started : Z := 127.

Definition set_pc (s : state) (q : run_pc) : state :=
  mkState (kids s) (exits s) (sigpend s) (sigch s) (cancelled s) q (rp s) (chans s) (waiters s).

(** ** Steps of the program *)

Inductive pstep : state → state → Prop :=
  (* signal.Notify, then the first reapAll *)
  | p_notify s : pc s = RStart → pstep s (set_pc s (RDrain false))
  (* the runtime's signal goroutine: a full channel drops the signal *)
  | p_signal s : sigpend s = true →
      pstep s (mkState (kids s) (exits s) false (sigcap `min` S (sigch s)) (cancelled s) (pc s)
                 (rp s) (chans s) (waiters s))
  (* wait4 with WNOHANG *)
  | p_wait4 s final p ws : pc s = RDrain final → kids s !! p = Some (Zombie ws) →
      pstep s (mkState (delete p (kids s)) (exits s) (sigpend s) (sigch s) (cancelled s)
                 (RGot final p ws) (rp s) (chans s) (waiters s))
  | p_wait4_none s final : pc s = RDrain final → (∀ p ws, kids s !! p ≠ Some (Zombie ws)) →
      pstep s (set_pc s (if final then RStopped else RIdle))
  | p_deliver s final p ws r ch : pc s = RGot final p ws → deliver p ws (rp s) (chans s) = (r, ch) →
      pstep s (mkState (kids s) (exits s) (sigpend s) (sigch s) (cancelled s) (RDrain final) r ch (waiters s))
  (* the select of Run *)
  | p_wake s n : pc s = RIdle → sigch s = S n →
      pstep s (mkState (kids s) (exits s) (sigpend s) n (cancelled s) (RDrain false) (rp s) (chans s) (waiters s))
  | p_shutdown s : pc s = RIdle → cancelled s = true → pstep s (set_pc s (RDrain true))
  (* the receive of WaitFor *)
  | p_receive s p ws : waiters s !! p = Some WBlocked → chans s !! p = Some ws →
      pstep s (mkState (kids s) (exits s) (sigpend s) (sigch s) (cancelled s) (pc s) (rp s)
                 (delete p (chans s)) (<[p := WDone (ExitCodeFromWaitStatus ws)]> (waiters s))).

(** ** Steps of the environment *)

Inductive estep : state → state → Prop :=
  | e_fork s p : kids s !! p = None → exits s !! p = None →
      estep s (mkState (<[p := Running]> (kids s)) (exits s) (sigpend s) (sigch s) (cancelled s) (pc s)
                 (rp s) (chans s) (waiters s))
  (* without a handler the signal is discarded *)
  | e_exit s p ws : kids s !! p = Some Running →
      estep s (mkState (<[p := Zombie ws]> (kids s)) (<[p := ws]> (exits s))
                 (match pc s with RStart | RStopped => sigpend s | _ => true end)
                 (sigch s) (cancelled s) (pc s) (rp s) (chans s) (waiters s))
  (* a goroutine calls WaitFor for a command that was started *)
  | e_waitfor s p w r : kids s !! p ≠ None ∨ exits s !! p ≠ None → waiters s !! p = None →
      WaitFor_register p (rp s) = (w, r) →
      estep s (mkState (kids s) (exits s) (sigpend s) (sigch s) (cancelled s) (pc s) r (chans s)
                 (<[p := w]> (waiters s)))
  (* an interrupted wait4 is retried *)
  | e_eintr s final : pc s = RDrain final → estep s s
  | e_cancel s : estep s (mkState (kids s) (exits s) (sigpend s) (sigch s) true (pc s) (rp s) (chans s) (waiters s)).

Inductive reachable : state → Prop :=
  | r_init : reachable init
  | r_pstep s s' : reachable s → pstep s s' → reachable s'
  | r_estep s s' : reachable s → estep s s' → reachable s'.

(** ** The invariant *)

(** The status [reapAll] holds between wait4 and [deliver]. *)
Definition held (q : run_pc) (p : pid) : option Z :=
  match q with RGot _ p' ws => if decide (p = p') then Some ws else None | _ => None end.

(** The places that may hold the status of child [p]: the kernel, the reaper's local
    variable, the kept statuses, the channel. *)
Definition zombie (s : state) (p : pid) : option Z :=
  match kids s !! p with Some (Zombie ws) => Some ws | _ => None end.
Definition places (s : state) (p : pid) : list Z :=
  option_list (zombie s p) ++ option_list (held (pc s) p)
  ++ option_list (pending (rp s) !! p) ++ option_list (chans s !! p).

(** The status of [p], by how far [p] has come: it is in exactly one place from the exit
    until a [WaitFor] returns it. *)
Definition located (s : state) (p : pid) : Prop :=
  match waiters s !! p with
  | Some (WDone code) =>
      ∃ ws, exits s !! p = Some ws ∧ code = ExitCodeFromWaitStatus ws ∧ places s p = [] ∧ kids s !! p = None
  | _ => places s p = option_list (exits s !! p)
  end.

(** Who is registered: a blocked caller whose channel is still empty. *)
Definition registered (s : state) (p : pid) : Prop :=
  match waiters s !! p with
  | Some WBlocked => (p ∈ watched (rp s) ↔ chans s !! p = None) ∧ pending (rp s) !! p = None
  | _ => (p ∉ watched (rp s)) ∧ chans s !! p = None
  end.

Definition started (s : state) (p : pid) : Prop :=
  (kids s !! p = Some Running → exits s !! p = None) ∧
  (kids s !! p = None → exits s !! p = None → waiters s !! p = None).

(** No lost wake-up: at the select with nothing signalled there is no zombie. *)
Definition alert (s : state) : Prop :=
  pc s = RIdle → sigpend s = false → sigch s = O → ∀ p, zombie s p = None.

Definition tracked (s : state) (p : pid) : Prop := located s p ∧ registered s p ∧ started s p.
Definition inv (s : state) : Prop := (∀ p, tracked s p) ∧ alert s.

Lemma inv_init : inv init.
Proof.
  split; [|by intros]. intros p.
  unfold tracked, located, registered, started, places, zombie, init. simpl. rewrite !lookup_empty. simpl. set_solver.
Qed.

Ltac at_pid p q := destruct (decide (p = q)) as [->|]; [rewrite ?lookup_insert_eq, ?lookup_delete_eq in *
  | rewrite ?lookup_insert_ne, ?lookup_delete_ne in * by done].

Lemma deliver_at q p ws r ch r' ch' :
  deliver p ws r ch = (r', ch') →
  (q ∈ watched r' ↔ q ∈ watched r ∧ q ≠ p) ∧
  pending r' !! q = (if decide (p = q ∧ p ∉ watched r) then Some ws else pending r !! q) ∧
  ch' !! q = (if decide (p = q ∧ p ∈ watched r) then Some ws else ch !! q).
Proof.
  unfold deliver. intros H. repeat case_decide; simplify_eq/=; destruct_and?; simplify_map_eq; split_and!;
    try set_solver; try done; rewrite ?lookup_insert_ne; try done; naive_solver.
Qed.

(** Only one place can be filled. *)
Lemma places_one s p ws :
  located s p → held (pc s) p = Some ws →
  zombie s p = None ∧ pending (rp s) !! p = None ∧ chans s !! p = None ∧ exits s !! p = Some ws ∧
  (∀ code, waiters s !! p ≠ Some (WDone code)).
Proof.
  unfold located, places. intros HL Hh. rewrite Hh in HL.
  destruct (zombie s p), (pending (rp s) !! p), (chans s !! p), (waiters s !! p) as [[]|], (exits s !! p);
    naive_solver.
Qed.

(** A step that touches nothing about [p] keeps it tracked. *)
Lemma tracked_ext s s' p :
  kids s' !! p = kids s !! p → exits s' !! p = exits s !! p → waiters s' !! p = waiters s !! p →
  chans s' !! p = chans s !! p → held (pc s') p = held (pc s) p →
  pending (rp s') !! p = pending (rp s) !! p → (p ∈ watched (rp s') ↔ p ∈ watched (rp s)) →
  tracked s p → tracked s' p.
Proof.
  unfold tracked, located, registered, started, places, zombie. intros -> -> -> -> -> -> Hw (HL & HR & HS).
  split_and!; [done| |apply HS..]. destruct (waiters s !! p) as [[]|]; by rewrite Hw.
Qed.

Lemma tracked_wait4 s final p ws :
  pc s = RDrain final → kids s !! p = Some (Zombie ws) → tracked s p →
  tracked (mkState (delete p (kids s)) (exits s) (sigpend s) (sigch s) (cancelled s)
             (RGot final p ws) (rp s) (chans s) (waiters s)) p.
Proof.
  intros Hpc Hk (HL & HR & _). unfold tracked, located, registered, started, places, zombie in *. simpl in *.
  rewrite Hpc, Hk in HL. rewrite lookup_delete_eq, decide_True by done. simpl in *.
  destruct (waiters s !! p) as [[]|]; [| |].
  - destruct (exits s !! p); [|done]. split_and!; try done; apply HR.
  - by destruct HL as (? & _ & _ & ? & _).
  - destruct (exits s !! p); [|done]. split_and!; try done; apply HR.
Qed.

Lemma tracked_deliver s final p ws r ch :
  pc s = RGot final p ws → deliver p ws (rp s) (chans s) = (r, ch) → tracked s p →
  tracked (mkState (kids s) (exits s) (sigpend s) (sigch s) (cancelled s) (RDrain final) r ch (waiters s)) p.
Proof.
  intros Hpc Hd (HL & HR & HS). pose proof (deliver_at p _ _ _ _ _ _ Hd) as (Dw & Dp & Dc).
  destruct (places_one s p ws) as (Hz & Hpe & Hch & Hex & Hnd); [done|rewrite Hpc; simpl; by rewrite decide_True|].
  unfold tracked, located, registered, started, places, zombie in *. simpl in *.
  rewrite Hz, Dp, Dc, Hex in *. rewrite Hpe, Hch in *.
  destruct (waiters s !! p) as [[|code]|]; [|by destruct (Hnd code)|].
  - destruct HR as [[_ Hin] _]. rewrite decide_False, decide_True by tauto. split_and!; try done; [|apply HS..].
    split; [|done]. rewrite Dw. naive_solver.
  - destruct HR as [Hnin _]. rewrite decide_True, decide_False by tauto. split_and!; try done; [|apply HS..].
    rewrite Dw. tauto.
Qed.

Lemma tracked_receive s p ws :
  waiters s !! p = Some WBlocked → chans s !! p = Some ws → tracked s p →
  tracked (mkState (kids s) (exits s) (sigpend s) (sigch s) (cancelled s) (pc s) (rp s)
             (delete p (chans s)) (<[p := WDone (ExitCodeFromWaitStatus ws)]> (waiters s))) p.
Proof.
  intros Hw Hch (HL & HR & HS). unfold tracked, located, registered, started, places, zombie in *. simpl in *.
  rewrite Hw, Hch in *. rewrite lookup_delete_eq, lookup_insert_eq.
  destruct HR as [[Hin _] Hpe]. rewrite Hpe in *. simpl in *.
  destruct (kids s !! p) as [[|z]|], (held (pc s) p), (exits s !! p); try done; simpl in *;
    try (by destruct HS as [HS _]; specialize (HS eq_refl)).
  injection HL as <-. split_and!; [by exists ws|naive_solver|done|done|done].
Qed.

Lemma tracked_pstep s s' q : (∀ p, tracked s p) → pstep s s' → tracked s' q.
Proof.
  intros Hp Hs. specialize (Hp q).
  destruct Hs as [s Hpc|s Hsig|s final p ws Hpc Hk|s final Hpc Hno|s final p ws r ch Hpc Hd|s n Hpc Hn|s Hpc Hc|s p ws Hw Hch].
  - by eapply tracked_ext; [..|exact Hp]; rewrite ?Hpc.
  - by eapply tracked_ext; [..|exact Hp].
  - destruct (decide (q = p)) as [->|Hne]; [by apply tracked_wait4|].
    eapply tracked_ext; [..|exact Hp]; simpl; rewrite ?Hpc, ?lookup_delete_ne, ?decide_False by done; done.
  - by eapply tracked_ext; [..|exact Hp]; rewrite ?Hpc; destruct final.
  - destruct (decide (q = p)) as [->|Hne]; [by eapply tracked_deliver|].
    pose proof (deliver_at q _ _ _ _ _ _ Hd) as (Dw & Dp & Dc).
    rewrite decide_False in Dp by naive_solver. rewrite decide_False in Dc by naive_solver.
    eapply tracked_ext; [..|exact Hp]; simpl; rewrite ?Hpc; simpl; rewrite ?decide_False by done; try done. naive_solver.
  - by eapply tracked_ext; [..|exact Hp]; rewrite ?Hpc.
  - by eapply tracked_ext; [..|exact Hp]; rewrite ?Hpc.
  - destruct (decide (q = p)) as [->|Hne]; [by apply tracked_receive|].
    by eapply tracked_ext; [..|exact Hp]; simpl; rewrite ?lookup_delete_ne, ?lookup_insert_ne by done.
Qed.

Lemma inv_pstep s s' : inv s → pstep s s' → inv s'.
Proof.
  intros [Hp Ha] Hs. split; [intros q; by eapply tracked_pstep|].
  destruct Hs as [s Hpc|s Hsig|s final p ws Hpc Hk|s final Hpc Hno|s final p ws r ch Hpc Hd|s n Hpc Hn|s Hpc Hc|s p ws Hw Hch];
    unfold alert, zombie in *; simpl in *; try done.
  intros _ _ _ q. specialize (Hno q). destruct (kids s !! q) as [[|]|]; naive_solver.
Qed.

Lemma tracked_exit s p ws :
  kids s !! p = Some Running → tracked s p →
  tracked (mkState (<[p := Zombie ws]> (kids s)) (<[p := ws]> (exits s))
             (match pc s with RStart | RStopped => sigpend s | _ => true end)
             (sigch s) (cancelled s) (pc s) (rp s) (chans s) (waiters s)) p.
Proof.
  intros Hk (HL & HR & [HS _]). unfold tracked, located, registered, started, places, zombie in *. simpl in *.
  rewrite Hk in *. rewrite (HS eq_refl) in HL. rewrite !lookup_insert_eq. simpl in *.
  destruct (waiters s !! p) as [[|code]|]; [| by destruct HL as (? & ? & _)|].
  all: rewrite HL; split_and!; try done; apply HR.
Qed.

Lemma tracked_waitfor s p w r :
  kids s !! p ≠ None ∨ exits s !! p ≠ None → waiters s !! p = None →
  WaitFor_register p (rp s) = (w, r) → tracked s p →
  tracked (mkState (kids s) (exits s) (sigpend s) (sigch s) (cancelled s) (pc s) r (chans s)
             (<[p := w]> (waiters s))) p.
Proof.
  intros Hst Hw Hr (HL & HR & [HS _]). unfold WaitFor_register in Hr.
  unfold tracked, located, registered, started, places, zombie in *. simpl in *.
  rewrite Hw in *. rewrite lookup_insert_eq. destruct HR as [Hnin Hch]. rewrite Hch in *.
  destruct (pending (rp s) !! p) as [ws|] eqn:Hpe; simplify_eq/=.
  - rewrite lookup_delete_eq. destruct (kids s !! p) as [[|z]|], (held (pc s) p), (exits s !! p); simplify_eq/=;
      try (by specialize (HS eq_refl)). split_and!; [by exists z|done|done|done|done].
  - rewrite Hpe. split_and!; [done|set_solver|done|done|]. naive_solver.
Qed.

Lemma inv_estep s s' : inv s → estep s s' → inv s'.
Proof.
  intros [Hp Ha] Hs. split.
  - intros q. specialize (Hp q). destruct Hs as [s p Hk Hx|s p ws Hk|s p w r Hst Hw Hr|s final Hpc|s].
    + destruct (decide (q = p)) as [->|Hne].
      * destruct Hp as (HL & HR & [_ HS]).
        unfold tracked, located, registered, started, places, zombie in *. simpl.
        rewrite lookup_insert_eq. assert (Hw := HS Hk Hx). rewrite Hk, Hw in *. split_and!; try done; apply HR.
      * by eapply tracked_ext; [..|exact Hp]; simpl; rewrite ?lookup_insert_ne by done.
    + destruct (decide (q = p)) as [->|Hne]; [by apply tracked_exit|].
      by eapply tracked_ext; [..|exact Hp]; simpl; rewrite ?lookup_insert_ne by done.
    + destruct (decide (q = p)) as [->|Hne]; [by eapply tracked_waitfor|].
      eapply tracked_ext; [..|exact Hp]; simpl; rewrite ?lookup_insert_ne by done; try done;
        unfold WaitFor_register in Hr; case_match; simplify_eq/=; rewrite ?lookup_delete_ne by done; set_solver.
    + done.
    + by eapply tracked_ext; [..|exact Hp].
  - destruct Hs as [s p Hk Hx|s p ws Hk|s p w r Hst Hw Hr|s final Hpc|s]; unfold alert, zombie in *; simpl in *; try done.
    + intros H1 H2 H3 q. specialize (Ha H1 H2 H3 q). by at_pid p q.
    + intros H1 H2. by rewrite H1 in H2.
Qed.

Lemma reachable_inv s : reachable s → inv s.
Proof. induction 1; [apply inv_init|by eapply inv_pstep|by eapply inv_estep]. Qed.

(** ** Progress *)

(** Every step of the program uses up one of: a zombie, a signal, the work left in the
    current drain, a blocked caller, the shutdown.  *)
Definition pc_weight (q : run_pc) : nat :=
  match q with
  | RStart => 4 | RDrain false => 3 | RGot false _ _ => 4 | RIdle => 2
  | RDrain true => 1 | RGot true _ _ => 2 | RStopped => 0
  end.
Definition is_zombie (c : child) : bool := match c with Zombie _ => true | Running => false end.
Definition is_blocked (w : waiter) : bool := match w with WBlocked => true | WDone _ => false end.
Definition zombies (s : state) : nat := size (filter (λ kv, is_zombie kv.2 = true) (kids s)).
Definition blocked (s : state) : nat := size (filter (λ kv, is_blocked kv.2 = true) (waiters s)).
Definition work (s : state) : nat :=
  (2 * zombies s + (if sigpend s then 3 else 0) + 2 * sigch s + pc_weight (pc s) + blocked s)%nat.

Lemma size_filter_delete {A} (P : pid * A → Prop) `{!∀ x, Decision (P x)} (m : gmap pid A) k v :
  m !! k = Some v → P (k, v) → size (filter P m) = S (size (filter P (delete k m))).
Proof.
  intros Hk HP. rewrite <-(insert_delete_id m k v Hk) at 1.
  rewrite map_filter_insert_True by done.
  rewrite map_size_insert_None; [done|]. apply map_lookup_filter_None. left. apply lookup_delete_eq.
Qed.

Lemma work_decreases s s' : pstep s s' → (work s' < work s)%nat.
Proof.
  intros Hs. destruct Hs as [s Hpc|s Hsig|s final p ws Hpc Hk|s final Hpc Hno|s final p ws r ch Hpc Hd|s n Hpc Hn|s Hpc Hc|s p ws Hw Hch];
    unfold work, zombies, blocked, set_pc in *;
    cbn [kids exits sigpend sigch cancelled pc rp chans waiters] in *; rewrite ?Hpc, ?Hsig, ?Hn; simpl pc_weight.
  - lia.
  - pose proof (Nat.le_min_r sigcap (S (sigch s))). lia.
  - rewrite (size_filter_delete _ (kids s) p (Zombie ws)) by done. destruct final; simpl; lia.
  - destruct final; simpl; lia.
  - destruct final; simpl; lia.
  - lia.
  - lia.
  - rewrite (size_filter_delete _ (waiters s) p WBlocked) by done.
    rewrite <-insert_delete_eq, map_filter_insert_False by done. rewrite delete_delete_eq. lia.
Qed.

(** When no step of the program is left, a zombie or a signal can only remain after the
    reaper has stopped, and a blocked caller's child is alive. *)
Lemma stuck_quiet s :
  inv s → (∀ s', ¬ pstep s s') → pc s ≠ RStopped →
  pc s = RIdle ∧ ∀ p, zombie s p = None ∧ (waiters s !! p = Some WBlocked → kids s !! p = Some Running).
Proof.
  intros [Hp Ha] Hno Hns.
  assert (Hsig : sigpend s = false).
  { destruct (sigpend s) eqn:H; [|done]. by edestruct Hno; apply p_signal. }
  assert (Hidle : pc s = RIdle).
  { destruct (pc s) as [|f|f p ws| |] eqn:Hpc; [|exfalso|exfalso|done|done].
    - by edestruct Hno; apply p_notify.
    - destruct (decide (map_Forall (λ _ c, is_zombie c = false) (kids s))) as [Hf|Hf].
      + edestruct Hno; eapply p_wait4_none; [done|]. intros p ws Hk. by specialize (Hf _ _ Hk).
      + apply map_not_Forall in Hf as (p & c & Hk & Hc); [|apply _]. destruct c as [|ws]; [done|].
        by edestruct Hno; eapply p_wait4.
    - destruct (deliver p ws (rp s) (chans s)) eqn:Hd. by edestruct Hno; eapply p_deliver. }
  assert (Hch : sigch s = O).
  { destruct (sigch s) eqn:H; [done|]. by edestruct Hno; eapply p_wake. }
  split; [done|]. intros p. pose proof (Ha Hidle Hsig Hch p) as Hz. split; [done|]. intros Hw.
  destruct (Hp p) as (HL & HR & [HS1 HS2]). unfold located, registered, places in *. rewrite Hw in *.
  destruct (chans s !! p) as [ws|] eqn:Hc; [by edestruct Hno; eapply p_receive|].
  rewrite Hz, Hidle in HL. destruct HR as [_ Hpe]. rewrite Hpe in HL. simpl in HL.
  unfold zombie in Hz. destruct (kids s !! p) as [[]|]; [done|done|].
  destruct (exits s !! p); [done|]. by specialize (HS2 eq_refl eq_refl).
Qed.

(** The reaper stops only after the context was cancelled. *)
Definition serving (s : state) : Prop :=
  match pc s with RDrain true | RGot true _ _ | RStopped => cancelled s = true | _ => True end.

Lemma serving_reachable s : reachable s → serving s.
Proof.
  unfold serving. induction 1 as [|s s' _ IH Hs|s s' _ IH Hs]; [done| |].
  - destruct Hs as [s Hpc|s Hsig|s final p ws Hpc Hk|s final Hpc Hno|s final p ws r ch Hpc Hd|s n Hpc Hn|s Hpc Hc|s p ws Hw Hch];
      simpl in *; rewrite ?Hpc in IH; try destruct final; done.
  - destruct Hs; simpl in *; repeat case_match; done.
Qed.

Lemma psteps_fixed s s' p :
  rtc pstep s s' → cancelled s' = cancelled s ∧ exits s' = exits s ∧ (is_Some (waiters s !! p) → is_Some (waiters s' !! p)).
Proof.
  induction 1 as [|s s1 s2 Hs _ (-> & -> & IH)]; [done|].
  destruct Hs as [| | | | | | |s q ws Hw Hch]; simpl; split_and!; try done; simpl in IH.
  intros Hp. apply IH. apply lookup_insert_is_Some'. by right.
Qed.

Lemma psteps_reachable s s' : rtc pstep s s' → reachable s → reachable s'.
Proof. induction 1; [done|]. intros Hr. apply IHrtc. by eapply r_pstep. Qed.

Lemma psteps_bounded n s s' : nsteps pstep n s s' → (n + work s' ≤ work s)%nat.
Proof. induction 1 as [|n s s1 s2 Hs _ IH]; [lia|]. apply work_decreases in Hs. lia. Qed.

(** C16: a [WaitFor] that has returned gave the exit code of its own child: the status the
    kernel recorded for that pid, whichever goroutine collected it and whether it was
    collected before or after the caller registered. *)
Theorem waitfor_own_status s p code :
  reachable s → waiters s !! p = Some (WDone code) →
  ∃ ws, exits s !! p = Some ws ∧ code = ExitCodeFromWaitStatus ws.
Proof.
  intros [Hp _]%reachable_inv Hw. destruct (Hp p) as (HL & _ & _). unfold located in HL.
  rewrite Hw in HL. naive_solver.
Qed.

(** C5: no wake-up is lost: once a child has exited, its blocked [WaitFor] returns.  From any
    reachable state of a reaper that is not shut down, the program can take at most
    [work s] steps without a new event, and where it comes to rest the caller has
    returned with the child's code. *)
Theorem waitfor_returns s p ws :
  reachable s → cancelled s = false → exits s !! p = Some ws → waiters s !! p = Some WBlocked →
  (∀ n s', nsteps pstep n s s' → (n ≤ work s)%nat) ∧
  (∀ s', rtc pstep s s' → (∀ s'', ¬ pstep s' s'') →
     waiters s' !! p = Some (WDone (ExitCodeFromWaitStatus ws))).
Proof.
  intros Hr Hc Hx Hw. split; [intros n s' Hn%psteps_bounded; lia|]. intros s' Hss Hno.
  destruct (psteps_fixed s s' p Hss) as (Hc' & Hx' & Hw').
  pose proof (psteps_reachable _ _ Hss Hr) as Hr'. pose proof (serving_reachable _ Hr') as Hsv.
  pose proof (reachable_inv _ Hr') as Hi. rewrite <-Hx' in Hx. rewrite <-Hc' in Hc.
  destruct (stuck_quiet s' Hi Hno) as [_ Hq]; [intros E; unfold serving in Hsv; rewrite E in Hsv; congruence|].
  destruct (Hw' (mk_is_Some _ _ Hw)) as [w Hw2]. destruct Hi as [Hp _]. destruct (Hp p) as (HL & _ & [HS _]).
  unfold located in HL. rewrite Hw2 in HL |- *. destruct w as [|code]; [|naive_solver].
  destruct (Hq p) as [_ Hk]. specialize (HS (Hk Hw2)). congruence.
Qed.

Module Demo.

(** The child exits before the handler is installed and before the caller registers. *)
Definition s_forked := mkState {[1%positive := Running]} ∅ false 0 false RStart NewReaper ∅ ∅.
Definition s_exited := mkState {[1%positive := Zombie 256]} {[1%positive := 256]} false 0 false RStart NewReaper ∅ ∅.
Definition s_waiting := mkState {[1%positive := Zombie 256]} {[1%positive := 256]} false 0 false RStart
  (mkReaper {[1%positive]} ∅) ∅ {[1%positive := WBlocked]}.

Lemma s_waiting_reachable : reachable s_waiting.
Proof.
  apply (r_estep s_exited); [|by apply (e_waitfor s_exited 1%positive WBlocked); [left|..]].
  apply (r_estep s_forked); [|by apply (e_exit s_forked 1%positive 256)].
  apply (r_estep init); [apply r_init|by apply (e_fork init 1%positive)].
Qed.

Lemma waitfor_returns_witness :
  waiters s_waiting !! 1%positive = Some WBlocked ∧
  ∀ s', rtc pstep s_waiting s' → (∀ s'', ¬ pstep s' s'') → waiters s' !! 1%positive = Some (WDone 1).
Proof. split; [reflexivity|]. apply (waitfor_returns s_waiting 1%positive 256); [exact s_waiting_reachable|reflexivity..]. Defined.

Definition s_got := mkState ∅ {[1%positive := 256]} false 0 false (RGot false 1%positive 256)
  (mkReaper {[1%positive]} ∅) ∅ {[1%positive := WBlocked]}.
Definition s_done := mkState ∅ {[1%positive := 256]} false 0 false (RDrain false)
  (mkReaper ∅ ∅) ∅ {[1%positive := WDone 1]}.

Definition s_sent := mkState ∅ {[1%positive := 256]} false 0 false (RDrain false)
  (mkReaper ∅ ∅) {[1%positive := 256]} {[1%positive := WBlocked]}.

Lemma reachable_by s s1 s' : reachable s → pstep s s1 → s1 = s' → reachable s'.
Proof. intros Hr Hs <-. by eapply r_pstep. Qed.

Lemma s_done_reachable : reachable s_done.
Proof.
  eapply (reachable_by s_sent); [|by apply (p_receive s_sent 1%positive 256)|by vm_compute].
  eapply (reachable_by s_got); [|by apply (p_deliver s_got false 1%positive 256)|by vm_compute].
  eapply (reachable_by (set_pc s_waiting (RDrain false)));
    [|by apply (p_wait4 (set_pc s_waiting (RDrain false)) false 1%positive 256)|by vm_compute].
  eapply r_pstep; [exact s_waiting_reachable|by apply p_notify].
Qed.

Lemma waitfor_own_status_witness :
  ∃ ws, exits s_done !! 1%positive = Some ws ∧ 1 = ExitCodeFromWaitStatus ws.
Proof. apply (waitfor_own_status s_done 1%positive); [exact s_done_reachable|reflexivity]. Defined.
End Demo.
