(* ===== verification/AgentMain.v ===== *)
(** * AgentMain: the program on the remote machine

    Models [cmd/mproxy-agent/main.go]: the first frames decide between running a
    command, enumerating executables and serving file operations.  The child is what
    its pipes deliver and the status it ends with; the goroutines that forward its
    output run beside the main one, so what goes over the connection is any
    interleaving of their frames and of log frames, followed by the exit frame. *)

From S2P Require Import Prelude GoStrings Streams PathRules PathStub EnvFilter FileClient Mux AgentFS RemoteExec ChildProc.
Local Open Scope Z_scope.

(** ** The host *)

(** A started child: the reads on its stdout (1), stderr (2) and extra descriptors,
    and the code [WaitFor] returns. *)
Record child := mkChild { ch_reads : Z → reads; ch_code : Z }.

Record host := mkHost {
  h_LookPath : string → option string;
  h_SUDO_UID : string; h_SUDO_GID : string;
  h_fds : ledger;
  h_Start : Cmd → result string child;           (** [cmd.Start] *)
  h_ReadDir : string → option (list string); h_Stat : string → option PathStub.FileInfo;
  h_PATH : string;
}.

(** How the wait for the child goes: it ends by itself, or the connection is lost
    first and the child ends within the grace period or after it. *)
Inductive wait_case : Type := ChildFirst | LostThenExit | LostThenGrace.

(** ** Initial frames *)

Definition initial_frame (fs : list Frame) : option (option AgentConfig * Frame * list Frame) :=
  match fs with
  | [] => None
  | f :: fs =>
      match (if Type_ f =? FrameConfig then FConfig f else None) with
      | None => Some (None, f, fs)
      | Some c => match fs with [] => None | g :: fs => Some (Some c, g, fs) end
      end
  end.

(** What a run of the agent does: the frames of each concurrent sender, the frames of
    the main goroutine after them, the effects of the incoming frames on the child,
    the signals sent to its group and the status of the agent. *)
Record agent_result := mkAgentResult {
  ag_streams : list (list Frame); ag_last : list Frame;
  ag_effects : list effect; ag_kills : list Z; ag_status : Z;
}.

Definition agent_exit (status : Z) : agent_result := mkAgentResult [] [] [] [] status.
Definition agent_reply (f : Frame) (status : Z) : agent_result := mkAgentResult [] [f] [] [] status.

Definition exit_frame (code : Z) (err : string) : Frame :=
  mkFrame FrameExit 0 "" 0 code err None None None None None None None.
Definition info_frame (l : list PathInfoEntry) : Frame :=
  mkFrame FramePathInfo 0 "" 0 0 "" None None None None (Some (mkPathInfo l)) None None.
Definition fileresp_frame (r : FileOpResp) : Frame :=
  mkFrame FrameFileResp 0 "" 0 0 "" None None None None None None (Some r).

(** ** Running a command *)

(** [bridgeToMux]: a failed send is logged and the loop goes on. *)
Fixpoint bridgeToMux (stream : Z) (rs : reads) : list Frame :=
  match rs with
  | [] => []
  | (data, err) :: rs =>
      (if (0 <? slen data)%nat then [data_frame stream data] else [])
      ++ (if err then [eof_frame stream] else bridgeToMux stream rs)
  end.

Definition SIGTERM : Z := 15.
Definition SIGKILL : Z := 9.

(** [terminateChildGroup]: the signals, in order; the result is the child's code. *)
Definition terminateChildGroup (grace_expired : bool) : list Z :=
  SIGTERM :: (if grace_expired then [SIGKILL] else []).

Definition wait_child (w : wait_case) (c : child) : Z * list Z :=
  match w with
  | ChildFirst => (ch_code c, [])
  | LostThenExit => (ch_code c, terminateChildGroup false)
  | LostThenGrace => (ch_code c, terminateChildGroup true)
  end.

Section agent_main.
Context `{Regexp}.
(** The error texts of [Build]. *)
Variable build_Error : build_error → string.

(** The streams and callbacks of the agent while the child runs. *)
Definition child_handlers (p : Pipes) : handlers :=
  mkHandlers ({[0]} ∪ dom (p_Extra p)) false true false false false None.

Definition spec_of (cfg : option AgentConfig) (m : ExecMsg) : Spec :=
  mkSpec (ex_Path m) (ex_Argv m)
    (match cfg with Some c => Filter (ex_Env m) (ac_EnvKeep c) (ac_EnvRemove c) | None => ex_Env m end)
    (ex_Cwd m) (ex_ExtraFDs m) true.

(** The output streams of a built command: stdout, stderr, the extra descriptors. *)
Definition out_streams (p : Pipes) : list Z := 1 :: 2 :: (map_to_list (p_Extra p)).*1.

Definition exec_mode (h : host) (w : wait_case) (cfg : option AgentConfig) (m : ExecMsg) (rest : list Frame) :
    agent_result :=
  match Build (h_LookPath h) (h_SUDO_UID h) (h_SUDO_GID h) (spec_of cfg m) (h_fds h) with
  | (BuildPanic, _) => agent_exit 2
  | (BuildErr e, _) => agent_reply (exit_frame 127 (build_Error e)) 127
  | (BuildOk cmd pipes, _) =>
      match h_Start h cmd with
      | Err e => agent_reply (exit_frame 127 e) 0
      | Ok c =>
          let '(code, kills) := wait_child w c in
          mkAgentResult ((λ s, bridgeToMux s (ch_reads c s)) <$> out_streams pipes)
            [exit_frame code ""] (ReadLoop (child_handlers pipes) rest).1.1 kills 0
      end
  end.

(** ** Serving file operations *)

Section files.
Context {W : Type}.
Variable os : ∀ r : req, W → reply r * W.
Variable os_readdir : string → W → result go_err (list (result go_err FileClient.FileInfo)) * W.
Variable Error : go_err → string.

Local Abbreviation handle := (Handle os os_readdir Error).

Definition file_handlers (s : server) (w : W) : handlers :=
  mkHandlers ∅ false false false false false (Some (λ q, Some (handle s w q).1.1)).

(** The state of the server after a frame. *)
Definition after_frame (s : server) (w : W) (f : Frame) : server * W :=
  if Type_ f =? FrameFileOp then
    match FileOp_ f with Some q => let '(_, s, w) := handle s w q in (s, w) | None => (s, w) end
  else (s, w).

(** [ReadLoop] with the server behind it. *)
Fixpoint serve_frames (s : server) (w : W) (fs : list Frame) : list effect * server * W :=
  match fs with
  | [] => ([EffFailPending], s, w)
  | f :: fs =>
      let '(effs, code) := dispatch (file_handlers s w) f in
      let '(s, w) := after_frame s w f in
      match code with
      | Some _ => (effs ++ [EffFailPending], s, w)
      | None => let '(rest, s, w) := serve_frames s w fs in (effs ++ rest, s, w)
      end
  end.

Definition effect_frame (e : effect) : option Frame :=
  match e with EffSend r => Some (fileresp_frame r) | _ => None end.

(** File-op mode: the first request, the loop, [CloseAll]. *)
Definition file_mode (w : W) (f : Frame) (rest : list Frame) : list Frame * server * W :=
  let '(first, s, w) :=
    match FileOp_ f with
    | Some q => let '(r, s, w) := handle (mkServer ∅ 0) w q in ([fileresp_frame (with_ReqID (ReqID q) r)], s, w)
    | None => ([], mkServer ∅ 0, w)
    end in
  let '(effs, s, w) := serve_frames s w rest in
  let '(s, w) := CloseAll os s w in
  (first ++ omap effect_frame effs, s, w).

(** ** run *)

(** [send_ok]: whether the one frame of an enumeration, or the first response in
    file-op mode, can be sent. *)
Definition run (h : host) (wc : wait_case) (w : W) (send_ok : bool) (fs : list Frame) : agent_result :=
  match initial_frame fs with
  | None => agent_exit 127
  | Some (cfg, f, rest) =>
      if Type_ f =? FramePathQuery then
        let paths := match Query f with Some q => Paths q | None => [] end in
        if send_ok then agent_reply (info_frame (EnumerateLocally (h_ReadDir h) (h_Stat h) (h_PATH h) paths)) 0
        else agent_exit 127
      else if Type_ f =? FrameFileOp then
        if bool_decide (is_Some (FileOp_ f)) && negb send_ok then agent_exit 127
        else mkAgentResult [] (file_mode w f rest).1.1 [] [] 0
      else if negb (Type_ f =? FrameExec) then agent_exit 127
      else match Exec f with None => agent_exit 127 | Some m => exec_mode h wc cfg m rest end
  end.
End files.
End agent_main.

(** What the other end can see: the senders interleaved with log frames, the frames of
    the main goroutine, late log frames. *)
Definition is_log (f : Frame) : Prop := Type_ f = FrameLog.
Definition agent_sends (a : agent_result) (out : list Frame) : Prop :=
  ∃ logs late body, Forall is_log logs ∧ Forall is_log late ∧
    merges (logs :: ag_streams a) body ∧ out = body ++ ag_last a ++ late.

(** ** Lemmas: what the agent sends *)

Lemma bridgeToMux_chunks stream rs :
  ends rs → bridgeToMux stream rs = (data_frame stream <$> chunks_of rs) ++ [eof_frame stream].
Proof.
  intros He. unfold chunks_of. induction rs as [|[data err] rs IH]; [by inversion He|].
  cbn [bridgeToMux pump]. rewrite fmap_app. destruct err.
  - by destruct (0 <? slen data)%nat.
  - apply Exists_cons in He as [?|He]; [done|]. rewrite IH by done. by destruct (0 <? slen data)%nat.
Qed.

Definition bridge_frame (stream : Z) (f : Frame) : Prop :=
  Stream f = stream ∧ (Type_ f = FrameData ∨ Type_ f = FrameEOF).

Lemma bridgeToMux_frames stream rs : Forall (bridge_frame stream) (bridgeToMux stream rs).
Proof.
  induction rs as [|[data err] rs IH]; [done|]. cbn [bridgeToMux]. apply Forall_app. split.
  - destruct (0 <? slen data)%nat; [|done]. repeat constructor.
  - destruct err; [|done]. constructor; [|done]. split; [done|by right].
Qed.

Lemma before_exit_at body f rest :
  Forall (λ g, is_exit g = false) body → is_exit f = true →
  before_exit (body ++ f :: rest) = (body, Some f).
Proof.
  intros Hb Hf. induction Hb as [|g body Hg _ IH]; simpl; [by rewrite Hf|]. by rewrite Hg, IH.
Qed.

Lemma log_not_exit l : Forall is_log l → Forall (λ g, is_exit g = false) l.
Proof. intros Hl. eapply Forall_impl; [exact Hl|]. intros f. unfold is_log, is_exit. by intros ->. Qed.

Lemma log_no_data k l : Forall is_log l → Forall (λ f, (if is_data k f then Some (Data f) else None) = None) l.
Proof. intros Hl. eapply Forall_impl; [exact Hl|]. intros f Hf. unfold is_data. by rewrite Hf. Qed.

(** An interleaving of logs with the bridges of distinct streams: no exit frame in it,
    and every stream's bytes in order. *)
Lemma bridges_interleaved (ss : list Z) (rd : Z → reads) logs body :
  NoDup ss → Forall is_log logs → merges (logs :: ((λ s, bridgeToMux s (rd s)) <$> ss)) body →
  Forall (λ g, is_exit g = false) body ∧
  ∀ k, k ∈ ss → ends (rd k) → stream_data k body = sconcat (chunks_of (rd k)).
Proof.
  intros Hnd Hl Hm. split.
  - eapply merges_Forall; [exact Hm|]. constructor; [by apply log_not_exit|].
    apply Forall_fmap, Forall_true. intros s. unfold compose.
    eapply Forall_impl; [apply bridgeToMux_frames|]. intros f [_ [Ht|Ht]]; unfold is_exit; by rewrite Ht.
  - intros k Hk He. destruct (list_elem_of_lookup_1 _ _ Hk) as [i Hi]. unfold stream_data.
    rewrite (merges_observe _ _ _ (S i) (bridgeToMux k (rd k)) Hm).
    + rewrite bridgeToMux_chunks, omap_app by done.
      assert (omap (λ f, if is_data k f then Some (Data f) else None) (data_frame k <$> chunks_of (rd k))
              = chunks_of (rd k)) as ->.
      { induction (chunks_of (rd k)) as [|c cs IH]; [done|]. rewrite fmap_cons. cbn [omap list_omap].
        unfold is_data at 1. cbn. by rewrite Z.eqb_refl, IH. }
      cbn. by rewrite app_nil_r.
    + simpl. by rewrite list_lookup_fmap, Hi.
    + intros [|j] l Hne Hl'; simpl in Hl'; [simplify_eq; by apply log_no_data|].
      rewrite list_lookup_fmap in Hl'. destruct (ss !! j) as [s|] eqn:Hj; [|done]. simplify_eq/=.
      eapply Forall_impl; [apply bridgeToMux_frames|]. intros f [Hs _]. unfold is_data. rewrite Hs.
      destruct (Z.eqb_spec s k) as [->|]; [|by rewrite andb_false_r].
      destruct Hne. f_equal. by eapply NoDup_lookup.
Qed.

Lemma extra_loop_keys fds c p l c' p' l' :
  extra_loop fds c p l = (BuildOk c' p', l') →
  dom (p_Extra p') = list_to_set fds ∪ dom (p_Extra p) ∧ Forall (λ fd, 3 <= fd) fds.
Proof.
  revert c p l. induction fds as [|fd fds IH]; intros c p l Hl; simpl in Hl.
  - simplify_eq. split; [set_solver|done].
  - destruct (new_pair l) as [[[a b] l1]|]; [|done]. destruct (Z.ltb_spec fd 3); [done|].
    apply IH in Hl as [Hd Hf]. split; [|by constructor]. rewrite Hd. simpl. rewrite dom_insert_L. set_solver.
Qed.

Lemma Build_keys LookPath u g spec l c p l' :
  Build LookPath u g spec l = (BuildOk c p, l') →
  dom (p_Extra p) = list_to_set (sp_ExtraFDs spec) ∧ Forall (λ fd, 3 <= fd) (sp_ExtraFDs spec).
Proof.
  unfold Build. intros Hb. destruct (if DropSudoCredentials spec then _ else _) as [cred|]; [|done].
  destruct (setupStdPipes _ l) as [[[c1 p1]|] l1] eqn:Hs; [|done].
  apply extra_loop_keys in Hb as [Hd Hf]. split; [|done]. rewrite Hd.
  unfold setupStdPipes in Hs. repeat case_match; simplify_eq/=. set_solver.
Qed.

Lemma out_streams_spec LookPath u g spec l c p l' :
  Build LookPath u g spec l = (BuildOk c p, l') →
  NoDup (out_streams p) ∧ ∀ k, k ∈ out_streams p ↔ k = 1 ∨ k = 2 ∨ k ∈ sp_ExtraFDs spec.
Proof.
  intros [Hd Hf]%Build_keys. unfold out_streams.
  assert (∀ k, k ∈ (map_to_list (p_Extra p)).*1 ↔ k ∈ sp_ExtraFDs spec) as Hk.
  { intros k. trans (k ∈ dom (p_Extra p)); [|rewrite Hd; by rewrite elem_of_list_to_set].
    rewrite elem_of_dom, list_elem_of_fmap. split.
    - intros ([k' v] & -> & Hin). apply elem_of_map_to_list in Hin. by exists v.
    - intros [v Hv]. exists (k, v). split; [done|]. by apply elem_of_map_to_list. }
  rewrite Forall_forall in Hf. split.
  - apply NoDup_cons. split; [rewrite elem_of_cons, Hk; intros [?|?%Hf]; lia|].
    apply NoDup_cons. split; [rewrite Hk; intros ?%Hf; lia|]. apply NoDup_fst_map_to_list.
  - intros k. rewrite !elem_of_cons, Hk. done.
Qed.

Lemma logs_only logs body : Forall is_log logs → merges [logs] body → Forall is_log body.
Proof. intros Hl Hm. eapply merges_Forall; [exact Hm|]. by repeat constructor. Qed.

(** A main goroutine that sends one frame and nothing beside it. *)
Lemma agent_reply_sends f status out :
  agent_sends (agent_reply f status) out →
  ∃ body late, Forall is_log body ∧ Forall is_log late ∧ out = body ++ f :: late.
Proof.
  intros (logs & late & body & Hl & Hlate & Hm & ->). exists body, late.
  split; [exact (logs_only _ _ Hl Hm)|done].
Qed.

Lemma log_stream_data k l : Forall is_log l → stream_data k l = "".
Proof.
  intros Hl. apply (log_no_data k) in Hl. unfold stream_data. induction Hl as [|f l Hf _ IH]; [done|].
  cbn. rewrite Hf. exact IH.
Qed.

(** ** The outcome of an exec request *)

Section outcome.
Context `{Regexp}.
Variable build_Error : build_error → string.

(** The exit frame of a request that gets one: the failure to build or start the
    command, or the child's code. *)
Definition exec_exit (h : host) (cfg : option AgentConfig) (m : ExecMsg) : option (Z * string * option child) :=
  match (Build (h_LookPath h) (h_SUDO_UID h) (h_SUDO_GID h) (spec_of cfg m) (h_fds h)).1 with
  | BuildPanic => None
  | BuildErr e => Some (127, build_Error e, None)
  | BuildOk cmd _ =>
      match h_Start h cmd with Err e => Some (127, e, None) | Ok c => Some (ch_code c, "", Some c) end
  end.

(** The bytes stream [k] carries: those of the child, when there is one. *)
Definition exec_bytes (o : option child) (k : Z) : string :=
  match o with Some c => sconcat (chunks_of (ch_reads c k)) | None => "" end.
Definition exec_ends (o : option child) (ks : list Z) : Prop :=
  match o with Some c => Forall (λ k, ends (ch_reads c k)) ks | None => True end.

Lemma exec_mode_outcome h wc cfg m rest out code err o :
  exec_exit h cfg m = Some (code, err, o) → exec_ends o (1 :: 2 :: ex_ExtraFDs m) →
  agent_sends (exec_mode build_Error h wc cfg m rest) out →
  ∃ body late, out = body ++ exit_frame code err :: late ∧ before_exit out = (body, Some (exit_frame code err)) ∧
    Forall is_log late ∧ ∀ k, k = 1 ∨ k = 2 ∨ k ∈ ex_ExtraFDs m → stream_data k body = exec_bytes o k.
Proof.
  unfold exec_exit, exec_mode. intros Hx He Hs. destruct (Build _ _ _ _ _) as [[cmd p|e|] l'] eqn:Hb; simpl in Hx; [| |done].
  2: { simplify_eq. apply agent_reply_sends in Hs as (body & late & Hb' & Hl & ->). exists body, late.
       split; [done|]. split; [by apply before_exit_at; [apply log_not_exit|]|]. split; [done|].
       intros k _. by apply log_stream_data. }
  destruct (h_Start h cmd) as [c|e] eqn:Hst; simplify_eq.
  2: { apply agent_reply_sends in Hs as (body & late & Hb' & Hl & ->). exists body, late.
       split; [done|]. split; [by apply before_exit_at; [apply log_not_exit|]|]. split; [done|].
       intros k _. by apply log_stream_data. }
  destruct (out_streams_spec _ _ _ _ _ _ _ _ Hb) as [Hnd Hks].
  assert (wait_child wc c = (ch_code c, (wait_child wc c).2)) as Hw by (by destruct wc). rewrite Hw in Hs.
  destruct Hs as (logs & late & body & Hl & Hlate & Hm & ->). cbn [ag_streams ag_last] in *.
  destruct (bridges_interleaved _ _ _ _ Hnd Hl Hm) as [Hne Hdata].
  exists body, late. split; [done|]. split; [by apply before_exit_at|]. split; [done|].
  intros k Hk. apply Hdata; [by apply Hks|]. simpl in He. rewrite Forall_forall in He. apply He.
  rewrite !elem_of_cons. done.
Qed.

(** An exec request is answered with exactly one exit frame, after all output and
    before nothing but log frames: 127 with the error when the command could not be
    built or started, otherwise the code of the child, also when the connection was lost
    and the child had to be killed; before it stdout, stderr and every extra descriptor
    carry exactly the bytes the child wrote. *)
Theorem agent_exec_outcome {W} os os_readdir Error (w : W) h wc send_ok fs cfg f m rest out code err o :
  initial_frame fs = Some (cfg, f, rest) → Type_ f = FrameExec → Exec f = Some m →
  exec_exit h cfg m = Some (code, err, o) → exec_ends o (1 :: 2 :: ex_ExtraFDs m) →
  agent_sends (run build_Error os os_readdir Error h wc w send_ok fs) out →
  base.filter (λ g, is_exit g = true) out = [exit_frame code err] ∧
  (o = None → code = 127) ∧
  ∀ k, k = 1 ∨ k = 2 ∨ k ∈ ex_ExtraFDs m → stream_data k (before_exit out).1 = exec_bytes o k.
Proof.
  intros Hi Ht Hm Hx He Hs. unfold run in Hs. rewrite Hi, Ht, Hm in Hs. simpl in Hs.
  destruct (exec_mode_outcome _ _ _ _ _ _ _ _ _ Hx He Hs) as (body & late & -> & Hb & Hl & Hd).
  rewrite Hb. split_and!; [| |done].
  - apply before_exit_spec in Hb as [Hne _].
    assert (∀ l, Forall (λ g, is_exit g = false) l → base.filter (λ g, is_exit g = true) l = []) as Hf.
    { intros l. induction 1 as [|g l Hg _ IH]; [done|]. rewrite filter_cons_False by congruence. done. }
    rewrite filter_app, Hf, filter_cons_True, Hf by (done || by apply log_not_exit). done.
  - intros ->. unfold exec_exit in Hx. by repeat case_match; simplify_eq.
Qed.
End outcome.

(** ** File-op mode *)

Section service.
Context {W : Type}.
Variable os : ∀ r : req, W → reply r * W.
Variable os_readdir : string → W → result go_err (list (result go_err FileClient.FileInfo)) * W.
Variable Error : go_err → string.

(** The requests of a connection: the file-op frames up to an exit frame. *)
Definition frame_req (f : Frame) : option FileOpReq := if Type_ f =? FrameFileOp then FileOp_ f else None.
Definition requests (fs : list Frame) : list FileOpReq := omap frame_req (before_exit fs).1.

(** Serving requests one after the other on one table of open files. *)
Fixpoint answers (s : server) (w : W) (qs : list FileOpReq) : list FileOpResp * server * W :=
  match qs with
  | [] => ([], s, w)
  | q :: qs =>
      let '(r, s, w) := Handle os os_readdir Error s w q in
      let '(rs, s, w) := answers s w qs in
      (with_ReqID (ReqID q) r :: rs, s, w)
  end.

Lemma serve_frames_answers s w fs :
  let '(effs, s', w') := serve_frames os os_readdir Error s w fs in
  let '(rs, s'', w'') := answers s w (requests fs) in
  omap effect_frame effs = (fileresp_frame <$> rs) ∧ s' = s'' ∧ w' = w''.
Proof.
  unfold requests. revert s w. induction fs as [|f fs IH]; intros s w; [done|].
  cbn [serve_frames before_exit]. pose proof (dispatch_code (file_handlers os os_readdir Error s w) f) as Hc.
  destruct (is_exit f) eqn:Hx.
  - unfold is_exit in Hx. apply Z.eqb_eq in Hx. unfold dispatch, after_frame. by rewrite Hx.
  - destruct (before_exit fs) as [pre o]. simpl in IH. cbn [fst omap list_omap] in *. unfold after_frame, frame_req.
    destruct (Z.eqb_spec (Type_ f) FrameFileOp) as [Ht|Ht].
    + unfold dispatch in *. rewrite Ht in *. cbn in *. destruct (FileOp_ f) as [q|]; cbn.
      * destruct (Handle os os_readdir Error s w q) as [[r s1] w1]. specialize (IH s1 w1).
        destruct (serve_frames _ _ _ s1 w1 fs) as [[effs s2] w2].
        destruct (answers s1 w1 _) as [[rs s3] w3]. destruct IH as (Ho & -> & ->). cbn. by rewrite Ho.
      * specialize (IH s w). by destruct (serve_frames _ _ _ s w fs) as [[effs s2] w2].
    + specialize (IH s w). destruct (dispatch _ f) as [effs code] eqn:Hd. simpl in Hc. subst code.
      assert (omap effect_frame effs = []) as Hq.
      { apply Z.eqb_neq in Ht. unfold dispatch in Hd. rewrite Ht in Hd.
        repeat (case_match; simplify_eq; try done). }
      destruct (serve_frames _ _ _ s w fs) as [[effs' s2] w2]. rewrite omap_app, Hq. exact IH.
Qed.

Lemma answers_ids s w qs : (rs_ReqID <$> (answers s w qs).1.1) = (ReqID <$> qs).
Proof.
  revert s w. induction qs as [|q qs IH]; intros s w; [done|]. cbn [answers].
  destruct (Handle os os_readdir Error s w q) as [[r s1] w1]. specialize (IH s1 w1).
  destruct (answers s1 w1 qs) as [[rs s2] w2]. cbn [fst] in *. rewrite !fmap_cons. f_equal. exact IH.
Qed.

(** C27: in file-op mode the agent answers every request, in order, with the response the
    file server gives on its current table of open files and with the id of the request,
    and when the connection ends no file it opened is left in the table. *)
Theorem file_service (w : W) f rest :
  Type_ f = FrameFileOp →
  ∃ rs s w', answers (mkServer ∅ 0) w (requests (f :: rest)) = (rs, s, w') ∧
    file_mode os os_readdir Error w f rest = (fileresp_frame <$> rs, (CloseAll os s w').1, (CloseAll os s w').2) ∧
    (rs_ReqID <$> rs) = (ReqID <$> requests (f :: rest)) ∧ handles (CloseAll os s w').1 = ∅.
Proof.
  intros Ht. destruct (answers _ w _) as [[rs s] w'] eqn:Ha. exists rs, s, w'. split; [done|].
  pose proof (answers_ids (mkServer ∅ 0) w (requests (f :: rest))) as Hid. rewrite Ha in Hid. simpl in Hid.
  split_and!; [|exact Hid|done]. clear Hid. revert Ha. unfold requests, file_mode. cbn [before_exit].
  assert (is_exit f = false) as -> by (unfold is_exit; by rewrite Ht).
  destruct (before_exit rest) as [pre o] eqn:Hp. cbn [fst omap list_omap].
  assert (frame_req f = FileOp_ f) as -> by (unfold frame_req; by rewrite Ht).
  assert (requests rest = omap frame_req pre) as Hr by (unfold requests; by rewrite Hp).
  destruct (FileOp_ f) as [q|]; cbn [answers].
  - destruct (Handle _ _ _ _ w q) as [[r s1] w1]. pose proof (serve_frames_answers s1 w1 rest) as Hs.
    rewrite Hr in Hs. destruct (serve_frames _ _ _ s1 w1 rest) as [[effs s2] w2].
    destruct (answers s1 w1 _) as [[rs1 s3] w3]. destruct Hs as (Ho & -> & ->). intros [= <- <- <-].
    by rewrite Ho.
  - pose proof (serve_frames_answers (mkServer ∅ 0) w rest) as Hs. rewrite Hr in Hs.
    destruct (serve_frames _ _ _ _ w rest) as [[effs s2] w2].
    intros Ha. change (list_omap _ _ frame_req pre) with (omap frame_req pre) in Ha. rewrite Ha in Hs. destruct Hs as (Ho & -> & ->). by rewrite Ho.
Qed.
End service.

(** ** Enumeration, both ends *)

Section enumeration.
Context `{Regexp}.

(** The entries the proxy gets from an enumeration are those the agent finds on its own
    machine for the queried directories (or its own PATH when none is given), whatever
    configuration precedes the query and whatever log frames surround the answer. *)
Theorem enumerate_end_to_end {W} build_Error os os_readdir Error (w : W) h wc r paths out :
  agent_started r →
  agent_sends (run build_Error os os_readdir Error h wc w true
    (option_list (config_frame <$> ar_AgentConfig r) ++ [query_frame paths])) out →
  (EnumeratePaths r paths true true out).2 =
    Ok (EnumerateLocally (h_ReadDir h) (h_Stat h) (h_PATH h) paths).
Proof.
  intros Hst Hs.
  assert (run build_Error os os_readdir Error h wc w true
    (option_list (config_frame <$> ar_AgentConfig r) ++ [query_frame paths]) =
    agent_reply (info_frame (EnumerateLocally (h_ReadDir h) (h_Stat h) (h_PATH h) paths)) 0) as Hrun
    by (by destruct (ar_AgentConfig r)).
  rewrite Hrun in Hs. apply agent_reply_sends in Hs as (body & late & Hb & _ & ->).
  assert (Forall enum_skip body) as Hskip.
  { eapply Forall_impl; [exact Hb|]. intros g Hg. unfold enum_skip. rewrite Hg. done. }
  set (f := info_frame _).
  by destruct (enumerate_outcome r paths true body f late Hst (or_intror eq_refl) Hskip eq_refl).
Qed.
End enumeration.

(** ** Witnesses *)

Module Demo.

#[local] Existing Instance literal_engine.
Definition c0 : child :=
  mkChild (λ k, if k =? 1 then [("he", false); ("llo", true)] else [("", true)]) 3.
Definition h0 : host :=
  mkHost (λ _, None) "" "" (mkLedger 10 ∅ 100 [])
    (λ cmd, if String.eqb (cmd_Path cmd) "/bin/x" then Ok c0 else Err "no such file") (λ _, None) (λ _, None) "/bin".
Definition cfg0 : AgentConfig := mkAgentConfig ["*"] [].
Definition m0 : ExecMsg := mkExec "/bin/x" ["x"] ["A=1"] "/" [5].
Definition fs0 : list Frame := [config_frame cfg0; exec_frame m0; data_frame 0 "in"].
Definition log0 : Frame := frame0 FrameLog.
Definition demo_run (fs : list Frame) : agent_result :=
  run (λ _, "build error") demo_os demo_readdir (λ _, "error") h0 ChildFirst ([] : list req) true fs.
Definition out0 : list Frame :=
  [eof_frame 2; data_frame 1 "he"; log0; eof_frame 5; data_frame 1 "llo"; eof_frame 1; exit_frame 3 ""; log0].

Lemma out0_sends : agent_sends (demo_run fs0) out0.
Proof.
  exists [log0], [log0], (take 6 out0). split_and!; [by repeat constructor|by repeat constructor| |by vm_compute].
  apply (merges_step 2 _ []); [by vm_compute|]. apply (merges_step 1 _ [data_frame 1 "llo"; eof_frame 1]); [by vm_compute|].
  apply (merges_step 0 _ []); [by vm_compute|]. apply (merges_step 3 _ []); [by vm_compute|].
  apply (merges_step 1 _ [eof_frame 1]); [by vm_compute|]. apply (merges_step 1 _ []); [by vm_compute|].
  apply merges_nil. vm_compute. by repeat constructor.
Qed.

Lemma agent_exec_outcome_witness :
  base.filter (λ g, is_exit g = true) out0 = [exit_frame 3 ""] ∧ stream_data 1 (before_exit out0).1 = "hello".
Proof.
  destruct (agent_exec_outcome (λ _, "build error") demo_os demo_readdir (λ _, "error") ([] : list req) h0 ChildFirst
    true fs0 (Some cfg0) (exec_frame m0) m0 [data_frame 0 "in"] out0 3 "" (Some c0)) as (He & _ & Hd).
  - reflexivity.
  - reflexivity.
  - reflexivity.
  - by vm_compute.
  - simpl. rewrite !Forall_cons. unfold ends. split_and!; simpl; try done; by repeat constructor.
  - apply out0_sends.
  - split; [exact He|]. apply Hd. auto.
Defined.

Definition q0 : FileOpReq := mkReq 7 1 "/f" "" 0 0 0 0 0 0 0 0 0 "".
Definition q1 : FileOpReq := mkReq 9 99 "" "" 0 0 0 0 0 0 0 0 0 "".
Definition op_frame (q : FileOpReq) : Frame :=
  mkFrame FrameFileOp 0 "" 0 0 "" None None None None None (Some q) None.

Lemma file_service_witness :
  ∃ rs s w', answers demo_os demo_readdir (λ _, "error") (mkServer ∅ 0) ([] : list req) [q0; q1] = (rs, s, w') ∧
    (rs_ReqID <$> rs) = [7; 9] ∧ handles (CloseAll demo_os s w').1 = ∅.
Proof.
  destruct (file_service demo_os demo_readdir (λ _, "error") ([] : list req) (op_frame q0) [op_frame q1])
    as (rs & s & w' & Ha & _ & Hid & Hh); [reflexivity|]. exists rs, s, w'. split; [exact Ha|]. split; [exact Hid|exact Hh].
Defined.

Lemma enumerate_end_to_end_witness :
  (EnumeratePaths RemoteExec.Demo.runner [] true true
     [log0; info_frame (EnumerateLocally (h_ReadDir h0) (h_Stat h0) (h_PATH h0) [])]).2 = Ok [].
Proof.
  apply (enumerate_end_to_end (λ _, "build error") demo_os demo_readdir (λ _, "error") ([] : list req) h0 ChildFirst
    RemoteExec.Demo.runner [] _).
  - exists RemoteExec.Demo.sess, "/home/u/agent". repeat split.
  - exists [log0], [], [log0]. split_and!; [by repeat constructor|done| |reflexivity].
    apply (merges_step 0 _ []); [reflexivity|]. apply merges_nil. by repeat constructor.
Defined.
End Demo.
