(* ===== verification/ExecStack.v ===== *)
(** * ExecStack: an intercepted exec, end to end

    Composes the tracer's rewritten arguments ([Tracer]), the shim and the broker
    ([Broker]), the agent runner ([RemoteExec]) and the agent with its child
    ([AgentMain], [ChildProc]).  What the shim exits with and writes is what the remote
    child exits with and writes; every failure on the way ends in exit code 127. *)

From S2P Require Import Prelude GoStrings Streams PathRules EnvFilter Tracer FileClient Mux AgentFS RemoteExec Broker ChildProc AgentMain.
Local Open Scope Z_scope.

(** ** The agent runner behind the broker *)

Lemma op_chunks_written k ops : sconcat (op_chunks k ops) = op_written k ops.
Proof. done. Qed.

(** Stderr, with or without the goroutine that copies the agent's own. *)
Lemma caller_writes_stderr ops diag m :
  caller_writes ops diag 2 m → ∃ w, copied diag w ∧ merges [op_chunks 2 ops; w] m.
Proof.
  unfold caller_writes. destruct (drains ops); [done|]. intros ->. exists []. split; [by exists (sconcat diag)|].
  pose proof (merges_concat [op_chunks 2 ops; []]) as Hm. cbn in Hm. by rewrite app_nil_r in Hm.
Qed.

Lemma caller_writes_other ops diag k m : k ≠ 2 → caller_writes ops diag k m → m = op_chunks k ops.
Proof. intros Hk. unfold caller_writes. by rewrite (proj2 (Z.eqb_neq _ _) Hk). Qed.

Section stack.
Context `{Regexp}.
Variable err_text : run_err → string.
Variable build_Error : build_error → string.

(** [RunWithControl] as the broker calls it: on the request's own extra descriptors, with
    [out] the frames of the agent and [diag] what is read from the stderr of the session
    itself (what the agent prints before its connection is up, what the remote shell
    prints). *)
Definition remote_runs (r : AgentRunner) (cfg_ok exec_ok : bool) (out : list Frame) (diag : list string)
    (req : Request) (rr : run_result) : Prop :=
  let '(ops, (code, err)) := RunWithControl r req (ExtraFDs req) cfg_ok exec_ok out in
  rr_code rr = code ∧ rr_err rr = err_text <$> err ∧ ∀ k, caller_writes ops diag k (rr_out rr k).

(** The frames the agent decodes: the configuration, the request, then whatever the
    bridges send. *)
Definition agent_input (r : AgentRunner) (req : Request) (rest : list Frame) : list Frame :=
  option_list (config_frame <$> ar_AgentConfig r) ++ exec_frame (exec_msg req) :: rest.

Lemma agent_input_initial r req rest :
  initial_frame (agent_input r req rest) = Some (ar_AgentConfig r, exec_frame (exec_msg req), rest).
Proof. unfold agent_input. by destruct (ar_AgentConfig r). Qed.

(** These are the frames the runner sends. *)
Definition op_frame (o : op) : option Frame := match o with OSend f => Some f | _ => None end.

Lemma runner_sends r req fds out :
  agent_started r →
  omap op_frame (RunWithControl r req fds true true out).1 = agent_input r req [].
Proof.
  intros (s & path & Hp & He & Hin & Hout & Herr & Hstart).
  unfold RunWithControl, start_agent, with_session, with_pipes. rewrite Hp, He, Hin, Hout, Herr, Hstart. simpl.
  unfold send_config, agent_input, run_exec, record_start. simpl.
  destruct (ReadLoop _ out) as [[effs code] e].
  assert (∀ l : list effect, omap op_frame (OEffect <$> l) = []) as Heff.
  { induction l as [|x l IH]; [done|]. by rewrite fmap_cons. }
  assert (∀ l, omap op_frame (OCloseFD <$> l) = []) as Hcl.
  { induction l as [|x l IH]; [done|]. by rewrite fmap_cons. }
  destruct (ar_AgentConfig r), (ar_Recorder r) as [[]|]; simpl; rewrite ?omap_app, Heff; simpl;
    rewrite ?omap_app, Hcl; done.
Qed.

(** ** The end-to-end theorems *)

(** The runner on what an agent sends for the request. *)
Lemma remote_run_agent {W} os os_readdir Error (w : W) h wc send_ok r req rest out diag rr xcode xerr o :
  agent_started r →
  agent_sends (run build_Error os os_readdir Error h wc w send_ok (agent_input r req rest)) out →
  exec_exit build_Error h (ar_AgentConfig r) (exec_msg req) = Some (xcode, xerr, o) →
  exec_ends o (1 :: 2 :: ExtraFDs req) →
  remote_runs r true true out diag req rr →
  rr_code rr = xcode ∧
  (∀ k, k ∈ stream_ids req → k ≠ 2 → sconcat (rr_out rr k) = exec_bytes o k) ∧
  ∃ cs w, sconcat cs = exec_bytes o 2 ∧ copied diag w ∧ merges [cs; w] (rr_out rr 2).
Proof.
  intros Hst Hs Hx He Hrr. unfold run in Hs. rewrite agent_input_initial in Hs. simpl in Hs.
  destruct (exec_mode_outcome _ _ _ _ _ _ _ _ _ _ Hx He Hs) as (body & late & -> & Hb & _ & Hd).
  unfold remote_runs in Hrr. destruct (RunWithControl _ _ _ _ _ _) as [ops [code err]] eqn:Hr.
  destruct Hrr as (-> & _ & Hout).
  destruct (agent_run_outcome _ _ _ _ _ _ _ _ _ Hr) as (_ & Hok & _ & Hres).
  assert (err = None) as -> by (apply Hok; rewrite Hb; split_and!; auto; done).
  rewrite Hb in Hres. destruct (Hres eq_refl _ eq_refl) as [-> Hw]. split; [done|].
  assert (∀ k, k ∈ stream_ids req → sconcat (op_chunks k ops) = exec_bytes o k) as Hk.
  { intros k Hk. assert (k = 1 ∨ k = 2 ∨ k ∈ ExtraFDs req) as Hk' by (unfold stream_ids in Hk; set_solver).
    rewrite op_chunks_written, Hw by done. by apply Hd. }
  split.
  - intros k Hin Hne. rewrite (caller_writes_other _ _ _ _ Hne (Hout k)). by apply Hk.
  - destruct (caller_writes_stderr _ _ _ (Hout 2)) as (w' & Hc & Hm). exists (op_chunks 2 ops), w'.
    split_and!; [|done|done]. apply Hk. unfold stream_ids. set_solver.
Qed.

(** C1: an exec forwarded by the shim behaves like the remote command: whatever way the
    goroutines of the agent, of the runner and of the broker interleave, the shim exits
    with the code of the remote child (127 when it could not be built or started) and
    writes to its stdout and extra descriptors exactly the bytes the child wrote to them,
    in order.  Its stderr gets the bytes of the child's stderr, in order, with what the
    agent's session itself printed to stderr in between: exactly the child's when the
    session printed nothing. *)
Theorem exec_end_to_end {W} os os_readdir Error (w : W) h wc send_ok d r req rest out diag rr wire xcode xerr ch o code :
  d_Remote d = true → d_Signalable d = true → fds_ok (ExtraFDs req) → agent_started r →
  agent_sends (run build_Error os os_readdir Error h wc w send_ok (agent_input r (prepare_request d req) rest)) out →
  exec_exit build_Error h (ar_AgentConfig r) (exec_msg (prepare_request d req)) = Some (xcode, xerr, ch) →
  exec_ends ch (stream_ids req) →
  remote_runs r true true out diag (prepare_request d req) rr →
  serves d (λ _, rr) (Ok req) wire → shim_loop wire = (o, code) →
  code = xcode ∧
  (∀ k, k ∈ stream_ids req → k ≠ 2 → shim_bytes k o = exec_bytes ch k) ∧
  (∃ cs w m, sconcat cs = exec_bytes ch 2 ∧ copied diag w ∧ merges [cs; w] m ∧ shim_bytes 2 o = sconcat m) ∧
  (sconcat diag = "" → shim_bytes 2 o = exec_bytes ch 2).
Proof.
  intros Hrem Hsig Hfd Hst Hs Hx He Hrr Hserve Hloop.
  destruct (remote_run_agent _ _ _ _ _ _ _ _ (prepare_request d req) _ _ _ _ _ _ _ Hst Hs Hx He Hrr)
    as (Hcode & Hout & cs & w' & Hcs & Hcp & Hm).
  destruct (shim_transparent _ _ _ _ _ _ Hrem Hsig Hfd Hserve Hloop) as [-> Hb].
  assert (shim_bytes 2 o = sconcat (rr_out rr 2)) as H2 by (apply Hb; unfold stream_ids; set_solver).
  split_and!; [done| | |].
  - intros k Hk Hne. rewrite (Hb k Hk). by apply Hout.
  - by exists cs, w', (rr_out rr 2).
  - intros Hq. rewrite H2, <- Hcs. apply (merges_sconcat_silent cs w'); [done|].
    destruct Hcp as [rest' Hcp]. rewrite Hq in Hcp. by destruct (sconcat w').
Qed.

(** C25: every failure between the shim and the child is reported as exit code 127: an agent
    that cannot be uploaded or started, a frame that cannot be sent, a connection that
    ends without an exit frame, a request the broker cannot decode, a broker without a
    runner, a missing socket. *)
Theorem exec_failures_127 d r cfg_ok exec_ok out diag rr req wire :
  (d_Remote d = true → d_Signalable d = true → fds_ok (ExtraFDs req) →
   ¬ (agent_started r ∧ (ar_AgentConfig r = None ∨ cfg_ok = true) ∧ exec_ok = true ∧ (before_exit out).2 ≠ None) →
   remote_runs r cfg_ok exec_ok out diag (prepare_request d req) rr →
   serves d (λ _, rr) (Ok req) wire → (shim_loop wire).2 = 127) ∧
  (∀ run e, serves d run (Err e) wire → (shim_loop wire).2 = 127) ∧
  (∀ run, d_Remote d = false → serves d run (Ok req) wire → (shim_loop wire).2 = 127) ∧
  (∀ args sock dial enc, (length args < 2)%nat ∨ sock = "" ∨ dial = false ∨ enc = false →
   (shim_Run args sock dial enc wire).2 = 127).
Proof.
  split_and!.
  - intros Hrem Hsig Hfd Hno Hrr Hserve. destruct (shim_loop wire) as [o code] eqn:Hloop.
    destruct (shim_transparent _ _ _ _ _ _ Hrem Hsig Hfd Hserve Hloop) as [-> _]. simpl.
    unfold remote_runs in Hrr. destruct (RunWithControl _ _ _ _ _ _) as [ops [c err]] eqn:Hr. destruct Hrr as (-> & _).
    destruct (agent_run_outcome _ _ _ _ _ _ _ _ _ Hr) as (_ & Hok & H127 & _).
    apply H127. intros ->. by apply Hno, Hok.
  - intros run0 e (body & Hm & ->). simpl in *. inversion Hm; [done|]. by rewrite lookup_nil in *.
  - intros run0 Hrem (body & Hm & ->). unfold serveConn in *. rewrite Hrem in *. simpl in *.
    unfold runRemote in *. rewrite Hrem in *. simpl in *.
    assert (Forall (λ g, is_exit_frame g = false) body) as Hb.
    { eapply merges_Forall; [exact Hm|]. by repeat constructor. }
    by rewrite shim_loop_body.
  - intros args sock dial enc Hc. unfold shim_Run.
    destruct (Nat.ltb_spec (length args) 2); [done|]. destruct (String.eqb_spec sock ""); [done|].
    destruct dial, enc; try done. naive_solver lia.
Qed.

(** The command that is built for the request of an intercepted exec. *)
Lemma intercepted_build cfg path argv env cwd fds d acfg LookPath u g l cmd p l' :
  Build LookPath u g
    (spec_of acfg (exec_msg (prepare_request d (shim_request (new_argv cfg path argv) env (Some cwd) fds)))) l
    = (BuildOk cmd p, l') →
  let map_path := default id (d_PathMapper d) in
  let env1 := match d_EnvFilter d with Some f => f env | None => env end in
  cmd_Args cmd = map_path path :: drop 1 argv ∧
  cmd_Path cmd = (if contains_byte slash (map_path path) then map_path path
                  else default (map_path path) (LookPath (map_path path))) ∧
  cmd_Dir cmd = map_path cwd ∧
  cmd_Env cmd = match acfg with Some c => Filter env1 (ac_EnvKeep c) (ac_EnvRemove c) | None => env1 end ∧
  Setpgid cmd = true ∧
  (ledger_ok l → NoDup fds → ∃ i o e ss, wired fds i o e ss cmd p).
Proof.
  intros Hb. simpl. set (sp := spec_of _ _) in Hb.
  assert (ledger_ok l → NoDup fds → ∃ i o e ss, wired fds i o e ss cmd p) as Hw.
  { intros Hl Hn. pose proof (Build_ends LookPath u g sp l Hl Hn) as He. rewrite Hb in He.
    destruct He as (i & o & e & ss & _ & Hw & _). by exists i, o, e, ss. }
  assert (∀ fds c p l c' p' l', extra_loop fds c p l = (BuildOk c' p', l') →
    cmd_Args c' = cmd_Args c ∧ cmd_Path c' = cmd_Path c ∧ cmd_Dir c' = cmd_Dir c ∧ cmd_Env c' = cmd_Env c ∧
    Setpgid c' = Setpgid c) as Hloop.
  { clear. induction fds as [|fd fds IH]; intros c p l c' p' l' Hl; simpl in Hl; [by simplify_eq|].
    repeat case_match; simplify_eq. apply IH in Hl. exact Hl. }
  unfold Build in Hb. destruct (if DropSudoCredentials sp then _ else _) as [cred|]; [|done].
  destruct (setupStdPipes _ l) as [[[c1 p1]|] l1] eqn:Hs; [|done].
  apply Hloop in Hb as (-> & -> & -> & -> & ->).
  unfold setupStdPipes in Hs.
  do 3 (match type of Hs with context [new_pair ?x] => destruct (new_pair x) as [[[? ?] ?]|]; [|done] end).
  injection Hs as <- _ _. unfold newCmd. simpl.
  destruct argv as [|? [|? ?]]; simpl; by split_and!.
Qed.

End stack.

(** ** Witnesses *)

Module Demo.
#[local] Existing Instance literal_engine.

Definition deps : Deps := mkDeps true true None (Some (λ p, "/bin" +:+ p)).
Definition req : Request := mkRequest "/x" ["x"] ["A=1"] "" [5].
Definition runner : AgentRunner :=
  mkAgentRunner (Some (Some RemoteExec.Demo.sess)) (Some (Some "/agent")) None (Some AgentMain.Demo.cfg0).
Definition err_text (e : run_err) : string := "error".
Definition build_text (e : build_error) : string := "build error".

Lemma runner_started : agent_started runner.
Proof. exists RemoteExec.Demo.sess, "/agent". repeat split. Qed.

(** The output of [AgentMain.Demo], sent through the broker. *)
Definition wire : list BFrame :=
  [data_bframe "stdout" "he"; data_bframe "stderr" "agent:"; data_bframe "stdout" "llo"; exit_bframe 3 None].

(** A run whose session printed one line to stderr, cut by the end of the run. *)
Definition diag : list string := ["agent: starting"; " up"].
Definition rr : run_result :=
  mkRun (λ k, if k =? 2 then ["agent:"] else
    op_chunks k (RunWithControl runner (prepare_request deps req) [5] true true AgentMain.Demo.out0).1) 3 None.

Lemma rr_runs : remote_runs err_text runner true true AgentMain.Demo.out0 diag (prepare_request deps req) rr.
Proof.
  unfold remote_runs. change (ExtraFDs (prepare_request deps req)) with [5].
  destruct (RunWithControl _ _ _ _ _ _) as [ops [code err]] eqn:E.
  assert (rr_code rr = code ∧ err_text <$> err = None ∧ drains ops = true ∧ op_chunks 2 ops = []) as (-> & -> & Hd & H2).
  { revert E. vm_compute. intros [= <- <- <-]. done. }
  split_and!; [done..|]. intros k. unfold caller_writes. cbn [rr rr_out]. rewrite E, Hd, andb_true_r.
  destruct (Z.eqb_spec k 2) as [->|]; [|done]. exists ["agent:"]. split; [by exists " starting up"|].
  rewrite H2. apply (merges_step 1 _ []); [done|]. apply merges_nil. by repeat constructor.
Qed.

Lemma exec_wire_serves : serves deps (λ _, rr) (Ok req) wire.
Proof.
  exists (take 3 wire). split; [|by vm_compute].
  apply (merges_step 0 _ [data_bframe "stdout" "llo"]); [by vm_compute|].
  apply (merges_step 1 _ []); [by vm_compute|].
  apply (merges_step 0 _ []); [by vm_compute|]. apply merges_nil. vm_compute. by repeat constructor.
Qed.

Lemma child_ends : exec_ends (Some AgentMain.Demo.c0) (stream_ids req).
Proof. unfold exec_ends, stream_ids. simpl. rewrite !Forall_cons. unfold ends. split_and!; simpl; try done; by repeat constructor. Qed.

Lemma exec_end_to_end_witness :
  (shim_loop wire).2 = 3 ∧ shim_bytes 1 (shim_loop wire).1 = "hello".
Proof.
  destruct (shim_loop wire) as [o code] eqn:E.
  destruct (exec_end_to_end err_text build_text demo_os demo_readdir (λ _, "error") ([] : list FileClient.req) AgentMain.Demo.h0 ChildFirst
    true deps runner req [data_frame 0 "in"] AgentMain.Demo.out0 diag rr wire 3 "" (Some AgentMain.Demo.c0) o code)
    as (-> & Hb & _).
  - reflexivity.
  - reflexivity.
  - split; [repeat constructor; set_solver|by repeat constructor].
  - exact runner_started.
  - exact AgentMain.Demo.out0_sends.
  - by vm_compute.
  - exact child_ends.
  - exact rr_runs.
  - exact exec_wire_serves.
  - exact E.
  - split; [reflexivity|]. apply Hb; [unfold stream_ids; set_solver|done].
Defined.

(** A connection that ends without an exit frame. *)
Definition rr_lost : run_result := mkRun (λ _, []) 127 (Some "error").
Lemma rr_lost_runs : remote_runs err_text runner true true [] [] (prepare_request deps req) rr_lost.
Proof.
  unfold remote_runs. change (ExtraFDs (prepare_request deps req)) with [5].
  destruct (RunWithControl _ _ _ _ _ _) as [ops [code err]] eqn:E.
  assert (code = 127 ∧ err_text <$> err = Some "error" ∧ omap op_effect ops = [EffFailPending]) as (-> & -> & Ho).
  { revert E. vm_compute. intros [= <- <- <-]. done. }
  split_and!; [done..|]. intros k. unfold caller_writes, op_chunks. rewrite Ho. cbn [rr_lost rr_out].
  destruct (_ && _); [|done]. exists []. split; [by exists ""|]. apply merges_nil. by repeat constructor.
Qed.

Lemma exec_failures_127_witness :
  (shim_loop [exit_bframe 127 (Some "error")]).2 = 127 ∧ (shim_Run ["shim"] "s" true true []).2 = 127.
Proof.
  split.
  - destruct (exec_failures_127 err_text deps runner true true [] [] rr_lost req [exit_bframe 127 (Some "error")]) as [H _].
    apply H; [reflexivity|reflexivity| | |exact rr_lost_runs|].
    + split; [repeat constructor; set_solver|by repeat constructor].
    + intros (_ & _ & _ & Hx). by apply Hx.
    + exists []. split; [|by vm_compute]. apply merges_nil. vm_compute. by repeat constructor.
  - destruct (exec_failures_127 err_text deps runner true true [] [] rr_lost req []) as (_ & _ & _ & H).
    apply H. left. simpl. lia.
Defined.

End Demo.
