(* ===== verification/InitCmd.v ===== *)
(** * InitCmd: resolving the initial command

    Models [pkg/initcmd]: the PATH search for the first command and the local-command
    entries derived from it and from its shebang line.  A file is its bytes, and
    whether reading past them fails with an error other than the end of the file. *)

From S2P Require Import Prelude GoStrings GoPaths PathRules Tracer.
Local Open Scope Z_scope.

Record file_mode := mkMode { fm_dir : bool; fm_perm : Z }.
Record file_data := mkFile { bytes : string; read_fails : bool }.

(** The local machine as the package sees it. *)
Record local_fs := mkLocal {
  l_Stat : string → option file_mode;
  l_Open : string → option file_data;
  l_Getwd : option string;
}.

(** ** LookPath *)

Inductive look_err : Type := ErrNotFound | ErrStat | ErrPermission | ErrGetwd.

Definition checkExec (fs : local_fs) (path : string) : option look_err :=
  match l_Stat fs path with
  | None => Some ErrStat
  | Some mode =>
      if fm_dir mode then Some ErrPermission
      else if Z.land (fm_perm mode) o111 =? 0 then Some ErrPermission
      else None
  end.

(** [filepath.Abs]. *)
Definition Abs (fs : local_fs) (name : string) : option string :=
  if IsAbs name then Some (Clean name)
  else match l_Getwd fs with Some wd => Some (PathJoin wd name) | None => None end.

Definition skip_set (skipDirs : list string) : gset string :=
  list_to_set (Clean <$> base.filter (λ d, d ≠ "") skipDirs).

Fixpoint look_dirs (fs : local_fs) (name : string) (skip : gset string) (dirs : list string) : result look_err string :=
  match dirs with
  | [] => Err ErrNotFound
  | dir :: dirs =>
      if String.eqb dir "" then look_dirs fs name skip dirs
      else if bool_decide (Clean dir ∈ skip) then look_dirs fs name skip dirs
      else
        let candidate := PathJoin dir name in
        match checkExec fs candidate with
        | Some _ => look_dirs fs name skip dirs
        | None => Ok candidate
        end
  end.

Definition LookPath (fs : local_fs) (name pathEnv : string) (skipDirs : list string) : result look_err string :=
  if String.eqb name "" then Err ErrNotFound
  else if contains_byte slash name then
    match checkExec fs name with
    | Some e => Err e
    | None => match Abs fs name with Some p => Ok p | None => Err ErrGetwd end
    end
  else look_dirs fs name (skip_set skipDirs) (Split ":"%char pathEnv).

(** ** Shebang lines *)

Definition is_blank (c : ascii) : bool := Ascii.eqb c " " || Ascii.eqb c "009".
Definition is_eol (c : ascii) : bool := Ascii.eqb c "013" || Ascii.eqb c "010".

(** [strings.IndexAny(line, " \t")] with the two halves at the index. *)
Fixpoint cut_blank (s : string) : option (string * string) :=
  match s with
  | EmptyString => None
  | String c t =>
      if is_blank c then Some (EmptyString, s)
      else match cut_blank t with Some (a, b) => Some (String c a, b) | None => None end
  end.

(** [br.ReadString('\n')]: up to and including the newline, else everything, if the
    end is not an error. *)
Definition read_line (d : string) (fails : bool) : option string :=
  match CutByte "010" d with
  | Some (line, _) => Some (line +:+ String "010" "")
  | None => if fails then None else Some d
  end.

(** The interpreter and its argument; [Ok None] is "no shebang", [Err] a failed read. *)
Definition readShebang (fs : local_fs) (path : string) : result unit (option (string * string)) :=
  match l_Open fs path with
  | None => Err ()
  | Some f =>
      if (slen (bytes f) <? 2)%nat then (if read_fails f then Err () else Ok None)
      else if negb (HasPrefix (bytes f) "#!") then Ok None
      else match read_line (sdrop 2 (bytes f)) (read_fails f) with
           | None => Err ()
           | Some line =>
               let line := trim_left is_blank (trim_right is_eol line) in
               if String.eqb line "" then Ok None
               else match cut_blank line with
                    | Some (interpreter, tail) => Ok (Some (interpreter, trim_left is_blank tail))
                    | None => Ok (Some (line, ""))
                    end
           end
  end.

(** [strings.Fields] on ASCII white space. *)
Fixpoint fields_from (cur : option string) (s : string) : list string :=
  match s with
  | EmptyString => option_list cur
  | String c s =>
      if is_space c then option_list cur ++ fields_from None s
      else fields_from (Some (default "" cur +:+ String c "")) s
  end.
Definition Fields (s : string) : list string := fields_from None s.

(** Flags of env that take one more argument. *)
Definition takes_arg (f : string) : bool :=
  String.eqb f "-u" || String.eqb f "--unset" || String.eqb f "-C" || String.eqb f "--chdir".

Fixpoint env_loop (skipNext : bool) (fields : list string) : string :=
  match fields with
  | [] => ""
  | f :: fields =>
      if skipNext then env_loop false fields
      else if String.eqb f "" then env_loop false fields
      else if negb (HasPrefix f "-") then f
      else env_loop (takes_arg f) fields
  end.

Definition envTarget (arg : string) : string :=
  if String.eqb arg "" then "" else env_loop false (Fields arg).

(** The entries, and whether the file could not be read. *)
Definition DeriveLocalCommands (fs : local_fs) (absPath : string) : list string * bool :=
  match readShebang fs absPath with
  | Err _ => ([absPath], true)
  | Ok None => ([absPath], false)
  | Ok (Some (interp, arg)) =>
      ([absPath] ++ (if String.eqb interp "" then [] else [interp])
       ++ (if String.eqb (Base interp) "env" then
             let target := envTarget arg in if String.eqb target "" then [] else [target]
           else []), false)
  end.

(** ** The search *)

(** A directory of PATH that is searched, and the program found there. *)
Definition offers (fs : local_fs) (name : string) (skip : list string) (dir : string) : Prop :=
  dir ≠ "" ∧ (∀ d, d ∈ skip → d ≠ "" → Clean d ≠ Clean dir) ∧ checkExec fs (PathJoin dir name) = None.

Lemma elem_of_skip_set skipDirs c : c ∈ skip_set skipDirs ↔ ∃ d, d ∈ skipDirs ∧ d ≠ "" ∧ c = Clean d.
Proof.
  unfold skip_set. rewrite elem_of_list_to_set, list_elem_of_fmap. split.
  - intros (d & -> & Hd). apply list_elem_of_filter in Hd as [? ?]. eauto.
  - intros (d & Hd & Hn & ->). exists d. split; [done|]. by apply list_elem_of_filter.
Qed.

#[export] Instance offers_dec fs name skip dir : Decision (offers fs name skip dir).
Proof.
  unfold offers.
  destruct (decide (dir ≠ "")); [|right; tauto].
  destruct (decide (Clean dir ∈ skip_set skip)) as [Hs|Hs].
  - right. intros (_ & Hno & _). apply elem_of_skip_set in Hs as (d & Hd & Hn & He). by apply (Hno d).
  - destruct (checkExec fs (PathJoin dir name)); [right; naive_solver|left]. split_and!; [done| |done].
    intros d Hd Hn He. apply Hs, elem_of_skip_set. eauto.
Defined.

Lemma look_dirs_spec fs name skip dirs :
  look_dirs fs name (skip_set skip) dirs =
  match list_find (offers fs name skip) dirs with
  | Some (_, dir) => Ok (PathJoin dir name)
  | None => Err ErrNotFound
  end.
Proof.
  induction dirs as [|dir dirs IH]; [done|]. cbn [look_dirs list_find].
  destruct (String.eqb dir "") eqn:E.
  { rewrite decide_False by (intros (? & _); apply seqb_true in E; done).
    rewrite IH. by destruct (list_find _ dirs) as [[i d]|]. }
  apply seqb_false in E. case_bool_decide as Hs.
  { rewrite decide_False.
    - rewrite IH. by destruct (list_find _ dirs) as [[i d]|].
    - intros (_ & Hno & _). apply elem_of_skip_set in Hs as (d & Hd & Hn & He). by apply (Hno d). }
  destruct (checkExec fs (PathJoin dir name)) eqn:Hc.
  - rewrite decide_False by (intros (_ & _ & ?); congruence).
    rewrite IH. by destruct (list_find _ dirs) as [[i d]|].
  - rewrite decide_True; [done|]. split_and!; [done| |done].
    intros d Hd Hn He. apply Hs, elem_of_skip_set. eauto.
Qed.

(** A command name without a slash resolves to the program of the first PATH directory
    that is neither empty nor skipped and has an executable of that name, and to "not
    found" when there is none; nothing is ever resolved into a skipped directory. *)
Theorem lookpath_first fs name pathEnv skip :
  name ≠ "" → contains_byte slash name = false →
  LookPath fs name pathEnv skip =
  match list_find (offers fs name skip) (Split ":"%char pathEnv) with
  | Some (_, dir) => Ok (PathJoin dir name)
  | None => Err ErrNotFound
  end.
Proof.
  intros Hn Hs. unfold LookPath. apply seqb_false in Hn. rewrite Hn, Hs. apply look_dirs_spec.
Qed.

(** ** Reading a shebang line back *)

Fixpoint all_bytes (p : ascii → bool) (s : string) : Prop :=
  match s with EmptyString => True | String c s => p c = true ∧ all_bytes p s end.
Definition no_bytes (p : ascii → bool) (s : string) : Prop := all_bytes (λ c, negb (p c)) s.

Lemma trim_left_all p s t : all_bytes p s → trim_left p (s +:+ t) = trim_left p t.
Proof. induction s as [|c s IH]; [done|]. intros [Hc Hs]. rewrite sapp_cons. simpl. rewrite Hc. by apply IH. Qed.

Lemma all_bytes_app p s t : all_bytes p (s +:+ t) ↔ all_bytes p s ∧ all_bytes p t.
Proof. induction s as [|c s IH]; [naive_solver|]. rewrite sapp_cons. simpl. rewrite IH. tauto. Qed.

Lemma all_bytes_srev p s : all_bytes p s → all_bytes p (srev s).
Proof.
  induction s as [|c s IH]; [done|]. intros [Hc Hs]. rewrite srev_cons, all_bytes_app. split; [by apply IH|]. by split.
Qed.

Lemma trim_right_all p s t : all_bytes p t → first_not p (srev s) → trim_right p (s +:+ t) = s.
Proof.
  intros Ht Hs. unfold trim_right. rewrite srev_sapp, trim_left_all by by apply all_bytes_srev.
  rewrite trim_left_id by done. apply srev_involutive.
Qed.

Lemma cut_blank_none s : no_bytes is_blank s → cut_blank s = None.
Proof.
  induction s as [|c s IH]; [done|]. intros [Hc Hs]. cbn [cut_blank].
  apply negb_true_iff in Hc. by rewrite Hc, IH.
Qed.

Lemma cut_blank_at s c t :
  no_bytes is_blank s → is_blank c = true → cut_blank (s +:+ String c t) = Some (s, String c t).
Proof.
  intros Hs Hc. induction s as [|a s IH]; cbn [cut_blank].
  - rewrite sapp_nil_l. cbn [cut_blank]. by rewrite Hc.
  - destruct Hs as [Ha Hs]. rewrite sapp_cons. cbn [cut_blank]. apply negb_true_iff in Ha. by rewrite Ha, IH.
Qed.

Lemma no_bytes_first p s : no_bytes p s → first_not p s.
Proof. destruct s as [|c s]; [done|]. intros [Hc _]. by apply negb_true_iff in Hc. Qed.

(** A shebang line: blanks, an interpreter, and optionally blanks and an argument. *)
Definition shebang_line (pad interp gap arg : string) : string := pad +:+ (interp +:+ (gap +:+ arg)).

Record shebang_ok (pad interp gap arg : string) : Prop := {
  so_pad : all_bytes is_blank pad;
  so_interp : interp ≠ "" ∧ no_bytes is_blank interp;
  so_gap : all_bytes is_blank gap ∧ (gap = "" → arg = "");
  so_arg : first_not is_blank arg;
  so_line : contains_byte "010" (shebang_line pad interp gap arg) = false;
  so_end : first_not is_eol (srev (shebang_line pad interp gap arg));
}.

Lemma parse_line pad interp gap arg :
  shebang_ok pad interp gap arg →
  trim_left is_blank (shebang_line pad interp gap arg) = interp +:+ (gap +:+ arg) ∧
  match cut_blank (interp +:+ (gap +:+ arg)) with
  | Some (i, tail) => i = interp ∧ trim_left is_blank tail = arg
  | None => gap = "" ∧ arg = ""
  end.
Proof.
  intros [Hp [Hne Hi] [Hg Hga] Ha _ _]. split.
  - unfold shebang_line. rewrite trim_left_all by done. apply trim_left_id.
    apply first_not_app; [done|]. by apply no_bytes_first.
  - destruct gap as [|c gap].
    + rewrite (Hga eq_refl), sapp_nil_l, sapp_nil_r, cut_blank_none by done. done.
    + destruct Hg as [Hc Hg]. rewrite sapp_cons, cut_blank_at by done. split; [done|].
      cbn [trim_left]. rewrite Hc, trim_left_all by done. by apply trim_left_id.
Qed.

(** What is made of the first line, whose end the trimming takes away. *)
Definition line_words (line : string) : option (string * string) :=
  let l := trim_left is_blank line in
  if String.eqb l "" then None
  else match cut_blank l with
       | Some (interpreter, tail) => Some (interpreter, trim_left is_blank tail)
       | None => Some (l, "")
       end.
Lemma readShebang_line fs path line eol rest :
  contains_byte "010" line = false → first_not is_eol (srev line) →
  eol = String "010" "" ∨ eol = String "013" (String "010" "") ∨ (eol = "" ∧ rest = "") →
  l_Open fs path = Some (mkFile ("#!" +:+ (line +:+ (eol +:+ rest))) false) →
  readShebang fs path = Ok (line_words line).
Proof.
  intros Hline Hend Heol Hopen. unfold readShebang. rewrite Hopen. cbn [bytes read_fails].
  rewrite HasPrefix_app. assert ((slen ("#!" +:+ (line +:+ (eol +:+ rest))) <? 2)%nat = false) as -> by done.
  cbn [negb]. change (sdrop 2 ("#!" +:+ (line +:+ (eol +:+ rest)))) with (line +:+ (eol +:+ rest)).
  assert (∃ e, all_bytes is_eol e ∧ read_line (line +:+ (eol +:+ rest)) false = Some (line +:+ e)) as (e & He & ->).
  { unfold read_line. destruct Heol as [->|[->|[-> ->]]].
    - exists (String "010" ""). split; [done|]. rewrite sapp_cons, sapp_nil_l, CutByte_app by done. done.
    - exists (String "013" (String "010" "")). split; [done|].
      rewrite !sapp_cons, sapp_nil_l. change (line +:+ String "013" (String "010" rest)) with
        (line +:+ (String "013" "" +:+ String "010" rest)).
      rewrite sapp_assoc, CutByte_app; [by rewrite <- sapp_assoc|]. by rewrite contains_byte_app, Hline.
    - exists "". split; [done|]. rewrite !sapp_nil_r. by rewrite (proj2 (CutByte_None _ _) Hline). }
  rewrite trim_right_all by done. unfold line_words. cbn zeta. destruct (String.eqb _ ""); [done|].
  by destruct (cut_blank _) as [[i tail]|].
Qed.

(** A script's first line is read back exactly: for every interpreter, argument and
    spacing, with a Unix, DOS or missing line end and whatever follows, the interpreter
    and the whole rest of the line (one argument, as the kernel passes it) are found. *)
Theorem shebang_roundtrip fs path pad interp gap arg eol rest :
  shebang_ok pad interp gap arg →
  eol = String "010" "" ∨ eol = String "013" (String "010" "") ∨ (eol = "" ∧ rest = "") →
  l_Open fs path = Some (mkFile ("#!" +:+ (shebang_line pad interp gap arg +:+ (eol +:+ rest))) false) →
  readShebang fs path = Ok (Some (interp, arg)).
Proof.
  intros Hok Heol Hopen. destruct (parse_line _ _ _ _ Hok) as [Htrim Hcut].
  destruct Hok as [Hp [Hne Hi] _ _ Hline Hend]. rewrite (readShebang_line _ _ _ _ _ Hline Hend Heol Hopen).
  unfold line_words. rewrite Htrim.
  assert (String.eqb (interp +:+ (gap +:+ arg)) "" = false) as ->.
  { apply seqb_false. destruct interp; [done|]. by rewrite sapp_cons. }
  destruct (cut_blank _) as [[i tail]|].
  - destruct Hcut as [-> ->]. done.
  - destruct Hcut as [-> ->]. by rewrite sapp_nil_l, sapp_nil_r.
Qed.

(** ** What the kernel and env do *)

(** Written from the documentation of the two, not from the code of the package. *)

(** The prefix before the first byte of a kind, and the rest. *)
Fixpoint span_not (p : ascii → bool) (s : string) : string * string :=
  match s with
  | EmptyString => ("", "")
  | String c t => if p c then ("", s) else let '(a, b) := span_not p t in (String c a, b)
  end.
Definition nul : ascii := "000".
Definition is_nul (c : ascii) : bool := Ascii.eqb c nul.
Fixpoint nuls (n : nat) : string := match n with O => "" | S n => String nul (nuls n) end.

(** [load_script] of Linux: the kernel looks at the first 256 bytes of a file, zeros beyond
    its end.  After [#!] come the interpreter and at most one argument, which is the rest of
    the line; blanks around them do not count.  A line that does not end in the buffer is
    cut, unless that would cut the interpreter. *)
Definition script_words (line : string) : option (string * string) :=
  let '(name, tail) := span_not is_blank (trim_left is_blank (span_not is_nul line).1) in
  if String.eqb name "" then None else Some (name, trim_left is_blank tail).
Definition load_script (file : string) : option (string * string) :=
  if negb (HasPrefix file "#!") then None
  else
    let buf := stake 254 (sdrop 2 file +:+ nuls 254) in
    match CutByte "010" buf with
    | Some (line, _) => script_words (trim_right is_blank line)
    | None =>
        if String.eqb (span_not (λ c, is_blank c || is_nul c) (trim_left is_blank buf)).2 "" then None
        else script_words (stake 253 buf)
    end.

(** env with the one argument the kernel gives it, after [-S] the words of it: options, of
    which some take a word, then assignments, then the program.  [None]: the argument names
    no program, and env takes the next one, the path of the script. *)
Definition env_program_of (ws : list string) : option string :=
  first_some (λ w, if contains_byte "=" w then None else Some w) ws.
Fixpoint env_scan (ws : list string) : option string :=
  match ws with
  | [] => None
  | w :: ws' =>
      if bool_decide (w ∈ ["-u"; "--unset"; "-C"; "--chdir"; "-a"; "--argv0"]) then
        match ws' with [] => None | _ :: ws => env_scan ws end
      else if String.eqb w "--" then env_program_of ws'
      else if HasPrefix w "-" then env_scan ws'
      else env_program_of ws
  end.
Definition env_words (arg : string) : list string :=
  if String.eqb arg "" then [] else if HasPrefix arg "-S" then Fields (sdrop 2 arg) else [arg].
Definition env_program (arg : string) : option string := env_scan (env_words arg).

(** The arguments for which this is what env does and which the package understands: no
    quoting or expansion and no bytes beyond ASCII; one word that is no option; or [-S] as a word of its own, then
    options out of these, then the program, and no assignment. *)
Definition env_quoting (c : ascii) : bool :=
  Ascii.eqb c "034" || Ascii.eqb c "'" || Ascii.eqb c "\" || Ascii.eqb c "$" || Ascii.eqb c "#"
  || (128 <=? nat_of_ascii c)%nat.
Fixpoint plain_words (ws : list string) : bool :=
  match ws with
  | [] => true
  | w :: ws' =>
      if bool_decide (w ∈ ["-u"; "--unset"; "-C"; "--chdir"]) then match ws' with [] => false | _ :: ws => plain_words ws end
      else if HasPrefix w "-" then
        (bool_decide (w ∈ ["-"; "-i"; "--ignore-environment"; "-v"; "--debug"])
         || HasPrefix w "--unset=" || HasPrefix w "--chdir=") && plain_words ws'
      else negb (contains_byte "=" w)
  end.
Definition plain_env (arg : string) : bool :=
  String.eqb (span_not env_quoting arg).2 "" &&
  if HasPrefix arg "-S" then
    match sdrop 2 arg with String c _ => is_space c | EmptyString => true end && plain_words (Fields (sdrop 2 arg))
  else negb (HasPrefix arg "-") && negb (contains_byte "=" arg) && String.eqb (span_not is_space arg).2 "".

(** What env executes for a program: a path as it is, a name wherever it finds it. *)
Definition env_finds (t q : string) : Prop := if contains_byte slash t then q = t else Base q = t.

(** The programs that are executed to run [p]: the file, what runs its interpreter, and what
    runs the program env looks up. *)
Definition script_of (fs : local_fs) (p : string) : option (string * string) :=
  f ← l_Open fs p; load_script (bytes f).
Inductive starts (fs : local_fs) : string → string → Prop :=
  | starts_self p : starts fs p p
  | starts_interp p i a q : script_of fs p = Some (i, a) → starts fs i q → starts fs p q
  | starts_env p i a t q r :
      script_of fs p = Some (i, a) → Base i = "env" → env_program a = Some t → env_finds t q → starts fs q r → starts fs p r.

(** *** The package reads the line as the kernel does *)

(** A first line the kernel sees whole: it ends in the buffer, has no zero byte and does not
    end in a carriage return, which the kernel would keep; in a file without a newline, not
    in a blank either. *)
Definition whole_line (file : string) : Prop :=
  let '(line, nl) := match CutByte "010" (sdrop 2 file) with Some (l, _) => (l, true) | None => (sdrop 2 file, false) end in
  (slen line ≤ 252)%nat ∧ contains_byte nul line = false ∧ first_not is_eol (srev line) ∧
  (nl = false → first_not is_blank (srev line)).

Lemma span_not_app p s : s = (span_not p s).1 +:+ (span_not p s).2.
Proof. induction s as [|c s IH]; [done|]. cbn. destruct (p c); [done|]. destruct (span_not p s). cbn in *. by rewrite sapp_cons, <- IH. Qed.
Lemma span_not_no p s : no_bytes p (span_not p s).1.
Proof.
  induction s as [|c s IH]; [done|]. cbn. destruct (p c) eqn:E; [done|]. destruct (span_not p s). cbn in *.
  split; [by rewrite E|done].
Qed.
Lemma span_not_rest p s : match (span_not p s).2 with EmptyString => True | String c _ => p c = true end.
Proof. induction s as [|c s IH]; [done|]. cbn. destruct (p c) eqn:E; [done|]. by destruct (span_not p s). Qed.
Lemma span_not_none p s : no_bytes p s → span_not p s = (s, "").
Proof. induction s as [|c s IH]; [done|]. intros [Hc Hs]. cbn. apply negb_true_iff in Hc. by rewrite Hc, IH. Qed.
Lemma span_not_at p s c t : no_bytes p s → p c = true → span_not p (s +:+ String c t) = (s, String c t).
Proof.
  intros Hs Hc. induction s as [|a s IH]; [rewrite sapp_nil_l; cbn; by rewrite Hc|]. destruct Hs as [Ha Hs]. rewrite sapp_cons. cbn.
  apply negb_true_iff in Ha. by rewrite Ha, IH.
Qed.
Lemma contains_no_bytes c p s : (∀ d, p d = Ascii.eqb d c) → contains_byte c s = false → no_bytes p s.
Proof.
  intros Hp. induction s as [|d s IH]; [done|]. cbn. intros [Hd Hs]%orb_false_iff. split; [by rewrite Hp, Hd|exact (IH Hs)].
Qed.
Lemma span_not_contains p c s : p c = true → contains_byte c s = true → (span_not p s).2 ≠ "".
Proof.
  intros Hp. induction s as [|d s IH]; [done|]. cbn. destruct (p d) eqn:E; [done|].
  intros [Hd|Hs]%orb_true_iff; [apply Ascii.eqb_eq in Hd as ->; congruence|]. specialize (IH Hs). by destruct (span_not p s).
Qed.
Lemma trim_left_contains p c s : p c = false → contains_byte c (trim_left p s) = contains_byte c s.
Proof.
  intros Hp. induction s as [|d s IH]; [done|]. cbn. destruct (p d) eqn:E; [|done]. rewrite IH.
  destruct (Ascii.eqb d c) eqn:Ed; [apply Ascii.eqb_eq in Ed as ->; congruence|done].
Qed.
Lemma trim_left_split p s : ∃ g, all_bytes p g ∧ s = g +:+ trim_left p s.
Proof.
  induction s as [|c s (g & Hg & Hs)]; [by exists ""|]. cbn. destruct (p c) eqn:E; [|by exists ""].
  exists (String c g). rewrite sapp_cons, <- Hs. by split.
Qed.
Lemma trim_right_split p s :
  ∃ t, all_bytes p t ∧ s = trim_right p s +:+ t ∧ first_not p (srev (trim_right p s)).
Proof.
  unfold trim_right. destruct (trim_left_split p (srev s)) as (g & Hg & Hs). exists (srev g). split_and!.
  - by apply all_bytes_srev.
  - rewrite <- srev_sapp, <- Hs. by rewrite srev_involutive.
  - rewrite srev_involutive. apply trim_left_first.
Qed.
Lemma stake_long n s t : (slen s ≤ n)%nat → stake n (s +:+ t) = s +:+ stake (n - slen s) t.
Proof.
  revert n. induction s as [|c s IH]; intros n Hn; [cbn; by rewrite Nat.sub_0_r|]. cbn [slen] in Hn.
  destruct n as [|n]; [lia|]. rewrite !sapp_cons. cbn. f_equal. apply IH. cbn in Hn. lia.
Qed.
Lemma stake_nuls n k : (k ≤ n)%nat → stake k (nuls n) = nuls k.
Proof. revert n. induction k as [|k IH]; intros n Hn; [done|]. destruct n as [|n]; [lia|]. cbn. f_equal. apply IH. lia. Qed.
Lemma contains_nuls c k : contains_byte c (nuls (S k)) = Ascii.eqb nul c.
Proof. induction k as [|k IH]; [cbn; by rewrite orb_false_r|]. change (Ascii.eqb nul c || contains_byte c (nuls (S k)) = Ascii.eqb nul c). rewrite IH. by destruct (Ascii.eqb nul c). Qed.

(** The first line, when the kernel sees it whole. *)
Definition kernel_words (line : string) : option (string * string) :=
  let '(name, tail) := span_not is_blank (trim_left is_blank line) in
  if String.eqb name "" then None else Some (name, trim_left is_blank tail).
Lemma load_script_line line eol rest :
  (slen line ≤ 252)%nat → contains_byte nul line = false → contains_byte "010" line = false →
  eol = String "010" "" ∨ (eol = "" ∧ rest = "" ∧ first_not is_blank (srev line)) →
  load_script ("#!" +:+ (line +:+ (eol +:+ rest))) = kernel_words (trim_right is_blank line).
Proof.
  intros Hlen Hnul Hnl Heol. unfold load_script. rewrite HasPrefix_app. cbn [negb].
  change (sdrop 2 ("#!" +:+ (line +:+ (eol +:+ rest)))) with (line +:+ (eol +:+ rest)).
  assert (∀ d, is_nul d = Ascii.eqb d nul) as Hd by done.
  destruct Heol as [->|(-> & -> & Hend)].
  - rewrite <- sapp_assoc, stake_long by lia. destruct (254 - slen line)%nat as [|k] eqn:Ek; [lia|].
    change (stake (S k) ((String "010" "" +:+ rest) +:+ nuls 254)) with (String "010" (stake k (rest +:+ nuls 254))).
    rewrite CutByte_app by done. unfold script_words, kernel_words.
    rewrite (span_not_none is_nul); [done|]. apply (contains_no_bytes nul); [done|].
    destruct (trim_right_split is_blank line) as (t & _ & Ht & _). rewrite Ht, contains_byte_app in Hnul.
    by apply orb_false_iff in Hnul as [? _].
  - rewrite !sapp_nil_r, stake_long, stake_nuls by lia. destruct (254 - slen line)%nat as [|[|k]] eqn:Ek; [lia|lia|].
    rewrite (proj2 (CutByte_None _ _)) by (by rewrite contains_byte_app, Hnl, contains_nuls).
    rewrite (proj2 (seqb_false _ _)).
    2:{ apply (span_not_contains _ nul); [done|]. rewrite trim_left_contains by done.
        by rewrite contains_byte_app, contains_nuls, orb_true_r. }
    rewrite stake_long, stake_nuls by lia. destruct (253 - slen line)%nat as [|k'] eqn:Ek'; [lia|].
    unfold script_words. cbn [nuls]. rewrite (span_not_at is_nul); [|by apply (contains_no_bytes nul)|done]. cbn [fst].
    unfold kernel_words, trim_right. by rewrite (trim_left_id _ (srev line)), srev_involutive.
Qed.

(** On it the package finds the same words; the argument may have blanks after it. *)
Lemma words_agree line :
  match kernel_words (trim_right is_blank line) with
  | None => line_words line = None
  | Some (i, a) => i ≠ "" ∧ ∃ t, all_bytes is_blank t ∧ line_words line = Some (i, a +:+ t)
  end.
Proof.
  destruct (trim_right_split is_blank line) as (t & Ht & Hl & Hend). set (x := trim_right is_blank line) in *.
  destruct (trim_left_split is_blank x) as (pad & Hpad & Hx). pose proof (trim_left_first is_blank x) as Hy.
  unfold kernel_words, line_words. set (y := trim_left is_blank x) in *. rewrite Hl, Hx, <- sapp_assoc, trim_left_all by done.
  pose proof (span_not_app is_blank y) as Hsp. pose proof (span_not_no is_blank y) as Hno.
  pose proof (span_not_rest is_blank y) as Hre. destruct (span_not is_blank y) as [i tail]. cbn [fst snd] in *.
  destruct y as [|c0 y0] eqn:Ey.
  { destruct i; [|done]. cbn. rewrite sapp_nil_l, <- (sapp_nil_r t), trim_left_all by done. done. }
  rewrite (trim_left_id _ (String c0 y0 +:+ t)) by by apply first_not_app.
  destruct i as [|c1 i0]; [rewrite sapp_nil_l in Hsp; rewrite <- Hsp in Hre; cbn in Hy, Hre; congruence|].
  rewrite (proj2 (seqb_false (String c1 i0) "")) by done.
  rewrite (proj2 (seqb_false (String c0 y0 +:+ t) "")) by (by rewrite sapp_cons). rewrite Hsp in *. clear Hsp Ey.
  split; [done|]. destruct tail as [|c tail].
  - exists "". rewrite sapp_nil_r. split; [done|]. destruct t as [|ct t]; [by rewrite sapp_nil_r, cut_blank_none|].
    destruct Ht as [Hc Ht]. rewrite cut_blank_at by done. rewrite <- (sapp_nil_r (String ct t)), trim_left_all by done. done.
  - rewrite <- sapp_assoc, (sapp_cons c tail t), cut_blank_at by done. exists t. split; [done|]. rewrite <- sapp_cons.
    destruct (trim_left_split is_blank (String c tail)) as (g & Hg & Hgt). do 2 f_equal.
    pose proof (trim_left_first is_blank (String c tail)) as Hf. set (a := trim_left is_blank (String c tail)) in *.
    rewrite Hgt, <- sapp_assoc, trim_left_all by done. apply trim_left_id. destruct a as [|ca a]; [|done]. exfalso. rewrite sapp_nil_r in Hgt. rewrite Hx, Hgt, !srev_sapp in Hend. apply all_bytes_srev in Hg.
    assert (srev g ≠ "") as Hne by (apply srev_not_empty; by rewrite <- Hgt).
    destruct (srev g) as [|cg gg]; [done|]. destruct Hg as [Hg _]. rewrite !sapp_cons in Hend. cbn in Hend. congruence.
Qed.
(** So a script is read as the kernel reads it. *)
Lemma readShebang_kernel fs path f :
  l_Open fs path = Some f → read_fails f = false → (HasPrefix (bytes f) "#!" = true → whole_line (bytes f)) →
  match load_script (bytes f) with
  | None => readShebang fs path = Ok None
  | Some (i, a) => i ≠ "" ∧ ∃ t, all_bytes is_blank t ∧ readShebang fs path = Ok (Some (i, a +:+ t))
  end.
Proof.
  destruct f as [file fails]. cbn [bytes read_fails]. intros Ho -> Hw. destruct (HasPrefix file "#!") eqn:Hp.
  2:{ unfold load_script, readShebang. rewrite Ho. cbn [bytes read_fails]. rewrite Hp. cbn [negb]. by destruct (_ <? _)%nat. }
  specialize (Hw eq_refl). apply HasPrefix_spec in Hp as [body ->]. unfold whole_line in Hw.
  change (sdrop 2 ("#!" +:+ body)) with body in Hw.
  assert (∃ line eol rest, body = line +:+ (eol +:+ rest) ∧ contains_byte "010" line = false ∧ (slen line ≤ 252)%nat ∧
    contains_byte nul line = false ∧ first_not is_eol (srev line) ∧
    (eol = String "010" "" ∨ (eol = "" ∧ rest = "" ∧ first_not is_blank (srev line)))) as (line & eol & rest & -> & Hnl & Hlen & Hnul & Hend & He).
  { destruct (CutByte "010" body) as [[line rest]|] eqn:E; destruct Hw as (? & ? & ? & Hb).
    - apply CutByte_Some in E as [-> ?]. exists line, (String "010" ""), rest. split_and!; try done. by left.
    - apply CutByte_None in E. exists body, "", "". rewrite !sapp_nil_r. split_and!; try done. right. auto. }
  rewrite (load_script_line line eol rest) by done.
  rewrite (readShebang_line fs path line eol rest) by (tauto || done).
  pose proof (words_agree line) as Ha. destruct (kernel_words _) as [[i a]|]; [|by rewrite Ha].
  destruct Ha as (Hi & t & Ht & ->). split; [done|]. by exists t.
Qed.

(** *** And env's argument as env does *)

Lemma fields_from_blank cur t : all_bytes is_blank t → fields_from cur t = option_list cur.
Proof.
  revert cur. induction t as [|c t IH]; intros cur; [done|]. intros [Hc Ht]. cbn.
  assert (is_space c = true) as ->; [|by rewrite (IH None Ht), app_nil_r].
  unfold is_blank in Hc. by apply orb_true_iff in Hc as [E|E]; apply Ascii.eqb_eq in E as ->.
Qed.
Lemma Fields_blank s t : all_bytes is_blank t → Fields (s +:+ t) = Fields s.
Proof.
  intros Ht. unfold Fields. generalize (@None string). induction s as [|c s IH]; intros cur.
  - rewrite sapp_nil_l. by apply fields_from_blank.
  - rewrite sapp_cons. cbn. destruct (is_space c); by rewrite IH.
Qed.
Lemma fields_from_nonempty cur s : (∀ u, cur = Some u → u ≠ "") → Forall (λ w, w ≠ "") (fields_from cur s).
Proof.
  revert cur. induction s as [|c s IH]; intros cur Hc; cbn.
  - destruct cur; cbn; repeat constructor. by apply Hc.
  - destruct (is_space c).
    + apply Forall_app. split; [destruct cur; cbn; repeat constructor; by apply Hc|by apply IH].
    + apply IH. intros u [= <-]. by destruct (default "" cur).
Qed.
Lemma fields_word u s : no_bytes is_space s → fields_from (Some u) s = [u +:+ s].
Proof.
  revert u. induction s as [|c s IH]; intros u; [by rewrite sapp_nil_r|]. intros [Hc Hs]. cbn. apply negb_true_iff in Hc. rewrite Hc.
  rewrite IH by done. by rewrite <- sapp_assoc.
Qed.
Lemma span_not_all p s : (span_not p s).2 = "" → no_bytes p s.
Proof. intros H. rewrite (span_not_app p s), H, sapp_nil_r. apply span_not_no. Qed.

Lemma env_loop_plain n ws :
  (length ws ≤ n)%nat → Forall (λ w, w ≠ "") ws → plain_words ws = true →
  env_loop false ws = default "" (env_scan ws) ∧ env_scan ws ≠ Some "".
Proof.
  revert ws. induction n as [|n IH]; intros [|w ws] Hlen Hne Hp; cbn in Hlen; try (by split); [lia|].
  inversion Hne as [|? ? Hw Hws]; subst. cbn [env_loop env_scan plain_words] in *.
  rewrite (proj2 (seqb_false w "")) by done.
  case_bool_decide as Hk.
  - rewrite bool_decide_true by set_solver. destruct ws as [|v ws]; [done|]. inversion Hws; subst.
    assert (HasPrefix w "-" = true ∧ takes_arg w = true) as [-> ->] by (repeat (apply elem_of_cons in Hk as [->|Hk]; [done|]); by apply elem_of_nil in Hk).
    cbn [negb env_loop]. apply IH; [cbn in Hlen; lia|done|done].
  - destruct (HasPrefix w "-") eqn:Hd; cbn [negb].
    + apply andb_true_iff in Hp as [Hf Hp].
      assert (bool_decide (w ∈ ["-u"; "--unset"; "-C"; "--chdir"; "-a"; "--argv0"]) = false ∧ String.eqb w "--" = false ∧ takes_arg w = false)
        as (-> & -> & ->).
      { rewrite !orb_true_iff, bool_decide_eq_true in Hf. destruct Hf as [[Hf|[r ->]%HasPrefix_spec]|[r ->]%HasPrefix_spec]; [|done..].
        repeat (apply elem_of_cons in Hf as [->|Hf]; [done|]). by apply elem_of_nil in Hf. }
      apply IH; [lia|done|done].
    + apply negb_true_iff in Hp.
      rewrite bool_decide_false by (intros Hi; repeat (apply elem_of_cons in Hi as [->|Hi]; [done|]); by apply elem_of_nil in Hi).
      rewrite (proj2 (seqb_false w "--")) by (by intros ->). unfold env_program_of. cbn. rewrite Hp. cbn. split; congruence.
Qed.
Lemma envTarget_plain a t :
  plain_env a = true → all_bytes is_blank t →
  envTarget (a +:+ t) = default "" (env_program a) ∧ env_program a ≠ Some "".
Proof.
  intros Hp Ht. unfold plain_env in Hp. apply andb_true_iff in Hp as [_ Hp]. unfold env_program, env_words.
  destruct (String.eqb a "") eqn:Ea.
  { apply seqb_true in Ea as ->. split; [|done]. rewrite sapp_nil_l. unfold envTarget, Fields. destruct (String.eqb t ""); [done|].
    by rewrite fields_from_blank. }
  assert (envTarget (a +:+ t) = env_loop false (Fields a)) as ->.
  { unfold envTarget. rewrite (proj2 (seqb_false _ _)); [by rewrite Fields_blank|]. apply seqb_false in Ea. destruct a; [done|]. by rewrite sapp_cons. }
  apply seqb_false in Ea. destruct (HasPrefix a "-S") eqn:Es.
  - apply HasPrefix_spec in Es as [r ->]. change (sdrop 2 ("-S" +:+ r)) with r in *. apply andb_true_iff in Hp as [Hr Hp].
    assert (Fields ("-S" +:+ r) = "-S" :: Fields r) as ->.
    { destruct r as [|c r]; [done|]. change (fields_from (Some "-S") (String c r) = "-S" :: fields_from None (String c r)).
      cbn [fields_from]. by rewrite Hr. }
    change (env_loop false ("-S" :: Fields r)) with (env_loop false (Fields r)).
    apply (env_loop_plain (length (Fields r))); [done| |done]. by apply fields_from_nonempty.
  - apply andb_true_iff in Hp as [[Hd He]%andb_true_iff Hs]. apply seqb_true, span_not_all in Hs.
    apply negb_true_iff in Hd, He.
    assert (Fields a = [a]) as ->.
    { unfold Fields. destruct a as [|c a]; [done|]. destruct Hs as [Hc Hs]. cbn. apply negb_true_iff in Hc. rewrite Hc.
      by rewrite fields_word. }
    apply (env_loop_plain 1); [done|by repeat constructor|]. cbn [plain_words].
    rewrite Hd, He. case_bool_decide as Hi; [|done].
    repeat (apply elem_of_cons in Hi as [->|Hi]; [done|]). by apply elem_of_nil in Hi.
Qed.

(** ** The initial command stays local *)

Section local.
Context `{Regexp}.

(** A path that is an absolute-path rule, not a regular expression. *)
Definition plain_abs (p : string) : Prop := IsAbs p = true ∧ HasSuffix p "/" = false.

Lemma plain_abs_matches p : plain_abs p → MatchLocalCommand p p = true.
Proof. intros [Ha Hs]. apply MatchLocalCommand_complete. apply match_abs; [exact Ha|by left|done]. Qed.

Lemma base_matches t p : t ≠ "" → contains_byte slash t = false → Base p = t → MatchLocalCommand t p = true.
Proof. intros. by apply MatchLocalCommand_complete, match_base. Qed.

(** The scripts whose chain is derived: a readable file with a first line the kernel sees
    whole, with an absolute interpreter that is no script; with env, a plain argument and a
    program that is no script and has no relative path. *)
Record plain_script (fs : local_fs) (path : string) : Prop := {
  ps_path : plain_abs path;
  ps_file : ∃ f, l_Open fs path = Some f ∧ read_fails f = false ∧ (HasPrefix (bytes f) "#!" = true → whole_line (bytes f));
  ps_interp i a : script_of fs path = Some (i, a) → plain_abs i ∧ script_of fs i = None;
  ps_env i a : script_of fs path = Some (i, a) → Base i = "env" →
    plain_env a = true ∧
    ∀ t, env_program a = Some t → (contains_byte slash t = true → plain_abs t) ∧ ∀ q, env_finds t q → script_of fs q = None;
}.

Lemma starts_no_script fs p q : script_of fs p = None → starts fs p q → q = p.
Proof. intros Hn Hs. by inversion Hs; simplify_eq. Qed.

(** With the derived entries added to the local commands, the tracer lets every program
    of the initial command's shebang chain run locally: the script itself, its
    interpreter, and the program env looks up, in whatever directory it is found. *)
Theorem initial_command_allowed fs path cmds shim from to prog :
  plain_script fs path → starts fs path prog →
  shouldAllow (mkConfig shim (cmds ++ (DeriveLocalCommands fs path).1) from to) prog = true.
Proof.
  intros [Hp (f & Ho & Hf & Hw) Hi He] Hs. unfold shouldAllow. destruct (_ || _); [done|]. cbn [CfgWhitelist].
  apply existsb_exists. setoid_rewrite <- list_elem_of_In. setoid_rewrite elem_of_app.
  pose proof (readShebang_kernel fs path f Ho Hf Hw) as Hr. unfold DeriveLocalCommands.
  assert (script_of fs path = load_script (bytes f)) as Hsc by (unfold script_of; by rewrite Ho).
  inversion Hs as [p|p i a q Hk Hrest|p i a t q r Hk Henv Ht Hfind Hrest]; subst.
  - exists prog. split; [right|by apply plain_abs_matches]. destruct (load_script (bytes f)) as [[i a]|]; [|by rewrite Hr; left].
    destruct Hr as (_ & t & _ & ->). by left.
  - destruct (Hi _ _ Hk) as [Ha Hno]. apply (starts_no_script _ _ _ Hno) in Hrest as ->.
    rewrite <- Hsc, Hk in Hr. destruct Hr as (Hne & t & _ & ->). exists i. split; [right|by apply plain_abs_matches].
    cbn [fst]. rewrite (proj2 (seqb_false i "")) by done. set_solver.
  - destruct (He _ _ Hk Henv) as [Hpl Ht']. destruct (Ht' t Ht) as [Hsl Hno]. apply (starts_no_script _ _ _ (Hno q Hfind)) in Hrest as ->.
    rewrite <- Hsc, Hk in Hr. destruct Hr as (Hne & bl & Hbl & ->). destruct (envTarget_plain a bl Hpl Hbl) as [Het Hnt].
    rewrite Ht in Het, Hnt. cbn in Het. exists t. split.
    + right. cbn [fst]. rewrite Henv, seqb_refl, Het. cbv zeta. rewrite (proj2 (seqb_false t "")) by congruence. set_solver.
    + unfold env_finds in Hfind. destruct (contains_byte slash t) eqn:Ec; [subst q; by apply plain_abs_matches, Hsl|].
      apply base_matches; [congruence|done|done].
Qed.
End local.

(** ** Witnesses *)

Module Demo.
#[local] Existing Instance literal_engine.

Definition script : string := "#! /usr/bin/env -S -u HOME python3 -x" +:+ String "010" "print()".
Definition fs0 : local_fs :=
  mkLocal
    (λ p, if String.eqb p "/stub/tool" || String.eqb p "/usr/bin/tool" then Some (mkMode false o111)
          else if String.eqb p "/bin/tool" then Some (mkMode false 4) else None)
    (λ p, if String.eqb p "/usr/bin/tool" then Some (mkFile script false) else None)
    (Some "/home").

Lemma lookpath_first_witness :
  LookPath fs0 "tool" "/stub/::/bin:/usr/bin" ["/stub"] = Ok "/usr/bin/tool".
Proof.
  rewrite (lookpath_first fs0 "tool" "/stub/::/bin:/usr/bin" ["/stub"]); [|done|reflexivity].
  vm_compute. reflexivity.
Defined.

Lemma shebang_roundtrip_witness :
  readShebang fs0 "/usr/bin/tool" = Ok (Some ("/usr/bin/env", "-S -u HOME python3 -x")).
Proof.
  apply (shebang_roundtrip fs0 "/usr/bin/tool" " " "/usr/bin/env" " " "-S -u HOME python3 -x" (String "010" "") "print()").
  - split; try done; vm_compute; repeat split; congruence.
  - by left.
  - reflexivity.
Defined.

Lemma fs0_plain : plain_script fs0 "/usr/bin/tool".
Proof.
  assert (∀ i a, script_of fs0 "/usr/bin/tool" = Some (i, a) → i = "/usr/bin/env" ∧ a = "-S -u HOME python3 -x") as Hs
    by (intros i a [= <- <-]; done).
  split; [by split| |intros i a [-> ->]%Hs; by repeat split|].
  - exists (mkFile script false). split_and!; [done..|]. intros _. unfold whole_line.
    destruct (CutByte "010" (sdrop 2 (bytes (mkFile script false)))) as [[line rest]|] eqn:E; vm_compute in E; [|done].
    injection E as <- <-. split_and!; [apply Nat.leb_le; by vm_compute|by vm_compute|by vm_compute|done].
  - intros i a [-> ->]%Hs _. split; [by vm_compute|]. intros t [= <-]. split; [done|]. unfold env_finds. cbn. intros q Hq.
    unfold script_of, fs0. cbn. destruct (String.eqb q "/usr/bin/tool") eqn:E; [|done]. apply seqb_true in E as ->.
    vm_compute in Hq. discriminate Hq.
Qed.

Lemma initial_command_allowed_witness :
  shouldAllow (mkConfig "/shim" (["make"] ++ (DeriveLocalCommands fs0 "/usr/bin/tool").1) "" "") "/opt/python3" = true.
Proof.
  apply (initial_command_allowed fs0 "/usr/bin/tool" ["make"] "/shim" "" "" "/opt/python3" fs0_plain).
  eapply (starts_env _ _ "/usr/bin/env" "-S -u HOME python3 -x" "python3" "/opt/python3"); [by vm_compute..|constructor].
Defined.

(** The kernel's reading: blanks, a cut argument, a carriage return that stays. *)
Example load_script_examples :
  load_script ("#! /bin/sh  -e  x " +:+ String "010" "rest") = Some ("/bin/sh", "-e  x") ∧
  load_script ("#!/bin/sh" +:+ String "013" (String "010" "")) = Some ("/bin/sh" +:+ String "013" "", "") ∧
  load_script "#!/bin/sh" = Some ("/bin/sh", "") ∧ load_script "#! " = None ∧ load_script "echo" = None.
Proof. by vm_compute. Qed.

(** Of a script whose interpreter is a script too only the first interpreter is derived. *)
Definition nested : local_fs :=
  mkLocal (λ _, None) (λ p, if String.eqb p "/s" then Some (mkFile "#!/t" false)
                            else if String.eqb p "/t" then Some (mkFile "#!/bin/sh" false) else None) None.
Example nested_not_derived :
  starts nested "/s" "/bin/sh" ∧
  shouldAllow (mkConfig "/shim" ([] ++ (DeriveLocalCommands nested "/s").1) "" "") "/bin/sh" = false.
Proof.
  split; [|by vm_compute]. eapply (starts_interp _ _ "/t"); [by vm_compute|]. eapply (starts_interp _ _ "/bin/sh"); [by vm_compute|].
  constructor.
Qed.

(** A relative PATH directory gives a relative result, whose derived entry is no valid
    rule and so keeps nothing local. *)
Example lookpath_relative :
  LookPath (mkLocal (λ p, Some (mkMode false o111)) (λ _, None) None) "tool" "bin" [] = Ok "bin/tool" ∧
  MatchLocalCommand "bin/tool" "bin/tool" = false.
Proof. split; vm_compute; reflexivity. Qed.

(** A first line longer than the kernel's 256 bytes is still read to its end. *)
Fixpoint stretch (n : nat) : string := match n with O => "" | S n => String "x" (stretch n) end.
Example shebang_long :
  readShebang (mkLocal (λ _, None) (λ _, Some (mkFile ("#!/" +:+ (stretch 300 +:+ " a")) false)) None) "s" =
  Ok (Some ("/" +:+ stretch 300, "a")).
Proof. vm_compute. reflexivity. Qed.

(** An assignment in the shebang of env is taken for the program, and a program that follows
    [-S] without a blank is not seen. *)
Example env_assignment :
  envTarget "-S LANG=C python3" = "LANG=C" ∧ env_program "-S LANG=C python3" = Some "python3" ∧
  envTarget "-Spython3" = "" ∧ env_program "-Spython3" = Some "python3".
Proof. by vm_compute. Qed.
End Demo.
