(* ===== verification/Launch.v ===== *)
(** * Launch: starting the traced command in its namespace

    Models the child invocation of [cmd/machineproxy/runchild_linux.go], the arguments
    the tracer parses ([cmd/mproxy-tracer/main_linux.go]), the environment of
    [pkg/ns/env.go] and the bubblewrap command of [pkg/ns/runner_linux.go]. *)

From S2P Require Import Prelude GoStrings PathRules EnvFilter Tracer.
Local Open Scope go_scope.

(** ** The tracer's command line *)

(** What the runtime passes on: the resolved binaries, the socket, the log level, the
    local commands and the working-directory remap. *)
Record invocation := mkInv {
  inv_tracer : string; inv_shim : string; inv_sock : string; inv_level : string;
  inv_local : list string; inv_cwdFrom : string; inv_cwdTo : string;
}.

Definition buildChildInvocation (v : invocation) (cmdline : list string) : list string :=
  [inv_tracer v; "--shim-path"; inv_shim v; "--broker-sock"; inv_sock v; "--log-level"; inv_level v]
  ++ match inv_local v with [] => [] | l => ["--whitelist"; Join ":"%char l] end
  ++ (if String.eqb (inv_cwdTo v) "" then [] else ["--cwd-from"; inv_cwdFrom v; "--cwd-to"; inv_cwdTo v])
  ++ ["--"] ++ cmdline.

(** The tracer's configuration with the socket it is told but does not use. *)
Record tracer_args := mkTArgs { ta_cfg : Config; ta_sock : string; ta_level : string }.

Definition targs0 : tracer_args := mkTArgs (mkConfig "" [] "" "") "" "info".

(** One flag with its value; [None] when the flag is unknown. *)
Definition set_flag (flag v : string) (a : tracer_args) : option tracer_args :=
  let c := ta_cfg a in
  if String.eqb flag "--shim-path" then
    Some (mkTArgs (mkConfig v (CfgWhitelist c) (CwdFrom c) (CwdTo c)) (ta_sock a) (ta_level a))
  else if String.eqb flag "--broker-sock" then Some (mkTArgs c v (ta_level a))
  else if String.eqb flag "--whitelist" then
    Some (mkTArgs (mkConfig (ShimPath c) (Split ":"%char v) (CwdFrom c) (CwdTo c)) (ta_sock a) (ta_level a))
  else if String.eqb flag "--cwd-from" then
    Some (mkTArgs (mkConfig (ShimPath c) (CfgWhitelist c) v (CwdTo c)) (ta_sock a) (ta_level a))
  else if String.eqb flag "--cwd-to" then
    Some (mkTArgs (mkConfig (ShimPath c) (CfgWhitelist c) (CwdFrom c) v) (ta_sock a) (ta_level a))
  else if String.eqb flag "--log-level" then Some (mkTArgs c (ta_sock a) v)
  else None.

(** [parseArgs]: [None] where the code returns a nil configuration. *)
Fixpoint parse_from (a : tracer_args) (args : list string) : option (tracer_args * list string) :=
  match args with
  | [] => None
  | "--" :: rest => Some (a, rest)
  | flag :: rest =>
      match set_flag flag "" a, rest with
      | None, _ => Some (a, flag :: rest)
      | Some _, [] => None
      | Some _, v :: rest => match set_flag flag v a with Some a => parse_from a rest | None => None end
      end
  end.
Definition parseArgs (args : list string) : option (tracer_args * list string) := parse_from targs0 args.

(** [main]: usage error with status 2 when there is no configuration or no command. *)
Definition tracer_main_usage (args : list string) : bool :=
  match parseArgs args with Some (_, _ :: _) => false | _ => true end.

(** ** The environment *)

Record PathInjection := mkInj { inj_Dir : string; inj_Position : string }.

Definition defaultPath : string := "/usr/local/sbin:/usr/local/bin:/usr/sbin:/usr/bin:/sbin:/bin".

Definition containsPathSegment (path dir : string) : bool :=
  if String.eqb path "" then false else existsb (String.eqb dir) (Split ":"%char path).

(** The new value of a PATH that does not have [dir]. *)
Definition spliced (prepend : bool) (dir current : string) : string :=
  if String.eqb current "" then dir
  else if prepend then dir +:+ ":" +:+ current else current +:+ ":" +:+ dir.

(** The loop over the entries, with the position decided. *)
Fixpoint inject_from (prepend : bool) (dir : string) (env : list string) : option (list string) :=
  match env with
  | [] => None
  | entry :: env =>
      match CutPrefix entry "PATH=" with
      | None => match inject_from prepend dir env with Some e => Some (entry :: e) | None => None end
      | Some current =>
          if containsPathSegment current dir then Some (entry :: env)
          else Some (("PATH=" +:+ spliced prepend dir current) :: env)
      end
  end.

Definition injectPath (env : list string) (dir position : string) : list string :=
  let prepend := negb (String.eqb position "append") in
  match inject_from prepend dir env with
  | Some e => e
  | None => env ++ ["PATH=" +:+ spliced prepend dir defaultPath]
  end.

Definition FormatEnv (base : list string) (brokerSock shimPath : string) (inj : PathInjection) : list string :=
  (if String.eqb (inj_Dir inj) "" then base else injectPath base (inj_Dir inj) (inj_Position inj))
  ++ ["MPROXY_BROKER_SOCK=" +:+ brokerSock; "MPROXY_SHIM_PATH=" +:+ shimPath].

(** ** Bubblewrap *)

Record Bind := mkBind { b_Src : string; b_Dst : string }.

Definition buildBwrapArgs (workingDir : string) (cmdline : list string) (binds : list Bind) : list string :=
  ["--dev-bind"; "/"; "/"] ++ (binds ≫= λ b, ["--bind"; b_Src b; b_Dst b])
  ++ ["--chdir"; workingDir; "--die-with-parent"] ++ cmdline.

(** [Prepare] and [Run]: the command that is executed. *)
Definition Prepare (LookPath : string → option string) : option string := LookPath "bwrap".
Definition ns_Command (bwrapBin workingDir : string) (cmdline : list string) (binds : list Bind) : string * list string :=
  (bwrapBin, buildBwrapArgs workingDir cmdline binds).

(** ** The tracer gets its configuration *)

(** The configuration the runtime means the tracer to have. *)
Definition intended (v : invocation) (whitelist : list string) : tracer_args :=
  mkTArgs (mkConfig (inv_shim v) whitelist
             (if String.eqb (inv_cwdTo v) "" then "" else inv_cwdFrom v) (inv_cwdTo v))
    (inv_sock v) (inv_level v).

Definition rejoined (l : list string) : list string :=
  match l with [] => [] | _ => Split ":"%char (Join ":"%char l) end.

Lemma parseArgs_invocation v cmdline :
  parseArgs (drop 1 (buildChildInvocation v cmdline)) = Some (intended v (rejoined (inv_local v)), cmdline).
Proof.
  unfold buildChildInvocation, intended, rejoined. destruct v as [tr sh so le lo cf ct]. simpl.
  destruct lo as [|e l], (String.eqb ct "") eqn:E; simpl; rewrite ?E; try done; apply seqb_true in E; by subst.
Qed.

Lemma rejoined_iff l : rejoined l = l ↔ Forall (λ e, contains_byte ":"%char e = false) l.
Proof.
  unfold rejoined. destruct l as [|e l]; [done|]. split.
  - intros <-. apply Split_no_sep.
  - intros Hf. by apply Split_Join.
Qed.

(** The tracer parses the command line the runtime builds for it into exactly the
    intended shim, socket, log level, directory remap and command, whatever these
    strings are (also a value or a command that looks like a flag); the local commands
    arrive unchanged if and only if none of them contains a colon.  A regular expression
    with a colon in it, such as one with a non-capturing group, is cut into pieces. *)
Theorem tracer_args_roundtrip v cmdline :
  ∃ whitelist,
    parseArgs (drop 1 (buildChildInvocation v cmdline)) = Some (intended v whitelist, cmdline) ∧
    (whitelist = inv_local v ↔ Forall (λ e, contains_byte ":"%char e = false) (inv_local v)).
Proof. exists (rejoined (inv_local v)). split; [apply parseArgs_invocation|apply rejoined_iff]. Qed.

(** ** The stub directory on PATH *)

(** The value of PATH entries. *)
Definition path_value (e : string) : option string := CutPrefix e "PATH=".

Lemma contains_segment path dir :
  path ≠ "" → containsPathSegment path dir = false ↔ dir ∉ Split ":"%char path.
Proof.
  intros Hp. unfold containsPathSegment. apply seqb_false in Hp. rewrite Hp.
  rewrite <- not_true_iff_false, existsb_exists. split.
  - intros Hn Hin. apply Hn. exists dir. split; [by apply list_elem_of_In|apply seqb_refl].
  - intros Hn (x & Hx & He). apply seqb_true in He as <-. by apply Hn, list_elem_of_In.
Qed.

Lemma spliced_segments prepend dir current :
  current ≠ "" → contains_byte ":"%char dir = false →
  Split ":"%char (spliced prepend dir current) =
  if prepend then dir :: Split ":"%char current else Split ":"%char current ++ [dir].
Proof.
  intros Hc Hd. unfold spliced. apply seqb_false in Hc. rewrite Hc. destruct prepend.
  - by rewrite <- (Split_app_sep _ _ _ Hd).
  - change (":" +:+ dir) with (String ":" dir). by rewrite Split_app, (Split_sep_free _ dir).
Qed.

(** An entry without the directory is not changed by stripping it. *)
Lemma strip_entry_id dir e :
  (∀ v, path_value e = Some v → dir ∉ Split ":"%char v) → strip_entry dir e = [e].
Proof.
  intros Hv. unfold strip_entry, path_value in *. destruct (CutPrefix e "PATH=") as [v|] eqn:E; [|done].
  assert (base.filter (λ s, s ≠ dir) (Split ":"%char v) = Split ":"%char v) as ->.
  { specialize (Hv v eq_refl). induction (Split ":"%char v) as [|x l IH]; [done|].
    rewrite filter_cons_True by set_solver. rewrite IH by set_solver. done. }
  apply CutPrefix_spec in E as ->. pose proof (Split_not_nil ":"%char v).
  destruct (Split ":"%char v) eqn:E; [done|]. by rewrite <- E, Join_Split.
Qed.

Lemma strip_entry_spliced prepend dir v :
  v ≠ "" → contains_byte ":"%char dir = false → dir ∉ Split ":"%char v →
  strip_entry dir ("PATH=" +:+ spliced prepend dir v) = ["PATH=" +:+ v].
Proof.
  intros Hv Hd Hn. rewrite <- (strip_entry_id dir ("PATH=" +:+ v)).
  2: { intros v' Hv'. unfold path_value in Hv'. apply CutPrefix_spec in Hv'.
       assert (CutPrefix ("PATH=" +:+ v) "PATH=" = Some v) as Hc by by apply CutPrefix_spec.
       apply CutPrefix_spec in Hv'. rewrite Hv' in Hc. by injection Hc as <-. }
  unfold strip_entry.
  assert (∀ x, CutPrefix ("PATH=" +:+ x) "PATH=" = Some x) as Hcut by (intros; by apply CutPrefix_spec).
  rewrite !Hcut, spliced_segments by done.
  assert (base.filter (λ s, s ≠ dir) (if prepend then dir :: Split ":"%char v else Split ":"%char v ++ [dir]) =
          base.filter (λ s, s ≠ dir) (Split ":"%char v)) as ->; [|done].
  destruct prepend; [by rewrite filter_cons_False by auto|].
  rewrite filter_app, (filter_cons_False _ dir) by auto. by rewrite app_nil_r.
Qed.

(** No PATH entry is empty or has the directory already. *)
Definition stub_free (dir : string) (env : list string) : Prop :=
  Forall (λ e, ∀ v, path_value e = Some v → v ≠ "" ∧ dir ∉ Split ":"%char v) env.

Lemma inject_from_strip prepend dir env :
  contains_byte ":"%char dir = false → stub_free dir env → Exists (λ e, is_Some (path_value e)) env →
  ∃ pre v post, env = pre ++ ("PATH=" +:+ v) :: post ∧ v ≠ "" ∧ Forall (λ e, path_value e = None) pre ∧
    inject_from prepend dir env = Some (pre ++ ("PATH=" +:+ spliced prepend dir v) :: post) ∧
    (pre ++ ("PATH=" +:+ spliced prepend dir v) :: post) ≫= strip_entry dir = env.
Proof.
  intros Hd Hf. induction Hf as [|e env He Hf IH]; intros Hx; [by inversion Hx|].
  assert (∀ l, stub_free dir l → l ≫= strip_entry dir = l) as Hid.
  { intros l Hl. induction Hl as [|x l Hxx _ IHl]; [done|]. cbn [mbind list_bind].
    rewrite IHl, strip_entry_id; [done|]. intros v Hv. by apply Hxx. }
  cbn [inject_from]. unfold path_value in He. destruct (CutPrefix e "PATH=") as [v|] eqn:E.
  - destruct (He v eq_refl) as [Hne Hni]. apply CutPrefix_spec in E as ->.
    rewrite (proj2 (contains_segment v dir Hne) Hni).
    exists [], v, env. split_and!; [done|done|constructor|done|]. cbn [app mbind list_bind].
    rewrite strip_entry_spliced by done. by rewrite (Hid env).
  - apply Exists_cons in Hx as [[v Hv]|Hx]; [unfold path_value in Hv; congruence|].
    destruct (IH Hx) as (pre & v & post & -> & Hne & Hpre & -> & Hs). exists (e :: pre), v, post.
    split_and!; [done|done|by constructor|done|]. cbn [app mbind list_bind]. rewrite strip_entry_id.
    + cbn [app]. f_equal. exact Hs.
    + intros v' Hv'. unfold path_value in Hv'. congruence.
Qed.

(** The directory of path stubs is put first on the container's PATH (or last with
    "append"), every other entry staying as it is, and the proxy's filter takes it off
    again: a forwarded command gets the PATH the user had. *)
Theorem stub_path_roundtrip env dir position :
  dir ≠ "" → contains_byte ":"%char dir = false → stub_free dir env →
  Exists (λ e, is_Some (path_value e)) env →
  StripPathSegment (injectPath env dir position) dir = env ∧
  ∃ pre v v' post, env = pre ++ ("PATH=" +:+ v) :: post ∧
    injectPath env dir position = pre ++ ("PATH=" +:+ v') :: post ∧
    Split ":"%char v' = if String.eqb position "append" then Split ":"%char v ++ [dir] else dir :: Split ":"%char v.
Proof.
  intros Hn Hd Hf Hx. rewrite StripPathSegment_bind by done. unfold injectPath.
  destruct (inject_from_strip (negb (String.eqb position "append")) dir env Hd Hf Hx)
    as (pre & v & post & He & Hv & _ & -> & Hs).
  split; [exact Hs|]. exists pre, v, (spliced (negb (String.eqb position "append")) dir v), post.
  split_and!; [done..|]. rewrite spliced_segments by done. by destruct (String.eqb position "append").
Qed.

(** ** What bubblewrap reads *)

(** The options of bwrap(1) the launcher uses: operations in order, then the command at
    the first argument that is not an option. *)
Fixpoint bwrap_read (args : list string) : option (list (string * string) * option string * list string) :=
  match args with
  | "--dev-bind" :: s :: d :: rest | "--bind" :: s :: d :: rest =>
      match bwrap_read rest with Some (bs, w, c) => Some ((s, d) :: bs, w, c) | None => None end
  | "--chdir" :: w :: rest =>
      match bwrap_read rest with Some (bs, None, c) => Some (bs, Some w, c) | o => o end
  | "--die-with-parent" :: rest => bwrap_read rest
  | c :: rest => if HasPrefix c "-" then None else Some ([], None, c :: rest)
  | [] => None
  end.

(** The sandbox binds the host root and then every mount, in the order of the mounts, so
    a later one is laid over an earlier one; it starts the command in the directory. *)
Lemma bwrap_read_args workingDir c cmdline binds :
  IsAbs c = true →
  bwrap_read (buildBwrapArgs workingDir (c :: cmdline) binds) =
  Some (("/", "/") :: ((λ b, (b_Src b, b_Dst b)) <$> binds), Some workingDir, c :: cmdline).
Proof.
  intros Hc. unfold buildBwrapArgs. cbn [app].
  assert (bwrap_read (c :: cmdline) = Some ([], None, c :: cmdline)) as Hcmd.
  { apply HasPrefix_spec in Hc as [t ->]. done. }
  assert (bwrap_read ((binds ≫= λ b, ["--bind"; b_Src b; b_Dst b]) ++
            "--chdir" :: workingDir :: "--die-with-parent" :: c :: cmdline) =
          Some ((λ b, (b_Src b, b_Dst b)) <$> binds, Some workingDir, c :: cmdline)) as Hb.
  { induction binds as [|b binds IH].
    - cbn -[bwrap_read]. change (bwrap_read ("--chdir" :: workingDir :: "--die-with-parent" :: c :: cmdline)) with
        (match bwrap_read (c :: cmdline) with Some (bs, None, c) => Some (bs, Some workingDir, c) | o => o end).
      by rewrite Hcmd.
    - cbn [mbind list_bind app]. cbn [bwrap_read]. rewrite IH. done. }
  cbn [bwrap_read]. by rewrite Hb.
Qed.

(** ** Witnesses *)

Module Demo.
#[local] Existing Instance literal_engine.

Definition v0 (local : list string) : invocation :=
  mkInv "/opt/tracer" "/opt/shim" "/tmp/s" "debug" local "/w" "/remote".

Example tracer_args_example :
  parseArgs (drop 1 (buildChildInvocation (v0 ["make"; "/bin/sh"]) ["--"; "-x"])) =
  Some (mkTArgs (mkConfig "/opt/shim" ["make"; "/bin/sh"] "/w" "/remote") "/tmp/s" "debug", ["--"; "-x"]).
Proof. vm_compute. reflexivity. Qed.

(** A rule that matches a program, and the whitelist the tracer ends up with. *)
Example colon_rule_lost :
  MatchLocalCommand "/g:cc/" "/usr/bin/g:cc" = true ∧
  match parseArgs (drop 1 (buildChildInvocation (v0 ["/g:cc/"]) ["x"])) with
  | Some (a, _) => CfgWhitelist (ta_cfg a) = ["/g"; "cc/"] ∧ shouldAllow (ta_cfg a) "/usr/bin/g:cc" = false
  | None => False
  end.
Proof. split; [|split]; vm_compute; reflexivity. Qed.

Lemma stub_path_roundtrip_witness :
  StripPathSegment (injectPath ["A=1"; "PATH=/bin:/usr/bin"] "/stub" "prepend") "/stub" =
  ["A=1"; "PATH=/bin:/usr/bin"].
Proof.
  apply (stub_path_roundtrip ["A=1"; "PATH=/bin:/usr/bin"] "/stub" "prepend").
  - done.
  - reflexivity.
  - unfold stub_free. rewrite !Forall_cons. split_and!; [intros v Hv..|done]; vm_compute in Hv; simplify_eq.
    split; [done|]. apply (bool_decide_unpack _). vm_compute. exact I.
  - apply Exists_cons_tl, Exists_cons_hd. by eexists.
Defined.
End Demo.
