(* ===== verification/Cli.v ===== *)
(** * Cli: the command line of machineproxy

    Models [cmd/machineproxy/main.go]: [parseCLIArgs] on Go's [flag] package (flag
    syntax, [ParseInt] with base 0, [ParseBool]) and the part of [run] that applies the
    command line to the configuration. *)

From S2P Require Import Prelude GoStrings GoPaths PathRules PathMapper Config Destination.
Local Open Scope go_scope.
Local Open Scope Z_scope.

(** ** Package strconv *)

(** The value of a digit in bases up to 16. *)
Definition hex_val (c : ascii) : option Z :=
  let n := Z.of_N (N_of_ascii c) in
  if (48 <=? n) && (n <=? 57) then Some (n - 48)
  else if (97 <=? n) && (n <=? 102) then Some (n - 87)
  else if (65 <=? n) && (n <=? 70) then Some (n - 55)
  else None.

Fixpoint parse_base (base acc : Z) (s : string) : option Z :=
  match s with
  | EmptyString => Some acc
  | String "_" s => parse_base base acc s
  | String c s =>
      match hex_val c with
      | Some d => if d <? base then parse_base base (acc * base + d) s else None
      | None => None
      end
  end.

(** [underscoreOK] after the sign and the base prefix: [last] is whether the previous
    byte was a digit (or the prefix), an underscore, or neither. *)
Inductive last_byte : Type := LDigit | LUnderscore | LOther.
Fixpoint underscores_ok (hex : bool) (last : last_byte) (s : string) : bool :=
  match s with
  | EmptyString => match last with LUnderscore => false | _ => true end
  | String "_" s => match last with LDigit => underscores_ok hex LUnderscore s | _ => false end
  | String c s =>
      match hex_val c with
      | Some d => if hex || (d <? 10) then underscores_ok hex LDigit s
                  else match last with LUnderscore => false | _ => underscores_ok hex LOther s end
      | None => match last with LUnderscore => false | _ => underscores_ok hex LOther s end
      end
  end.

(** The base, the digits and whether there was a prefix. *)
Definition split_base (s : string) : Z * string * bool :=
  match s with
  | String "0" (String c (String d t)) =>
      if Ascii.eqb c "b" || Ascii.eqb c "B" then (2, String d t, true)
      else if Ascii.eqb c "o" || Ascii.eqb c "O" then (8, String d t, true)
      else if Ascii.eqb c "x" || Ascii.eqb c "X" then (16, String d t, true)
      else (8, String c (String d t), false)
  | String "0" t => (8, t, false)
  | _ => (10, s, false)
  end.

(** [strconv.ParseInt(s, 0, 64)]. *)
Definition ParseInt0 (s : string) : option Z :=
  let '(neg, body) :=
    match s with
    | String "-" r => (true, r)
    | String "+" r => (false, r)
    | _ => (false, s)
    end in
  match body with
  | EmptyString => None
  | _ =>
      let '(base, digits, prefixed) := split_base body in
      if negb (underscores_ok (base =? 16) (if prefixed then LDigit else LOther)
                 (if prefixed then digits else body)) then None
      else match parse_base base 0 digits with
           | Some n =>
               if neg then if n <=? 2 ^ 63 then Some (- n) else None
               else if n <? 2 ^ 63 then Some n else None
           | None => None
           end
  end.

Definition ParseBool (s : string) : option bool :=
  if one_of s ["1"; "t"; "T"; "TRUE"; "true"; "True"] then Some true
  else if one_of s ["0"; "f"; "F"; "FALSE"; "false"; "False"] then Some false
  else None.

(** ** cliArgs and the flag set *)

Record cliArgs := mkCli {
  cfgPath : string; showVersion : bool; backend : string; destination : string; port : Z;
  user : string; cli_os : string; cli_arch : string; cli_mounts : list string; workdir : string;
  cmd : list string;
}.

Definition cli0 : cliArgs := mkCli "/etc/machineproxy/machineproxy.toml" false "" "" 0 "" "" "" [] "" [].

Inductive cli_err : Type :=
  | ErrBadSyntax (s : string) | ErrHelp | ErrUndefined (name : string) | ErrNeedsArg (name : string)
  | ErrFlagValue (name value : string) | ErrBeforeSep (extra : list string).

(** The flags with a value; [None] is an unknown name, [Some None] a bad value. *)
Definition set_cli (name v : string) (a : cliArgs) : option (option cliArgs) :=
  let '(mkCli c sv b d p u o r ms w k) := a in
  if String.eqb name "config" then Some (Some (mkCli v sv b d p u o r ms w k))
  else if String.eqb name "backend" then Some (Some (mkCli c sv v d p u o r ms w k))
  else if one_of name ["p"; "port"] then
    Some (match ParseInt0 v with Some n => Some (mkCli c sv b d n u o r ms w k) | None => None end)
  else if one_of name ["l"; "login"] then Some (Some (mkCli c sv b d p v o r ms w k))
  else if String.eqb name "os" then Some (Some (mkCli c sv b d p u v r ms w k))
  else if String.eqb name "arch" then Some (Some (mkCli c sv b d p u o v ms w k))
  else if one_of name ["v"; "mount"] then Some (Some (mkCli c sv b d p u o r (ms ++ [v]) w k))
  else if one_of name ["w"; "workdir"] then Some (Some (mkCli c sv b d p u o r ms v k))
  else None.

Definition set_version (v : bool) (a : cliArgs) : cliArgs :=
  mkCli (cfgPath a) v (backend a) (destination a) (port a) (user a) (cli_os a) (cli_arch a) (cli_mounts a)
    (workdir a) (cmd a).

(** One argument of the flag part: an operand (or "-"), the terminator, a flag with or
    without "=value", or a syntax error. *)
Inductive flag_arg : Type := Operand | Terminator | Flag (name : string) (value : option string) | BadFlag.

(** The value after "=", which is not looked for in the first byte. *)
Definition cut_value (name : string) : string * option string :=
  match name with
  | EmptyString => ("", None)
  | String c t => match CutByte "="%char t with Some (n, v) => (String c n, Some v) | None => (name, None) end
  end.

Definition flag_name (s : string) : flag_arg :=
  match s with
  | EmptyString | String "-" _ | String "=" _ => BadFlag
  | _ => let '(name, value) := cut_value s in Flag name value
  end.

Definition classify (s : string) : flag_arg :=
  match s with
  | String "-" (String "-" EmptyString) => Terminator
  | String "-" (String "-" t) => flag_name t
  | String "-" (String c t) => flag_name (String c t)
  | _ => Operand
  end.

(** [FlagSet.Parse]: the flags, then the remaining arguments. *)
Fixpoint fs_Parse (a : cliArgs) (args : list string) : result cli_err (cliArgs * list string) :=
  match args with
  | [] => Ok (a, [])
  | s :: rest =>
      match classify s with
      | Operand => Ok (a, s :: rest)
      | Terminator => Ok (a, rest)
      | BadFlag => Err (ErrBadSyntax s)
      | Flag name value =>
          if String.eqb name "version" then
            match value with
            | None => fs_Parse (set_version true a) rest
            | Some v => match ParseBool v with
                        | Some b => fs_Parse (set_version b a) rest
                        | None => Err (ErrFlagValue name v)
                        end
            end
          else match set_cli name "" a with
               | None => if one_of name ["help"; "h"] then Err ErrHelp else Err (ErrUndefined name)
               | Some _ =>
                   match value, rest with
                   | Some v, _ =>
                       match set_cli name v a with
                       | Some (Some a) => fs_Parse a rest
                       | _ => Err (ErrFlagValue name v)
                       end
                   | None, v :: rest' =>
                       match set_cli name v a with
                       | Some (Some a) => fs_Parse a rest'
                       | _ => Err (ErrFlagValue name v)
                       end
                   | None, [] => Err (ErrNeedsArg name)
                   end
               end
      end
  end.

(** The arguments before the first "--" and those after it. *)
Fixpoint split_sep (args : list string) : list string * option (list string) :=
  match args with
  | [] => ([], None)
  | a :: args =>
      if String.eqb a "--" then ([], Some args)
      else let '(pre, post) := split_sep args in (a :: pre, post)
  end.

Definition with_target (a : cliArgs) (dest : string) (c : list string) : cliArgs :=
  mkCli (cfgPath a) (showVersion a) (backend a) dest (port a) (user a) (cli_os a) (cli_arch a) (cli_mounts a)
    (workdir a) c.

Definition parseCLIArgs (args : list string) : result cli_err cliArgs :=
  let '(flagPart, afterSep) := split_sep args in
  match fs_Parse cli0 flagPart with
  | Err e => Err e
  | Ok (a, positional) =>
      match afterSep with
      | Some after =>
          match positional with
          | [] => Ok (with_target a "" after)
          | [d] => Ok (with_target a d after)
          | _ :: extra => Err (ErrBeforeSep extra)
          end
      | None => Ok (with_target a (default "" (head positional)) (drop 1 positional))
      end
  end.

(** ** Applying the command line *)

Inductive run_error : Type :=
  | RErrCLI (e : cli_err) | RErrDestination (e : dest_error) | RErrConflict (backend dst : string)
  | RErrPortSSH (t : string) | RErrLoginSSH (t : string) | RErrGetwd | RErrFinalize (e : cfg_error)
  | RErrNoCommand | RErrLoad.

Definition set_ssh (f : SSHConfig → SSHConfig) (r : RemoteConfig) : RemoteConfig :=
  mkRemote (Remote_Type r) (f (SSH r)) (Docker r) (Compose r) (OS r) (Arch r) (Bind r) (BindInterface r).

(** The resolved destination, stored in the block of its backend. *)
Definition apply_destination (dst : Destination) (r : RemoteConfig) : RemoteConfig :=
  let r := set_RemoteType (dst_Type dst) r in
  if String.eqb (dst_Type dst) TypeSSH then
    set_ssh (λ s, mkSSH (dst_Host dst) (or_default (dst_User dst) (SSH_User s))
                    (if dst_Port dst =? 0 then SSH_Port s else dst_Port dst)) r
  else if String.eqb (dst_Type dst) TypeDocker then
    mkRemote (Remote_Type r) (SSH r) (mkDocker (dst_Host dst) (Docker_Host (Docker r))) (Compose r)
      (OS r) (Arch r) (Bind r) (BindInterface r)
  else if String.eqb (dst_Type dst) TypeCompose then
    mkRemote (Remote_Type r) (SSH r) (Docker r)
      (mkCompose (dst_Host dst) (dst_Service dst) (dst_Sequence dst) (Compose_Host (Compose r)))
      (OS r) (Arch r) (Bind r) (BindInterface r)
  else r.

Definition destination_step (a : cliArgs) (r : RemoteConfig) : result run_error RemoteConfig :=
  if String.eqb (destination a) "" then Ok r
  else
    match ParseDestination (destination a) (or_default (Remote_Type r) TypeSSH) with
    | Err e => Err (RErrDestination e)
    | Ok dst =>
        if negb (String.eqb (backend a) "") && negb (String.eqb (backend a) (dst_Type dst))
        then Err (RErrConflict (backend a) (dst_Type dst))
        else Ok (apply_destination dst r)
    end.

Definition remote_overrides (a : cliArgs) (r : RemoteConfig) : result run_error RemoteConfig :=
  let r := if String.eqb (backend a) "" then r else set_RemoteType (backend a) r in
  r ←? destination_step a r;
  r ←? (if port a =? 0 then Ok r
        else if negb (String.eqb (Remote_Type r) TypeSSH) then Err (RErrPortSSH (Remote_Type r))
        else Ok (set_ssh (λ s, mkSSH (SSH_Host s) (SSH_User s) (port a)) r));
  r ←? (if String.eqb (user a) "" then Ok r
        else if negb (String.eqb (Remote_Type r) TypeSSH) then Err (RErrLoginSSH (Remote_Type r))
        else Ok (set_ssh (λ s, mkSSH (SSH_Host s) (user a) (SSH_Port s)) r));
  Ok (mkRemote (Remote_Type r) (SSH r) (Docker r) (Compose r)
        (or_default (cli_os a) (OS r)) (or_default (cli_arch a) (Arch r)) (Bind r) (BindInterface r)).

Definition set_mounts (k : ContainerConfig) (ms : list string) (wd : string) : ContainerConfig :=
  mkContainer (LocalCommands k) ms (AutoIdentityMounts k) wd (CwdMode k) (CwdRemap k) (EnvRemove k)
    (PathProxy k) (PathStubDir k) (ForceResolveInitialCommandLocally k)
    (Container_UIDMode k) (Container_GIDMode k) (Container_UIDMap k) (Container_GIDMap k).

Definition container_overrides (h : Host) (a : cliArgs) (k : ContainerConfig) : result run_error ContainerConfig :=
  let ms := match cli_mounts a with [] => Mounts k | l => l ++ Mounts k end in
  let k := set_mounts k ms (or_default (workdir a) (WorkingDir k)) in
  match Mounts k with
  | [] => match Getwd h with Some cwd => Ok (set_mounts k [cwd] (WorkingDir k)) | None => Err RErrGetwd end
  | _ => Ok k
  end.

Definition apply_cli (h : Host) (a : cliArgs) (c : Config) : result run_error Config :=
  r ←? remote_overrides a (Remote c);
  k ←? container_overrides h a (Container c);
  Ok (mkConfig (Logging c) r k (Agent c) (Components c)).

(** [run] up to the finalized configuration; [None] is the version flag. *)
Definition run_config `{Regexp} (load : string → option Config) (h : Host) (args : list string)
    : result run_error (option (cliArgs * Config)) :=
  match parseCLIArgs args with
  | Err e => Err (RErrCLI e)
  | Ok a =>
      if showVersion a then Ok None
      else match load (cfgPath a) with
           | None => Err RErrLoad
           | Some c =>
               c ←? apply_cli h a c;
               match Finalize h c with
               | Err e => Err (RErrFinalize e)
               | Ok (c, _) => match cmd a with [] => Err RErrNoCommand | _ => Ok (Some (a, c)) end
               end
           end
  end.

(** ** Numbers *)

Lemma itoa_lead fuel n acc :
  0 < n < 10 ^ Z.of_nat fuel → ∃ c t, itoa_digits fuel n acc = String c t ∧ c ≠ "0"%char.
Proof.
  revert n acc. induction fuel as [|fuel IH]; intros n acc Hn; [simpl in Hn; lia|].
  cbn [itoa_digits]. destruct (Z.ltb_spec n 10) as [Hl|Hl].
  - eexists _, acc. split; [done|]. rewrite (Z.mod_small n 10) by lia. intros Hc.
    assert (digit_val (digit_char n) = Some n) as Hd by (apply digit_val_char; lia). rewrite Hc in Hd.
    assert (Some 0 = Some n) as [= <-] by exact Hd. lia.
  - apply IH. rewrite Nat2Z.inj_succ, Z.pow_succ_r in Hn by lia. split; [apply Z.div_str_pos; lia|].
    apply Z.div_lt_upper_bound; lia.
Qed.

Lemma digit_hex c d : digit_val c = Some d → hex_val c = Some d ∧ 0 <= d < 10 ∧ c ≠ "_"%char.
Proof.
  unfold digit_val, hex_val. destruct ((48 <=? Z.of_N (N_of_ascii c)) && (Z.of_N (N_of_ascii c) <=? 57)) eqn:E; [|done].
  intros [= <-]. apply andb_true_iff in E as [E1 E2]. apply Z.leb_le in E1, E2. split_and!; [done|lia|lia|].
  intros ->. vm_compute in E2. by apply E2.
Qed.

(** Matching on the underscore is matching on a byte. *)
Lemma parse_base_cons base acc c s :
  c ≠ "_"%char →
  parse_base base acc (String c s) =
  match hex_val c with
  | Some d => if d <? base then parse_base base (acc * base + d) s else None
  | None => None
  end.
Proof. intros Hc. cbn [parse_base]. by destruct c as [[] [] [] [] [] [] [] []]. Qed.

Lemma underscores_ok_cons hex last c s :
  c ≠ "_"%char →
  underscores_ok hex last (String c s) =
  match hex_val c with
  | Some d => if hex || (d <? 10) then underscores_ok hex LDigit s
              else match last with LUnderscore => false | _ => underscores_ok hex LOther s end
  | None => match last with LUnderscore => false | _ => underscores_ok hex LOther s end
  end.
Proof. intros Hc. cbn [underscores_ok]. by destruct c as [[] [] [] [] [] [] [] []]. Qed.

Lemma parse_base_digits acc s : all_digits s → parse_base 10 acc s = parse_digits acc s.
Proof.
  revert acc. induction s as [|c s IH]; intros acc Hs; [done|]. destruct Hs as [[d Hd] Hs].
  destruct (digit_hex c d Hd) as (Hh & Hr & Hu). rewrite parse_base_cons by done. cbn [parse_digits].
  rewrite Hh, Hd. destruct (Z.ltb_spec d 10); [by apply IH|lia].
Qed.

Lemma underscores_digits last s : all_digits s → s ≠ "" → underscores_ok false last s = true.
Proof.
  revert last. induction s as [|c s IH]; intros last Hs Hn; [done|]. destruct Hs as [[d Hd] Hs].
  destruct (digit_hex c d Hd) as (Hh & Hr & Hu). rewrite underscores_ok_cons by done. rewrite Hh.
  destruct (Z.ltb_spec d 10); [|lia]. cbn [orb]. destruct s as [|c' s]; [done|]. by apply IH.
Qed.

Lemma ParseInt0_Itoa n : 0 <= n < 2 ^ 63 → ParseInt0 (Itoa n) = Some n.
Proof.
  intros Hn. destruct (decide (n = 0)) as [->|Hz]; [done|].
  assert (∃ c t, Itoa n = String c t ∧ c ≠ "0"%char) as (c & t & He & Hc).
  { apply itoa_lead. simpl. lia. }
  pose proof (Itoa_all_digits n ltac:(lia)) as Hd. rewrite He in Hd.
  assert (parse_digits 0 (String c t) = Some n) as Hp.
  { rewrite <- He. unfold Itoa. rewrite parse_itoa_digits; [done|]. simpl. lia. }
  assert (c ≠ "-"%char ∧ c ≠ "+"%char) as [Hm Hpl].
  { destruct Hd as [[d Hdv] _]. split; intros ->; vm_compute in Hdv; done. }
  assert (split_base (String c t) = (10, String c t, false)) as Hs.
  { unfold split_base. by destruct c as [[] [] [] [] [] [] [] []]. }
  unfold ParseInt0. rewrite He.
  assert ((match String c t with String "-" r => (true, r) | String "+" r => (false, r) | _ => (false, String c t) end)
          = (false, String c t)) as -> by (by destruct c as [[] [] [] [] [] [] [] []]).
  rewrite Hs. change (10 =? 16) with false. rewrite underscores_digits by done. cbn [negb].
  rewrite parse_base_digits, Hp by done. destruct (Z.ltb_spec n (2 ^ 63)); [done|lia].
Qed.

(** ** The command line is read back *)

(** A command line for [a]. *)
Definition render (a : cliArgs) : list string :=
  (["-config"; cfgPath a; "-backend"; backend a; "-p"; Itoa (port a); "-l"; user a; "-os"; cli_os a;
    "-arch"; cli_arch a] ++ (cli_mounts a ≫= λ m, ["-v"; m]) ++ ["-w"; workdir a]
   ++ (if showVersion a then ["-version"] else [])
   ++ (if String.eqb (destination a) "" then [] else [destination a])) ++ "--" :: cmd a.

Record cli_ok (a : cliArgs) : Prop := {
  ok_values : "--" ∉ [cfgPath a; backend a; user a; cli_os a; cli_arch a; workdir a] ++ cli_mounts a;
  ok_dest : HasPrefix (destination a) "-" = false;
  ok_port : 0 <= port a < 2 ^ 63;
}.

Lemma split_sep_app l k : "--" ∉ l → split_sep (l ++ "--" :: k) = (l, Some k).
Proof.
  induction l as [|x l IH]; intros Hn; [done|]. cbn [app split_sep].
  assert (String.eqb x "--" = false) as -> by (apply seqb_false; set_solver).
  rewrite IH by set_solver. done.
Qed.

Lemma fs_Parse_flag a s name v rest a' :
  classify s = Flag name None → String.eqb name "version" = false →
  is_Some (set_cli name "" a) → set_cli name v a = Some (Some a') →
  fs_Parse a (s :: v :: rest) = fs_Parse a' rest.
Proof. intros Hc Hv [x Hk] Hs. cbn [fs_Parse]. by rewrite Hc, Hv, Hk, Hs. Qed.

Lemma fs_Parse_mounts ms c sv b d p u o r w k ms0 rest :
  fs_Parse (mkCli c sv b d p u o r ms0 w k) ((ms ≫= λ m, ["-v"; m]) ++ rest) =
  fs_Parse (mkCli c sv b d p u o r (ms0 ++ ms) w k) rest.
Proof.
  revert ms0. induction ms as [|m ms IH]; intros ms0; [by rewrite app_nil_r|]. cbn [mbind list_bind app].
  erewrite fs_Parse_flag by (try reflexivity; by eexists). by rewrite IH, <- app_assoc.
Qed.

Lemma classify_operand d : d ≠ "" → HasPrefix d "-" = false → classify d = Operand.
Proof.
  intros Hn Hp. destruct d as [|c d]; [done|].
  assert (c ≠ "-"%char) by (intros ->; by cbn in Hp; destruct d).
  unfold classify. by destruct c as [[] [] [] [] [] [] [] []].
Qed.

(** A command line is read back exactly: for every choice of configuration file, backend,
    port, login, platform, mounts, working directory, destination and command (with any
    strings as values, flags among the command's arguments included), parsing the
    command line that spells it out gives that choice; only a flag value that is "--"
    itself cannot be spelled. *)
Theorem cli_roundtrip a : cli_ok a → parseCLIArgs (render a) = Ok a.
Proof.
  destruct a as [c sv b d p u o r ms w k]. intros [Hv Hd Hp]. cbn [cfgPath backend user cli_os cli_arch workdir
    cli_mounts destination port] in *. unfold parseCLIArgs, render.
  cbn [cfgPath showVersion backend user cli_os cli_arch workdir cli_mounts destination port cmd].
  rewrite split_sep_app.
  2: { assert ("--" ≠ Itoa p) as Hi by (intros He; pose proof (Itoa_no p "-"%char ltac:(lia) eq_refl) as Hno; by rewrite <- He in Hno).
       assert ("--" ∉ ms ≫= λ m, ["-v"; m]) as Hms by (rewrite list_elem_of_bind; set_solver).
       assert ("--" ≠ d) as Hdd by (intros <-; done).
       rewrite !elem_of_app. destruct sv, (String.eqb d ""); set_solver. }
  cbn [app].
  rewrite (fs_Parse_flag cli0 "-config" "config" c _ (mkCli c false "" "" 0 "" "" "" [] "" []));
    [|reflexivity|reflexivity|by eexists|reflexivity].
  rewrite (fs_Parse_flag _ "-backend" "backend" b _ (mkCli c false b "" 0 "" "" "" [] "" []));
    [|reflexivity|reflexivity|by eexists|reflexivity].
  rewrite (fs_Parse_flag _ "-p" "p" (Itoa p) _ (mkCli c false b "" p "" "" "" [] "" []));
    [|reflexivity|reflexivity|by eexists|].
  2: { unfold set_cli. rewrite ParseInt0_Itoa by done. reflexivity. }
  rewrite (fs_Parse_flag _ "-l" "l" u _ (mkCli c false b "" p u "" "" [] "" []));
    [|reflexivity|reflexivity|by eexists|reflexivity].
  rewrite (fs_Parse_flag _ "-os" "os" o _ (mkCli c false b "" p u o "" [] "" []));
    [|reflexivity|reflexivity|by eexists|reflexivity].
  rewrite (fs_Parse_flag _ "-arch" "arch" r _ (mkCli c false b "" p u o r [] "" []));
    [|reflexivity|reflexivity|by eexists|reflexivity].
  rewrite fs_Parse_mounts. cbn [app].
  rewrite (fs_Parse_flag _ "-w" "w" w _ (mkCli c false b "" p u o r ms w []));
    [|reflexivity|reflexivity|by eexists|reflexivity].
  assert (∀ sv', fs_Parse (mkCli c sv' b "" p u o r ms w []) (if String.eqb d "" then [] else [d])
    = Ok (mkCli c sv' b "" p u o r ms w [], if String.eqb d "" then [] else [d])) as Hend.
  { intros sv'. destruct (String.eqb d "") eqn:E; [done|]. apply seqb_false in E. cbn [fs_Parse].
    by rewrite classify_operand. }
  assert (fs_Parse (mkCli c false b "" p u o r ms w [])
    ((if sv then ["-version"] else []) ++ (if String.eqb d "" then [] else [d]))
    = Ok (mkCli c sv b "" p u o r ms w [], if String.eqb d "" then [] else [d])) as Hsv.
  { destruct sv; [|apply Hend]. cbn [app fs_Parse]. exact (Hend true). }
  cbn [app] in Hsv. rewrite Hsv. destruct (String.eqb d "") eqn:E; [apply seqb_true in E; by subst|done].
Qed.

(** ** Precedence *)

Definition first_port (ps : list Z) : Z := default 0 (head (base.filter (λ p, p ≠ 0) ps)).

Definition dst_default (dst : option Destination) {A} (f : Destination → A) (x : A) : A :=
  match dst with Some d => f d | None => x end.

Lemma or_default_l x y : x ≠ "" → or_default x y = x.
Proof. intros Hx. unfold or_default. apply seqb_false in Hx. by rewrite Hx. Qed.
Lemma or_default_nil y : or_default "" y = y.
Proof. done. Qed.

Lemma destination_step_spec a r r' :
  destination_step a r = Ok r' →
  (destination a = "" ∧ r' = r) ∨
  ∃ d, ParseDestination (destination a) (or_default (Remote_Type r) TypeSSH) = Ok d ∧
    (backend a ≠ "" → backend a = dst_Type d) ∧ r' = apply_destination d r.
Proof.
  unfold destination_step. destruct (String.eqb (destination a) "") eqn:E.
  { intros [= <-]. left. by apply seqb_true in E. }
  destruct (ParseDestination _ _) as [d|]; [|done].
  destruct (String.eqb (backend a) "") eqn:Eb; cbn [negb andb].
  { intros [= <-]. right. exists d. split_and!; [done| |done]. apply seqb_true in Eb. congruence. }
  destruct (String.eqb (backend a) (dst_Type d)) eqn:Ed; cbn [negb]; [|done].
  intros [= <-]. right. exists d. split_and!; [done| |done]. intros _. by apply seqb_true in Ed.
Qed.

Lemma apply_destination_type d r : Remote_Type (apply_destination d r) = dst_Type d.
Proof. unfold apply_destination. by repeat case_match. Qed.

(** The command line wins over the configuration file: the backend is the one of the
    destination, of [--backend], or of the file, in that order, and a destination of
    another backend than [--backend] is refused; for ssh the user and the port are those
    of their flags, of the destination, or of the file, in that order; a port or login
    flag is refused for any other backend. *)
Theorem cli_overrides a r r' :
  remote_overrides a r = Ok r' →
  ∃ dst,
    (match dst with
     | None => destination a = ""
     | Some d => ParseDestination (destination a) (or_default (or_default (backend a) (Remote_Type r)) TypeSSH) = Ok d
     end) ∧
    Remote_Type r' = dst_default dst dst_Type (or_default (backend a) (Remote_Type r)) ∧
    (backend a ≠ "" → Remote_Type r' = backend a) ∧
    (Remote_Type r' = TypeSSH →
       SSH r' = mkSSH (dst_default dst dst_Host (SSH_Host (SSH r)))
                  (or_default (user a) (or_default (dst_default dst dst_User "") (SSH_User (SSH r))))
                  (first_port [port a; dst_default dst dst_Port 0; SSH_Port (SSH r)])) ∧
    (Remote_Type r' ≠ TypeSSH → port a = 0 ∧ user a = "") ∧
    OS r' = or_default (cli_os a) (OS r) ∧ Arch r' = or_default (cli_arch a) (Arch r).
Proof.
  unfold remote_overrides. set (r1 := if String.eqb (backend a) "" then r else _).
  assert (Remote_Type r1 = or_default (backend a) (Remote_Type r)) as Ht.
  { unfold r1, or_default. by destruct (String.eqb (backend a) ""). }
  assert (SSH r1 = SSH r ∧ OS r1 = OS r ∧ Arch r1 = Arch r) as (Hssh & Hos & Har)
    by (unfold r1; by destruct (String.eqb (backend a) "")).
  destruct (destination_step a r1) as [r2|] eqn:Hd; [|done]. cbn [result_bind].
  apply destination_step_spec in Hd. rewrite Ht in Hd.
  assert (∃ dst, (match dst with None => destination a = ""
      | Some d => ParseDestination (destination a) (or_default (or_default (backend a) (Remote_Type r)) TypeSSH) = Ok d
      end) ∧ Remote_Type r2 = dst_default dst dst_Type (or_default (backend a) (Remote_Type r)) ∧
      (backend a ≠ "" → Remote_Type r2 = backend a) ∧
      (Remote_Type r2 = TypeSSH → SSH r2 = mkSSH (dst_default dst dst_Host (SSH_Host (SSH r)))
        (or_default (dst_default dst dst_User "") (SSH_User (SSH r)))
        (first_port [dst_default dst dst_Port 0; SSH_Port (SSH r)])) ∧ OS r2 = OS r ∧ Arch r2 = Arch r)
    as (dst & H1 & H2 & H3 & H4 & H5 & H6).
  { destruct Hd as [[Hd ->]|(d & Hp & Hb & ->)].
    - exists None. split_and!; [done|done| | |done|done].
      + intros Hb. rewrite Ht. by apply or_default_l.
      + intros _. rewrite Hssh. destruct (SSH r) as [h u p]. cbn. unfold first_port. f_equal.
        destruct (decide (p = 0)) as [->|]; [done|]. by rewrite filter_cons_False, filter_cons_True by auto.
    - exists (Some d). rewrite apply_destination_type. split_and!; [done|done| | | |].
      + intros Hn. by rewrite <- (Hb Hn).
      + intros Hs. unfold apply_destination. rewrite Hs. cbn. rewrite Hssh. f_equal. unfold first_port.
        destruct (Z.eqb_spec (dst_Port d) 0) as [->|].
        * rewrite filter_cons_False by auto. destruct (decide (SSH_Port (SSH r) = 0)) as [->|]; [done|].
          by rewrite filter_cons_True.
        * by rewrite filter_cons_True.
      + unfold apply_destination. by repeat case_match.
      + unfold apply_destination. by repeat case_match. }
  clear Hd. intros Hr. exists dst.
  destruct (Z.eqb_spec (port a) 0) as [Hp0|Hp0]; cbn [result_bind] in Hr.
  - destruct (String.eqb (user a) "") eqn:Eu; cbn [result_bind] in Hr.
    + apply seqb_true in Eu. injection Hr as <-. cbn. rewrite Eu, Hp0, H5, H6. split_and!; try done.
    + destruct (String.eqb (Remote_Type r2) TypeSSH) eqn:Es; cbn [negb result_bind] in Hr; [|done].
      apply seqb_true in Es. injection Hr as <-. cbn. rewrite (H4 Es), H5, H6, Hp0. cbn.
      apply seqb_false in Eu. rewrite (or_default_l (user a)) by done. split_and!; try done.
  - destruct (String.eqb (Remote_Type r2) TypeSSH) eqn:Es; cbn [negb result_bind] in Hr; [|done].
    apply seqb_true in Es.
    destruct (String.eqb (user a) "") eqn:Eu; cbn [result_bind] in Hr.
    + apply seqb_true in Eu. injection Hr as <-. cbn. rewrite Eu, (H4 Es), H5, H6. cbn. unfold first_port.
      rewrite filter_cons_True by done. split_and!; try done.
    + cbn in Hr. rewrite Es in Hr. cbn in Hr. injection Hr as <-. cbn. rewrite (H4 Es), H5, H6. cbn. unfold first_port.
      apply seqb_false in Eu. rewrite (or_default_l (user a)), filter_cons_True by done. split_and!; try done.
Qed.

(** Although an unset backend means ssh once the configuration is finalized, a port or
    login flag is refused for it when no destination is given: the flags are checked
    before the default is applied. *)
Theorem port_flag_refused_for_default a r :
  backend a = "" → destination a = "" → Remote_Type r = "" → port a ≠ 0 →
  remote_overrides a r = Err (RErrPortSSH "") ∧ or_default (Remote_Type r) "ssh" = TypeSSH.
Proof.
  intros Hb Hd Ht Hp. split; [|by rewrite Ht]. unfold remote_overrides, destination_step.
  rewrite Hb, Hd. cbn. destruct (Z.eqb_spec (port a) 0); [done|]. by rewrite Ht.
Qed.

(** ** Witnesses *)

Module Demo.

Definition a0 : cliArgs :=
  mkCli "/c.toml" false "" "ssh://bob@host:2200" 22 "" "linux" "" ["/a:/b"; "-v"] "/w" ["make"; "--"; "-p"].

Lemma cli_roundtrip_witness : parseCLIArgs (render a0) = Ok a0.
Proof.
  apply (cli_roundtrip a0). split; [|done|done]. simpl. rewrite !not_elem_of_cons. split_and!; try done. set_solver.
Defined.

Definition r0 (t : string) : RemoteConfig :=
  mkRemote t (mkSSH "h" "alice" 0) (mkDocker "" "") (mkCompose "" "" 0 "") "" "" "" "".

Lemma cli_overrides_witness :
  ∃ r', remote_overrides a0 (r0 "docker") = Ok r' ∧ Remote_Type r' = "ssh" ∧ SSH r' = mkSSH "host" "bob" 22.
Proof.
  destruct (remote_overrides a0 (r0 "docker")) as [r'|] eqn:E; [|vm_compute in E; discriminate E].
  exists r'. split; [done|].
  destruct (cli_overrides a0 (r0 "docker") r' E) as ([d|] & Hd & Ht & _ & Hs & _); [|done].
  vm_compute in Hd. injection Hd as <-. split; [exact Ht|]. rewrite Hs by exact Ht. reflexivity.
Defined.

Lemma port_flag_refused_for_default_witness :
  remote_overrides (mkCli "" false "" "" 2222 "" "" "" [] "" []) (r0 "") = Err (RErrPortSSH "").
Proof.
  apply (port_flag_refused_for_default (mkCli "" false "" "" 2222 "" "" "" [] "" []) (r0 "")); [reflexivity..|].
  discriminate.
Defined.
End Demo.
