(* ===== verification/Runtime.v ===== *)
(** * Runtime: mounts, stubs, broker and the child of one machineproxy run

    Models [cmd/machineproxy/runtime.go] and [pkg/supervisor]: the container mounts with
    their FUSE servers and temporary directories, the path stubs, platform resolution,
    working directory and id maps, [Close], and the order in which the supervisor runs
    the stages.  FUSE servers and directories are numbers of a ledger, so that what a
    run leaves behind is visible. *)

From S2P Require Import Prelude GoStrings GoPaths PathRules PathStub PathMapper EnvFilter Tracer WorkspaceFS Destination Launch Config InitCmd.
Local Open Scope go_scope.

(** ** The ledger *)

(** Temporary directories that exist and those with a FUSE server mounted on them; the
    next directory [os.MkdirTemp] will create. *)
Record world := mkWorld { w_dirs : gset nat; w_servers : gset nat; w_next : nat }.

Definition mkdir (w : world) : nat * world :=
  (w_next w, mkWorld ({[w_next w]} ∪ w_dirs w) (w_servers w) (S (w_next w))).
Definition serve (d : nat) (w : world) : world := mkWorld (w_dirs w) ({[d]} ∪ w_servers w) (w_next w).
Definition unmount (d : nat) (w : world) : world := mkWorld (w_dirs w) (w_servers w ∖ {[d]}) (w_next w).
Definition remove_dir (d : nat) (w : world) : world := mkWorld (w_dirs w ∖ {[d]}) (w_servers w) (w_next w).

(** ** Mounts *)

Record mountInstance := mkInst { mi_mount : Mount; fuseDir : nat; mi_server : bool }.

(** What the mounts depend on: the local home, the backend's files and their working
    directory, the remote stat ([Some b]: exists, [b]: a directory), whether each
    directory can be created and mounted, the platform and the directory names. *)
Record mount_env := mkMEnv {
  me_home : option string; me_files : bool; me_getwd : option string; me_options : bool;
  me_stat : string → option bool; me_mkdir : nat → bool; me_mount : nat → bool;
  me_darwin : bool; me_name : nat → string;
}.

Inductive mount_fail : Type :=
  | MFiles | MGetwd | MOptions | MParse (raw : string) | MExpand (p : string) | MUnreachable (p : string)
  | MNotDir (p : string) | MTemp | MMount (dir : nat) | MNone.

(** The loop's state: instances so far, directories by remote path, container paths. *)
Record mstate := mkMState {
  ms_world : world; ms_mounts : list mountInstance; ms_byRemote : gmap string nat; ms_seen : gset string;
}.

(** A directory with a server for a remote path that has none yet. *)
Definition fresh_mount (e : mount_env) (remote : string) (w : world) : result (mount_fail * world) (nat * world) :=
  match me_stat e remote with
  | None => Err (MUnreachable remote, w)
  | Some false => Err (MNotDir remote, w)
  | Some true =>
      if negb (me_mkdir e (w_next w)) then Err (MTemp, w)
      else
        let '(d, w) := mkdir w in
        if negb (me_mount e d) then Err (MMount d, w) else Ok (d, serve d w)
  end.

(** One configured mount. *)
Definition mount_step (e : mount_env) (remoteHome raw : string) (s : mstate) : result (mount_fail * mstate) mstate :=
  match ParseMount (me_home e) raw with
  | Err _ => Err (MParse raw, s)
  | Ok m =>
      match ExpandRemoteHome (mnt_RemotePath m) remoteHome with
      | Err _ => Err (MExpand (mnt_RemotePath m), s)
      | Ok remote =>
          let finish (d : nat) (server : bool) (s : mstate) :=
            let target := if me_darwin e then me_name e d else ContainerPath m in
            if bool_decide (target ∈ ms_seen s) then s
            else mkMState (ms_world s) (ms_mounts s ++ [mkInst (mkMount remote target) d server])
                   (ms_byRemote s) ({[target]} ∪ ms_seen s) in
          match ms_byRemote s !! remote with
          | Some d => Ok (finish d false s)
          | None =>
              match fresh_mount e remote (ms_world s) with
              | Err (f, w) => Err (f, mkMState w (ms_mounts s) (ms_byRemote s) (ms_seen s))
              | Ok (d, w) =>
                  Ok (finish d true (mkMState w (ms_mounts s) (<[remote := d]> (ms_byRemote s)) (ms_seen s)))
              end
          end
      end
  end.

Fixpoint mount_all (e : mount_env) (remoteHome : string) (raws : list string) (s : mstate) :
    result (mount_fail * mstate) mstate :=
  match raws with
  | [] => Ok s
  | raw :: raws =>
      match mount_step e remoteHome raw s with
      | Err x => Err x
      | Ok s => mount_all e remoteHome raws s
      end
  end.

(** Unmount the servers of the instances, then remove each of their directories. *)
Definition release (l : list mountInstance) (w : world) : world :=
  let w := foldl (λ w i, if mi_server i then unmount (fuseDir i) w else w) w l in
  foldl (λ w i, remove_dir (fuseDir i) w) w l.

(** [MountWorkspace] with its deferred clean-up: the instances, or the error. *)
Definition MountWorkspace (e : mount_env) (raws : list string) (w : world) :
    result mount_fail (list mountInstance) * world :=
  if negb (me_files e) then (Err MFiles, w)
  else match me_getwd e with
       | None => (Err MGetwd, w)
       | Some remoteHome =>
           if negb (me_options e) then (Err MOptions, w)
           else match mount_all e remoteHome raws (mkMState w [] ∅ ∅) with
                | Err (f, s) => (Err f, release (ms_mounts s) (ms_world s))
                | Ok s => match ms_mounts s with
                          | [] => (Err MNone, ms_world s)
                          | l => (Ok l, ms_world s)
                          end
                end
       end.

(** ** Path stubs *)

(** [BuildPathStubs]: [entries] is what the enumeration gave, or its failure; the mount's
    directory when stubs were mounted. *)
Section stubs.
Context `{Regexp}.
Definition BuildPathStubs (k : ContainerConfig) (agent_binary files mkdir_ok mount_ok : bool)
    (entries : option (list PathInfoEntry)) (w : world) : option (option (nat * PathStub.FileSystem)) * world :=
  if String.eqb (PathProxy k) "disabled" then (Some None, w)
  else if negb agent_binary then (None, w)
  else match entries with
       | None => (None, w)
       | Some entries =>
           match FilterLocalCommands entries (LocalCommands k) (PathStubDir k) with
           | [] => (Some None, w)
           | filtered =>
               if negb mkdir_ok then (None, w)
               else
                 let '(d, w) := mkdir w in
                 if negb files then (None, remove_dir d w)
                 else if negb mount_ok then (None, remove_dir d w)
                 else (Some (Some (d, PathStub.New filtered)), serve d w)
           end
       end.
End stubs.

(** ** Broker *)

(** What can go wrong while the broker starts: its directory, the agent binary, the
    recording file, and the wait for the socket. *)
Record broker_env := mkBrokerEnv { be_mkdir : bool; be_agent : bool; be_recording : bool; be_recorder : bool; be_ready : bool }.

(** [StartBroker]: whether it succeeds, and the directory of the socket, which the runtime
    holds from the moment it exists. *)
Definition StartBroker (b : broker_env) (w : world) : bool * option nat * world :=
  if negb (be_mkdir b) then (false, None, w)
  else
    let '(d, w) := mkdir w in
    if negb (be_agent b) then (false, Some d, w)
    else if be_recording b && negb (be_recorder b) then (false, Some d, w)
    else (be_ready b, Some d, w).

(** ** Close *)

(** What the runtime holds: the mounts, the stub directory and the directory of the
    broker's socket. *)
Record held := mkHeld { hl_mounts : list mountInstance; hl_stub : option nat; hl_broker : option nat }.
Definition held0 : held := mkHeld [] None None.

Definition Close (h : held) (w : world) : world :=
  let w := match hl_broker h with Some d => remove_dir d w | None => w end in
  let w := match hl_stub h with Some d => remove_dir d (unmount d w) | None => w end in
  release (hl_mounts h) w.

(** ** What the mounts leave behind *)

Definition dirs_of (l : list mountInstance) : gset nat := list_to_set (fuseDir <$> l).
Definition served (l : list mountInstance) : list nat := fuseDir <$> base.filter (λ i, mi_server i = true) l.
Definition servers_of (l : list mountInstance) : gset nat := list_to_set (served l).
Definition remote (i : mountInstance) : string := mnt_RemotePath (mi_mount i).

Lemma dirs_of_snoc l i : dirs_of (l ++ [i]) = dirs_of l ∪ {[fuseDir i]}.
Proof. unfold dirs_of. rewrite fmap_app, list_to_set_app_L. simpl. set_solver. Qed.

Lemma served_snoc l i : served (l ++ [i]) = served l ++ (if mi_server i then [fuseDir i] else []).
Proof. unfold served. rewrite filter_app, fmap_app. destruct i as [m d []]; done. Qed.

Lemma servers_of_snoc l i : servers_of (l ++ [i]) = servers_of l ∪ (if mi_server i then {[fuseDir i]} else ∅).
Proof. unfold servers_of. rewrite served_snoc, list_to_set_app_L. destruct (mi_server i); simpl; set_solver. Qed.

Lemma unmount_all l w :
  foldl (λ w i, if mi_server i then unmount (fuseDir i) w else w) w l =
  mkWorld (w_dirs w) (w_servers w ∖ servers_of l) (w_next w).
Proof.
  revert w. induction l as [|i l IH]; intros w; simpl.
  - destruct w as [ds ss n]. simpl. f_equal. unfold servers_of, served. simpl. set_solver.
  - rewrite IH. unfold servers_of, served. destruct i as [m d []]; simpl; f_equal; set_solver.
Qed.

Lemma remove_all l w :
  foldl (λ w i, remove_dir (fuseDir i) w) w l = mkWorld (w_dirs w ∖ dirs_of l) (w_servers w) (w_next w).
Proof.
  revert w. induction l as [|i l IH]; intros w; simpl.
  - destruct w as [ds ss n]. simpl. f_equal. unfold dirs_of. simpl. set_solver.
  - rewrite IH. unfold dirs_of. simpl. f_equal. set_solver.
Qed.

Lemma release_world l w :
  release l w = mkWorld (w_dirs w ∖ dirs_of l) (w_servers w ∖ servers_of l) (w_next w).
Proof. unfold release. by rewrite unmount_all, remove_all. Qed.

(** Directories in use have been created before. *)
Definition world_ok (w : world) : Prop := ∀ d, d ∈ w_dirs w ∪ w_servers w → (d < w_next w)%nat.

(** The loop invariant, from the world [w0] it started in. *)
Record minv (w0 : world) (s : mstate) : Prop := {
  mi_ok : world_ok (ms_world s);
  mi_next : (w_next w0 ≤ w_next (ms_world s))%nat;
  mi_range : Forall (λ i, (w_next w0 ≤ fuseDir i)%nat) (ms_mounts s);
  mi_dirs : w_dirs (ms_world s) = w_dirs w0 ∪ dirs_of (ms_mounts s);
  mi_servers : w_servers (ms_world s) = w_servers w0 ∪ servers_of (ms_mounts s);
  mi_map r d : ms_byRemote s !! r = Some d ↔ ∃ i, i ∈ ms_mounts s ∧ remote i = r ∧ fuseDir i = d;
  mi_inj r1 r2 d : ms_byRemote s !! r1 = Some d → ms_byRemote s !! r2 = Some d → r1 = r2;
  mi_owner i : i ∈ ms_mounts s → fuseDir i ∈ servers_of (ms_mounts s);
  mi_nodup : NoDup (served (ms_mounts s));
}.

Lemma minv_start w0 : world_ok w0 → minv w0 (mkMState w0 [] ∅ ∅).
Proof.
  intros Hok. split; simpl; try done; try set_solver. apply NoDup_nil_2.
Qed.

(** An instance on a directory that is already served. *)
Lemma minv_shared w0 s m d seen :
  minv w0 s → ms_byRemote s !! mnt_RemotePath m = Some d →
  minv w0 (mkMState (ms_world s) (ms_mounts s ++ [mkInst m d false]) (ms_byRemote s) seen).
Proof.
  intros [H1 H2 H3 H4 H5 H6 H7 H8 H9] Hd. apply H6 in Hd as Hi. destruct Hi as (i & Hi & Hr & <-).
  split; simpl; try done.
  - apply Forall_app. split; [done|]. constructor; [|done]. simpl. rewrite Forall_forall in H3. by apply H3.
  - rewrite H4, dirs_of_snoc. simpl. unfold dirs_of. set_solver.
  - rewrite H5, servers_of_snoc. simpl. set_solver.
  - intros r d. rewrite H6. split.
    + intros (j & Hj & ?). exists j. rewrite elem_of_app. by split; [left|].
    + intros (j & [Hj|Hj]%elem_of_app & Hr' & Hd'); [by exists j|].
      apply list_elem_of_singleton in Hj as ->. simpl in *. exists i. unfold remote in Hr'. simpl in Hr'. by subst.
  - intros j [Hj|Hj]%elem_of_app; rewrite servers_of_snoc; simpl; [set_solver|].
    apply list_elem_of_singleton in Hj as ->. simpl. set_solver.
  - rewrite served_snoc. simpl. by rewrite app_nil_r.
Qed.

(** An instance with a server of its own. *)
Lemma minv_fresh w0 s m seen :
  minv w0 s → ms_byRemote s !! mnt_RemotePath m = None →
  let d := w_next (ms_world s) in
  minv w0 (mkMState (serve d (mkdir (ms_world s)).2) (ms_mounts s ++ [mkInst m d true])
             (<[mnt_RemotePath m := d]> (ms_byRemote s)) seen).
Proof.
  intros [H1 H2 H3 H4 H5 H6 H7 H8 H9] Hnone d.
  assert (∀ i, i ∈ ms_mounts s → (fuseDir i < d)%nat) as Hlt.
  { intros i Hi. apply H1. rewrite H4. apply elem_of_union. left. apply elem_of_union. right.
    unfold dirs_of. apply elem_of_list_to_set, list_elem_of_fmap. by exists i. }
  split; simpl.
  - intros x. simpl. rewrite !elem_of_union, !elem_of_singleton. intros Hx. unfold d in *.
    assert (x = w_next (ms_world s) ∨ x ∈ w_dirs (ms_world s) ∪ w_servers (ms_world s)) as [->|Hx'] by set_solver; [lia|].
    apply H1 in Hx'. lia.
  - lia.
  - apply Forall_app. split; [done|]. by constructor.
  - rewrite H4, dirs_of_snoc. simpl. set_solver.
  - rewrite H5, servers_of_snoc. simpl. set_solver.
  - intros r x. rewrite lookup_insert_Some, H6. split.
    + intros [[<- <-]|[Hne (i & Hi & ?)]].
      * exists (mkInst m d true). rewrite elem_of_app. split; [right; by apply list_elem_of_singleton|done].
      * exists i. rewrite elem_of_app. by split; [left|].
    + intros (i & [Hi|Hi]%elem_of_app & Hr & Hd).
      * right. split; [|by exists i]. intros <-. assert (ms_byRemote s !! mnt_RemotePath m = Some x) by (apply H6; by exists i).
        congruence.
      * apply list_elem_of_singleton in Hi as ->. left. by subst.
  - intros r1 r2 x. rewrite !lookup_insert_Some.
    assert (∀ r, ms_byRemote s !! r ≠ Some d) as Hnd.
    { intros r Hr. apply H6 in Hr as (i & Hi & _ & He). apply Hlt in Hi. lia. }
    intros [[<- <-]|[? Ha]] [[<- He]|[? Hb]]; [done|by destruct (Hnd r2)|subst; by destruct (Hnd r1)|by eapply H7].
  - intros i [Hi|Hi]%elem_of_app; rewrite servers_of_snoc; simpl; [set_solver|].
    apply list_elem_of_singleton in Hi as ->. simpl. set_solver.
  - rewrite served_snoc. simpl. apply NoDup_app. split_and!; [done| |apply NoDup_singleton].
    intros x Hx Hd. apply list_elem_of_singleton in Hd as ->. unfold served in Hx.
    apply list_elem_of_fmap in Hx as (i & He & Hi). apply list_elem_of_filter in Hi as [_ Hi]. apply Hlt in Hi. lia.
Qed.

(** The container paths of the configured mounts. *)
Definition target (e : mount_env) (raw : string) : option string :=
  match ParseMount (me_home e) raw with Ok m => Some (ContainerPath m) | Err _ => None end.
Definition targets (e : mount_env) (raws : list string) : list string := omap (target e) raws.

(** A failing step adds no instance and no server, and a directory only when mounting on
    it failed. *)
Definition step_failed (f : mount_fail) (s s' : mstate) : Prop :=
  ms_mounts s' = ms_mounts s ∧ w_servers (ms_world s') = w_servers (ms_world s) ∧
  match f with
  | MMount d => d = w_next (ms_world s) ∧ w_dirs (ms_world s') = {[d]} ∪ w_dirs (ms_world s)
  | _ => w_dirs (ms_world s') = w_dirs (ms_world s)
  end.

Lemma mount_step_spec e h raw s w0 :
  me_darwin e = false → minv w0 s → (∀ t, target e raw = Some t → t ∉ ms_seen s) →
  match mount_step e h raw s with
  | Ok s' => minv w0 s' ∧ ms_seen s' = ms_seen s ∪ list_to_set (option_list (target e raw))
  | Err (f, s') => step_failed f s s'
  end.
Proof.
  intros Hdw Hi Hnew. unfold mount_step, target in *. destruct (ParseMount (me_home e) raw) as [m|]; [|done].
  destruct (ExpandRemoteHome _ h) as [rem|]; [|done]. rewrite Hdw. specialize (Hnew _ eq_refl).
  destruct (ms_byRemote s !! rem) as [d|] eqn:Hr.
  - rewrite bool_decide_false by done. split; [|simpl; set_solver]. by apply minv_shared.
  - unfold fresh_mount. destruct (me_stat e rem) as [[]|]; [|done|done].
    destruct (me_mkdir e (w_next (ms_world s))); cbn [negb]; [|done]. cbn [mkdir].
    destruct (me_mount e (w_next (ms_world s))); cbn [negb].
    + cbn [ms_seen]. rewrite bool_decide_false by done. split; [|simpl; set_solver].
      exact (minv_fresh w0 s (mkMount rem (ContainerPath m)) _ Hi Hr).
    + by split_and!.
Qed.

Lemma mount_all_spec e h raws s w0 :
  me_darwin e = false → minv w0 s → NoDup (targets e raws) → (∀ t, t ∈ targets e raws → t ∉ ms_seen s) →
  match mount_all e h raws s with
  | Ok s' => minv w0 s'
  | Err (f, s') => ∃ s1, minv w0 s1 ∧ step_failed f s1 s'
  end.
Proof.
  intros Hdw. revert s. induction raws as [|raw raws IH]; intros s Hi Hnd Hnew; [done|]. cbn [mount_all].
  change (targets e (raw :: raws)) with
    (match target e raw with Some t => t :: targets e raws | None => targets e raws end) in *.
  pose proof (mount_step_spec e h raw s w0 Hdw Hi) as Hs.
  destruct (mount_step e h raw s) as [s'|[f s']].
  - destruct Hs as [Hi' Hseen]; [intros t Ht; apply Hnew; rewrite Ht; set_solver|].
    apply IH; [done| |].
    + destruct (target e raw); [by apply NoDup_cons in Hnd as [_ ?]|done].
    + intros t Ht. rewrite Hseen. destruct (target e raw) as [t0|]; simpl.
      * apply NoDup_cons in Hnd as [Hn _]. assert (t ∉ ms_seen s) by (apply Hnew; set_solver).
        assert (t ≠ t0) by (intros ->; done). set_solver.
      * assert (t ∉ ms_seen s) by (by apply Hnew). set_solver.
  - exists s. split; [done|]. apply Hs. intros t Ht. apply Hnew. rewrite Ht. set_solver.
Qed.

Lemma minv_release w0 s :
  world_ok w0 → minv w0 s →
  w_dirs (release (ms_mounts s) (ms_world s)) = w_dirs w0 ∧
  w_servers (release (ms_mounts s) (ms_world s)) = w_servers w0.
Proof.
  intros Hok [H1 H2 H3 H4 H5 H6 H7 H8 H9]. rewrite release_world. simpl. rewrite H4, H5.
  assert (∀ d, d ∈ w_dirs w0 ∪ w_servers w0 → d ∉ dirs_of (ms_mounts s)) as Hout.
  { intros d Hd Hin. apply Hok in Hd. apply elem_of_list_to_set, list_elem_of_fmap in Hin as (i & -> & Hi).
    rewrite Forall_forall in H3. apply H3 in Hi. lia. }
  assert (servers_of (ms_mounts s) ⊆ dirs_of (ms_mounts s)) as Hsub.
  { intros d. unfold servers_of, served, dirs_of. rewrite !elem_of_list_to_set, !list_elem_of_fmap.
    intros (i & -> & Hi). apply list_elem_of_filter in Hi as [_ ?]. by exists i. }
  split; set_solver.
Qed.

(** The result of [MountWorkspace] in terms of the invariant. *)
Lemma MountWorkspace_inv e raws w :
  me_darwin e = false → NoDup (targets e raws) → world_ok w →
  match MountWorkspace e raws w with
  | (Ok l, w') => ∃ s, minv w s ∧ ms_mounts s = l ∧ ms_world s = w'
  | (Err (MMount d), w') => w_servers w' = w_servers w ∧ w_dirs w' = {[d]} ∪ w_dirs w ∧ (d ∉ w_dirs w)
  | (Err _, w') => w_servers w' = w_servers w ∧ w_dirs w' = w_dirs w
  end.
Proof.
  intros Hdw Hnd Hok. unfold MountWorkspace. destruct (me_files e); [|done]. cbn [negb].
  destruct (me_getwd e) as [h|]; [|done]. destruct (me_options e); [|done]. cbn [negb].
  pose proof (mount_all_spec e h raws _ w Hdw (minv_start w Hok) Hnd ltac:(set_solver)) as Hs.
  destruct (mount_all e h raws _) as [s|[f s]].
  - destruct (ms_mounts s) as [|i0 l0] eqn:Hl; [|by exists s].
    simpl. rewrite (mi_dirs _ _ Hs), (mi_servers _ _ Hs), Hl. unfold dirs_of, servers_of, served. simpl. set_solver.
  - destruct Hs as (s1 & Hi & Hm & Hsv & Hf). pose proof (minv_release w s1 Hok Hi) as [Hrd Hrs].
    rewrite release_world in Hrd, Hrs |- *. simpl in *. rewrite Hm, Hsv.
    destruct f; simpl; try (by rewrite Hf, Hrd, Hrs). destruct Hf as [-> Hf]. rewrite Hf, Hrs.
    assert (w_next (ms_world s1) ∉ w_dirs (ms_world s1)) as Hn.
    { intros Hin. assert (w_next (ms_world s1) < w_next (ms_world s1))%nat; [|lia]. apply (mi_ok _ _ Hi). set_solver. }
    split_and!; [done| |].
    + rewrite <- Hrd. rewrite (mi_dirs _ _ Hi) in Hn. set_solver.
    + rewrite (mi_dirs _ _ Hi) in Hn. set_solver.
Qed.

(** C33: the mounts of a run, when no two of them name the same container path: instances
    share a FUSE directory exactly when they show the same remote path, and every
    instance's directory is served by exactly one server. *)
Theorem mounts_share_servers e raws w l w' :
  me_darwin e = false → NoDup (targets e raws) → world_ok w → MountWorkspace e raws w = (Ok l, w') →
  (∀ i j, i ∈ l → j ∈ l → fuseDir i = fuseDir j ↔ remote i = remote j) ∧
  NoDup (served l) ∧ ∀ i, i ∈ l → fuseDir i ∈ served l ∧ fuseDir i ∈ w_servers w'.
Proof.
  intros Hdw Hnd Hok Hm. pose proof (MountWorkspace_inv e raws w Hdw Hnd Hok) as Hi. rewrite Hm in Hi.
  destruct Hi as (s & [H1 H2 H3 H4 H5 H6 H7 H8 H9] & <- & <-). split_and!; [|done|].
  - intros i j Hi Hj. split.
    + intros He. eapply (H7 _ _ (fuseDir i)); apply H6; [by exists i|by exists j].
    + intros He. assert (ms_byRemote s !! remote i = Some (fuseDir i)) as Ha by (apply H6; by exists i).
      assert (ms_byRemote s !! remote j = Some (fuseDir j)) as Hb by (apply H6; by exists j).
      rewrite He in Ha. congruence.
  - intros i Hi. specialize (H8 i Hi). split; [by apply elem_of_list_to_set in H8|]. rewrite H5. set_solver.
Qed.

(** ** Platform, ids, working directory *)

(** [resolveRemotePlatform]: [info] is what detection reports, empty where it failed. *)
Definition resolveRemotePlatform (info : string * string) (goos goarch : string) (r : RemoteConfig) : RemoteConfig :=
  if negb (String.eqb (OS r) "") && negb (String.eqb (Arch r) "") then r
  else mkRemote (Remote_Type r) (SSH r) (Docker r) (Compose r)
         (if String.eqb (OS r) "" then (if String.eqb info.1 "" then goos else info.1) else OS r)
         (if String.eqb (Arch r) "" then (if String.eqb info.2 "" then goarch else info.2) else Arch r)
         (Bind r) (BindInterface r).

Definition compileIDMap (entries : list string) (lookup : string → option Z) : result idmap_error (list IDMapEntry) :=
  foldr (λ raw acc,
    match CompileIDMapEntry raw (Some lookup) with
    | Err e => Err e
    | Ok x => match acc with Ok l => Ok (x :: l) | Err e => Err e end
    end) (Ok []) entries.

(** The validated mode strings as modes. *)
Definition IDMode_of (s : string) : option IDMode :=
  if String.eqb s "" then None
  else if String.eqb s UIDGIDModeTransparent then Some IDModeTransparent else Some IDModeOverride.

Inductive options_error : Type := OErrUIDMap (e : idmap_error) | OErrGIDMap (e : idmap_error) | OErrNegative.

Definition workspacefsOptions (h : Host) (uid gid : Z) (k : ContainerConfig) : result options_error Options :=
  match compileIDMap (Container_UIDMap k) (LookupUID h) with
  | Err e => Err (OErrUIDMap e)
  | Ok uidMap =>
      match compileIDMap (Container_GIDMap k) (LookupGroupGID h) with
      | Err e => Err (OErrGIDMap e)
      | Ok gidMap =>
          if (uid <? 0)%Z || (gid <? 0)%Z then Err OErrNegative
          else Ok (mkOptions (IDMode_of (Container_UIDMode k)) (IDMode_of (Container_GIDMode k))
                     uidMap gidMap (u32 uid) (u32 gid))
      end
  end.

Inductive wd_error : Type := WErrUnset | WErrNotDir (wd : string).

(** [isDir]: the local stat succeeds and is a directory. *)
Definition resolveWorkingDir (isDir : string → bool) (k : ContainerConfig) (workspaceMount : Mount) :
    result wd_error string :=
  let wd := WorkingDir k in
  if String.eqb (CwdMode k) CwdModeExplicit then
    if String.eqb wd "" then Err WErrUnset
    else if negb (isDir wd) then Err (WErrNotDir wd)
    else Ok wd
  else if negb (String.eqb wd "") then Ok wd
  else if String.eqb (CwdMode k) CwdModeRemote then Ok (mnt_RemotePath workspaceMount)
  else Ok (ContainerPath workspaceMount).

(** [resolveCwdRemap]: the tracer's prefix rewrite, both empty when it is off. *)
Definition resolveCwdRemap (k : ContainerConfig) (workspaceMount : Mount) : string * string :=
  if negb (String.eqb (CwdRemap k) CwdRemapRemote) then ("", "")
  else if String.eqb (ContainerPath workspaceMount) (mnt_RemotePath workspaceMount) then ("", "")
  else (ContainerPath workspaceMount, mnt_RemotePath workspaceMount).

(** ** Broker and child *)

Section launch.
Context `{Regexp}.

(** The environment filter the broker is given. *)
Definition broker_env_filter (c : Config) (stubs : bool) (env : list string) : list string :=
  StripPathSegment (Filter env (Agent_EnvKeep (Agent c)) (Agent_EnvRemove (Agent c)))
    (if stubs then PathStubDir (Container c) else "").

Definition broker_path_mapper (c : Config) (l : list mountInstance) (stubMap : gmap string PathInfoEntry) :
    option (string → string) :=
  buildPathMapper (mi_mount <$> l) (PathStubDir (Container c)) stubMap.

(** The initial command in [run]: its program is looked up, away from the stubs, and, when
    asked for, the programs it starts are added to the local commands. *)
Definition add_local (derived : list string) (c : Config) : Config :=
  let k := Container c in
  mkConfig (Logging c) (Remote c)
    (mkContainer (LocalCommands k ++ derived) (Mounts k) (AutoIdentityMounts k) (WorkingDir k) (CwdMode k) (CwdRemap k)
       (EnvRemove k) (PathProxy k) (PathStubDir k) (ForceResolveInitialCommandLocally k)
       (Container_UIDMode k) (Container_GIDMode k) (Container_UIDMap k) (Container_GIDMap k))
    (Agent c) (Components c).

Definition resolve_command (fs : local_fs) (pathEnv : string) (cmd : list string) (c : Config) :
    option (list string * Config) :=
  match cmd with
  | [] => None
  | name :: args =>
      match LookPath fs name pathEnv [PathStubDir (Container c)] with
      | Err _ => None
      | Ok resolved =>
          Some (resolved :: args,
            if default false (ForceResolveInitialCommandLocally (Container c))
            then add_local (DeriveLocalCommands fs resolved).1 c else c)
      end
  end.

(** What [RunChild] executes: the arguments of bwrap and the environment. *)
Definition RunChild (c : Config) (h : held) (names : nat → string) (isDir : string → bool) (environ : list string)
    (sock : string) (shimBin tracerBin : option string) (cmdline : list string) :
    option (list string * list string) :=
  match cmdline, shimBin, hl_mounts h with
  | [], _, _ => None
  | _, None, _ => None
  | _, Some shim, ms =>
      let k := Container c in
      let workspaceMount := match ms with i :: _ => mi_mount i | [] => mkMount "" "" end in
      let inj := match hl_stub h with Some _ => mkInj (PathStubDir k) (PathProxy k) | None => mkInj "" "" end in
      let env := FormatEnv (Remove environ (EnvRemove k)) sock shim inj in
      match resolveWorkingDir isDir k workspaceMount with
      | Err _ => None
      | Ok wd =>
          let '(from, to) := resolveCwdRemap k workspaceMount in
          let binds := ((λ i, mkBind (names (fuseDir i)) (ContainerPath (mi_mount i))) <$> ms)
            ++ match hl_stub h with Some d => [mkBind (names d) (PathStubDir k)] | None => [] end in
          match tracerBin with
          | None => None
          | Some tr =>
              let v := mkInv tr shim sock (Level (Logging c)) (LocalCommands k) from to in
              Some (buildBwrapArgs wd (buildChildInvocation v cmdline) binds, env)
          end
      end
  end.
End launch.

(** ** The supervisor *)

Inductive stage : Type := StBackend | StNamespace | StMount | StStubs | StBroker | StChild.

(** The stages that run, in order, until one fails; [stubs] says whether there is a stub
    component. *)
Definition stages (stubs : bool) : list stage :=
  [StBackend; StNamespace; StMount] ++ (if stubs then [StStubs] else []) ++ [StBroker; StChild].

Fixpoint run_stages {S} (step : stage → S → bool * S) (l : list stage) (s : S) : list stage * bool * S :=
  match l with
  | [] => ([], true, s)
  | st :: l =>
      let '(ok, s) := step st s in
      if ok then let '(ran, r, s) := run_stages step l s in (st :: ran, r, s)
      else ([st], false, s)
  end.

Definition supervisor_Run {S} (step : stage → S → bool * S) (stubs : bool) (s : S) : list stage * bool * S :=
  run_stages step (stages stubs) s.

(** ** The stages of a run *)

Lemma run_stages_prefix {S} (step : stage → S → bool * S) l s ran ok s' :
  run_stages step l s = (ran, ok, s') →
  ran `prefix_of` l ∧ (ok = true → ran = l) ∧
  ∀ pre st, ran = pre ++ [st] → ok = false → ∃ s0, run_stages step pre s = (pre, true, s0) ∧ step st s0 = (false, s').
Proof.
  revert s ran ok s'. induction l as [|x l IH]; intros s ran ok s'; cbn [run_stages].
  - intros [= <- <- <-]. split_and!; [done|done|]. intros. by destruct pre.
  - destruct (step x s) as [[] s1] eqn:Hx.
    + destruct (run_stages step l s1) as [[ran1 r1] s2] eqn:Hr. intros [= <- <- <-].
      destruct (IH _ _ _ _ Hr) as (Hp & Ho & Hf). split_and!.
      * by apply prefix_cons.
      * intros H. by rewrite (Ho H).
      * intros [|y pre] st He Hok; simplify_eq/=.
        -- destruct l as [|z l]; cbn [run_stages] in Hr; [simplify_eq|].
           destruct (step z s1) as [[] s3]; [|simplify_eq]. by destruct (run_stages step l s3) as [[? ?] ?].
        -- destruct (Hf pre st eq_refl eq_refl) as (s0 & Hpre & Hst). exists s0. split; [|done].
           by rewrite Hx, Hpre.
    + intros [= <- <- <-]. split_and!; [by exists l|done|]. intros [|y pre] st He _; simplify_eq/=.
      * by exists s.
      * by destruct pre.
Qed.

(** The run as a whole: the outcomes of the stages that are not modelled, and the state
    the stages change. *)
Record run_env := mkRunEnv {
  re_backend : bool; re_namespace : bool; re_broker : broker_env; re_child : bool;
  re_mounts : mount_env; re_raws : list string;
  re_agent_binary : bool; re_mkdir : bool; re_stub_mount : bool; re_entries : option (list PathInfoEntry);
}.

Section whole_run.
Context `{Regexp}.

Definition run_step (e : run_env) (k : ContainerConfig) (st : stage) (s : held * world) : bool * (held * world) :=
  let '(h, w) := s in
  match st with
  | StBackend => (re_backend e, s)
  | StNamespace => (re_namespace e, s)
  | StMount =>
      match MountWorkspace (re_mounts e) (re_raws e) w with
      | (Ok l, w) => (true, (mkHeld l (hl_stub h) (hl_broker h), w))
      | (Err _, w) => (false, (mkHeld [] (hl_stub h) (hl_broker h), w))
      end
  | StStubs =>
      match BuildPathStubs k (re_agent_binary e) (me_files (re_mounts e)) (re_mkdir e) (re_stub_mount e) (re_entries e) w with
      | (Some o, w) => (true, (mkHeld (hl_mounts h) (fst <$> o) (hl_broker h), w))
      | (None, w) => (false, (mkHeld (hl_mounts h) None (hl_broker h), w))
      end
  | StBroker =>
      let '(ok, d, w) := StartBroker (re_broker e) w in
      (ok, (mkHeld (hl_mounts h) (hl_stub h) d, w))
  | StChild => (re_child e, s)
  end.

(** [run]: the supervisor, then the deferred [Close]. *)
Definition run_all (e : run_env) (k : ContainerConfig) (w : world) : list stage * bool * world :=
  let '(ran, ok, (h, w)) := supervisor_Run (run_step e k) true (held0, w) in
  (ran, ok, Close h w).

Lemma world_fresh w : world_ok w → (w_next w ∉ w_dirs w) ∧ (w_next w ∉ w_servers w).
Proof.
  intros Hok. split; intros Hin; (assert (w_next w < w_next w)%nat; [apply Hok, elem_of_union; auto|lia]).
Qed.

Lemma mkdir_ok w : world_ok w → world_ok (mkdir w).2.
Proof.
  intros Hok d Hd. simpl in *. rewrite <- (assoc_L (∪)) in Hd. apply elem_of_union in Hd as [->%elem_of_singleton|Hd]; [lia|].
  pose proof (Hok d Hd). lia.
Qed.

Lemma world_ok_sub w w' :
  w_dirs w' ⊆ w_dirs w → w_servers w' ⊆ w_dirs w ∪ w_servers w → w_next w' = w_next w → world_ok w → world_ok w'.
Proof.
  intros Hd Hs Hn Hok d Hin. rewrite Hn. apply Hok. apply elem_of_union in Hin as [Hin|Hin]; [|by apply Hs].
  apply elem_of_union. left. by apply Hd.
Qed.

Lemma stubs_world k ab f mk mo en w :
  world_ok w →
  match BuildPathStubs k ab f mk mo en w with
  | (Some (Some (d, _)), w') =>
      d = w_next w ∧ w_dirs w' = {[d]} ∪ w_dirs w ∧ w_servers w' = {[d]} ∪ w_servers w ∧ world_ok w'
  | (_, w') => w_dirs w' = w_dirs w ∧ w_servers w' = w_servers w ∧ world_ok w'
  end.
Proof.
  intros Hok. unfold BuildPathStubs. destruct (world_fresh w Hok) as [Hn _].
  pose proof (mkdir_ok w Hok) as Hm. unfold mkdir in *.
  repeat (case_match; simplify_eq/=; try done); split_and!; try done; try set_solver;
    (refine (world_ok_sub _ _ _ _ _ Hm); [simpl; set_solver|simpl; set_solver|done]).
Qed.

(** Closing removes the socket's directory and leaves the rest of the clean-up as it was. *)
Lemma close_broker b w ok d w' l stub :
  world_ok w → StartBroker b w = (ok, d, w') →
  w_dirs (Close (mkHeld l stub d) w') = w_dirs (Close (mkHeld l stub None) w) ∧
  w_servers (Close (mkHeld l stub d) w') = w_servers (Close (mkHeld l stub None) w).
Proof.
  intros Hok Hr. destruct (world_fresh w Hok) as [Hn _].
  assert (∀ w1, w_dirs w1 = w_dirs w → w_servers w1 = w_servers w → ∀ h : held, hl_broker h = None →
    w_dirs (Close h w1) = w_dirs (Close h w) ∧ w_servers (Close h w1) = w_servers (Close h w)) as Hsame.
  { intros w1 H1 H2 h Hb. unfold Close. rewrite Hb, !release_world. destruct (hl_stub h); simpl; by rewrite H1, H2. }
  assert (d = None ∧ w' = w ∨ d = Some (w_next w) ∧ w' = (mkdir w).2) as [[-> ->]|[-> ->]]; [|done|].
  { unfold StartBroker, mkdir in *. repeat (case_match; simplify_eq/=); by auto. }
  destruct (Hsame (remove_dir (w_next w) (mkdir w).2)) with (h := mkHeld l stub None) as [Hd Hs]; [simpl; set_solver|done|done|].
  by rewrite <- Hd, <- Hs.
Qed.

(** Closing after the mounts and, possibly, the stubs. *)
Lemma close_after w0 s d w :
  world_ok w0 → minv w0 s →
  (match d with
   | Some d => d = w_next (ms_world s) ∧ w_dirs w = {[d]} ∪ w_dirs (ms_world s) ∧ w_servers w = {[d]} ∪ w_servers (ms_world s)
   | None => w_dirs w = w_dirs (ms_world s) ∧ w_servers w = w_servers (ms_world s)
   end) →
  w_dirs (Close (mkHeld (ms_mounts s) d None) w) = w_dirs w0 ∧
  w_servers (Close (mkHeld (ms_mounts s) d None) w) = w_servers w0.
Proof.
  intros Hok Hi Hd. pose proof (minv_release w0 s Hok Hi) as [Hrd Hrs]. unfold Close.
  rewrite release_world in Hrd, Hrs |- *. simpl in *. destruct d as [d|].
  - destruct Hd as (-> & Hd & Hs). simpl. rewrite Hd, Hs. destruct (world_fresh _ (mi_ok _ _ Hi)). split; set_solver.
  - destruct Hd as [-> ->]. done.
Qed.

(** The state in which the stages stop: before any mount, after a failed one, or with the
    mounts, what the stubs gave and, when they did not fail, what the broker made. *)
Lemma run_state e k w ran ok h w1 :
  supervisor_Run (run_step e k) true (held0, w) = (ran, ok, (h, w1)) →
  (h = held0 ∧ w1 = w) ∨
  (h = held0 ∧ ∃ f, MountWorkspace (re_mounts e) (re_raws e) w = (Err f, w1)) ∨
  ∃ l w2, MountWorkspace (re_mounts e) (re_raws e) w = (Ok l, w2) ∧
    ∃ r w3, BuildPathStubs k (re_agent_binary e) (me_files (re_mounts e)) (re_mkdir e) (re_stub_mount e) (re_entries e) w2 = (r, w3) ∧
      let stub := match r with Some o => fst <$> o | None => None end in
      (h = mkHeld l stub None ∧ w1 = w3) ∨
      ∃ bok d, StartBroker (re_broker e) w3 = (bok, d, w1) ∧ h = mkHeld l stub d.
Proof.
  unfold supervisor_Run, stages. cbn [app run_stages run_step held0 hl_stub hl_broker].
  destruct (re_backend e); [|intros; simplify_eq; by left].
  destruct (re_namespace e); [|intros; simplify_eq; by left].
  destruct (MountWorkspace _ _ w) as [[l|f] w2] eqn:Hm; [|intros; simplify_eq; right; left; eauto].
  intros Hr. right; right. exists l, w2. split; [done|]. unfold run_step at 1 in Hr. cbn [hl_mounts hl_broker] in Hr.
  destruct (BuildPathStubs k _ _ _ _ _ w2) as [r w3]. exists r, w3. split; [done|]. destruct r as [o|]; [|left; by simplify_eq].
  right. cbn [run_step hl_mounts hl_stub] in Hr. destruct (StartBroker (re_broker e) w3) as [[bok d] w4].
  exists bok, d. destruct bok; [|by simplify_eq]. cbn [run_step] in Hr. destruct (re_child e); by simplify_eq.
Qed.

Lemma close_nothing w : Close held0 w = w.
Proof.
  unfold Close. rewrite release_world. destruct w as [ds ss n]. simpl. unfold dirs_of, servers_of, served. simpl.
  f_equal; set_solver.
Qed.

(** C14: on a system other than macOS, for mounts on pairwise distinct container paths and with
    unmounts that succeed, whatever stage fails, a run of machineproxy executes the stages
    in their order up to the first that fails and then releases what it made: afterwards no
    FUSE server it started is mounted and none of its temporary directories is left, except
    the one on which a FUSE mount itself failed.  With two mounts on one container path it
    is false ([Demo.duplicate_mount_leaks]); [Shutdown] treats the unmounts that fail. *)
Theorem run_releases e k w ran ok w' :
  me_darwin (re_mounts e) = false → NoDup (targets (re_mounts e) (re_raws e)) → world_ok w →
  run_all e k w = (ran, ok, w') →
  ran `prefix_of` stages true ∧ (ok = true → ran = stages true) ∧
  w_servers w' = w_servers w ∧
  (w_dirs w' = w_dirs w ∨
   ∃ d, (MountWorkspace (re_mounts e) (re_raws e) w).1 = Err (MMount d) ∧ (d ∉ w_dirs w) ∧ w_dirs w' = {[d]} ∪ w_dirs w).
Proof.
  intros Hdw Hnd Hok. unfold run_all.
  destruct (supervisor_Run _ true _) as [[ran0 ok0] [h w1]] eqn:Hr. intros [= <- <- <-].
  destruct (run_stages_prefix _ _ _ _ _ _ Hr) as (Hp & Ho & _). split; [done|]. split; [done|].
  pose proof (MountWorkspace_inv _ _ w Hdw Hnd Hok) as Hi.
  destruct (run_state _ _ _ _ _ _ _ Hr) as [[-> ->]|[[-> [f Hm]]|(l & w2 & Hm & r & w3 & Hb & Hend)]].
  - rewrite close_nothing. auto.
  - rewrite Hm in Hi |- *. rewrite close_nothing. destruct f; try (destruct Hi as [Hs Hd]; by auto).
    destruct Hi as (Hs & Hd & Hn). split; [done|]. right. by exists dir.
  - rewrite Hm in Hi. destruct Hi as (s & Hi & <- & <-).
    pose proof (stubs_world k (re_agent_binary e) (me_files (re_mounts e)) (re_mkdir e) (re_stub_mount e) (re_entries e)
      (ms_world s) (mi_ok _ _ Hi)) as Hw. rewrite Hb in Hw. cbn zeta in Hend.
    set (stub := match r with Some o => fst <$> o | None => None end) in *.
    destruct (close_after w s stub w3 Hok Hi) as [Hd Hs]; [destruct r as [[[d fs]|]|]; subst stub; cbn; tauto|].
    destruct Hend as [[-> ->]|(bok & d & Hbr & ->)]; [by auto|].
    destruct (close_broker _ w3 _ _ _ (ms_mounts s) stub ltac:(destruct r as [[[? ?]|]|]; tauto) Hbr) as [Hd' Hs'].
    rewrite Hd', Hs'. by auto.
Qed.
End whole_run.


(** ** What is launched *)

(** The binds of the realized mounts and of the stubs. *)
Definition launch_binds (c : Config) (h : held) (names : nat → string) : list (string * string) :=
  ((λ i, (names (fuseDir i), ContainerPath (mi_mount i))) <$> hl_mounts h)
  ++ match hl_stub h with Some d => [(names d, PathStubDir (Container c))] | None => [] end.

Section launched.
Context `{Regexp}.

Definition workspace_mount (h : held) : Mount :=
  match hl_mounts h with i :: _ => mi_mount i | [] => mkMount "" "" end.

Lemma RunChild_args c h names isDir environ sock shim tr cmdline args env :
  RunChild c h names isDir environ sock (Some shim) (Some tr) cmdline = Some (args, env) → IsAbs tr = true →
  let '(from, to) := resolveCwdRemap (Container c) (workspace_mount h) in
  let v := mkInv tr shim sock (Level (Logging c)) (LocalCommands (Container c)) from to in
  ∃ wd, resolveWorkingDir isDir (Container c) (workspace_mount h) = Ok wd ∧
    bwrap_read args = Some (("/", "/") :: launch_binds c h names, Some wd, tr :: drop 1 (buildChildInvocation v cmdline)) ∧
    "MPROXY_BROKER_SOCK=" +:+ sock ∈ env ∧ "MPROXY_SHIM_PATH=" +:+ shim ∈ env.
Proof.
  unfold RunChild. intros Hr Habs. destruct cmdline as [|c0 cmdline]; [done|]. fold (workspace_mount h) in Hr.
  destruct (resolveWorkingDir isDir (Container c) _) as [wd|]; [|done].
  destruct (resolveCwdRemap (Container c) _) as [from to]. simplify_eq. exists wd. split; [done|].
  set (v := mkInv tr shim sock (Level (Logging c)) (LocalCommands (Container c)) from to).
  change (buildChildInvocation v (c0 :: cmdline)) with (tr :: drop 1 (buildChildInvocation v (c0 :: cmdline))).
  rewrite bwrap_read_args by done. split_and!.
  - unfold launch_binds. rewrite fmap_app, <- list_fmap_compose. by destruct (hl_stub h).
  - unfold FormatEnv. apply elem_of_app. right. left.
  - unfold FormatEnv. apply elem_of_app. right. right. left.
Qed.

(** The command a run launches: bubblewrap binds the host root, then every mount at its
    container path, then the stubs, and starts the tracer in the resolved working
    directory; the tracer parses from its arguments exactly the shim, the prefix rewrite
    of the working directory and the user's command, and the local commands when none
    has a colon. *)
Theorem child_launch c h names isDir environ sock shim tr cmdline args env :
  RunChild c h names isDir environ sock (Some shim) (Some tr) cmdline = Some (args, env) → IsAbs tr = true →
  ∃ wd rest ta,
    resolveWorkingDir isDir (Container c) (workspace_mount h) = Ok wd ∧
    bwrap_read args = Some (("/", "/") :: launch_binds c h names, Some wd, tr :: rest) ∧
    parseArgs rest = Some (ta, cmdline) ∧
    Tracer.ShimPath (ta_cfg ta) = shim ∧
    CwdTo (ta_cfg ta) = (resolveCwdRemap (Container c) (workspace_mount h)).2 ∧
    (CwdTo (ta_cfg ta) ≠ "" → CwdFrom (ta_cfg ta) = (resolveCwdRemap (Container c) (workspace_mount h)).1) ∧
    (Forall (λ e, contains_byte ":"%char e = false) (LocalCommands (Container c)) →
     CfgWhitelist (ta_cfg ta) = LocalCommands (Container c)) ∧
    "MPROXY_BROKER_SOCK=" +:+ sock ∈ env ∧ "MPROXY_SHIM_PATH=" +:+ shim ∈ env.
Proof.
  intros Hr Habs. pose proof (RunChild_args _ _ _ _ _ _ _ _ _ _ _ Hr Habs) as Ha.
  destruct (resolveCwdRemap (Container c) _) as [from to]. destruct Ha as (wd & Hwd & Hb & He1 & He2).
  set (v := mkInv tr shim sock (Level (Logging c)) (LocalCommands (Container c)) from to) in *.
  exists wd, (drop 1 (buildChildInvocation v cmdline)), (intended v (rejoined (LocalCommands (Container c)))).
  split_and!; [done|done|apply parseArgs_invocation|done|done| |by apply rejoined_iff|done|done].
  cbn. intros Hn. apply seqb_false in Hn. by rewrite Hn.
Qed.

(** C34: from the command line to the tracer: when the initial command is to stay local, the
    tracer that the run starts gets a configuration under which every program that is
    executed to run the command is local: the file itself, the interpreter the kernel takes
    from its first line, and the program that env, when it is the interpreter, looks up.
    What the kernel and env do is [load_script] and [env_program].  The command is a
    [plain_script]: an absolute path, a first line that ends in the kernel's buffer without a
    carriage return, an absolute interpreter that is no script itself, and for env one word
    or [-S] with known options and no assignment, naming a program that is no script either;
    and no local command contains a colon. *)
Theorem initial_command_local fs pathEnv cmd c cmdline c' h names isDir environ sock shim tr args env :
  ForceResolveInitialCommandLocally (Container c) = Some true →
  resolve_command fs pathEnv cmd c = Some (cmdline, c') →
  RunChild c' h names isDir environ sock (Some shim) (Some tr) cmdline = Some (args, env) → IsAbs tr = true →
  Forall (λ e, contains_byte ":"%char e = false) (LocalCommands (Container c')) →
  plain_script fs (hd "" cmdline) →
  ∃ binds wd rest ta,
    bwrap_read args = Some (binds, wd, tr :: rest) ∧ parseArgs rest = Some (ta, cmdline) ∧
    tl cmdline = tl cmd ∧
    ∀ prog, starts fs (hd "" cmdline) prog → shouldAllow (ta_cfg ta) prog = true.
Proof.
  intros Hf Hres Hr Habs Hcol Hp. pose proof (RunChild_args _ _ _ _ _ _ _ _ _ _ _ Hr Habs) as Ha.
  destruct (resolveCwdRemap (Container c') _) as [from to]. destruct Ha as (wd & _ & Hb & _).
  unfold resolve_command in Hres. destruct cmd as [|name cargs]; [done|].
  destruct (LookPath fs name pathEnv _) as [path|]; [|done]. rewrite Hf in Hres. simpl in Hres. simplify_eq.
  eexists _, _, _, _. split; [exact Hb|]. split; [apply parseArgs_invocation|]. split; [done|].
  intros prog Hs. cbn [intended ta_cfg inv_local]. apply rejoined_iff in Hcol. rewrite Hcol.
  by apply initial_command_allowed.
Qed.
End launched.

(** ** Witnesses *)

Module Demo.
#[local] Existing Instance literal_engine.

Definition menv : mount_env :=
  mkMEnv (Some "/home/u") true (Some "/root") true (λ p, Some true) (λ _, true) (λ d, negb (d =? 12)%nat) false
    (λ d, "/tmp/fuse-" +:+ Itoa (Z.of_nat d)).
Definition w0 : world := mkWorld {[3%nat]} ∅ 10.
Definition raws : list string := ["/a:~/p"; "/b:/q"; "/c:/root/p"].

Lemma w0_ok : world_ok w0.
Proof. intros d. simpl. rewrite elem_of_union, elem_of_singleton. set_solver by lia. Qed.

Lemma mounts_share_servers_witness :
  ∃ l w', MountWorkspace menv raws w0 = (Ok l, w') ∧ (fuseDir <$> l) = [10; 11; 10]%nat ∧ NoDup (served l).
Proof.
  destruct (MountWorkspace menv raws w0) as [[l|] w'] eqn:E; [|vm_compute in E; discriminate E].
  destruct (mounts_share_servers menv raws w0 l w') as (_ & Hnd & _);
    [reflexivity|apply (bool_decide_unpack _); vm_compute; exact I|exact w0_ok|exact E|].
  exists l, w'. split; [done|]. split; [|exact Hnd]. vm_compute in E. injection E as <- <-. reflexivity.
Defined.

Definition kk : ContainerConfig :=
  mkContainer ["make"] raws false "" "inherit" "remote" [] "append" "/stubs" None "" "" [] [].
Definition renv (raws : list string) : run_env :=
  mkRunEnv true true (mkBrokerEnv true true false false true) true menv raws true true true (Some [mkInfo "gcc" "/usr/bin/gcc" 0 0 0]).

Lemma run_releases_witness :
  w_servers (run_all (renv raws) kk w0).2 = ∅.
Proof.
  destruct (run_all (renv raws) kk w0) as [[ran ok] w'] eqn:E.
  destruct (run_releases (renv raws) kk w0 ran ok w') as (_ & _ & Hs & _);
    [reflexivity|apply (bool_decide_unpack _); vm_compute; exact I|exact w0_ok|exact E|].
  exact Hs.
Defined.

(** A third server that fails to mount leaves its directory. *)
Example failed_mount_leaves_dir :
  (MountWorkspace menv ["/a:/p"; "/b:/q"; "/c:/r"] w0).1 = Err (MMount 12) ∧
  elements (w_dirs (MountWorkspace menv ["/a:/p"; "/b:/q"; "/c:/r"] w0).2) = [12; 3]%nat.
Proof. split; vm_compute; reflexivity. Qed.

(** With two mounts on one container path, the FUSE server made for the second is in no
    instance: a complete and successful run, closed in the end, leaves it mounted. *)
Example duplicate_mount_leaks :
  let '(ran, ok, w') := run_all (renv ["/a:/p"; "/a:/q"]) kk w0 in
  ok = true ∧ elements (w_servers w') = [11%nat] ∧ elements (w_dirs w') = [11; 3]%nat.
Proof. vm_compute. split_and!; reflexivity. Qed.

Definition cfg0 : Config :=
  mkConfig (mkLogging "info" "" "") (mkRemote "ssh" (mkSSH "h" "" 0) (mkDocker "" "") (mkCompose "" "" 0 "") "" "" "" "")
    kk (mkAgent [] []) (mkComponents "" "" "" "" "").
Definition h0 : held :=
  mkHeld [mkInst (mkMount "/root/p" "/a") 10 true; mkInst (mkMount "/q" "/b") 11 true] (Some 12%nat) (Some 13%nat).
Definition launched0 : list string * list string :=
  default ([], []) (RunChild cfg0 h0 (me_name menv) (λ _, true) ["PATH=/bin"] "/tmp/s" (Some "/shim") (Some "/tracer") ["make"; "all"]).

Lemma child_launch_witness :
  ∃ rest ta, bwrap_read launched0.1 = Some ([("/", "/"); ("/tmp/fuse-10", "/a"); ("/tmp/fuse-11", "/b"); ("/tmp/fuse-12", "/stubs")],
    Some "/a", "/tracer" :: rest) ∧ parseArgs rest = Some (ta, ["make"; "all"]) ∧ CwdTo (ta_cfg ta) = "/root/p".
Proof.
  destruct (child_launch cfg0 h0 (me_name menv) (λ _, true) ["PATH=/bin"] "/tmp/s" "/shim" "/tracer" ["make"; "all"]
    launched0.1 launched0.2) as (wd & rest & ta & Hwd & Hb & Hp & _ & Hto & _); [by vm_compute|reflexivity|].
  injection Hwd as <-. exists rest, ta. split; [exact Hb|]. split; [exact Hp|exact Hto].
Defined.

Definition fs0 : local_fs := InitCmd.Demo.fs0.
Definition kk_force : ContainerConfig :=
  mkContainer ["make"] raws false "" "inherit" "remote" [] "append" "/stubs" (Some true) "" "" [] [].
Definition cfg_force : Config := mkConfig (Logging cfg0) (Remote cfg0) kk_force (Agent cfg0) (Components cfg0).
Definition resolved0 : list string * Config := default ([], cfg0) (resolve_command fs0 "/bin:/usr/bin" ["tool"; "-v"] cfg_force).
Definition launched1 : list string * list string :=
  default ([], []) (RunChild resolved0.2 h0 (me_name menv) (λ _, true) ["PATH=/bin"] "/tmp/s" (Some "/shim") (Some "/tracer") resolved0.1).

Lemma initial_command_local_witness :
  ∃ binds wd rest ta,
    bwrap_read launched1.1 = Some (binds, wd, "/tracer" :: rest) ∧ parseArgs rest = Some (ta, ["/usr/bin/tool"; "-v"]) ∧
    shouldAllow (ta_cfg ta) "/opt/python3" = true.
Proof.
  destruct (initial_command_local fs0 "/bin:/usr/bin" ["tool"; "-v"] cfg_force resolved0.1 resolved0.2 h0 (me_name menv)
    (λ _, true) ["PATH=/bin"] "/tmp/s" "/shim" "/tracer" launched1.1 launched1.2)
    as (binds & wd & rest & ta & Hb & Hp & _ & Hs).
  - reflexivity.
  - vm_compute. reflexivity.
  - vm_compute. reflexivity.
  - reflexivity.
  - apply (bool_decide_unpack _). vm_compute. exact I.
  - exact InitCmd.Demo.fs0_plain.
  - exists binds, wd, rest, ta. split; [exact Hb|]. split; [exact Hp|]. apply Hs.
    eapply (starts_env _ _ "/usr/bin/env" "-S -u HOME python3 -x" "python3" "/opt/python3"); [by vm_compute..|constructor].
Defined.
End Demo.
