(* ===== verification/SshManager.v ===== *)
(** * SshManager: the persistent SSH connection

    Models [pkg/sshconn/manager.go] and the connection object of [dialer.go] as a
    transition system: the loop goroutine with a control point for every place where it
    does not hold the lock, calls of [Close] from outside at any time, and the ssh
    connections that exist.  A connection is a number; it is open from the successful dial
    until its [Close], which clears the pointer to the ssh client. *)

From S2P Require Import Prelude.
Local Open Scope nat_scope.

(** ** State *)

Local Abbreviation conn_id := nat.

(** Who called [reconnect]: [Start], the top of the loop, or the reconnect ticker. *)
Inductive caller : Type := KStart | KTop | KTick.

(** Where the manager's own code is: [LOff] before [Start]; in [reconnect] before the dial,
    with a connection and before NewSFTP, before the lock is taken to install it or to
    record an error; at the top of the loop, in the select, with a connection to send a
    keepalive on, before the [Close] of a failed keepalive and of the shutdown; [LPanic] is
    a nil ssh client dereferenced. *)
Inductive loop_pc : Type :=
  | LOff | LDial (k : caller) | LSftp (k : caller) (c : conn_id) | LInstall (k : caller) (c : conn_id)
  | LFail (k : caller) | LStartErr | LTop | LSelect
  | LKeep (c : conn_id) | LKaClose | LShutdown | LExit | LPanic.

(** [Manager], without its options and its logger. *)
Record Manager := mkManager {
  conn : option conn_id;
  sftp : option conn_id;      (** the sftp client, named by the connection that owns it *)
  started : bool;
  lastErr : bool;             (** non-nil *)
}.

Record state := mkState {
  mgr : Manager;
  loop : loop_pc;
  open : gset conn_id;        (** dialed and not closed *)
  next : conn_id;
  cancelled : bool;           (** the context *)
}.

Definition NewManager : Manager := mkManager None None false false.
Definition init : state := mkState NewManager LOff ∅ 0 false.

(** ** Operations *)

Definition IsConnected (m : Manager) : bool := bool_decide (is_Some (conn m)).

(** [closeLocked]: the sftp client is dropped, the connection closed and dropped. *)
Definition closeLocked (m : Manager) (opens : gset conn_id) : Manager * gset conn_id :=
  (mkManager None None (started m) (lastErr m),
   match conn m with Some c => opens ∖ {[c]} | None => opens end).

(** The locked end of [reconnect]. *)
Definition install (c : conn_id) (m : Manager) (opens : gset conn_id) : Manager * gset conn_id :=
  let '(m, opens) := closeLocked m opens in (mkManager (Some c) (Some c) (started m) false, opens).

Definition record_err (m : Manager) : Manager := mkManager (conn m) (sftp m) (started m) true.

(** Where [reconnect] returns to. *)
Definition after (k : caller) : loop_pc := match k with KStart => LTop | KTop => LSelect | KTick => LTop end.
Definition after_err (k : caller) : loop_pc := match k with KStart => LStartErr | _ => after k end.

(** [sshConn.NewSession] and [sshConn.SendKeepAlive] dereference the ssh client, which
    [sshConn.Close] has set to nil. *)
Definition client_nil (s : state) (c : conn_id) : bool := bool_decide (c ∉ open s).

Definition with_mgr (s : state) (mo : Manager * gset conn_id) (l : loop_pc) : state :=
  mkState mo.1 l mo.2 (next s) (cancelled s).
Definition at_pc (s : state) (l : loop_pc) : state := mkState (mgr s) l (open s) (next s) (cancelled s).

(** What the environment decides at a step: outcomes of the dial, of NewSFTP and of the
    keepalive, and the case of the select. *)
Inductive choice : Type := COk | CErr | CDone | CTick | CKeepAlive.

(** One step of the manager's own code; [None] where the choice does not apply.
    [keepalive] says whether there is a keepalive ticker. *)
Definition step (keepalive : bool) (ch : choice) (s : state) : option state :=
  match loop s, ch with
  | LOff, COk => Some (with_mgr s (mkManager (conn (mgr s)) (sftp (mgr s)) true (lastErr (mgr s)), open s) (LDial KStart))
  | LDial k, COk => Some (mkState (mgr s) (LSftp k (next s)) ({[next s]} ∪ open s) (S (next s)) (cancelled s))
  | LDial k, CErr => Some (at_pc s (LFail k))
  | LSftp k c, COk => Some (at_pc s (LInstall k c))
  | LSftp k c, CErr => Some (with_mgr s (mgr s, open s ∖ {[c]}) (LFail k))
  | LInstall k c, COk => Some (with_mgr s (install c (mgr s) (open s)) (after k))
  | LFail k, COk => Some (with_mgr s (record_err (mgr s), open s) (after_err k))
  | LStartErr, COk => Some (with_mgr s (record_err (mgr s), open s) LTop)
  | LTop, COk => Some (at_pc s (if IsConnected (mgr s) then LSelect else LDial KTop))
  | LSelect, CDone => if cancelled s then Some (at_pc s LShutdown) else None
  | LSelect, CTick => Some (at_pc s (if IsConnected (mgr s) then LTop else LDial KTick))
  | LSelect, CKeepAlive =>
      if keepalive then Some (at_pc s (match conn (mgr s) with Some c => LKeep c | None => LTop end)) else None
  | LKeep c, COk => Some (at_pc s (if client_nil s c then LPanic else LTop))
  | LKeep c, CErr => Some (at_pc s (if client_nil s c then LPanic else LKaClose))
  | LKaClose, COk => Some (with_mgr s (closeLocked (mgr s) (open s)) LTop)
  | LShutdown, COk => Some (with_mgr s (closeLocked (mgr s) (open s)) LExit)
  | _, _ => None
  end.

(** What others do: [Manager.Close] and cancelling the context. *)
Inductive ext : Type := XClose | XCancel.

Definition ext_step (x : ext) (s : state) : state :=
  match x with
  | XClose => with_mgr s (closeLocked (mgr s) (open s)) (loop s)
  | XCancel => mkState (mgr s) (loop s) (open s) (next s) true
  end.

(** [NewSession]: an error, a call on the connection, or a nil client. *)
Inductive session_result : Type := SNotReady | SAsked (c : conn_id) | SPanic.
Definition NewSession_read (s : state) : option conn_id := conn (mgr s).
Definition NewSession_call (c : option conn_id) (s : state) : session_result :=
  match c with None => SNotReady | Some c => if client_nil s c then SPanic else SAsked c end.

Section manager.
Variable keepalive : bool.

Inductive trans : state → state → Prop :=
  | t_step ch s s' : step keepalive ch s = Some s' → trans s s'
  | t_ext x s : trans s (ext_step x s).

Definition reachable (s : state) : Prop := rtc trans init s.

(** ** The invariant *)

(** The connection the loop holds in hand. *)
Definition in_hand (l : loop_pc) : option conn_id :=
  match l with LSftp _ c | LInstall _ c => Some c | _ => None end.

(** Control points at which no connection is installed: from the check that there is none
    to the end of [reconnect]. *)
Definition reconnecting (l : loop_pc) : bool :=
  match l with LDial _ | LSftp _ _ | LInstall _ _ | LFail _ | LStartErr | LOff => true | _ => false end.

Definition opt_set (o : option conn_id) : gset conn_id := match o with Some c => {[c]} | None => ∅ end.

Lemma opt_set_size o : size (opt_set o) ≤ 1.
Proof. destruct o as [c|]; cbn [opt_set]; [by rewrite size_singleton|rewrite size_empty; lia]. Qed.

Record inv (s : state) : Prop := {
  i_sftp : sftp (mgr s) = conn (mgr s);
  i_open : open s = opt_set (conn (mgr s)) ∪ opt_set (in_hand (loop s));
  i_next : ∀ c, c ∈ open s → c < next s;
  i_recon : reconnecting (loop s) = true → conn (mgr s) = None;
  i_err : is_Some (conn (mgr s)) → lastErr (mgr s) = false;
  i_exit : loop s = LExit → conn (mgr s) = None ∧ cancelled s = true;
  i_shut : loop s = LShutdown → cancelled s = true;
}.

Lemma mgr_inv_init : inv init.
Proof. split; simpl; try done; set_solver. Qed.

Lemma mgr_inv_close s l :
  inv s → in_hand l = in_hand (loop s) → (reconnecting (loop s) = true → reconnecting l = true) →
  (l = LExit → cancelled s = true) → (l = LShutdown → cancelled s = true) →
  inv (with_mgr s (closeLocked (mgr s) (open s)) l).
Proof.
  intros [H1 H2 H3 H4 H5 H6 H7] Hh Hr He Hs. split; simpl; try done.
  - rewrite Hh, H2. destruct (conn (mgr s)) as [c|] eqn:E; simpl; [|done].
    assert (in_hand (loop s) = None) as ->; [|clear; set_solver].
    destruct (loop s); simpl in *; try done; by specialize (H4 eq_refl).
  - intros c Hc. apply H3. destruct (conn (mgr s)); [|done]. by apply elem_of_difference in Hc as [? _].
  - auto.
Qed.

Lemma inv_ext x s : inv s → inv (ext_step x s).
Proof.
  intros Hi. pose proof Hi as [H1 H2 H3 H4 H5 H6 H7]. destruct x; simpl.
  - apply mgr_inv_close; auto. intros E. by destruct (H6 E).
  - split; simpl; auto. intros E. by destruct (H6 E).
Qed.

(** A step that moves the control point and changes the error at most. *)
Lemma inv_move s b le l :
  inv s → in_hand l = in_hand (loop s) →
  (reconnecting l = true → conn (mgr s) = None) → (is_Some (conn (mgr s)) → le = false) →
  (l = LExit → conn (mgr s) = None ∧ cancelled s = true) → (l = LShutdown → cancelled s = true) →
  inv (mkState (mkManager (conn (mgr s)) (sftp (mgr s)) b le) l (open s) (next s) (cancelled s)).
Proof. intros [H1 H2 H3 H4 H5 H6 H7] Hh Hr He Hx Hs. split; simpl; try done. by rewrite Hh. Qed.

Lemma at_pc_move s l : at_pc s l = mkState (mkManager (conn (mgr s)) (sftp (mgr s)) (started (mgr s)) (lastErr (mgr s))) l (open s) (next s) (cancelled s).
Proof. by destruct s as [[]]. Qed.

Lemma not_connected m : IsConnected m = false → conn m = None.
Proof. unfold IsConnected. by destruct (conn m). Qed.

Lemma inv_step ch s s' : inv s → step keepalive ch s = Some s' → inv s'.
Proof.
  intros Hi Hs. pose proof Hi as [H1 H2 H3 H4 H5 H6 H7]. unfold step in Hs.
  assert (∀ l, in_hand l = in_hand (loop s) → (reconnecting l = true → conn (mgr s) = None) →
    (l = LExit → conn (mgr s) = None ∧ cancelled s = true) → (l = LShutdown → cancelled s = true) → inv (at_pc s l)) as Hmv.
  { intros. rewrite at_pc_move. by apply inv_move. }
  destruct (loop s) as [|k|k c|k c|k| | | |c| | | |] eqn:El, ch; simplify_eq; try specialize (H4 eq_refl).
  - apply inv_move; rewrite ?El; done.
  - simpl in H2. rewrite H4 in H2. split; simpl; rewrite ?H1, ?H4; try done; [rewrite H2; clear; set_solver|].
    intros c. rewrite elem_of_union, elem_of_singleton. intros [->|Hc]; [lia|]. pose proof (H3 c Hc). lia.
  - by apply Hmv.
  - by apply Hmv.
  - simpl in H2. rewrite H4 in H2. split; simpl; rewrite ?H1, ?H4; try done; [rewrite H2; clear; set_solver|].
    intros d [Hd _]%elem_of_difference. by apply H3.
  - simpl in H2. rewrite H4 in H2. split; simpl; rewrite ?H1, ?H4; try done; try (by destruct k).
  - apply (inv_move s (started (mgr s)) true); rewrite ?El, ?H4; try done; try (by destruct k).
  - apply (inv_move s (started (mgr s)) true); rewrite ?El, ?H4; try done.
  - apply Hmv; destruct (IsConnected (mgr s)) eqn:E; try done. intros _. by apply not_connected.
  - destruct (cancelled s) eqn:Ec; simplify_eq. by apply Hmv.
  - apply Hmv; destruct (IsConnected (mgr s)) eqn:E; try done. intros _. by apply not_connected.
  - destruct keepalive; simplify_eq. apply Hmv; by destruct (conn (mgr s)).
  - apply Hmv; by destruct (client_nil s c).
  - apply Hmv; by destruct (client_nil s c).
  - apply mgr_inv_close; rewrite ?El; done.
  - apply mgr_inv_close; rewrite ?El; auto.
Qed.

Lemma mgr_reachable_inv s : reachable s → inv s.
Proof.
  intros Hr. unfold reachable in Hr. remember init as s0 eqn:E. assert (inv s0) as Hi by (subst; apply mgr_inv_init). clear E.
  induction Hr as [|s0 s1 s2 Ht _ IH]; [done|]. apply IH. destruct Ht; [by eapply inv_step|by apply inv_ext].
Qed.

(** C20: in every interleaving of the manager's loop with calls of [Close], the sftp client
    belongs to the installed connection, at most one ssh connection is open at any time and
    it is either installed or in the hands of the loop, which is about to install or close
    it; a connected manager has no error, and when the loop has ended nothing is open. *)
Theorem manager_one_connection s :
  reachable s →
  sftp (mgr s) = conn (mgr s) ∧ size (open s) ≤ 1 ∧
  (∀ c, c ∈ open s ↔ conn (mgr s) = Some c ∨ in_hand (loop s) = Some c) ∧
  (IsConnected (mgr s) = true → lastErr (mgr s) = false) ∧
  (loop s = LExit → open s = ∅).
Proof.
  intros [H1 H2 H3 H4 H5 H6 H7]%mgr_reachable_inv. split; [done|].
  assert (conn (mgr s) = None ∨ in_hand (loop s) = None) as Hone.
  { destruct (loop s); simpl in *; auto. }
  rewrite H2. split_and!.
  - destruct Hone as [-> | ->]; simpl; rewrite ?(left_id_L ∅ (∪)), ?(right_id_L ∅ (∪)); apply opt_set_size.
  - intros c. rewrite elem_of_union. destruct (conn (mgr s)), (in_hand (loop s)); simpl;
      rewrite ?elem_of_singleton, ?elem_of_empty; split; intros []; simplify_eq; auto; done.
  - intros Hc. apply H5. unfold IsConnected in Hc. by apply bool_decide_eq_true in Hc.
  - intros He. destruct (H6 He) as [-> _]. rewrite He. done.
Qed.

(** ** Reconnecting *)

(** Steps of the manager's own code, with the dial and NewSFTP succeeding. *)
Definition own (s s' : state) : Prop := ∃ ch, step keepalive ch s = Some s'.

Definition alive (l : loop_pc) : bool :=
  match l with LOff | LKeep _ | LShutdown | LExit | LPanic => false | _ => true end.

Lemma own_step ch s s1 s' : step keepalive ch s = Some s1 → rtc own s1 s' → rtc own s s'.
Proof. intros Hs Hr. eapply rtc_l; [|exact Hr]. by exists ch. Qed.

Definition connects (s : state) : Prop := ∃ s', rtc own s s' ∧ is_Some (conn (mgr s')) ∧ cancelled s' = cancelled s.

Lemma connects_l ch s s1 : step keepalive ch s = Some s1 → cancelled s1 = cancelled s → connects s1 → connects s.
Proof. intros Hs Hc (s' & Hr & Hx & Hc'). exists s'. split; [by eapply own_step|]. split; [done|congruence]. Qed.

Lemma install_connects k c m ops n ca : connects (mkState m (LInstall k c) ops n ca).
Proof. eexists. split; [eapply (own_step COk); [reflexivity|reflexivity]|]. by split. Qed.
Lemma dial_connects k m ops n ca : connects (mkState m (LDial k) ops n ca).
Proof.
  eapply (connects_l COk); [done|done|]. eapply (connects_l COk); [done|done|]. apply install_connects.
Qed.
Lemma top_connects m ops n ca : conn m = None → connects (mkState m LTop ops n ca).
Proof.
  intros Hc. eapply (connects_l COk); [unfold step; simpl; unfold IsConnected; rewrite Hc; reflexivity|done|].
  apply dial_connects.
Qed.
Lemma select_connects m ops n ca : conn m = None → connects (mkState m LSelect ops n ca).
Proof.
  intros Hc. eapply (connects_l CTick); [unfold step; simpl; unfold IsConnected; rewrite Hc; reflexivity|done|].
  apply dial_connects.
Qed.

Lemma alive_connects s : inv s → conn (mgr s) = None → alive (loop s) = true → connects s.
Proof.
  destruct s as [m l ops n ca]. simpl. intros _ Hc Ha. destruct l as [|k|k c|k c|k| | | |c| | | |]; try done.
  - apply dial_connects.
  - eapply (connects_l COk); [done|done|]. apply install_connects.
  - apply install_connects.
  - eapply (connects_l COk); [done|done|]. unfold with_mgr. cbn [mgr loop open next cancelled fst snd].
    destruct k; simpl; [|by apply select_connects|by apply top_connects].
    eapply (connects_l COk); [done|done|]. by apply top_connects.
  - eapply (connects_l COk); [done|done|]. by apply top_connects.
  - by apply top_connects.
  - by apply select_connects.
  - eapply (connects_l COk); [done|done|]. by apply top_connects.
Qed.

(** A lost connection comes back, and so does a closed one: from every reachable state in
    which the loop runs and is not in a keepalive, [Close] leaves the manager without a
    connection, but while the context lives the loop's own steps lead to an installed
    connection again.  Only cancelling the context is final. *)
Theorem close_not_final s :
  reachable s → alive (loop s) = true →
  let s1 := ext_step XClose s in
  conn (mgr s1) = None ∧
  ∃ s', rtc own s1 s' ∧ is_Some (conn (mgr s')) ∧ cancelled s' = cancelled s ∧ ∃ c, c ∈ open s'.
Proof.
  intros Hr Ha. cbn zeta. split; [done|].
  assert (reachable (ext_step XClose s)) as Hr1 by (eapply rtc_r; [exact Hr|apply t_ext]).
  destruct (alive_connects (ext_step XClose s)) as (s' & Hs & [c Hc] & Hca); [by apply mgr_reachable_inv|done|done|].
  exists s'. split_and!; [done|by eexists|done|]. exists c.
  assert (inv s') as [_ H2 _ _ _ _ _]; [|rewrite H2, Hc; simpl; set_solver].
  apply mgr_reachable_inv. unfold reachable. etrans; [exact Hr1|]. clear -Hs.
  induction Hs as [|x y z [ch Hch] _ IH]; [done|]. eapply rtc_l; [by eapply t_step|exact IH].
Qed.

(** ** Closing during a keepalive *)

(** Runs in which nobody else closes the manager. *)
Inductive calm : state → state → Prop :=
  | calm_step ch s s' : step keepalive ch s = Some s' → calm s s'
  | calm_cancel s : calm s (ext_step XCancel s).

Lemma calm_reachable s : rtc calm init s → reachable s.
Proof.
  intros Hr. unfold reachable. revert Hr. generalize init. intros s0. induction 1 as [|x y z Hc _ IH]; [done|].
  eapply rtc_l; [|exact IH]. destruct Hc; [by eapply t_step|apply t_ext].
Qed.

(** The loop sends its keepalive on the installed connection, and does not panic. *)
Definition keep_ok (s : state) : Prop :=
  match loop s with LKeep c => conn (mgr s) = Some c | LPanic => False | _ => True end.

Lemma calm_keep s : rtc calm init s → keep_ok s.
Proof.
  revert s. apply (rtc_ind_r keep_ok); [done|]. intros s s' Hr Hc IH.
  pose proof (mgr_reachable_inv s (calm_reachable s Hr)) as [_ H2 _ _ _ _ _].
  destruct Hc as [ch s s' Hs|s]; [|exact IH]. unfold keep_ok in *. unfold step in Hs.
  destruct (loop s) as [|k|k c|k c|k| | | |c| | | |], ch; simplify_eq; simpl; try done; try (by destruct k).
  - by destruct (IsConnected (mgr s)).
  - by destruct (cancelled s); simplify_eq.
  - by destruct (IsConnected (mgr s)).
  - destruct keepalive; simplify_eq. simpl. by destruct (conn (mgr s)).
  - unfold client_nil. rewrite bool_decide_false; [done|]. rewrite H2, IH. simpl. set_solver.
  - unfold client_nil. rewrite bool_decide_false; [done|]. rewrite H2, IH. simpl. set_solver.
Qed.

Fixpoint drive (l : list (choice + ext)) (s : state) : option state :=
  match l with
  | [] => Some s
  | inl ch :: l => step keepalive ch s ≫= drive l
  | inr x :: l => drive l (ext_step x s)
  end.

Lemma drive_reachable l s s' : reachable s → drive l s = Some s' → reachable s'.
Proof.
  revert s. induction l as [|[ch|x] l IH]; intros s Hr Hd; simpl in Hd; [by simplify_eq| |].
  - apply bind_Some in Hd as (s1 & Hs & Hd). apply (IH s1); [|done]. eapply rtc_r; [exact Hr|by eapply t_step].
  - apply (IH (ext_step x s)); [|done]. eapply rtc_r; [exact Hr|apply t_ext].
Qed.
End manager.

(** The manager's own goroutines never use a closed connection: as long as nobody else
    calls [Close], the nil client of a closed connection is not dereferenced.  A [Close]
    that falls between the moment the loop or [NewSession] reads the connection and its
    use is not guarded against: the loop panics. *)
Theorem panic_needs_close :
  (∀ keepalive s, rtc (calm keepalive) init s → loop s ≠ LPanic) ∧
  (∃ s, reachable true s ∧ loop s = LPanic) ∧
  (∃ s x, reachable false s ∧ NewSession_call (NewSession_read s) s = SAsked 0 ∧
     NewSession_call (NewSession_read s) (ext_step x s) = SPanic).
Proof.
  split_and!.
  - intros ka s Hr E. pose proof (calm_keep ka s Hr) as Hk. unfold keep_ok in Hk. by rewrite E in Hk.
  - destruct (drive true [inl COk; inl COk; inl COk; inl COk; inl COk; inl CKeepAlive; inr XClose; inl COk] init)
      as [s|] eqn:E; [|by vm_compute in E].
    exists s. split; [eapply drive_reachable; [|exact E]; apply rtc_refl|]. vm_compute in E. by simplify_eq.
  - destruct (drive false [inl COk; inl COk; inl COk; inl COk] init) as [s|] eqn:E; [|by vm_compute in E].
    exists s, XClose. split; [eapply drive_reachable; [apply rtc_refl|exact E]|]. vm_compute in E. simplify_eq.
    split; by vm_compute.
Qed.

(** ** Witnesses *)

Module Demo.
Definition s_up : state := default init (drive false [inl COk; inl COk; inl COk; inl COk] init).
Lemma s_up_reachable : reachable false s_up.
Proof. eapply (drive_reachable false [inl COk; inl COk; inl COk; inl COk] init); [apply rtc_refl|by vm_compute]. Qed.

Lemma manager_one_connection_witness : size (open s_up) ≤ 1 ∧ sftp (mgr s_up) = Some 0.
Proof.
  destruct (manager_one_connection false s_up s_up_reachable) as (H1 & H2 & _). split; [exact H2|].
  rewrite H1. vm_compute. reflexivity.
Defined.

Lemma close_not_final_witness :
  ∃ s', rtc (own false) (ext_step XClose s_up) s' ∧ is_Some (conn (mgr s')).
Proof.
  destruct (close_not_final false s_up s_up_reachable eq_refl) as (_ & s' & Hr & Hc & _). exists s'. split; [exact Hr|exact Hc].
Defined.
End Demo.
