(* ===== verification/SshBackend.v ===== *)
(** * SshBackend: the SSH backend above the connection manager

    Models [pkg/remote/ssh] (platform detection, agent upload and the file client over
    SFTP), the settings of [pkg/sshconn/dialer.go] and [pkg/dialer].  The sftp library is a
    parameter: a function from its calls to their replies with a state of its own. *)

From S2P Require Import Prelude GoStrings GoPaths PathRules FileClient WorkspaceFS Config Destination Runtime SshManager.
Local Open Scope Z_scope.

(** ** Platform detection (platform.go) *)

Record PlatformInfo := mkPlatform { pi_OS : string; pi_Arch : string; pi_Variant : string }.

(** The cases of the switch, in order. *)
Definition os_hints : list (string * list string) :=
  [("windows", ["for_windows"; "for windows"; "windows"]);
   ("darwin", ["darwin"; "macos"]);
   ("freebsd", ["freebsd"]); ("openbsd", ["openbsd"]); ("netbsd", ["netbsd"]); ("dragonfly", ["dragonfly"]);
   ("solaris", ["solaris"; "sunos"; "illumos"]);
   ("linux", ["ubuntu"; "debian"; "raspbian"; "alpine"; "arch"; "fedora"; "centos"; "rhel"; "redhat"; "rocky"; "alma";
              "opensuse"; "suse"; "gentoo"; "nixos"; "android"; "linux"; "dropbear"])].

Fixpoint first_hint (lc : string) (l : list (string * list string)) : string :=
  match l with
  | [] => ""
  | (os, tags) :: l => if existsb (Contains lc) tags then os else first_hint lc l
  end.

Definition parseServerVersion (banner : string) : option PlatformInfo :=
  let banner := TrimSpace banner in
  if String.eqb banner "" then None
  else
    let os := first_hint (ToLower banner) os_hints in
    if String.eqb os "" then None else Some (mkPlatform os "" "").

(** [Backend.DetectPlatform]: [None] without a connection. *)
Definition ssh_DetectPlatform (version : option string) : option PlatformInfo := version ≫= parseServerVersion.

(** ** Dial settings (dialer.go) *)

Definition Second : Z := 10 ^ 9.

(** The [ConnectTimeout] in force, in seconds: the one of ssh_config, unless it is unset or
    zero and the caller has a timeout (in nanoseconds). *)
Definition connect_timeout (timeout : Z) (opt : option Z) : option Z :=
  if (0 <? timeout) && (match opt with None => true | Some n => n =? 0 end)
  then Some (Z.max 1 (Z.quot timeout Second)) else opt.

(** [net.JoinHostPort]. *)
Definition JoinHostPort (host port : string) : string :=
  if contains_byte ":"%char host then "[" +:+ host +:+ "]:" +:+ port else host +:+ ":" +:+ port.

Definition dial_addr (hostname : option string) (port : option Z) : string :=
  JoinHostPort (default "" hostname) (Itoa (default 22 port)).

Definition keepalive_interval (serverAlive : option Z) : Z :=
  match serverAlive with Some n => if 0 <? n then swrap 64 (n * Second) else 0 | None => 0 end.

(** [ssh.New]'s default for the connect timeout. *)
Definition backend_timeout (cfg : Z) : Z := if cfg =? 0 then 10 * Second else cfg.

(** ** Local binding (dialer/dialer.go) *)

Section binding.
Context {IP : Type}.
Variable ParseIP : string → option IP.

(** An address of an interface: an IP network with an IP, or something else ([None]). *)
Record iface_addr := mkAddr { ia_ip : option IP; ia_global : bool; ia_v4 : option IP }.

Inductive bind_error : Type := BErrInterface | BErrAddrs | BErrNone.

Fixpoint pick_addr (v6 : option IP) (addrs : list iface_addr) : result bind_error IP :=
  match addrs with
  | [] => match v6 with Some ip => Ok ip | None => Err BErrNone end
  | a :: addrs =>
      match ia_ip a with
      | None => pick_addr v6 addrs
      | Some ip =>
          if negb (ia_global a) then pick_addr v6 addrs
          else match ia_v4 a with
               | Some ip4 => Ok ip4
               | None => pick_addr (match v6 with None => Some ip | Some _ => v6 end) addrs
               end
      end
  end.

(** [lookup] is the interface of that name with its addresses. *)
Definition ResolveBindAddr (lookup : string → option (option (list iface_addr))) (bind : string) : result bind_error IP :=
  match ParseIP bind with
  | Some ip => Ok ip
  | None =>
      match lookup bind with
      | None => Err BErrInterface
      | Some None => Err BErrAddrs
      | Some (Some addrs) => pick_addr None addrs
      end
  end.

(** The global addresses of an interface: the IPv4 ones, and the others. *)
Definition global_v4 (l : list iface_addr) : list IP :=
  omap (λ a, if ia_global a then ia_ip a ≫= λ _, ia_v4 a else None) l.
Definition global_v6 (l : list iface_addr) : list IP :=
  omap (λ a, if ia_global a then match ia_v4 a with None => ia_ip a | Some _ => None end else None) l.

Lemma pick_addr_spec v6 addrs :
  pick_addr v6 addrs =
    match head (global_v4 addrs), v6, head (global_v6 addrs) with
    | Some ip, _, _ => Ok ip
    | None, Some ip, _ => Ok ip
    | None, None, Some ip => Ok ip
    | None, None, None => Err BErrNone
    end.
Proof.
  revert v6. induction addrs as [|[[ip|] [] [v4|]] addrs IH]; intros v6; simpl; try done; try apply IH; try by destruct v6.
Qed.

(** The first global IPv4 address of the interface, wherever it stands, else the first
    global IPv6 address. *)
Theorem bind_addr_preference lookup bind addrs :
  ParseIP bind = None → lookup bind = Some (Some addrs) →
  ResolveBindAddr lookup bind =
    match head (global_v4 addrs ++ global_v6 addrs) with Some ip => Ok ip | None => Err BErrNone end.
Proof.
  intros Hp Hl. unfold ResolveBindAddr. rewrite Hp, Hl, pick_addr_spec. by destruct (global_v4 addrs).
Qed.
End binding.

(** ** Uploading the agent (backend.go, fileclient.go) *)

(** [path.Dir]. *)
Definition path_Dir (p : string) : string :=
  Clean (match CutLastByte slash p with Some (d, _) => d +:+ "/" | None => "" end).

(** [expandRemoteHome]: the home directory is asked for only when it is needed. *)
Definition expandRemoteHome (p : string) : prog (result go_err string) :=
  if negb (String.eqb p "~") && negb (HasPrefix p "~/") then Ret (Ok p)
  else Call FGetwd (λ home : result go_err string,
    match home with
    | Err e => Ret (Err e)
    | Ok home =>
        if String.eqb home "" then Ret (Err EOther)
        else if String.eqb p "~" then Ret (Ok home)
        else Ret (Ok (PathJoin home (sdrop 2 p)))
    end).

(** [io.Copy] to a remote file: what each read of the local file gives, and the writes; after
    the last of the list the reads give the end of the file.  A file of the sftp library has a
    [ReadFrom], which [io.Copy] prefers to its own loop; it is the library's, and the writes
    it makes are these. *)
Definition local_reads : Type := list (string * option go_err).

Fixpoint copy_to (h : handle) (src : local_reads) : prog (option go_err) :=
  match src with
  | [] => Ret None
  | (data, err) :: src =>
      let go_on := match err with
                   | None => copy_to h src
                   | Some EEOF => Ret None
                   | Some e => Ret (Some e)
                   end in
      if (slen data =? 0)%nat then go_on
      else Call (HWrite h data) (λ r : Z * option go_err,
        match r with
        | (_, Some e) => Ret (Some e)
        | (n, None) => if n =? Z.of_nat (slen data) then go_on else Ret (Some EOther)
        end)
  end.

Definition o755 : Z := Eval vm_compute in oct 755.
Definition upload_flags : Z := Z.lor 1 (Z.lor O_CREATE o1000).

(** The part of [uploadViaFileClient] that writes the file; [local] is the opened local
    file. *)
Definition upload_file (local : result go_err local_reads) (resolved : string) (mode : Z) : prog (result go_err string) :=
  match local with
  | Err e => Ret (Err e)
  | Ok src =>
      Call (FOpenFile resolved upload_flags mode) (λ dst : result go_err handle,
        match dst with
        | Err e => Ret (Err e)
        | Ok h =>
            err ← copy_to h src;
            match err with
            | Some e => Call (HClose h) (λ _, Ret (Err e))
            | None => Call (HClose h) (λ cerr : option go_err,
                match cerr with
                | Some e => Ret (Err e)
                | None => Call (FChmod resolved mode) (λ merr : option go_err,
                    Ret (match merr with Some e => Err e | None => Ok resolved end))
                end)
            end
        end)
  end.

Definition needs_parent (parent : string) : bool :=
  negb (String.eqb parent "") && negb (String.eqb parent ".") && negb (String.eqb parent "/").

Definition uploadViaFileClient (local : result go_err local_reads) (remotePath : string) (mode : Z) :
    prog (result go_err string) :=
  resolved ← expandRemoteHome remotePath;
  match resolved with
  | Err e => Ret (Err e)
  | Ok resolved =>
      if needs_parent (path_Dir resolved) then
        Call (FMkdirAll (path_Dir resolved) o755) (λ e : option go_err,
          match e with Some e => Ret (Err e) | None => upload_file local resolved mode end)
      else upload_file local resolved mode
  end.

(** *** What an upload does *)

(** A request and what was answered. *)
Definition event : Type := {r : req & reply r}.
Definition ev (r : req) (x : reply r) : event := existT r x.

(** [run] with the requests it makes and their answers. *)
Fixpoint trace {W A} (impl : ∀ r : req, W → reply r * W) (p : prog A) (w : W) : list event * A * W :=
  match p with
  | Ret a => ([], a, w)
  | Call r k => let '(x, w) := impl r w in let '(l, a, w) := trace impl (k x) w in (ev r x :: l, a, w)
  end.

Lemma trace_bind {W A B} (impl : ∀ r : req, W → reply r * W) (p : prog A) (f : A → prog B) w :
  trace impl (p ≫= f) w =
    let '(l1, a, w1) := trace impl p w in let '(l2, b, w2) := trace impl (f a) w1 in (l1 ++ l2, b, w2).
Proof.
  revert w. induction p as [a|r k IH]; intros w; simpl.
  - by destruct (trace impl (f a) w) as [[? ?] ?].
  - destruct (impl r w) as [x w1]. unfold mbind, prog_mbind in IH. rewrite IH.
    destruct (trace impl (k x) w1) as [[l1 a] w2]. by destruct (trace impl (f a) w2) as [[? ?] ?].
Qed.

Lemma trace_run {W A} (impl : ∀ r : req, W → reply r * W) (p : prog A) w :
  run impl p w = let '(_, a, w) := trace impl p w in (a, w).
Proof.
  revert w. induction p as [a|r k IH]; intros w; simpl; [done|]. destruct (impl r w) as [x w1]. rewrite IH.
  by destruct (trace impl (k x) w1) as [[? ?] ?].
Qed.

(** The bytes of a local file, when it can be read to its end. *)
Fixpoint file_bytes (src : local_reads) : option string :=
  match src with
  | [] => Some ""
  | (data, None) :: src => (λ rest, data +:+ rest) <$> file_bytes src
  | (data, Some EEOF) :: _ => Some data
  | (_, Some _) :: _ => None
  end.

(** A write that was taken whole. *)
Definition written (h : handle) (data : string) : event := ev (HWrite h data) (Z.of_nat (slen data), None).

Lemma copy_trace {W} (impl : ∀ r : req, W → reply r * W) h src w l w' :
  trace impl (copy_to h src) w = (l, None, w') →
  ∃ chunks, l = written h <$> chunks ∧ file_bytes src = Some (sconcat chunks).
Proof.
  revert w l. induction src as [|[data err] src IH]; intros w l; cbn [copy_to trace file_bytes].
  { intros [= <- _]. by exists []. }
  set (go_on := match err with None => copy_to h src | Some EEOF => Ret None | Some e => Ret (Some e) end).
  set (all := match err with None => _ | Some EEOF => Some data | Some _ => None end).
  assert (∀ w l, trace impl go_on w = (l, None, w') → ∃ chunks, l = written h <$> chunks ∧ all = Some (data +:+ sconcat chunks)) as Hgo.
  { intros w1 l1. subst go_on all. destruct err as [e|].
    - destruct e; simpl; intros; simplify_eq. exists []. by rewrite sapp_nil_r.
    - intros (chunks & -> & ->)%IH. by exists chunks. }
  destruct (Nat.eqb_spec (slen data) 0) as [E|_].
  - intros (chunks & -> & Hc)%Hgo. exists chunks. split; [done|]. by destruct data.
  - cbn [trace]. destruct (impl (HWrite h data) w) as [[n [e|]] w1]; [by cbn; intros|].
    destruct (Z.eqb_spec n (Z.of_nat (slen data))) as [->|]; [|by cbn; intros].
    destruct (trace impl go_on w1) as [[l1 r] w2] eqn:Hr. intros [= <- -> ->].
    destruct (Hgo _ _ Hr) as (chunks & -> & Hc). by exists (data :: chunks).
Qed.

Lemma expand_trace {W} (impl : ∀ r : req, W → reply r * W) p w l q w' :
  trace impl (expandRemoteHome p) w = (l, Ok q, w') →
  (l = [] ∧ q = p ∧ ∀ home, ExpandRemoteHome p home = Ok p) ∨
  ∃ home, l = [ev FGetwd (Ok home)] ∧ ExpandRemoteHome p home = Ok q.
Proof.
  unfold expandRemoteHome, ExpandRemoteHome. destruct (negb _ && negb _) eqn:E.
  { cbn. intros [= <- <- <-]. by left. }
  cbn [trace]. destruct (impl FGetwd w) as [[home|e] w1]; [|by cbn; intros].
  intros Ht. right. exists home. destruct (String.eqb home "") eqn:Eh; [by cbn in Ht|].
  destruct (String.eqb p "~"); cbn in Ht; by simplify_eq.
Qed.

(** The exchanges of a complete upload of [chunks] to [p] through the handle [h]: nothing
    failed and no write was short. *)
Definition file_exchanges (p : string) (mode : Z) (h : handle) (chunks : list string) : list event :=
  [ev (FOpenFile p upload_flags mode) (Ok h)] ++ (written h <$> chunks) ++ [ev (HClose h) None; ev (FChmod p mode) None].
Definition upload_exchanges (home : list event) (p : string) (mode : Z) (h : handle) (chunks : list string) : list event :=
  home ++ (if needs_parent (path_Dir p) then [ev (FMkdirAll (path_Dir p) o755) None] else []) ++ file_exchanges p mode h chunks.

Lemma upload_file_trace {W} (impl : ∀ r : req, W → reply r * W) local p mode w l q w' :
  trace impl (upload_file local p mode) w = (l, Ok q, w') →
  q = p ∧ ∃ src h chunks, local = Ok src ∧ l = file_exchanges p mode h chunks ∧ file_bytes src = Some (sconcat chunks).
Proof.
  unfold upload_file. destruct local as [src|e]; [|by cbn; intros]. cbn [trace].
  destruct (impl (FOpenFile p upload_flags mode) w) as [[h|e] w4]; [|by cbn; intros]. rewrite trace_bind.
  destruct (trace impl (copy_to h src) w4) as [[l3 [e|]] w5] eqn:Hcp; cbn [trace].
  { destruct (impl (HClose h) w5). by cbn; intros. }
  destruct (copy_trace _ _ _ _ _ _ Hcp) as (chunks & -> & Hch).
  destruct (impl (HClose h) w5) as [[e|] w6]; [by cbn; intros|]. cbn [trace].
  destruct (impl (FChmod p mode) w6) as [[e|] w7]; cbn; intros [= <- <- <-].
  split; [done|]. by exists src, h, chunks.
Qed.

(** C35: an upload that succeeds has written exactly the local file.  Over any file client: the
    local file could be opened and read to its end; the result is the remote path with the
    home directory expanded; and the exchanges with the client are the directory (when
    there is a parent to make), the open that truncates, writes whose data is the whole file
    in order and of which each was taken whole, the close and the mode, each of them
    answered without an error. *)
Theorem upload_exact {W} (impl : ∀ r : req, W → reply r * W) local remotePath mode w l q w' :
  trace impl (uploadViaFileClient local remotePath mode) w = (l, Ok q, w') →
  ∃ src home h chunks, local = Ok src ∧ file_bytes src = Some (sconcat chunks) ∧ l = upload_exchanges home q mode h chunks ∧
    (home = [] ∧ q = remotePath ∧ (∀ d, ExpandRemoteHome remotePath d = Ok q) ∨
     ∃ d, home = [ev FGetwd (Ok d)] ∧ ExpandRemoteHome remotePath d = Ok q).
Proof.
  unfold uploadViaFileClient. rewrite trace_bind.
  destruct (trace impl (expandRemoteHome remotePath) w) as [[l1 [p|e]] w1] eqn:He; [|by cbn; intros].
  match goal with |- context [trace impl ?pr w1] => destruct (trace impl pr w1) as [[l2 r] w2] eqn:Ht end. intros [= <- -> ->].
  assert (q = p ∧ ∃ src h chunks, local = Ok src ∧ l1 ++ l2 = upload_exchanges l1 p mode h chunks ∧
    file_bytes src = Some (sconcat chunks)) as (-> & src & h & chunks & -> & -> & Hch).
  { unfold upload_exchanges. destruct (needs_parent (path_Dir p)); cbn [trace] in Ht.
    - destruct (impl (FMkdirAll _ o755) w1) as [[e|] w3]; [by cbn in Ht|].
      destruct (trace impl (upload_file _ _ _) w3) as [[l3 r3] w4] eqn:H3. simplify_eq.
      destruct (upload_file_trace _ _ _ _ _ _ _ _ H3) as (-> & src & h & chunks & -> & -> & Hch). split; [done|]. by exists src, h, chunks.
    - destruct (upload_file_trace _ _ _ _ _ _ _ _ Ht) as (-> & src & h & chunks & -> & -> & Hch). split; [done|]. by exists src, h, chunks. }
  exists src, l1, h, chunks. split_and!; [done..|].
  destruct (expand_trace _ _ _ _ _ _ He) as [(-> & -> & Hx)|(home & -> & Hx)]; [by left|].
  right. by exists home.
Qed.

(** ** The file client over SFTP (fileclient.go) *)

(** The calls of the sftp library and what they answer. *)
Inductive sreq : Type :=
  | SOpen (p : string) | SCreate (p : string) | SOpenFile (p : string) (flags : Z)
  | SStat (p : string) | SLstat (p : string) | SReadDir (p : string) | SReadLink (p : string)
  | SMkdir (p : string) | SMkdirAll (p : string) | SRemove (p : string)
  | SHasExtension (name : string) | SPosixRename (p q : string) | SRename (p q : string)
  | SSymlink (target p : string) | SLink (p q : string)
  | SChmod (p : string) (mode : Z) | SChown (p : string) (uid gid : Z) | SChtimes (p : string) (atime mtime : Z)
  | STruncate (p : string) (size : Z) | SStatVFS (p : string) | SGetwd
  | SFReadAt (h : handle) (off size : Z) | SFWrite (h : handle) (data : string)
  | SFWriteAt (h : handle) (data : string) (off : Z) | SFStat (h : handle) | SFTruncate (h : handle) (size : Z)
  | SFSync (h : handle) | SFChmod (h : handle) (mode : Z) | SFClose (h : handle).

(** [sftp.StatVFS], as far as it is used. *)
Record StatVFS := mkVFS {
  vfs_Bsize : Z; vfs_Frsize : Z; vfs_Blocks : Z; vfs_Bfree : Z; vfs_Bavail : Z; vfs_Files : Z; vfs_Ffree : Z; vfs_Namemax : Z }.

Definition sreply (r : sreq) : Type :=
  match r with
  | SOpen _ | SCreate _ | SOpenFile _ _ => result go_err handle
  | SStat _ | SLstat _ | SFStat _ => result go_err FileInfo
  | SReadDir _ => result go_err (list FileInfo)
  | SReadLink _ | SGetwd => result go_err string
  | SStatVFS _ => result go_err StatVFS
  | SHasExtension _ => bool
  | SFReadAt _ _ _ => string * option go_err
  | SFWrite _ _ | SFWriteAt _ _ _ => Z * option go_err
  | _ => option go_err
  end.

Definition posixRenameExt : string := "posix-rename@openssh.com".
Definition O_EXCL : Z := Eval vm_compute in oct 200.

(** [errors.Is(err, os.ErrNotExist)] *)
Definition is_not_exist (e : go_err) : bool :=
  match e with ENotExist => true | EErrno n => n =? Errno.ENOENT | _ => false end.

Section sftp.
Context {W : Type}.
Variable sftp : ∀ r : sreq, W → sreply r * W.
(** Is the error a status of the server that says the operation is not supported? *)
Variable fx_unsupported : go_err → bool.

Definition isUnsupported (e : go_err) : bool :=
  fx_unsupported e ||
  match e with EErrno n => (n =? Errno.ENOSYS) || (n =? Errno.ENOTSUP) | _ => false end.

Definition sftp_OpenFile (p : string) (flags mode : Z) (w : W) : result go_err handle * W :=
  let '(st, w) := sftp (SLstat p) w in
  let '(f, w) := sftp (SOpenFile p flags) w in
  match f with
  | Err e => (Err e, w)
  | Ok h =>
      if has flags O_CREATE && has flags O_EXCL && (match st with Err e => is_not_exist e | Ok _ => false end) then
        let '(e, w) := sftp (SFChmod h mode) w in
        match e with
        | Some e => let '(_, w) := sftp (SFClose h) w in (Err e, w)
        | None => (Ok h, w)
        end
      else (Ok h, w)
  end.

Definition sftp_Mkdir (p : string) (mode : Z) (w : W) : option go_err * W :=
  let '(e, w) := sftp (SMkdir p) w in
  match e with Some e => (Some e, w) | None => sftp (SChmod p mode) w end.

Definition sftp_Rename (p q : string) (w : W) : option go_err * W :=
  let '(ok, w) := sftp (SHasExtension posixRenameExt) w in
  if ok then sftp (SPosixRename p q) w else sftp (SRename p q) w.

Definition sftp_Statfs (p : string) (w : W) : result go_err Statfs * W :=
  let '(st, w) := sftp (SStatVFS p) w in
  (match st with
   | Err e => Err e
   | Ok s => Ok (mkStatfs (vfs_Blocks s) (vfs_Bfree s) (vfs_Bavail s) (vfs_Files s) (vfs_Ffree s)
                   (u32 (vfs_Bsize s)) (u32 (vfs_Frsize s)) (u32 (vfs_Namemax s)))
   end, w).

Definition sftp_Sync (h : handle) (w : W) : option go_err * W :=
  let '(e, w) := sftp (SFSync h) w in
  (match e with Some e => if isUnsupported e then None else Some e | None => None end, w).

(** [sftpFileClient] and [sftpRemoteFile]. *)
Definition sftp_call (r : req) : W → reply r * W :=
  match r return W → reply r * W with
  | FOpen p => sftp (SOpen p)
  | FCreate p => sftp (SCreate p)
  | FOpenFile p flags mode => sftp_OpenFile p flags mode
  | FStat p => sftp (SStat p)
  | FLstat p => sftp (SLstat p)
  | FReadDir p => sftp (SReadDir p)
  | FReadlink p => sftp (SReadLink p)
  | FMkdir p mode => sftp_Mkdir p mode
  | FMkdirAll p _ => sftp (SMkdirAll p)
  | FRemove p => sftp (SRemove p)
  | FRename p q => sftp_Rename p q
  | FSymlink t p => sftp (SSymlink t p)
  | FLink p q => sftp (SLink p q)
  | FChmod p mode => sftp (SChmod p mode)
  | FChown p uid gid => sftp (SChown p uid gid)
  | FChtimes p a m => sftp (SChtimes p a m)
  | FTruncate p size => sftp (STruncate p size)
  | FStatfs p => sftp_Statfs p
  | FGetwd => sftp SGetwd
  | HReadAt h off size => sftp (SFReadAt h off size)
  | HWrite h data => sftp (SFWrite h data)
  | HWriteAt h data off => sftp (SFWriteAt h data off)
  | HStat h => sftp (SFStat h)
  | HTruncate h size => sftp (SFTruncate h size)
  | HSync h => sftp_Sync h
  | HClose h => sftp (SFClose h)
  end.
End sftp.

(** The sftp library with a log of its calls. *)
Definition slogged {W} (sftp : ∀ r : sreq, W → sreply r * W) (r : sreq) (s : W * list sreq) : sreply r * (W * list sreq) :=
  let '(x, w) := sftp r s.1 in (x, (w, s.2 ++ [r])).

(** The handles the library has open after the calls of a log, given its replies: none is
    lost when a new file cannot be given its mode. *)
Theorem sftp_open_file {W} (sftp : ∀ r : sreq, W → sreply r * W) p flags mode w :
  let '(r, (w', log)) := sftp_OpenFile (slogged sftp) p flags mode (w, []) in
  let '(st, w1) := sftp (SLstat p) w in
  let created := has flags O_CREATE && has flags O_EXCL && match st with Err e => is_not_exist e | Ok _ => false end in
  match (sftp (SOpenFile p flags) w1).1 with
  | Err e => r = Err e ∧ log = [SLstat p; SOpenFile p flags]
  | Ok h =>
      match r with
      | Ok h' => h' = h ∧ log = [SLstat p; SOpenFile p flags] ++ (if created then [SFChmod h mode] else [])
      | Err _ => created = true ∧ log = [SLstat p; SOpenFile p flags; SFChmod h mode; SFClose h]
      end
  end.
Proof.
  unfold sftp_OpenFile, slogged. cbn [fst snd]. destruct (sftp (SLstat p) w) as [st w1]. cbn [fst snd].
  destruct (sftp (SOpenFile p flags) w1) as [[h|e] w2]; cbn [fst snd]; [|done].
  destruct (has flags O_CREATE && _ && _); [|done]. cbn [fst snd].
  destruct (sftp (SFChmod h mode) w2) as [[e|] w3]; cbn [fst snd]; [|done].
  by destruct (sftp (SFClose h) w3).
Qed.

(** Over SFTP the mode of a file that is created without [O_EXCL] is not passed on at all:
    creating a file through the workspace file system gives the same result and the same
    remote state whatever mode the program asked for. *)
Theorem create_mode_ignored {W} (sftp : ∀ r : sreq, W → sreply r * W) fx f rel flags m1 m2 w :
  has (Z.lor flags O_CREATE) O_EXCL = false →
  run (sftp_call sftp fx) (CreateFile f rel flags m1) w = run (sftp_call sftp fx) (CreateFile f rel flags m2) w.
Proof.
  intros He. unfold CreateFile. cbn [run sftp_call]. unfold sftp_OpenFile. by rewrite He, !andb_false_r.
Qed.

(** ** Uploads close what they open *)

Lemma ends_with_bind {A B} (Q : B → list handle → Prop) (p : prog A) (f : A → prog B) hs :
  ends_with Q (p ≫= f) hs ↔ ends_with (λ a hs, ends_with Q (f a) hs) p hs.
Proof.
  unfold mbind, prog_mbind. revert hs. induction p as [a|r k IH]; intros hs; simpl; [done|].
  split; intros H x; by apply IH.
Qed.

Lemma copy_handles h src (Q : option go_err → list handle → Prop) hs :
  (∀ e, Q e hs) → ends_with Q (copy_to h src) hs.
Proof.
  intros HQ. induction src as [|[data err] src IH]; cbn [copy_to]; [apply HQ|].
  assert (ends_with Q match err with None => copy_to h src | Some EEOF => Ret None | Some e => Ret (Some e) end hs) as Hgo.
  { destruct err as [[]|]; cbn; auto. }
  destruct (slen data =? 0)%nat; [done|]. cbn. intros [n [e|]]; [apply HQ|]. by destruct (n =? _); [|apply HQ].
Qed.

Lemma upload_file_closes local p mode : leakfree (upload_file local p mode).
Proof.
  unfold leakfree, upload_file. destruct local as [src|e]; [|done]. intros [h|e]; [|done]. cbn [handles_after].
  apply ends_with_bind, copy_handles. intros [e|]; cbn; intros [?|]; cbn; try intros [?|]; cbn; by case_decide.
Qed.

(** The upload closes the remote file on every path, whatever the client answers. *)
Theorem upload_leakfree local p mode : leakfree (uploadViaFileClient local p mode).
Proof.
  unfold leakfree, uploadViaFileClient. apply ends_with_bind.
  assert (∀ r : result go_err string, ends_with (λ (_ : result go_err string) hs, hs = [])
    (match r with
     | Err e => Ret (Err e)
     | Ok q => if needs_parent (path_Dir q) then
         Call (FMkdirAll (path_Dir q) o755) (λ e : option go_err, match e with Some e => Ret (Err e) | None => upload_file local q mode end)
         else upload_file local q mode
     end) []) as Hrest.
  { intros [q|e]; [|done]. destruct (needs_parent _); [|apply upload_file_closes].
    intros [e|]; [done|]. apply upload_file_closes. }
  unfold expandRemoteHome. destruct (negb _ && negb _); [apply Hrest|]. intros [home|e]; [|apply (Hrest (Err e))].
  cbn. destruct (String.eqb home ""); [apply (Hrest (Err EOther))|]. destruct (String.eqb p "~"); apply (Hrest (Ok _)).
Qed.

(** ** The backend (backend.go) *)

(** One turn of the wait in [Backend.Start]: the manager as it is seen, and what the select
    then receives. *)
Inductive start_event : Type := EvTick | EvDone | EvTimeout.
Inductive start_result : Type := StartOk | StartCtx | StartTimeout (with_cause : bool).

Fixpoint Backend_Start (turns : list (Manager * start_event)) : option start_result :=
  match turns with
  | [] => None
  | (m, ev) :: turns =>
      if IsConnected m then Some StartOk
      else match ev with
           | EvDone => Some StartCtx
           | EvTimeout => Some (StartTimeout (lastErr m))
           | EvTick => Backend_Start turns
           end
  end.

(** [Backend.Files], given that the stored client is an sftp client. *)
Definition Backend_Files (m : Manager) : option nat := SshManager.sftp m.

(** When [Start] reports success the file client is there: the manager it saw last was in a
    reachable state with a connection, and then it also has the sftp client of that
    connection. *)
Theorem start_then_files keepalive turns :
  Forall (λ t, ∃ s, reachable keepalive s ∧ mgr s = t.1) turns →
  Backend_Start turns = Some StartOk →
  ∃ m ev, (m, ev) ∈ turns ∧ is_Some (Backend_Files m) ∧ Backend_Files m = conn m.
Proof.
  induction turns as [|[m ev] turns IH]; [done|]. intros [(s & Hr & Hm) Hall]%Forall_cons. simpl in Hm. subst m. cbn [Backend_Start].
  destruct (IsConnected (mgr s)) eqn:E.
  - intros _. exists (mgr s), ev. apply mgr_reachable_inv in Hr as [Hs _ _ _ _ _ _]. unfold Backend_Files. rewrite Hs.
    split_and!; [by left|by apply bool_decide_eq_true in E|done].
  - destruct ev; [|done|done]. intros Hb. destruct (IH Hall Hb) as (m & ev & Hin & Hm). exists m, ev.
    split; [by right|done].
Qed.

(** The connection object: the ssh client, and the sftp client it caches. *)
Record sshConn := mkSshConn { sc_client : bool; sc_sftp : bool }.
Definition NewSFTP (ok : bool) (c : sshConn) : bool * sshConn :=
  if sc_sftp c then (true, c) else if ok then (true, mkSshConn (sc_client c) true) else (false, c).
Definition sshConn_Close (c : sshConn) : sshConn := mkSshConn false false.

(** ** Platform of an SSH remote *)

Lemma first_hint_in lc l : first_hint lc l = "" ∨ first_hint lc l ∈ l.*1.
Proof.
  induction l as [|[os tags] l IH]; [by left|]. simpl. destruct (existsb _ tags); [right; left|].
  destruct IH as [->|IH]; [by left|]. right. by right.
Qed.

Definition known_os : list string := os_hints.*1.

Lemma resolved_platform info goos goarch r :
  OS (resolveRemotePlatform info goos goarch r) =
    (if String.eqb (OS r) "" then if String.eqb info.1 "" then goos else info.1 else OS r) ∧
  Arch (resolveRemotePlatform info goos goarch r) =
    (if String.eqb (Arch r) "" then if String.eqb info.2 "" then goarch else info.2 else Arch r).
Proof.
  unfold resolveRemotePlatform.
  destruct (String.eqb (OS r) "") eqn:Eo, (String.eqb (Arch r) "") eqn:Ea; simpl; rewrite ?Eo, ?Ea; done.
Qed.

Lemma server_version_os v i : parseServerVersion v = Some i → pi_OS i ≠ "" ∧ pi_OS i ∈ known_os ∧ pi_Arch i = "".
Proof.
  unfold parseServerVersion. destruct (String.eqb (TrimSpace v) ""); [done|].
  pose proof (first_hint_in (ToLower (TrimSpace v)) os_hints) as Hf.
  destruct (String.eqb (first_hint _ _) "") eqn:E; [done|]. intros [= <-]. apply seqb_false in E.
  destruct Hf as [Hf|Hf]; [by rewrite Hf in E|done].
Qed.

(** Over SSH the operating system of the agent comes from the configuration, else from the
    server's identification string when that names a system Go knows, else it is the local
    one; the architecture is never detected, so without a configured one the agent of the
    local architecture is sent. *)
Theorem ssh_platform version goos goarch r :
  let info := match ssh_DetectPlatform version with Some i => (pi_OS i, pi_Arch i) | None => ("", "") end in
  let r' := resolveRemotePlatform info goos goarch r in
  (OS r' = OS r ∨ OS r = "" ∧ (OS r' ∈ known_os ∨ OS r' = goos)) ∧
  (OS r = "" → ∀ v, version = Some v → ∀ i, parseServerVersion v = Some i → OS r' = pi_OS i) ∧
  Arch r' = (if String.eqb (Arch r) "" then goarch else Arch r).
Proof.
  cbn zeta. destruct (resolved_platform (match ssh_DetectPlatform version with Some i => (pi_OS i, pi_Arch i) | None => ("", "") end)
    goos goarch r) as [-> ->].
  assert (∀ i, ssh_DetectPlatform version = Some i → pi_OS i ≠ "" ∧ pi_OS i ∈ known_os ∧ pi_Arch i = "") as Hp.
  { intros i. destruct version as [v|]; [apply server_version_os|done]. }
  destruct (ssh_DetectPlatform version) as [i|] eqn:Hv; simpl.
  - destruct (Hp i eq_refl) as (Hne & Hin & ->). apply seqb_false in Hne. rewrite Hne.
    destruct (String.eqb_spec (OS r) "") as [Eo|Eo]; split_and!; auto; try done.
    intros _ v -> j Hj. simpl in Hv. by simplify_eq.
  - destruct (String.eqb_spec (OS r) "") as [Eo|Eo]; split_and!; auto; try done.
    intros _ v -> j Hj. simpl in Hv. by simplify_eq.
Qed.

(** ** Witnesses *)

Module Demo.
(** A client that takes everything; its state counts the bytes written. *)
Definition sink (r : req) (n : Z) : reply r * Z :=
  match r return reply r * Z with
  | FOpen _ | FCreate _ | FOpenFile _ _ _ => (Ok 7, n)
  | FStat _ | FLstat _ | HStat _ => (Err EOther, n)
  | FReadDir _ => (Err EOther, n)
  | FReadlink _ => (Err EOther, n)
  | FGetwd => (Ok "/home/u", n)
  | FStatfs _ => (Err EOther, n)
  | HReadAt _ _ _ => ("", Some EEOF, n)
  | HWrite _ data => (Z.of_nat (slen data), None, n + Z.of_nat (slen data))
  | HWriteAt _ data _ => (Z.of_nat (slen data), None, n + Z.of_nat (slen data))
  | _ => (None, n)
  end.

Definition src0 : local_reads := [("agent", None); ("", None); (" bits", Some EEOF)].

Definition uploaded : list event * result go_err string * Z :=
  trace sink (uploadViaFileClient (Ok src0) "~/.cache/agent" o755) 0.
Lemma upload_exact_witness :
  ∃ home h chunks, uploaded.1.1 = upload_exchanges home "/home/u/.cache/agent" o755 h chunks ∧ sconcat chunks = "agent bits".
Proof.
  destruct (upload_exact sink (Ok src0) "~/.cache/agent" o755 0 uploaded.1.1 "/home/u/.cache/agent" uploaded.2)
    as (src & home & h & chunks & Hs & Hc & Hl & _); [vm_compute; reflexivity|].
  injection Hs as <-. vm_compute in Hc. injection Hc as Hc. by exists home, h, chunks.
Defined.

(** A file that cannot be read to its end, and a client that takes half of a write. *)
Definition half (r : req) (n : Z) : reply r * Z :=
  match r return reply r * Z with
  | HWrite _ data => (Z.of_nat (slen data) / 2, None, n + Z.of_nat (slen data) / 2)
  | r => sink r n
  end.
Example upload_failures :
  (trace sink (uploadViaFileClient (Ok [("agent", Some EOther)]) "/a" o755) 0).1.2 = Err EOther ∧
  (trace half (uploadViaFileClient (Ok src0) "/a" o755) 0).1.2 = Err EOther.
Proof. by vm_compute. Qed.

(** A banner that mentions none of the tags, and one whose host name contains one. *)
Example banners :
  parseServerVersion "SSH-2.0-OpenSSH_9.6p1 Ubuntu-3ubuntu13" = Some (mkPlatform "linux" "" "") ∧
  parseServerVersion "SSH-2.0-OpenSSH_for_Windows_8.1" = Some (mkPlatform "windows" "" "") ∧
  parseServerVersion "SSH-2.0-OpenSSH_9.6" = None ∧
  parseServerVersion "SSH-2.0-OpenSSH_9.6 research-gw" = Some (mkPlatform "linux" "" "").
Proof. split_and!; vm_compute; reflexivity. Qed.

Example dial_settings :
  dial_addr (Some "fe80::1") None = "[fe80::1]:22" ∧ connect_timeout (15 * Second) None = Some 15 ∧
  connect_timeout 1 (Some 0) = Some 1 ∧ connect_timeout (15 * Second) (Some 4) = Some 4 ∧ keepalive_interval (Some 30) = 30 * Second.
Proof. split_and!; vm_compute; reflexivity. Qed.
End Demo.
