(* ===== verification/DockerContext.v ===== *)
(** * DockerContext: which daemon and which container

    Models [pkg/remote/docker]: the resolution of the daemon's address and of the way it is
    dialed ([contextresolver.go], [sshdaemon.go], [sshdaemon_ssh.go]), the resolution of a
    compose service to a container ([compose.go]) and the platform of a daemon
    ([platform.go]).  The environment, the files and their JSON and YAML decoders, the
    SHA-256 of a context name, the daemon's container list and the docker client library
    are parameters; what the code relies on of the last two is stated as their laws. *)

From S2P Require Import Prelude GoStrings GoPaths RemoteExec InitCmd SshBackend.
Local Open Scope go_scope.

(** ** Client options *)

(** How the client connects: as its host says, bound to a local address, through the ssh
    helper of the docker command line, or through the built-in ssh transport. *)
Inductive dial_kind : Type :=
  | DialDefault | DialBound (bind iface : string) | DialInsecure
  | DialHelper (host : string) | DialBuiltinSSH (host bind iface : string).

Inductive client_opt : Type :=
  | FromEnv | WithHost (host : string) | WithTLSClientConfig (ca cert key : string)
  | WithInsecureClient | WithDialContext (d : dial_kind).

(** The client of the docker library: what the options make of it. *)
Class DockerSDK := {
  sdk_client : Type;
  sdk_zero : sdk_client;
  sdk_apply : client_opt → sdk_client → sdk_client;
  sdk_host : sdk_client → string;       (** empty for the library's default *)
  sdk_dial : sdk_client → dial_kind;
}.

(** What the code relies on: the environment's host is taken by [FromEnv]; [WithHost]
    configures the transport anew, dial function included; [WithDialContext] replaces the
    dial function only; the TLS option touches neither; a client of one's own dials its
    own way. *)
Class DockerSDKLaws (dockerHost : string) (K : DockerSDK) : Prop := {
  sdk_zero_default : sdk_host sdk_zero = "" ∧ sdk_dial sdk_zero = DialDefault;
  sdk_FromEnv c : sdk_host (sdk_apply FromEnv c) = (if String.eqb dockerHost "" then sdk_host c else dockerHost) ∧
    sdk_dial (sdk_apply FromEnv c) = (if String.eqb dockerHost "" then sdk_dial c else DialDefault);
  sdk_WithHost h c : sdk_host (sdk_apply (WithHost h) c) = h ∧ sdk_dial (sdk_apply (WithHost h) c) = DialDefault;
  sdk_WithTLS ca cert key c : sdk_host (sdk_apply (WithTLSClientConfig ca cert key) c) = sdk_host c ∧
    sdk_dial (sdk_apply (WithTLSClientConfig ca cert key) c) = sdk_dial c;
  sdk_Insecure c : sdk_host (sdk_apply WithInsecureClient c) = sdk_host c ∧
    sdk_dial (sdk_apply WithInsecureClient c) = DialInsecure;
  sdk_Dial d c : sdk_host (sdk_apply (WithDialContext d) c) = sdk_host c ∧
    sdk_dial (sdk_apply (WithDialContext d) c) = d;
}.

(** [client.New]: the options in order. *)
Definition client_New {K : DockerSDK} (opts : list client_opt) : sdk_client :=
  foldl (λ c o, sdk_apply o c) sdk_zero opts.

(** ** The context store *)

Definition isLocalSocket (host : string) : bool :=
  String.eqb host "" || HasPrefix host "unix://" || HasPrefix host "npipe://" || HasPrefix host "fd:".

Inductive read_result : Type := RData (data : string) | RNotExist | RFailed.

(** The local machine: environment, home directory, files and decoders. *)
Record docker_host := mkDockerHost {
  dh_env : string → string;
  dh_home : string;
  dh_read : string → read_result;
  dh_exists : string → bool;
  dh_current : string → option string;                  (** [currentContext] of a config.json *)
  dh_meta : string → option (option string);            (** the "docker" endpoint of a meta.json, raw *)
  dh_endpoint : string → option (string * bool);        (** its host and [SkipTLSVerify] *)
  dh_hash : string → string;                            (** hexadecimal SHA-256 *)
}.

Inductive ctx_error : Type :=
  | CErrNotFound (name : string) | CErrRead (name : string) | CErrMeta (name : string) | CErrNoEndpoint (name : string)
  | CErrEndpoint (name : string) | CErrBind | CErrHelper (host : string) | CErrBuiltin (host : string).

Record contextEndpoint := mkEndpoint { ep_host : string; ep_skipTLSVerify : bool; ep_tlsDir : string }.

Section context.
Variable h : docker_host.

Definition dockerConfigDir : string :=
  let d := dh_env h "DOCKER_CONFIG" in
  if negb (String.eqb d "") then d else PathJoin (dh_home h) ".docker".

Definition currentContextFromConfig : string :=
  match dh_read h (PathJoin dockerConfigDir "config.json") with
  | RData data => default "" (dh_current h data)
  | _ => ""
  end.

(** [filepath.Join] of several elements. *)
Definition joins (l : list string) : string := foldl PathJoin "" l.

Definition endpointFromContextStore (name : string) : result ctx_error contextEndpoint :=
  let hash := dh_hash h name in
  match dh_read h (joins [dockerConfigDir; "contexts"; "meta"; hash; "meta.json"]) with
  | RNotExist => Err (CErrNotFound name)
  | RFailed => Err (CErrRead name)
  | RData data =>
      match dh_meta h data with
      | None => Err (CErrMeta name)
      | Some None => Err (CErrNoEndpoint name)
      | Some (Some raw) =>
          match dh_endpoint h raw with
          | None => Err (CErrEndpoint name)
          | Some (host, skip) => Ok (mkEndpoint host skip (joins [dockerConfigDir; "contexts"; "tls"; hash; "docker"]))
          end
      end
  end.

Definition tlsClientOpt (ep : contextEndpoint) : option client_opt :=
  if isLocalSocket (ep_host ep) then None
  else
    let caPath := PathJoin (ep_tlsDir ep) "ca.pem" in
    let certPath := PathJoin (ep_tlsDir ep) "cert.pem" in
    let keyPath := PathJoin (ep_tlsDir ep) "key.pem" in
    let hasCerts := dh_exists h certPath && dh_exists h keyPath in
    if negb (ep_skipTLSVerify ep) && negb hasCerts && negb (dh_exists h caPath) then None
    else if negb (ep_skipTLSVerify ep) then
      Some (WithTLSClientConfig (if dh_exists h caPath then caPath else "")
              (if hasCerts then certPath else "") (if hasCerts then keyPath else ""))
    else Some WithInsecureClient.

Definition rootlessSocket : string :=
  let xdg := dh_env h "XDG_RUNTIME_DIR" in
  if String.eqb xdg "" then ""
  else let sock := PathJoin xdg "docker.sock" in if dh_exists h sock then sock else "".

(** The options and the daemon's host. *)
Definition resolveBaseOpts (cfgHost : string) : result ctx_error (list client_opt * string) :=
  let base := [FromEnv] in
  if negb (String.eqb cfgHost "") then Ok (base ++ [WithHost cfgHost], cfgHost)
  else
    let dockerHost := dh_env h "DOCKER_HOST" in
    if negb (String.eqb dockerHost "") then Ok (base, dockerHost)
    else
      let contextName := let n := dh_env h "DOCKER_CONTEXT" in
        if String.eqb n "" then currentContextFromConfig else n in
      if String.eqb contextName "" || String.eqb contextName "default" then
        let sock := rootlessSocket in
        if negb (String.eqb sock "") then
          let host := "unix://" +:+ sock in Ok (base ++ [WithHost host], host)
        else Ok (base, "")
      else
        match endpointFromContextStore contextName with
        | Err e => Err e
        | Ok ep =>
            Ok (base ++ (if negb (String.eqb (ep_host ep) "") then [WithHost (ep_host ep)] else [])
                 ++ (match tlsClientOpt ep with Some o => [o] | None => [] end), ep_host ep)
        end.

(** ** Transport *)

Definition dummySSHDaemonHost : string := "http://docker.example.com".

(** Whether the local binding resolves ([dialer.New]), what the connection helper answers
    for a host, and whether the built-in transport can be set up for it. *)
Record transports := mkTransports {
  tp_bind : string → string → bool;
  tp_helper : string → option (option string);
  tp_builtin : string → string → string → bool;
}.
Variable t : transports.

Definition appendBindDial (opts : list client_opt) (host bind iface : string) : result ctx_error (list client_opt) :=
  if String.eqb bind "" && String.eqb iface "" then Ok opts
  else if isLocalSocket host then Ok opts
  else if tp_bind t bind iface then Ok (opts ++ [WithDialContext (DialBound bind iface)])
  else Err CErrBind.

Definition sshDaemonDialer (host bind iface : string) : result ctx_error (dial_kind * string) :=
  if negb (String.eqb bind "") || negb (String.eqb iface "") then
    if tp_builtin t host bind iface then Ok (DialBuiltinSSH host bind iface, dummySSHDaemonHost) else Err (CErrBuiltin host)
  else match tp_helper t host with
       | Some (Some helper_host) => Ok (DialHelper host, helper_host)
       | _ => Err (CErrHelper host)
       end.

Definition appendSSHDaemonDial (opts : list client_opt) (host bind iface : string) : result ctx_error (list client_opt) :=
  match sshDaemonDialer host bind iface with
  | Err e => Err e
  | Ok (d, dummyHost) => Ok (opts ++ [WithHost dummyHost; WithDialContext d])
  end.

Definition resolveClientOpts (cfgHost bind iface : string) : result ctx_error (list client_opt) :=
  match resolveBaseOpts cfgHost with
  | Err e => Err e
  | Ok (opts, host) =>
      if HasPrefix host "ssh://" then appendSSHDaemonDial opts host bind iface
      else appendBindDial opts host bind iface
  end.

(** ** What the client does *)

(** The documented chain: the configuration, DOCKER_HOST, then the context; a context
    without a host, and the default context without a rootless socket, mean the client's
    default (the empty host). *)
Definition context_name : string :=
  let n := dh_env h "DOCKER_CONTEXT" in if String.eqb n "" then currentContextFromConfig else n.
Definition chosen_host (cfgHost : string) : result ctx_error string :=
  if negb (String.eqb cfgHost "") then Ok cfgHost
  else if negb (String.eqb (dh_env h "DOCKER_HOST") "") then Ok (dh_env h "DOCKER_HOST")
  else if String.eqb context_name "" || String.eqb context_name "default"
       then Ok (if String.eqb rootlessSocket "" then "" else "unix://" +:+ rootlessSocket)
       else match endpointFromContextStore context_name with Err e => Err e | Ok ep => Ok (ep_host ep) end.

Definition is_tls (o : client_opt) : bool :=
  match o with WithTLSClientConfig _ _ _ | WithInsecureClient => true | _ => false end.

(** The library, and its laws for the DOCKER_HOST of this environment. *)
Context {K : DockerSDK} {KL : DockerSDKLaws (dh_env h "DOCKER_HOST") K}.

Lemma client_New_snoc opts o : client_New (opts ++ [o]) = sdk_apply o (client_New opts).
Proof. unfold client_New. by rewrite foldl_app. Qed.

Lemma env_client :
  sdk_host (client_New [FromEnv]) = dh_env h "DOCKER_HOST" ∧ sdk_dial (client_New [FromEnv]) = DialDefault.
Proof.
  unfold client_New. cbn. destruct (sdk_FromEnv sdk_zero) as [-> ->], sdk_zero_default as [-> ->].
  destruct (String.eqb (dh_env h "DOCKER_HOST") "") eqn:E; [|done]. by apply seqb_true in E as ->.
Qed.

(** A client whose host is set or left alone, then its TLS option. *)
Definition base_client (opts : list client_opt) (host : string) : Prop :=
  sdk_host (client_New opts) = host ∧ (isLocalSocket host = true → Forall (λ o, is_tls o = false) opts) ∧
  (sdk_dial (client_New opts) = DialDefault ∨
   sdk_dial (client_New opts) = DialInsecure ∧ isLocalSocket host = false).

Lemma base_client_env : base_client [FromEnv] (dh_env h "DOCKER_HOST").
Proof. destruct env_client. split_and!; [done|by repeat constructor|by left]. Qed.
Lemma base_client_host host : base_client ([FromEnv] ++ [WithHost host]) host.
Proof.
  unfold base_client. rewrite client_New_snoc. destruct (sdk_WithHost host (client_New [FromEnv])) as [-> ->].
  split_and!; [done|by repeat constructor|by left].
Qed.
Lemma tlsClientOpt_tls ep o : tlsClientOpt ep = Some o → is_tls o = true ∧ isLocalSocket (ep_host ep) = false.
Proof. unfold tlsClientOpt. repeat case_match; intros; by simplify_eq. Qed.
Lemma tls_apply o c :
  is_tls o = true → sdk_host (sdk_apply o c) = sdk_host c ∧
    (sdk_dial (sdk_apply o c) = sdk_dial c ∨ sdk_dial (sdk_apply o c) = DialInsecure).
Proof.
  destruct o as [| |ca cert key| |]; try done; intros _;
    [destruct (sdk_WithTLS ca cert key c)|destruct (sdk_Insecure c)]; auto.
Qed.
Lemma base_client_tls opts ep :
  base_client opts (ep_host ep) → sdk_dial (client_New opts) = DialDefault →
  base_client (opts ++ match tlsClientOpt ep with Some o => [o] | None => [] end) (ep_host ep).
Proof.
  intros (Hh & Ht & Hd') Hd. destruct (tlsClientOpt ep) as [o|] eqn:E; [|by rewrite app_nil_r].
  apply tlsClientOpt_tls in E as [Ho El]. unfold base_client. rewrite client_New_snoc, El, <- Hh.
  destruct (tls_apply o (client_New opts) Ho) as [-> Hc]. rewrite Hd in Hc. split_and!; [done|done|tauto].
Qed.

(** The host that is returned is the one the client gets from the options. *)
Lemma base_opts_host cfgHost :
  match resolveBaseOpts cfgHost with
  | Err e => chosen_host cfgHost = Err e
  | Ok (opts, host) => chosen_host cfgHost = Ok host ∧ base_client opts host
  end.
Proof.
  unfold resolveBaseOpts, chosen_host. fold context_name. cbn zeta.
  destruct (String.eqb cfgHost ""); cbn [negb]; [|split; [done|apply base_client_host]].
  pose proof base_client_env as He.
  destruct (String.eqb (dh_env h "DOCKER_HOST") "") eqn:E2; cbn [negb]; [|by split].
  apply seqb_true in E2. rewrite E2 in He.
  destruct (String.eqb context_name "" || String.eqb context_name "default").
  { destruct (String.eqb rootlessSocket ""); split; try done; apply base_client_host. }
  destruct (endpointFromContextStore context_name) as [ep|e]; [|done]. split; [done|].
  destruct (String.eqb (ep_host ep) "") eqn:E4; cbn [negb]; [apply seqb_true in E4|]; rewrite app_assoc;
    apply base_client_tls; rewrite ?app_nil_r, ?E4; auto using base_client_host; [by apply env_client|].
  rewrite client_New_snoc. apply sdk_WithHost.
Qed.

(** C36: the client is dialed where and how the configuration says: its host is the first of
    the configured one, DOCKER_HOST, the named context's and the rootless socket; a local
    socket is dialed as it is and gets no TLS option, a TCP daemon is dialed from the
    configured local address, and an ssh daemon through the system's ssh, unless a local
    address is configured, which only the built-in transport honours.  The dial function is
    installed after the host, which would reset it. *)
Theorem docker_transport cfgHost bind iface opts :
  resolveClientOpts cfgHost bind iface = Ok opts →
  ∃ host, chosen_host cfgHost = Ok host ∧
    let c := client_New opts in
    let bound := negb (String.eqb bind "") || negb (String.eqb iface "") in
    if HasPrefix host "ssh://" then
      sdk_dial c = (if bound then DialBuiltinSSH host bind iface else DialHelper host) ∧
      (bound = true → sdk_host c = dummySSHDaemonHost)
    else
      sdk_host c = host ∧
      (if bound && negb (isLocalSocket host) then sdk_dial c = DialBound bind iface
       else sdk_dial c = DialDefault ∨ sdk_dial c = DialInsecure ∧ isLocalSocket host = false) ∧
      (isLocalSocket host = true → Forall (λ o, is_tls o = false) opts).
Proof.
  unfold resolveClientOpts. pose proof (base_opts_host cfgHost) as Hb.
  destruct (resolveBaseOpts cfgHost) as [[bopts host]|e]; [|done]. destruct Hb as (Hc & Hh & Ht & Hd).
  intros Ho. exists host. split; [done|]. cbn zeta. destruct (HasPrefix host "ssh://").
  - unfold appendSSHDaemonDial, sshDaemonDialer in Ho.
    assert (∀ d hh, opts = bopts ++ [WithHost hh; WithDialContext d] →
      sdk_dial (client_New opts) = d ∧ sdk_host (client_New opts) = hh) as Hlast.
    { intros d hh ->. change [WithHost hh; WithDialContext d] with ([WithHost hh] ++ [WithDialContext d]).
      rewrite app_assoc, !client_New_snoc.
      destruct (sdk_Dial d (sdk_apply (WithHost hh) (client_New bopts))) as [-> ->]. split; [done|]. apply sdk_WithHost. }
    destruct (negb _ || negb _).
    + destruct (tp_builtin t host bind iface); simplify_eq. by destruct (Hlast _ _ eq_refl).
    + destruct (tp_helper t host) as [[hh|]|]; simplify_eq. by destruct (Hlast _ _ eq_refl).
  - unfold appendBindDial in Ho. destruct (String.eqb bind "" && String.eqb iface "") eqn:Eb.
    + simplify_eq. apply andb_true_iff in Eb as [-> ->]. done.
    + assert (negb (String.eqb bind "") || negb (String.eqb iface "") = true) as -> by
        (destruct (String.eqb bind ""), (String.eqb iface ""); done).
      destruct (isLocalSocket host) eqn:El; [by simplify_eq|].
      destruct (tp_bind t bind iface); simplify_eq. rewrite client_New_snoc. cbn [andb negb].
      by destruct (sdk_Dial (DialBound bind iface) (client_New bopts)) as [-> ->].
Qed.
End context.

(** ** Compose projects (compose.go) *)

Definition composeFileNames : list string :=
  ["compose.yaml"; "compose.yml"; "docker-compose.yaml"; "docker-compose.yml"].

(** [[a-z0-9_-]] *)
Definition project_char (c : ascii) : bool :=
  let n := N_of_ascii c in
  ((97 <=? n) && (n <=? 122) || (48 <=? n) && (n <=? 57) || (n =? 95) || (n =? 45))%N.
Definition edge_char (c : ascii) : bool := Ascii.eqb c "_" || Ascii.eqb c "-".

Fixpoint keep_bytes (p : ascii → bool) (s : string) : string :=
  match s with
  | EmptyString => EmptyString
  | String c s => if p c then String c (keep_bytes p s) else keep_bytes p s
  end.

Definition normalizeProjectName (s : string) : string := trim_left edge_char (keep_bytes project_char (ToLower s)).

(** [read] is the content of a file, [name] the "name:" field of a compose file. *)
Fixpoint name_from_files (read : string → option string) (name : string → option string) (dir : string) (files : list string) :
    option string :=
  match files with
  | [] => None
  | f :: files =>
      match read (PathJoin dir f) with
      | None => name_from_files read name dir files
      | Some data =>
          match name data with
          | Some n => if negb (String.eqb n "") then Some n else name_from_files read name dir files
          | None => name_from_files read name dir files
          end
      end
  end.

Definition ResolveCurrentProject (envName : string) (read : string → option string) (name : string → option string)
    (dir : string) : string :=
  if negb (String.eqb envName "") then envName
  else match name_from_files read name dir composeFileNames with
       | Some n => n
       | None => normalizeProjectName (Base dir)
       end.

(** ** Compose services *)

Inductive list_filter : Type := FLabel (k v : string) | FRunning.

Definition compose_filters (project service : string) (sequence : Z) : list list_filter :=
  [FLabel "com.docker.compose.project" project; FLabel "com.docker.compose.service" service; FRunning]
  ++ (if (0 <? sequence)%Z then [FLabel "com.docker.compose.container-number" (Itoa sequence)] else []).

Inductive compose_error : Type := PErrList | PErrNone | PErrMany (n : nat) | PErrProject | PErrGetwd
  | PErrContext (e : ctx_error) | PErrClient.

(** [ids] is what the daemon lists for filters. *)
Definition ResolveComposeService (ids : list list_filter → option (list string)) (project service : string) (sequence : Z) :
    result compose_error string :=
  match ids (compose_filters project service sequence) with
  | None => Err PErrList
  | Some [] => Err PErrNone
  | Some [id] => Ok id
  | Some l => Err (PErrMany (length l))
  end.

(** [NewFromCompose] up to the container; [cli] is the client, made after the project is
    resolved. *)
Definition NewFromCompose (cwd : option string) (current : string → string)
    (cli : result compose_error (list list_filter → option (list string))) (project service : string) (sequence : Z) :
    result compose_error string :=
  let resolved := if String.eqb project "." then
      match cwd with None => Err PErrGetwd | Some d => Ok (current d) end else Ok project in
  match resolved with
  | Err e => Err e
  | Ok project =>
      if String.eqb project "" then Err PErrProject
      else match cli with
           | Err e => Err e
           | Ok ids => ResolveComposeService ids project service sequence
           end
  end.

(** What the documentation of the daemon says of the filters: a container is listed when it
    has every label with its value and, if asked, is running. *)
Record container := mkContainerInfo { ct_id : string; ct_labels : gmap string string; ct_running : bool }.
Definition passes (c : container) (f : list_filter) : bool :=
  match f with FLabel k v => bool_decide (ct_labels c !! k = Some v) | FRunning => ct_running c end.
Definition listed (cs : list container) (fs : list list_filter) : list string :=
  ct_id <$> base.filter (λ c, Is_true (forallb (passes c) fs)) cs.
(** A daemon with the containers [cs], for the requests it answers. *)
Definition daemon_lists (ids : list list_filter → option (list string)) (cs : list container) : Prop :=
  ∀ fs l, ids fs = Some l → l = listed cs fs.

(** The containers of a service, or of one replica of it. *)
Definition of_service (project service : string) (sequence : Z) (c : container) : Prop :=
  ct_labels c !! "com.docker.compose.project" = Some project ∧
  ct_labels c !! "com.docker.compose.service" = Some service ∧ ct_running c = true ∧
  ((0 < sequence)%Z → ct_labels c !! "com.docker.compose.container-number" = Some (Itoa sequence)).

Lemma passes_service project service sequence c :
  Is_true (forallb (passes c) (compose_filters project service sequence)) ↔ of_service project service sequence c.
Proof.
  unfold compose_filters, of_service. destruct (Z.ltb_spec 0 sequence) as [Hs|Hs]; simpl;
    rewrite ?andb_true_r, ?andb_True, ?bool_decide_spec; split; intros; destruct_and?; split_and?; try done; try tauto; try lia;
    try (by apply Is_true_eq_true); by apply Is_true_eq_left.
Qed.

(** With a daemon that answers, a compose service resolves to a container exactly when one
    running container, and only one, carries its project and service labels and, when a
    replica number is given, that number. *)
Theorem compose_service_unique ids cs project service sequence id :
  daemon_lists ids cs → is_Some (ids (compose_filters project service sequence)) →
  ResolveComposeService ids project service sequence = Ok id ↔
  ∃ pre c post, cs = pre ++ c :: post ∧ ct_id c = id ∧ of_service project service sequence c ∧
    Forall (λ d, ¬ of_service project service sequence d) (pre ++ post).
Proof.
  intros Hids [l Hl]. unfold ResolveComposeService. rewrite Hl. apply Hids in Hl as ->. unfold listed.
  set (P := λ c, Is_true (forallb (passes c) (compose_filters project service sequence))).
  assert (∀ c, P c ↔ of_service project service sequence c) as HP by (intros; apply passes_service).
  split.
  - destruct (base.filter P cs) as [|c [|d l]] eqn:E; simpl; intros; simplify_eq.
    assert (c ∈ base.filter P cs) as Hc by (rewrite E; left).
    apply list_elem_of_filter in Hc as [HPc Hin]. apply list_elem_of_split in Hin as (pre & post & ->).
    exists pre, c, post. split_and!; [done|done|by apply HP|].
    rewrite filter_app, filter_cons_True in E by done.
    assert (base.filter P pre = [] ∧ base.filter P post = []) as [Hpre Hpost].
    { apply (f_equal length) in E. rewrite length_app, !length_cons, length_nil in E.
      split; apply length_zero_iff_nil; lia. }
    apply Forall_app. split; apply Forall_forall; intros d Hd HPd%HP;
      [eapply (not_elem_of_nil d); rewrite <- Hpre|eapply (not_elem_of_nil d); rewrite <- Hpost]; by apply list_elem_of_filter.
  - intros (pre & c & post & -> & <- & Hc%HP & [Hpre Hpost]%Forall_app).
    assert (∀ l, Forall (λ d, ¬ of_service project service sequence d) l → base.filter P l = []) as Hnone.
    { induction 1 as [|d l Hd _ IH]; [done|]. rewrite filter_cons_False; [done|]. by rewrite HP. }
    by rewrite filter_app, filter_cons_True, !Hnone by done.
Qed.

(** ** Project names *)

(** A valid project name: lower-case letters, digits, dashes and underscores, not beginning
    with one of the last two. *)
Definition project_name (n : string) : Prop := all_bytes project_char n ∧ first_not edge_char n.

Lemma lower_project c : project_char c = true → lower_byte c = c ∧ Ascii.eqb c "196" = false ∧ Ascii.eqb c "226" = false.
Proof. destruct c as [[] [] [] [] [] [] [] []]; vm_compute; intros H; try discriminate H; repeat split. Qed.

Lemma ToLower_project s : all_bytes project_char s → ToLower s = s.
Proof. induction s as [|c s IH]; [done|]. intros [Hc Hs]. apply lower_project in Hc as (Hc & H1 & H2). by rewrite ToLower_cons, Hc, IH. Qed.

Lemma keep_all p s : all_bytes p s → keep_bytes p s = s.
Proof. induction s as [|c s IH]; [done|]. intros [Hc Hs]. simpl. by rewrite Hc, IH. Qed.

Lemma all_keep p s : all_bytes p (keep_bytes p s).
Proof. induction s as [|c s IH]; [done|]. simpl. destruct (p c) eqn:E; [by split|done]. Qed.

Lemma all_trim p q s : all_bytes p s → all_bytes p (trim_left q s).
Proof. induction s as [|c s IH]; [done|]. intros [Hc Hs]. simpl. destruct (q c); [by apply IH|by split]. Qed.

(** A directory name becomes a valid project name, or the empty one, which is rejected
    later; a name that is valid already is kept, so that the result is the same when it is
    normalised again. *)
Theorem project_name_valid s :
  project_name (normalizeProjectName s) ∧
  (project_name s → normalizeProjectName s = s).
Proof.
  unfold normalizeProjectName, project_name. split.
  - split; [apply all_trim, all_keep|apply trim_left_first].
  - intros [Ha Hf]. rewrite ToLower_project, keep_all by done. by apply trim_left_id.
Qed.

(** ** Platform (platform.go) *)

Fixpoint assoc (k : string) (l : list (list string * string)) : option string :=
  match l with
  | [] => None
  | (ks, v) :: l => if existsb (String.eqb k) ks then Some v else assoc k l
  end.

Definition os_names : list (list string * string) :=
  [(["linux"], "linux"); (["darwin"; "macos"; "osx"], "darwin"); (["windows"], "windows"); (["freebsd"], "freebsd");
   (["openbsd"], "openbsd"); (["netbsd"], "netbsd"); (["dragonfly"], "dragonfly"); (["solaris"; "sunos"; "illumos"], "solaris")].

Definition normalizeOS (s : string) : string := default "" (assoc (ToLower (TrimSpace s)) os_names).

Definition arch_names : list (list string * (string * string)) :=
  [(["x86_64"; "amd64"], ("amd64", "")); (["aarch64"; "arm64"], ("arm64", "")); (["armv8l"; "armv8"], ("arm64", "v8"));
   (["armv7l"; "armv7"; "armhf"], ("arm", "v7")); (["armv6l"; "armv6"], ("arm", "v6"));
   (["armv5l"; "armv5"; "armel"], ("arm", "v5")); (["arm"], ("arm", ""));
   (["i386"; "i486"; "i586"; "i686"; "x86"], ("386", "")); (["ppc64"], ("ppc64", "")); (["ppc64le"], ("ppc64le", ""));
   (["s390x"], ("s390x", "")); (["riscv64"], ("riscv64", "")); (["mips"], ("mips", "")); (["mipsle"; "mipsel"], ("mipsle", ""));
   (["mips64"], ("mips64", "")); (["mips64le"; "mips64el"], ("mips64le", "")); (["loongarch64"; "loong64"], ("loong64", ""))].

Fixpoint assoc2 (k : string) (l : list (list string * (string * string))) : option (string * string) :=
  match l with
  | [] => None
  | (ks, v) :: l => if existsb (String.eqb k) ks then Some v else assoc2 k l
  end.

Definition normalizeArch (s : string) : option (string * string) := assoc2 (ToLower (TrimSpace s)) arch_names.

Definition platformFromInfo (osType arch : string) : PlatformInfo :=
  match normalizeArch arch with
  | Some (a, v) => mkPlatform (normalizeOS osType) a v
  | None => mkPlatform (normalizeOS osType) "" ""
  end.

(** [Backend.DetectPlatform], given the daemon's answer. *)
Definition docker_DetectPlatform (info : option (string * string)) : option PlatformInfo :=
  match info with
  | None => None
  | Some (osType, arch) =>
      let out := platformFromInfo osType arch in
      if String.eqb (pi_OS out) "" && String.eqb (pi_Arch out) "" then None else Some out
  end.

(** ** The built-in ssh transport (sshdaemon_ssh.go) *)

Definition trim_slashes (s : string) : string := trim_right (Ascii.eqb slash) (trim_left (Ascii.eqb slash) s).

(** The remote command; [path] is the path of the daemon's URL. *)
Definition dial_command (path : string) : string :=
  if negb (String.eqb (trim_slashes path) "")
  then "docker --host=unix://" +:+ shellQuote path +:+ " system dial-stdio"
  else "docker system dial-stdio".

Inductive dial_op : Type := DConn | DSession | DStdin | DStdout | DStart | DCloseSession | DCloseConn.

(** [dialFn]: the calls it makes, given which of them fail. *)
Definition dial_stdio (conn sess stdin stdout start : bool) : list dial_op * bool :=
  if negb conn then ([DConn], false)
  else if negb sess then ([DConn; DSession; DCloseConn], false)
  else if negb stdin then ([DConn; DSession; DStdin; DCloseSession; DCloseConn], false)
  else if negb stdout then ([DConn; DSession; DStdin; DStdout; DCloseSession; DCloseConn], false)
  else if negb start then ([DConn; DSession; DStdin; DStdout; DStart; DCloseSession; DCloseConn], false)
  else ([DConn; DSession; DStdin; DStdout; DStart], true).

(** The command is read by the remote shell as intended, whatever bytes the path holds. *)
Theorem dial_command_exact path :
  shell_read (dial_command path) =
    Some [if String.eqb (trim_slashes path) "" then ["docker"; "system"; "dial-stdio"]
          else ["docker"; "--host=unix://" +:+ path; "system"; "dial-stdio"]].
Proof.
  unfold dial_command, shell_read. destruct (String.eqb (trim_slashes path) ""); [reflexivity|]. cbn [negb].
  assert (∀ t, lex false None ("docker --host=unix://" +:+ t) =
    (λ l, Word "docker" :: l) <$> lex false (Some "--host=unix://") t) as -> by reflexivity.
  rewrite lex_shellQuote. reflexivity.
Qed.

(** ** Stability of the normalised names *)

Definition go_os : list string := os_names.*2.
Definition go_arch : list string := (fst <$> arch_names.*2).

Lemma assoc_in k l v : assoc k l = Some v → v ∈ l.*2.
Proof.
  induction l as [|[ks w] l IH]; simpl; [done|]. destruct (existsb _ ks); [intros [= ->]; left|]. right. by apply IH.
Qed.
Lemma assoc2_in k l v : assoc2 k l = Some v → v ∈ l.*2.
Proof.
  induction l as [|[ks w] l IH]; simpl; [done|]. destruct (existsb _ ks); [intros [= ->]; left|]. right. by apply IH.
Qed.

(** What a docker daemon reports becomes names Go knows: the operating system and the
    architecture are empty or among the values of GOOS and GOARCH that the agent is built
    for, and a value of that kind is kept, so that a normalised platform is stable, but for
    386, which is not in the table of its own names.  Only ARM has a variant. *)
Theorem docker_platform_normal osType arch :
  let p := platformFromInfo osType arch in
  (pi_OS p = "" ∨ pi_OS p ∈ go_os) ∧ (pi_Arch p = "" ∨ pi_Arch p ∈ go_arch) ∧
  normalizeOS (pi_OS p) = pi_OS p ∧
  (pi_Arch p ≠ "" → pi_Arch p ≠ "386" → ∃ v, normalizeArch (pi_Arch p) = Some (pi_Arch p, v)) ∧
  (pi_Variant p ≠ "" → pi_Arch p = "arm" ∨ pi_Arch p = "arm64").
Proof.
  assert (∀ s, normalizeOS s = "" ∨ normalizeOS s ∈ go_os) as Hos.
  { intros s. unfold normalizeOS. destruct (assoc _ _) as [v|] eqn:E; [|by left]. right. by apply assoc_in in E. }
  assert (Forall (λ o, normalizeOS o = o) go_os) as Hso by (repeat constructor; vm_compute; reflexivity).
  assert (Forall (λ a, a = "386" ∨ ∃ v, normalizeArch a = Some (a, v)) go_arch) as Hsa
    by (repeat (constructor; [first [left; reflexivity|right; eexists; vm_compute; reflexivity]|]); constructor).
  assert (Forall (λ av, av.2 = "" ∨ av.1 = "arm" ∨ av.1 = "arm64") arch_names.*2) as Hv
    by (repeat (constructor; [vm_compute; tauto|]); constructor).
  cbn zeta. unfold platformFromInfo. destruct (normalizeArch arch) as [[a v]|] eqn:Ha; simpl.
  - unfold normalizeArch in Ha. apply assoc2_in in Ha.
    assert (a ∈ go_arch) as Hin by (apply list_elem_of_fmap; by exists (a, v)).
    split_and!; [apply Hos|by right| | |].
    + destruct (Hos osType) as [->|Ho]; [done|]. by apply (proj1 (Forall_forall _ _) Hso).
    + intros _ Hn. by destruct (proj1 (Forall_forall _ _) Hsa a Hin).
    + intros Hne. destruct (proj1 (Forall_forall _ _) Hv _ Ha) as [?|?]; done.
  - split_and!; [apply Hos|by left| |done|done].
    destruct (Hos osType) as [->|Ho]; [done|]. by apply (proj1 (Forall_forall _ _) Hso).
Qed.

(** ** Witnesses *)

Module Demo.
Definition env0 (k : string) : string :=
  if String.eqb k "DOCKER_CONTEXT" then "prod" else "".
Definition host0 : docker_host :=
  mkDockerHost env0 "/home/u"
    (λ p, if String.eqb p "/home/u/.docker/contexts/meta/abc/meta.json" then RData "meta" else RNotExist)
    (λ _, true) (λ _, None) (λ _, Some (Some "raw")) (λ _, Some ("tcp://d:2376", true)) (λ _, "abc").
Definition tp0 : transports := mkTransports (λ _ _, true) (λ _, None) (λ _ _ _, true).

(** A library that keeps the host and the dial function and satisfies the laws. *)
Definition apply0 (dockerHost : string) (o : client_opt) (c : string * dial_kind) : string * dial_kind :=
  match o with
  | FromEnv => if String.eqb dockerHost "" then c else (dockerHost, DialDefault)
  | WithHost h => (h, DialDefault)
  | WithTLSClientConfig _ _ _ => c
  | WithInsecureClient => (c.1, DialInsecure)
  | WithDialContext d => (c.1, d)
  end.
#[local] Instance sdk0 : DockerSDK :=
  {| sdk_client := string * dial_kind; sdk_zero := ("", DialDefault); sdk_apply := apply0 "";
     sdk_host := fst; sdk_dial := snd |}.
#[local] Instance sdk0_laws : DockerSDKLaws (dh_env host0 "DOCKER_HOST") sdk0.
Proof. split; done. Qed.

Lemma docker_transport_witness :
  ∃ opts, resolveClientOpts host0 tp0 "" "10.0.0.1" "" = Ok opts ∧
    sdk_dial (client_New opts) = DialBound "10.0.0.1" "".
Proof.
  destruct (resolveClientOpts host0 tp0 "" "10.0.0.1" "") as [opts|e] eqn:E; [|vm_compute in E; discriminate E].
  destruct (docker_transport host0 tp0 "" "10.0.0.1" "" opts E) as (host & Hc & H).
  vm_compute in Hc. injection Hc as <-. exists opts. split; [reflexivity|]. destruct H as (_ & H & _). exact H.
Defined.

Definition web (n : string) (running : bool) : container :=
  mkContainerInfo ("id" +:+ n)
    {["com.docker.compose.project" := "p"; "com.docker.compose.service" := "web";
      "com.docker.compose.container-number" := n]} running.
Definition cs0 : list container := [web "1" true; web "2" true; web "3" false].

Lemma compose_service_unique_witness :
  daemon_lists (λ fs, Some (listed cs0 fs)) cs0 ∧
  ResolveComposeService (λ fs, Some (listed cs0 fs)) "p" "web" 2 = Ok "id2" ∧
  ResolveComposeService (λ fs, Some (listed cs0 fs)) "p" "web" 0 = Err (PErrMany 2).
Proof.
  split; [by intros fs l [= <-]|]. split; [|vm_compute; reflexivity].
  apply (compose_service_unique (λ fs, Some (listed cs0 fs)) cs0 "p" "web" 2 "id2");
    [by intros fs l [= <-]|by eexists|].
  exists [web "1" true], (web "2" true), [web "3" false]. split; [reflexivity|]. split; [reflexivity|].
  split; [repeat split; vm_compute; reflexivity|].
  repeat constructor; intros (H1 & H2 & H3 & H4); [specialize (H4 eq_refl); vm_compute in H4; discriminate|vm_compute in H3; discriminate].
Defined.

(** A context that skips verification is used without its client certificate, though the
    certificate and its key are in the store. *)
Example skip_verify_drops_certificate :
  tlsClientOpt host0 (mkEndpoint "tcp://d:2376" true "/tls") = Some WithInsecureClient ∧
  tlsClientOpt host0 (mkEndpoint "tcp://d:2376" false "/tls") =
    Some (WithTLSClientConfig "/tls/ca.pem" "/tls/cert.pem" "/tls/key.pem").
Proof. split; vm_compute; reflexivity. Qed.

Example project_names :
  normalizeProjectName "My App.v2" = "myappv2" ∧ normalizeProjectName "__x-1" = "x-1" ∧ normalizeProjectName "..." = "".
Proof. split_and!; vm_compute; reflexivity. Qed.
End Demo.
