(* ===== verification/DockerSession.v ===== *)
(** * DockerSession: commands and files in a container

    Models [pkg/remote/docker/session.go], [backend.go], [upload.go] and the life of the
    long-running agent of [fileclient.go]: the exec session as a state machine with its
    output stream and its waiters, the backend with concurrent [Files] calls, and the upload
    of the agent.  The daemon's answers are arguments. *)

From S2P Require Import Prelude GoStrings GoPaths PathRules FileClient RemoteExec SshBackend.
Local Open Scope go_scope.

(** ** The exec session (session.go) *)

(** What a poll of the daemon says about the exec. *)
Inductive inspect : Type := IErr | IRunning | IExited (code : Z).

(** Why [Wait] fails. *)
Inductive wait_error : Type := WInspect | WCopy | WNotReported.

Record dockerSession := mkDS {
  ds_env : list string;
  ds_started : bool; ds_closed : bool;
  ds_exec : option string;          (** the command of the created exec *)
  ds_hijack : bool; ds_hijack_open : bool;
  ds_pipes_open : bool;
  ds_cancelled : bool;
  ds_done : option (option wait_error * Z);   (** [doneCh] is closed, with waitErr and exitCode *)
}.

Definition newSession : dockerSession := mkDS [] false false None false false true false None.

Definition Setenv (name value : string) (s : dockerSession) : dockerSession :=
  mkDS (ds_env s ++ [name +:+ "=" +:+ value]) (ds_started s) (ds_closed s) (ds_exec s) (ds_hijack s) (ds_hijack_open s)
    (ds_pipes_open s) (ds_cancelled s) (ds_done s).

Definition closePipes (s : dockerSession) : dockerSession :=
  mkDS (ds_env s) (ds_started s) (ds_closed s) (ds_exec s) (ds_hijack s) (ds_hijack_open s) false (ds_cancelled s) (ds_done s).

Inductive start_error : Type := SErrStarted | SErrCreate | SErrAttach.

(** [Start]: [create] and [attach] say whether the daemon's calls succeed. *)
Definition Start (cmdline : string) (create attach : bool) (s : dockerSession) : option start_error * dockerSession :=
  if ds_started s then (Some SErrStarted, s)
  else
    let s := mkDS (ds_env s) true (ds_closed s) (ds_exec s) (ds_hijack s) (ds_hijack_open s) (ds_pipes_open s) (ds_cancelled s) (ds_done s) in
    if negb create then (Some SErrCreate, closePipes s)
    else
      let s := mkDS (ds_env s) true (ds_closed s) (Some cmdline) (ds_hijack s) (ds_hijack_open s) (ds_pipes_open s) (ds_cancelled s) (ds_done s) in
      if negb attach then (Some SErrAttach, closePipes s)
      else (None, mkDS (ds_env s) true (ds_closed s) (ds_exec s) true true (ds_pipes_open s) (ds_cancelled s) (ds_done s)).

(** The polls before the deadline: the first that reports an exit, else the reason. *)
Fixpoint poll_exit (inspectErr copyErr : bool) (polls : list inspect) : option wait_error * Z :=
  match polls with
  | [] => (Some (if inspectErr then WInspect else if copyErr then WCopy else WNotReported), 127%Z)
  | IErr :: polls => poll_exit true copyErr polls
  | IExited code :: _ => (None, code)
  | IRunning :: polls => poll_exit inspectErr copyErr polls
  end.

(** [markDone], which the goroutine of the output stream runs when the stream ends. *)
Definition markDone (copyErr : bool) (polls : list inspect) (s : dockerSession) : dockerSession :=
  mkDS (ds_env s) (ds_started s) (ds_closed s) (ds_exec s) (ds_hijack s) (ds_hijack_open s) (ds_pipes_open s) (ds_cancelled s)
    (Some (poll_exit false copyErr polls)).

(** [Wait]: [None] while it blocks. *)
Inductive ds_wait : Type := DWBefore | DWErr (e : wait_error) | DWExit (code : Z) | DWOk.
Definition Wait (s : dockerSession) : option ds_wait :=
  if negb (ds_started s) then Some DWBefore
  else match ds_done s with
       | None => None
       | Some (Some e, _) => Some (DWErr e)
       | Some (None, code) => Some (if (code =? 0)%Z then DWOk else DWExit code)
       end.

Definition Close (s : dockerSession) : dockerSession :=
  if ds_closed s then s
  else mkDS (ds_env s) (ds_started s) true (ds_exec s) (ds_hijack s) false false true (ds_done s).

(** The life of a session: calls of its user, and the end of the output stream, which comes
    at most once and only when the stream was attached. *)
Inductive ds_step : dockerSession → dockerSession → Prop :=
  | ds_setenv n v s : ds_step s (Setenv n v s)
  | ds_start cmd create attach s : ds_step s (Start cmd create attach s).2
  | ds_stream_end copyErr polls s : ds_hijack s = true → ds_done s = None → ds_step s (markDone copyErr polls s)
  | ds_close s : ds_step s (Close s).

Definition ds_reachable (s : dockerSession) : Prop := rtc ds_step newSession s.

(** The result of [Wait] as the runners see it. *)
Definition session_wait (w : ds_wait) : wait_result :=
  match w with DWOk => WaitOk | DWExit code => WaitExit code | _ => WaitErr end.

Record ds_inv (s : dockerSession) : Prop := {
  di_hijack : ds_hijack s = true → ds_started s = true ∧ is_Some (ds_exec s);
  di_done : is_Some (ds_done s) → ds_hijack s = true;
  di_closed : ds_closed s = true → ds_pipes_open s = false ∧ ds_cancelled s = true;
}.

Lemma ds_inv_reachable s : ds_reachable s → ds_inv s.
Proof.
  revert s. apply (rtc_ind_r ds_inv); [split; simpl; [done|by intros []|done]|].
  intros s s' _ Hs [H1 H2 H3]. destruct Hs as [n v s|cmd create attach s|ce polls s Hh Hd|s].
  - by split.
  - unfold Start. destruct (ds_started s) eqn:E; [simpl; split; simpl; rewrite ?E; auto|].
    assert (ds_hijack s = false) as Hn.
    { destruct (ds_hijack s); [|done]. by destruct (H1 eq_refl). }
    assert (ds_done s = None) as Hd.
    { destruct (ds_done s); [|done]. rewrite H2 in Hn; [done|by eexists]. }
    assert (ds_closed s = true → ds_cancelled s = true) as Hc by (intros Hc; by destruct (H3 Hc)).
    destruct create; [destruct attach|]; simpl; split; simpl; rewrite ?Hn, ?Hd; try done; try (by intros []); auto.
  - split; simpl; auto.
  - unfold Close. destruct (ds_closed s) eqn:E; split; simpl; rewrite ?E; auto.
Qed.

(** [Wait] reports what the daemon reported: once the output has ended, the exit code of
    the first poll that finds the command finished, and an error (with 127 as code) when no
    poll before the deadline does; [Wait] is never answered before the output has ended. *)
Theorem docker_wait_status s copyErr polls :
  ds_reachable s → ds_hijack s = true → ds_done s = None →
  Wait s = None ∧
  match Wait (markDone copyErr polls s) with
  | None => False
  | Some DWBefore => False
  | Some DWOk => ∃ pre post, polls = pre ++ IExited 0 :: post ∧ Forall (λ i, ∀ c, i ≠ IExited c) pre
  | Some (DWExit code) => (code ≠ 0)%Z ∧ ∃ pre post, polls = pre ++ IExited code :: post ∧ Forall (λ i, ∀ c, i ≠ IExited c) pre
  | Some (DWErr _) => Forall (λ i, ∀ c, i ≠ IExited c) polls
  end.
Proof.
  intros [H1 _ _]%ds_inv_reachable Hh Hd. destruct (H1 Hh) as [Hs _].
  split; [unfold Wait; by rewrite Hs, Hd|]. unfold Wait, markDone. simpl. rewrite Hs. simpl.
  assert (∀ ie, match poll_exit ie copyErr polls with
    | (None, code) => ∃ pre post, polls = pre ++ IExited code :: post ∧ Forall (λ i, ∀ c, i ≠ IExited c) pre
    | (Some _, code) => code = 127%Z ∧ Forall (λ i, ∀ c, i ≠ IExited c) polls end) as Hp.
  { clear. induction polls as [|[| |code] polls IH]; intros ie; simpl.
    - by destruct ie, copyErr.
    - specialize (IH true). destruct (poll_exit _ _ _) as [[e|] code].
      + destruct IH as [-> IH]. split; [done|]. by constructor.
      + destruct IH as (pre & post & -> & Hf). exists (IErr :: pre), post. split; [done|]. by constructor.
    - specialize (IH ie). destruct (poll_exit _ _ _) as [[e|] code].
      + destruct IH as [-> IH]. split; [done|]. by constructor.
      + destruct IH as (pre & post & -> & Hf). exists (IRunning :: pre), post. split; [done|]. by constructor.
    - exists [], polls. by split. }
  specialize (Hp false). destruct (poll_exit false copyErr polls) as [[e|] code]; [by destruct Hp|].
  destruct (Z.eqb_spec code 0) as [->|]; [done|by split].
Qed.

(** A session whose [Start] failed is marked as started but its output never ends: from then
    on [Wait] blocks whatever is called. *)
Theorem wait_after_failed_start s cmd create attach :
  ds_reachable s → ds_started s = false → create && attach = false →
  ∀ s', rtc ds_step (Start cmd create attach s).2 s' → Wait s' = None.
Proof.
  intros [H1 H2 _]%ds_inv_reachable Hs Hca s' Hr.
  assert (ds_started s' = true ∧ ds_hijack s' = false ∧ ds_done s' = None) as (Ha & _ & Hd).
  { revert s' Hr. apply (rtc_ind_r (λ s', ds_started s' = true ∧ ds_hijack s' = false ∧ ds_done s' = None)).
    - unfold Start. rewrite Hs.
      assert (ds_hijack s = false) as Hn by (destruct (ds_hijack s); [by destruct (H1 eq_refl); congruence|done]).
      assert (ds_done s = None) as Hd by (destruct (ds_done s); [rewrite H2 in Hn; [done|by eexists]|done]).
      by destruct create, attach.
    - intros x y _ Hxy (Ha & Hh & Hd). destruct Hxy as [n v x|c cr at' x|ce polls x Hh' _|x].
      + done.
      + unfold Start. by rewrite Ha.
      + congruence.
      + unfold Close. by destruct (ds_closed x). }
  unfold Wait. by rewrite Ha, Hd.
Qed.

(** ** Uploading into a container (upload.go, backend.go) *)

(** [resolveContainerPath]: [home] is what the container's shell printed for $HOME. *)
Definition resolveContainerPath (home : option string) (p : string) : option string :=
  if String.eqb p "" then None
  else if negb (HasPrefix p "~/") && negb (String.eqb p "~") then Some p
  else match home with
       | None => None
       | Some home =>
           let home := TrimSpace home in
           let home := if String.eqb home "" then "/root" else home in
           Some (if String.eqb p "~" then home else home +:+ sdrop 1 p)
       end.

(** A tar archive with one file. *)
Record tar_file := mkTar { tf_Name : string; tf_Mode : Z; tf_body : string }.
Inductive docker_call : Type := CMkdir (dir : string) | CCopy (dest : string) (f : tar_file).

Inductive copy_error : Type := CpOpen | CpStat | CpMkdir | CpTooLong | CpShort | CpCopy.

(** What the local file gives: not opened, no stat, or its size and then its bytes. *)
Inductive local_file : Type := LNoOpen | LNoStat | LFile (size : Z) (body : string).

(** [copyFileToContainer]; the tar writer takes exactly as many bytes as the header says. *)
Definition copyFileToContainer (src : local_file) (remotePath : string) (mode : Z) (mkdir_ok copy_ok : bool) :
    list docker_call * option copy_error :=
  match src with
  | LNoOpen => ([], Some CpOpen)
  | LNoStat => ([], Some CpStat)
  | LFile size body =>
      let parent := path_Dir remotePath in
      let dirs := if needs_parent parent then [CMkdir parent] else [] in
      if needs_parent parent && negb mkdir_ok then (dirs, Some CpMkdir)
      else if (size <? Z.of_nat (slen body))%Z then (dirs, Some CpTooLong)
      else if (Z.of_nat (slen body) <? size)%Z then (dirs, Some CpShort)
      else (dirs ++ [CCopy parent (mkTar (Base remotePath) mode body)], if copy_ok then None else Some CpCopy)
  end.

(** Where the daemon puts a file of an archive. *)
Definition extracted (dest : string) (f : tar_file) : string := PathJoin dest (tf_Name f).

Lemma clean_comps_congr r l l' k :
  clean_comps r l = clean_comps r l' → clean_comps r (l ++ k) = clean_comps r (l' ++ k).
Proof.
  unfold clean_comps. rewrite !fold_left_app. intros H%(f_equal reverse). rewrite !reverse_involutive in H. by rewrite H.
Qed.

Lemma clean_comps_nil r l : clean_comps r (l ++ [""]) = clean_comps r l.
Proof. unfold clean_comps. by rewrite fold_left_app. Qed.

Lemma trim_right_suffix c p : HasSuffix p (String c "") = false → trim_right (Ascii.eqb c) p = p.
Proof.
  intros Hs. unfold trim_right. rewrite trim_left_id; [apply srev_involutive|].
  destruct (srev p) as [|d t] eqn:E; simpl; [done|]. apply not_true_iff_false. intros Hd. apply Ascii.eqb_eq in Hd as <-.
  rewrite <- not_true_iff_false in Hs. apply Hs, HasSuffix_spec. exists (srev t).
  rewrite <- (srev_involutive p), E, srev_cons. done.
Qed.

(** A path is its directory joined with its last element. *)
Lemma dir_base_join p : IsAbs p = true → HasSuffix p "/" = false → PathJoin (path_Dir p) (Base p) = Clean p.
Proof.
  intros [t ->]%IsAbs_spec Hsuf.
  destruct (CutLastByte slash (String slash t)) as [[d b]|] eqn:E; [|apply CutLastByte_None in E; discriminate E].
  assert (path_Dir (String slash t) = Clean (d +:+ "/")) as -> by (unfold path_Dir; by rewrite E).
  assert (Base (String slash t) = b) as Hb.
  { unfold Base. replace (String.eqb (String slash t) "") with false by done. cbv zeta iota.
    rewrite trim_right_suffix by done. rewrite E. cbv iota beta. destruct (String.eqb b "") eqn:Eb; [|done].
    apply seqb_true in Eb. subst b. apply CutLastByte_Some in E as [E _].
    exfalso. rewrite <- not_true_iff_false in Hsuf. apply Hsuf, HasSuffix_spec. by exists d. }
  rewrite Hb. apply CutLastByte_Some in E as [E Hns]. rewrite E. clear Hsuf Hb.
  destruct d as [|c d]; rewrite ?sapp_nil_l, ?sapp_cons in *; simplify_eq.
  { unfold PathJoin. change (Clean "/") with "/". simpl String.eqb. cbv iota.
    change ("/" +:+ String slash b) with (String slash (String slash b)). rewrite !Clean_rooted. f_equal. }
  rewrite Clean_rooted. unfold PathJoin. simpl String.eqb. cbv iota. rewrite !sapp_cons, !Clean_rooted. f_equal. f_equal.
  unfold rooted_comps. rewrite !Split_app. apply clean_comps_congr.
  change (Split slash "") with [""]. rewrite clean_comps_nil.
  apply (rooted_comps_Join (rooted_comps d)), rooted_comps_normal.
Qed.

(** An upload into the container that succeeds has put the whole local file at the wanted
    path: the archive's single file, extracted where it is copied to, has the path's
    cleaned name, the requested mode and exactly the bytes of the local file, and its
    directory was made first. *)
Theorem docker_upload_target src remotePath mode mkdir_ok copy_ok calls :
  copyFileToContainer src remotePath mode mkdir_ok copy_ok = (calls, None) →
  IsAbs remotePath = true → HasSuffix remotePath "/" = false →
  ∃ body dest f dirs, src = LFile (Z.of_nat (slen body)) body ∧ calls = dirs ++ [CCopy dest f] ∧
    extracted dest f = Clean remotePath ∧ tf_body f = body ∧ tf_Mode f = mode ∧
    dirs = (if needs_parent dest then [CMkdir dest] else []).
Proof.
  intros Hc Ha Hs. unfold copyFileToContainer in Hc. destruct src as [| |size body]; [done|done|].
  destruct (needs_parent _ && _); [done|].
  destruct (Z.ltb_spec size (Z.of_nat (slen body))); [done|]. destruct (Z.ltb_spec (Z.of_nat (slen body)) size); [done|].
  destruct copy_ok; simplify_eq. assert (size = Z.of_nat (slen body)) as -> by lia.
  eexists body, _, _, _. split; [done|]. split; [done|]. split; [by apply dir_base_join|done].
Qed.

(** ** The long-running file agent (fileclient.go) *)

Definition cancel_session (s : dockerSession) : dockerSession :=
  mkDS (ds_env s) (ds_started s) (ds_closed s) (ds_exec s) (ds_hijack s) (ds_hijack_open s) (ds_pipes_open s) true (ds_done s).

(** [newAgentFileClient]: its session, and whether there is a client. *)
Definition newAgentFileClient (agentPath : string) (create attach probe : bool) : bool * dockerSession :=
  let '(e, s) := Start (shellQuote agentPath) create attach newSession in
  match e with
  | Some _ => (false, cancel_session s)
  | None => if probe then (true, s) else (false, DockerSession.Close (cancel_session s))
  end.

(** Without a client nothing of the session is left: its pipes are closed, its context is
    cancelled and no stream is open. *)
Lemma newAgentFileClient_released path create attach probe s :
  newAgentFileClient path create attach probe = (false, s) →
  ds_pipes_open s = false ∧ ds_cancelled s = true ∧ ds_hijack_open s = false.
Proof. destruct create, attach, probe; cbn; intros; simplify_eq; done. Qed.

(** ** The backend (backend.go) *)

Record Backend := mkBackend {
  bk_containerID : string;
  bk_connected : bool;
  bk_lastErr : bool;
  bk_fileClient : option nat;     (** a running file agent *)
  bk_agentPath : string;
}.
Definition Backend0 : Backend := mkBackend "" false false None "".

(** [Backend.Start], given the daemon's answers: ping, and the inspected container with its
    id and, unless the state is nil, whether it runs. *)
Definition docker_Start (ping : bool) (insp : option (string * option bool)) (b : Backend) : bool * Backend :=
  let fail := (false, mkBackend (bk_containerID b) (bk_connected b) true (bk_fileClient b) (bk_agentPath b)) in
  if negb ping then fail
  else match insp with
       | Some (id, Some true) => (true, mkBackend id true false (bk_fileClient b) (bk_agentPath b))
       | _ => fail
       end.

(** [Backend.UploadAgent]. *)
Definition UploadAgent (home : option string) (src : local_file) (remotePath : string) (mode : Z) (mkdir_ok copy_ok : bool) (b : Backend) :
    option string * Backend :=
  if String.eqb (bk_containerID b) "" then (None, b)
  else match resolveContainerPath home remotePath with
       | None => (None, b)
       | Some resolved =>
           match copyFileToContainer src resolved mode mkdir_ok copy_ok with
           | (_, Some _) => (None, b)
           | (_, None) => (Some resolved, mkBackend (bk_containerID b) (bk_connected b) (bk_lastErr b) (bk_fileClient b) resolved)
           end
       end.

Definition set_client (b : Backend) (c : option nat) : Backend :=
  mkBackend (bk_containerID b) (bk_connected b) (bk_lastErr b) c (bk_agentPath b).

(** A call of [Files]: making an agent, holding one that is not installed yet, returned. *)
Inductive files_call : Type := FMaking | FMade (c : nat) | FReturned (c : option nat).

Record bstate := mkB { b_be : Backend; b_running : gset nat; b_next : nat; b_calls : gmap nat files_call }.
Definition bstate0 : bstate := mkB Backend0 ∅ 0 ∅.

(** The locked beginning of [Files]. *)
Definition Files_begin (b : Backend) : files_call :=
  if String.eqb (bk_containerID b) "" then FReturned None
  else match bk_fileClient b with
       | Some c => FReturned (Some c)
       | None => if String.eqb (bk_agentPath b) "" then FReturned None else FMaking
       end.

(** The locked end: install the new agent, or close it and use the one installed meanwhile. *)
Definition Files_end (c : nat) (b : Backend) (run : gset nat) : Backend * gset nat * nat :=
  match bk_fileClient b with
  | None => (set_client b (Some c), run, c)
  | Some c' => (b, run ∖ {[c]}, c')
  end.

(** [Backend.Close]: the agent is stopped; the container is kept. *)
Definition docker_Close (b : Backend) (run : gset nat) : Backend * gset nat :=
  (mkBackend (bk_containerID b) false (bk_lastErr b) None (bk_agentPath b),
   match bk_fileClient b with Some c => run ∖ {[c]} | None => run end).

Inductive b_step : bstate → bstate → Prop :=
  | b_start ping insp s : b_step s (mkB (docker_Start ping insp (b_be s)).2 (b_running s) (b_next s) (b_calls s))
  | b_upload home src p mode mk cp s :
      b_step s (mkB (UploadAgent home src p mode mk cp (b_be s)).2 (b_running s) (b_next s) (b_calls s))
  | b_begin i s : b_calls s !! i = None →
      b_step s (mkB (b_be s) (b_running s) (b_next s) (<[i := Files_begin (b_be s)]> (b_calls s)))
  | b_failed i s : b_calls s !! i = Some FMaking →
      b_step s (mkB (b_be s) (b_running s) (b_next s) (<[i := FReturned None]> (b_calls s)))
  | b_made i s : b_calls s !! i = Some FMaking →
      b_step s (mkB (b_be s) ({[b_next s]} ∪ b_running s) (S (b_next s)) (<[i := FMade (b_next s)]> (b_calls s)))
  | b_end i c s : b_calls s !! i = Some (FMade c) →
      b_step s (mkB (Files_end c (b_be s) (b_running s)).1.1 (Files_end c (b_be s) (b_running s)).1.2 (b_next s)
                  (<[i := FReturned (Some (Files_end c (b_be s) (b_running s)).2)]> (b_calls s)))
  | b_close s : b_step s (mkB (docker_Close (b_be s) (b_running s)).1 (docker_Close (b_be s) (b_running s)).2 (b_next s) (b_calls s)).

Definition b_reachable (s : bstate) : Prop := rtc b_step bstate0 s.

(** The agents that run are the installed one and those of calls that have not ended. *)
Record b_inv (s : bstate) : Prop := {
  bi_running : ∀ c, c ∈ b_running s ↔ bk_fileClient (b_be s) = Some c ∨ ∃ i, b_calls s !! i = Some (FMade c);
  bi_next : ∀ c, c ∈ b_running s → c < b_next s;
  bi_fresh : ∀ i c, b_calls s !! i = Some (FMade c) → bk_fileClient (b_be s) ≠ Some c;
  bi_inj : ∀ i j c, b_calls s !! i = Some (FMade c) → b_calls s !! j = Some (FMade c) → i = j;
}.

(** A step that leaves agents and unfinished calls as they are. *)
Lemma b_inv_same s s' :
  b_inv s → b_running s' = b_running s → b_next s' = b_next s → bk_fileClient (b_be s') = bk_fileClient (b_be s) →
  (∀ i c, b_calls s' !! i = Some (FMade c) ↔ b_calls s !! i = Some (FMade c)) → b_inv s'.
Proof.
  intros [H1 H2 H3 H4] Hr Hn Hf Hc. split; rewrite ?Hr, ?Hn, ?Hf.
  - intros c. rewrite H1. split; (intros [?|[i Hi]]; [by left|right; exists i; by apply Hc]).
  - done.
  - intros i c Hi%Hc. by apply (H3 i).
  - intros i j c Hi%Hc Hj%Hc. by apply (H4 i j c).
Qed.

Lemma insert_made (m : gmap nat files_call) i x j c :
  (∀ d, x ≠ FMade d) → (∀ d, m !! i ≠ Some (FMade d)) → <[i := x]> m !! j = Some (FMade c) ↔ m !! j = Some (FMade c).
Proof.
  intros Hx Hm. destruct (decide (i = j)) as [<-|Hne]; [|by rewrite lookup_insert_ne].
  rewrite lookup_insert_eq. split; intros E; simplify_eq; [by destruct (Hx c)|by destruct (Hm c)].
Qed.

Lemma b_inv_made s i :
  b_inv s → b_calls s !! i = Some FMaking →
  b_inv (mkB (b_be s) ({[b_next s]} ∪ b_running s) (S (b_next s)) (<[i := FMade (b_next s)]> (b_calls s))).
Proof.
  intros [H1 H2 H3 H4] Hc.
  assert (∀ j c, <[i := FMade (b_next s)]> (b_calls s) !! j = Some (FMade c) ↔
    (j = i ∧ c = b_next s) ∨ b_calls s !! j = Some (FMade c)) as Hl.
  { intros j c. destruct (decide (i = j)) as [<-|Hne].
    - rewrite lookup_insert_eq, Hc. split; [intros; simplify_eq; by left|]. by intros [[_ ->]|].
    - rewrite lookup_insert_ne by done. split; [by right|]. by intros [[-> _]|]. }
  assert (∀ j, b_calls s !! j ≠ Some (FMade (b_next s))) as Hnj.
  { intros j Hj. assert (b_next s < b_next s); [apply H2, H1; eauto|lia]. }
  split; simpl.
  + intros c. rewrite elem_of_union, elem_of_singleton, H1. setoid_rewrite Hl. split.
    * intros [->|[?|[j Hj]]]; [right; exists i; by left|by left|right; exists j; by right].
    * intros [?|(j & [[_ ->]|Hj])]; [by right; left|by left|right; right; by exists j].
  + intros c. rewrite elem_of_union, elem_of_singleton. intros [->|Hr]; [lia|]. pose proof (H2 c Hr). lia.
  + intros j c [[_ ->]|Hj]%Hl; [|by apply (H3 j)]. intros Hf. assert (b_next s < b_next s); [apply H2, H1; auto|lia].
  + intros j k c [[-> ->]|Hj]%Hl [[-> Hk']|Hk]%Hl; [done|by destruct (Hnj k)|subst c; by destruct (Hnj j)|by apply (H4 j k c)].
Qed.

Lemma b_inv_end s i c :
  b_inv s → b_calls s !! i = Some (FMade c) →
  b_inv (mkB (Files_end c (b_be s) (b_running s)).1.1 (Files_end c (b_be s) (b_running s)).1.2 (b_next s)
           (<[i := FReturned (Some (Files_end c (b_be s) (b_running s)).2)]> (b_calls s))).
Proof.
  intros [H1 H2 H3 H4] Hc.
  assert (∀ j d x, (∀ e, x ≠ FMade e) → <[i := x]> (b_calls s) !! j = Some (FMade d) ↔ j ≠ i ∧ b_calls s !! j = Some (FMade d)) as Hl.
  { intros j d x Hx. destruct (decide (i = j)) as [<-|Hne].
    - rewrite lookup_insert_eq. split; [intros; simplify_eq; by destruct (Hx d)|by intros []].
    - rewrite lookup_insert_ne by done. split; [by split|by intros []]. }
  assert (c ∈ b_running s) as Hrun by (apply H1; eauto).
  unfold Files_end. destruct (bk_fileClient (b_be s)) as [c'|] eqn:Hf; split; simpl.
  + intros d. rewrite elem_of_difference, elem_of_singleton, H1, Hf. setoid_rewrite (λ j, Hl j d (FReturned (Some c')) ltac:(done)).
    split.
    * intros [[?|[j Hj]] Hne]; [by left|right]. exists j. split; [|done]. intros ->. congruence.
    * intros [Hd|(j & Hne & Hj)]; (split; [by eauto|]).
      -- intros ->. by apply (H3 i c).
      -- intros ->. by apply Hne, (H4 j i c).
  + intros d [Hd _]%elem_of_difference. by apply H2.
  + intros j d [_ Hj]%(Hl j d (FReturned (Some c')) ltac:(done)). rewrite Hf. by apply (H3 j).
  + intros j k d [_ Hj]%(Hl j d (FReturned (Some c')) ltac:(done)) [_ Hk]%(Hl k d (FReturned (Some c')) ltac:(done)).
    by apply (H4 j k d).
  + intros d. rewrite H1. setoid_rewrite (λ j, Hl j d (FReturned (Some c)) ltac:(done)). split.
    * intros [?|[j Hj]]; [done|]. destruct (decide (j = i)) as [->|Hne]; [left; congruence|right; by exists j].
    * intros [[= ->]|(j & _ & Hj)]; [right; by exists i|right; by exists j].
  + done.
  + intros j d [Hne Hj]%(Hl j d (FReturned (Some c)) ltac:(done)) [= ->]. by apply Hne, (H4 j i d).
  + intros j k d [_ Hj]%(Hl j d (FReturned (Some c)) ltac:(done)) [_ Hk]%(Hl k d (FReturned (Some c)) ltac:(done)).
    by apply (H4 j k d).
Qed.

Lemma b_inv_close s :
  b_inv s → b_inv (mkB (docker_Close (b_be s) (b_running s)).1 (docker_Close (b_be s) (b_running s)).2 (b_next s) (b_calls s)).
Proof.
  intros [H1 H2 H3 H4].
  unfold docker_Close. simpl. split; simpl.
  + intros d. destruct (bk_fileClient (b_be s)) as [c|] eqn:Hf.
    * rewrite elem_of_difference, elem_of_singleton, H1. split.
      -- intros [[Hd|?] Hne]; [congruence|by right].
      -- intros [?|[j Hj]]; [done|]. split; [eauto|]. intros ->. by apply (H3 j c).
    * apply H1.
  + intros d Hd. apply H2. destruct (bk_fileClient (b_be s)); [by apply elem_of_difference in Hd as []|done].
  + done.
  + done.
Qed.

Lemma b_inv_step s s' : b_inv s → b_step s s' → b_inv s'.
Proof.
  intros Hi Hs. destruct Hs as [ping insp s|home src p mode mk cp s|i s Hc|i s Hc|i s Hc|i c s Hc|s].
  - apply (b_inv_same s); try done. simpl. unfold docker_Start. by repeat case_match.
  - apply (b_inv_same s); try done. simpl. unfold UploadAgent. by repeat case_match.
  - apply (b_inv_same s); try done. intros j c. apply insert_made; [|by rewrite Hc].
    unfold Files_begin. by repeat case_match.
  - apply (b_inv_same s); try done. intros j c. apply insert_made; [done|by rewrite Hc].
  - by apply b_inv_made.
  - by apply b_inv_end.
  - by apply b_inv_close.
Qed.

Lemma b_inv_reachable s : b_reachable s → b_inv s.
Proof.
  revert s. apply (rtc_ind_r b_inv).
  - split; simpl; try done. intros c. split; [set_solver|]. intros [?|[i Hi]]; [done|]. by rewrite lookup_empty in Hi.
  - intros s s' _ Hs Hi. by eapply b_inv_step.
Qed.

(** C22: concurrent calls of [Files] leave one agent: in every interleaving of starts, uploads,
    calls and closes, the file agents that run are the installed one and those a call is
    still holding; when no call is in progress at most one runs, and none after [Close]. *)
Theorem files_one_agent s :
  b_reachable s → (∀ i c, b_calls s !! i ≠ Some (FMade c)) →
  (∀ c, c ∈ b_running s ↔ bk_fileClient (b_be s) = Some c) ∧
  (docker_Close (b_be s) (b_running s)).2 = ∅.
Proof.
  intros [H1 _ _ _]%b_inv_reachable Hno.
  assert (∀ c, c ∈ b_running s ↔ bk_fileClient (b_be s) = Some c) as Hall.
  { intros c. rewrite H1. split; [|by left]. intros [?|[i Hi]]; [done|]. by destruct (Hno i c). }
  split; [done|]. unfold docker_Close. simpl. apply set_eq. intros c.
  destruct (bk_fileClient (b_be s)) as [d|] eqn:Hf; rewrite ?elem_of_difference, Hall, ?Hf; set_solver.
Qed.

(** ** Witnesses *)

Module Demo.
Definition s_run : dockerSession := (Start "true" true true newSession).2.
Lemma s_run_reachable : ds_reachable s_run.
Proof. eapply rtc_l; [apply (ds_start "true" true true)|apply rtc_refl]. Qed.

Lemma docker_wait_status_witness :
  Wait s_run = None ∧ Wait (markDone false [IErr; IRunning; IExited 3] s_run) = Some (DWExit 3).
Proof.
  destruct (docker_wait_status s_run false [IErr; IRunning; IExited 3] s_run_reachable eq_refl eq_refl) as [H1 H2].
  split; [exact H1|]. reflexivity.
Defined.

Lemma docker_upload_target_witness :
  ∃ dest f, (copyFileToContainer (LFile 3 "abc") "/root/.cache/agent" 493 true true).1 = [CMkdir dest; CCopy dest f] ∧
    extracted dest f = "/root/.cache/agent".
Proof.
  destruct (docker_upload_target (LFile 3 "abc") "/root/.cache/agent" 493 true true
    (copyFileToContainer (LFile 3 "abc") "/root/.cache/agent" 493 true true).1)
    as (body & dest & f & dirs & Hs & Hc & Hx & _ & _ & Hd); [reflexivity|reflexivity|reflexivity|].
  exists dest, f. split; [|rewrite Hx; reflexivity]. rewrite Hc, Hd. vm_compute in Hc. subst dirs.
  destruct (needs_parent dest) eqn:E; [reflexivity|]. simpl in Hc. discriminate Hc.
Defined.

Definition be1 (path : string) (c : option nat) : Backend := mkBackend "id" true false c path.
Definition two_calls : bstate := mkB (be1 "/a" (Some 0)) {[0]} 2 {[0 := FReturned (Some 0); 1 := FReturned (Some 0)]}.

Lemma b_chain s t t' u : b_step s t → t = t' → rtc b_step t' u → rtc b_step s u.
Proof. intros H <-. by apply rtc_l. Qed.
Ltac b_to st := eapply (b_chain _ _ st); [|vm_compute; reflexivity|].

Lemma two_calls_reachable : b_reachable two_calls.
Proof.
  b_to (mkB (be1 "" None) ∅ 0 ∅); [apply (b_start true (Some ("id", Some true)))|].
  b_to (mkB (be1 "/a" None) ∅ 0 ∅); [apply (b_upload None (LFile 0 "") "/a" 493 true true)|].
  b_to (mkB (be1 "/a" None) ∅ 0 {[0 := FMaking]}); [by apply (b_begin 0)|].
  b_to (mkB (be1 "/a" None) ∅ 0 {[0 := FMaking; 1 := FMaking]}); [by apply (b_begin 1)|].
  b_to (mkB (be1 "/a" None) {[0]} 1 {[0 := FMade 0; 1 := FMaking]}); [by apply (b_made 0)|].
  b_to (mkB (be1 "/a" None) {[0; 1]} 2 {[0 := FMade 0; 1 := FMade 1]}); [by apply (b_made 1)|].
  b_to (mkB (be1 "/a" (Some 0)) {[0; 1]} 2 {[0 := FReturned (Some 0); 1 := FMade 1]}); [by apply (b_end 0 0)|].
  b_to two_calls; [by apply (b_end 1 1)|]. apply rtc_refl.
Qed.

(** Two calls race, each starts an agent, one is kept. *)
Lemma files_one_agent_witness :
  0 ∈ b_running two_calls ∧ (docker_Close (b_be two_calls) (b_running two_calls)).2 = ∅.
Proof.
  destruct (files_one_agent two_calls two_calls_reachable) as [H1 H2]; [|split; [by apply H1|exact H2]].
  intros i c Hi. unfold two_calls in Hi. simpl in Hi.
  apply lookup_insert_Some in Hi as [[_ Hi]|[_ Hi]]; [discriminate Hi|].
  apply lookup_singleton_Some in Hi as [_ Hi]. discriminate Hi.
Defined.
End Demo.
