(* ===== verification/Backends.v ===== *)
(** * Backends: from an accepted configuration to a started backend

    Models [cmd/machineproxy/backends.go] with its two registration files, the
    constructors of [pkg/remote/ssh/backend.go], [pkg/remote/docker/backend.go] and
    [compose.go], and [StartBackend] of [runtime.go].  Which registration files are
    compiled in is an argument (build tags); resolving ssh_config, opening a docker client
    and the daemon's answers are parameters. *)

From stdpp Require Import sorting.
From S2P Require Import Prelude GoStrings PathRules Config Runtime SshManager SshBackend DockerContext DockerSession.
Local Open Scope go_scope.

(** ** Constructors *)

Inductive build_error : Type :=
  | BNotCompiled (name : string) (available : list string)
  | BHostRequired | BDialer | BContainerRequired | BContext (e : ctx_error) | BClient | BCompose (e : compose_error).

(** The ssh backend's dial configuration; the docker backend's container and client options. *)
Inductive backend : Type :=
  | BkSSH (host user : string) (port timeout : Z) (bind iface : string)
  | BkDocker (container : string) (opts : list client_opt).

(** [remote.Type] of a backend; the compose backend is a docker one. *)
Inductive backend_type : Type := TypeSSH | TypeDocker.
Definition bk_type (b : backend) : backend_type := match b with BkSSH _ _ _ _ _ _ => TypeSSH | BkDocker _ _ => TypeDocker end.

Section build.
Variable dialer_ok : string → string → Z → Z → string → string → bool.  (** [sshconn.NewDialer] *)
Variable client_ok : list client_opt → bool.                            (** [client.New] *)
Variable h : docker_host.
Variable t : transports.
Variable cwd : option string.
Variable project_of : string → string.                                  (** [ResolveCurrentProject] *)
Variable daemon : list client_opt → list list_filter → option (list string).

Definition ssh_New (host user : string) (port timeout : Z) (bind iface : string) : result build_error backend :=
  if String.eqb host "" then Err BHostRequired
  else
    let timeout := backend_timeout timeout in
    if dialer_ok host user port timeout bind iface then Ok (BkSSH host user port timeout bind iface) else Err BDialer.

Definition docker_New (container host bind iface : string) : result build_error backend :=
  if String.eqb container "" then Err BContainerRequired
  else match resolveClientOpts h t host bind iface with
       | Err e => Err (BContext e)
       | Ok opts => if client_ok opts then Ok (BkDocker container opts) else Err BClient
       end.

(** The client of [NewFromCompose] both finds the container and becomes the backend's. *)
Definition compose_New (host bind iface project service : string) (sequence : Z) : result build_error backend :=
  let cli := match resolveClientOpts h t host bind iface with
             | Err e => Err (PErrContext e)
             | Ok opts => if client_ok opts then Ok opts else Err PErrClient
             end in
  match NewFromCompose cwd project_of (match cli with Ok opts => Ok (daemon opts) | Err e => Err e end)
          project service sequence, cli with
  | Ok id, Ok opts => Ok (BkDocker id opts)
  | Ok id, Err e => Err (BCompose e)
  | Err e, _ => Err (BCompose e)
  end.

(** ** The registry (backends.go, backend_ssh.go, backend_docker.go) *)

Definition backendFactory : Type := Config → result build_error backend.

Definition ssh_factory : backendFactory := λ c,
  let r := Config.Remote c in
  ssh_New (SSH_Host (SSH r)) (SSH_User (SSH r)) (SSH_Port (SSH r)) (10 * Second) (Bind r) (BindInterface r).
Definition docker_factory : backendFactory := λ c,
  let r := Config.Remote c in
  docker_New (Docker_Container (Docker r)) (Docker_Host (Docker r)) (Bind r) (BindInterface r).
Definition compose_factory : backendFactory := λ c,
  let r := Config.Remote c in
  compose_New (Compose_Host (Compose r)) (Bind r) (BindInterface r) (Compose_Project (Compose r))
    (Compose_Service (Compose r)) (Compose_Sequence (Compose r)).

Definition registerBackend (name : string) (f : backendFactory) (m : gmap string backendFactory) : gmap string backendFactory :=
  <[name := f]> m.
(** The init functions that are compiled in. *)
Definition backendFactories (tag_ssh tag_docker : bool) : gmap string backendFactory :=
  let m := if tag_docker then registerBackend "compose" compose_factory (registerBackend "docker" docker_factory ∅) else ∅ in
  if tag_ssh then registerBackend "ssh" ssh_factory m else m.

Definition sle (a b : string) : Prop := String.leb a b = true.
#[local] Instance sle_dec a b : Decision (sle a b) := decide (String.leb a b = true).
Definition availableBackends (m : gmap string backendFactory) : list string :=
  merge_sort sle (map_to_list m).*1.

Definition buildBackend (m : gmap string backendFactory) (c : Config) : result build_error backend :=
  let name := Remote_Type (Config.Remote c) in
  match m !! name with
  | None => Err (BNotCompiled name (availableBackends m))
  | Some f => f c
  end.

(** What is left to fail once the configuration has been accepted. *)
Definition late_error (c : Config) (e : build_error) : Prop :=
  match e with
  | BNotCompiled _ _ | BHostRequired | BContainerRequired => False
  | BDialer => Remote_Type (Config.Remote c) = "ssh"
  | BContext _ | BClient => Remote_Type (Config.Remote c) = "docker"
  | BCompose PErrProject =>
      Remote_Type (Config.Remote c) = "compose" ∧
      (Compose_Project (Compose (Config.Remote c)) = "" ∨
       Compose_Project (Compose (Config.Remote c)) = "." ∧ ∃ d, cwd = Some d ∧ project_of d = "")
  | BCompose _ => Remote_Type (Config.Remote c) = "compose"
  end.

Lemma build_ssh c :
  Remote_Type (Config.Remote c) = "ssh" → SSH_Host (SSH (Config.Remote c)) ≠ "" →
  match ssh_factory c with Ok b => bk_type b = TypeSSH | Err e => late_error c e end.
Proof.
  intros Ht Hh. unfold ssh_factory, ssh_New. rewrite (proj2 (seqb_false _ _) Hh). cbn zeta. by destruct (dialer_ok _ _ _ _ _ _).
Qed.
Lemma build_docker c :
  Remote_Type (Config.Remote c) = "docker" → Docker_Container (Docker (Config.Remote c)) ≠ "" →
  match docker_factory c with Ok b => bk_type b = TypeDocker | Err e => late_error c e end.
Proof.
  intros Ht Hh. unfold docker_factory, docker_New. rewrite (proj2 (seqb_false _ _) Hh). cbn zeta.
  destruct (resolveClientOpts _ _ _ _ _) as [opts|e]; [|done]. by destruct (client_ok opts).
Qed.
Lemma compose_project_error c cli service sequence :
  Remote_Type (Config.Remote c) = "compose" → cli ≠ Err PErrProject →
  ∀ e, NewFromCompose cwd project_of cli (Compose_Project (Compose (Config.Remote c))) service sequence = Err e →
  late_error c (BCompose e).
Proof.
  intros Ht Hc e. unfold NewFromCompose, ResolveComposeService.
  assert (∀ e', e' ≠ PErrProject → late_error c (BCompose e')) as Hother by (intros [] ?; done).
  destruct (String.eqb_spec (Compose_Project (Compose (Config.Remote c))) ".") as [Ep|Ep]; cbn iota zeta.
  - destruct cwd as [d|] eqn:Ed; [|intros [= <-]; by apply Hother].
    destruct (String.eqb_spec (project_of d) "") as [E0|E0].
    { intros [= <-]. split; [done|]. right. split; [done|]. exists d. by rewrite Ed. }
    repeat case_match; intros; simplify_eq; apply Hother; congruence.
  - destruct (String.eqb_spec (Compose_Project (Compose (Config.Remote c))) "") as [E0|E0].
    { intros [= <-]. split; [done|]. by left. }
    repeat case_match; intros; simplify_eq; apply Hother; congruence.
Qed.
Lemma build_compose c :
  Remote_Type (Config.Remote c) = "compose" →
  match compose_factory c with Ok b => bk_type b = TypeDocker | Err e => late_error c e end.
Proof.
  intros Ht. unfold compose_factory, compose_New. cbn zeta.
  destruct (NewFromCompose _ _ _ _ _ _) as [id|e] eqn:E.
  - destruct (resolveClientOpts _ _ _ _ _) as [opts|e]; [|exact Ht]. destruct (client_ok opts); [done|exact Ht].
  - eapply compose_project_error in E; [exact E|done|]. repeat case_match; simplify_eq; congruence.
Qed.

Context `{Regexp}.

(** Once a configuration has been accepted and both registration files are compiled in,
    the backend it names is built, unless resolving ssh_config, the docker context, the
    client or the compose service fails; a missing host or container, or an unknown
    backend, has been excluded.  The exception is an empty compose project, which is
    accepted and only found here. *)
Theorem backend_for_config hst c c' w :
  Finalize hst c = Ok (c', w) →
  match buildBackend (backendFactories true true) c' with
  | Ok b => bk_type b = if String.eqb (Remote_Type (Config.Remote c')) "ssh" then TypeSSH else TypeDocker
  | Err e => late_error c' e
  end.
Proof.
  intros [_ Hv]%Finalize_ok. apply Validate_ok in Hv as [Hv _]. apply v_remote in Hv. unfold buildBackend.
  destruct Hv as [(Ht & Hh & _)|[(Ht & Hc)|(Ht & _)]]; rewrite Ht; cbn.
  - by apply build_ssh.
  - by apply build_docker.
  - by apply build_compose.
Qed.
End build.

(** ** Starting (runtime.go) *)

Inductive start_backend_error : Type := SBStart | SBAgent (e : resolve_error) | SBUpload.

(** [StartBackend] for a docker backend: start, platform, agent binary, upload. *)
Definition StartBackend_docker (ping : bool) (insp : option (string * option bool)) (info : option (string * string))
    (goos goarch : string) (r : RemoteConfig) (agent : string → string → result resolve_error string)
    (home : option string) (local : string → local_file) (agentRemotePath : string) (mkdir_ok copy_ok : bool) :
    result start_backend_error (Backend * RemoteConfig) :=
  let '(ok, be) := docker_Start ping insp Backend0 in
  if negb ok then Err SBStart
  else
    let detected := match docker_DetectPlatform info with Some p => (pi_OS p, pi_Arch p) | None => ("", "") end in
    let r := resolveRemotePlatform detected goos goarch r in
    match agent (OS r) (Arch r) with
    | Err e => Err (SBAgent e)
    | Ok path =>
        match UploadAgent home (local path) agentRemotePath 493 mkdir_ok copy_ok be with
        | (Some _, be) => Ok (be, r)
        | (None, _) => Err SBUpload
        end
    end.

(** [StartBackend] for an ssh backend: the agent is uploaded on first use. *)
Definition StartBackend_ssh (turns : list (SshManager.Manager * start_event)) (version : option string) (goos goarch : string)
    (r : RemoteConfig) : option (result start_result RemoteConfig) :=
  match Backend_Start turns with
  | None => None
  | Some StartOk =>
      let detected := match ssh_DetectPlatform version with Some p => (pi_OS p, pi_Arch p) | None => ("", "") end in
      Some (Ok (resolveRemotePlatform detected goos goarch r))
  | Some e => Some (Err e)
  end.

Lemma resolveContainerPath_not_empty home p q : resolveContainerPath home p = Some q → q ≠ "".
Proof.
  unfold resolveContainerPath. destruct (String.eqb_spec p "") as [|Hp]; [done|].
  destruct (negb _ && negb _); [by intros [= <-]|]. destruct home as [home|]; [|done]. cbn zeta.
  set (hm := if String.eqb (TrimSpace home) "" then "/root" else TrimSpace home).
  assert (hm ≠ "") as Hh by (unfold hm; destruct (String.eqb_spec (TrimSpace home) ""); done).
  destruct (String.eqb p "~"); intros [= <-]; [done|]. by destruct hm.
Qed.
Lemma UploadAgent_ready home src p mode mk cp be q be' :
  UploadAgent home src p mode mk cp be = (Some q, be') →
  bk_containerID be' = bk_containerID be ∧ bk_containerID be ≠ "" ∧ bk_agentPath be' = q ∧ q ≠ "" ∧
  bk_fileClient be' = bk_fileClient be ∧ resolveContainerPath home p = Some q ∧ bk_connected be' = bk_connected be.
Proof.
  unfold UploadAgent. destruct (String.eqb_spec (bk_containerID be) "") as [|Hid]; [done|].
  destruct (resolveContainerPath home p) as [x|] eqn:E; [|done].
  destruct (copyFileToContainer _ _ _ _ _) as [cs []]; [done|]. intros [= <- <-]. cbn.
  apply resolveContainerPath_not_empty in E as ?. done.
Qed.

(** When [StartBackend] has returned for a docker backend, the container is known, the
    agent has been uploaded to its resolved path and the platform is complete, so that
    [Files] goes on to start an agent there and reports neither of its two errors, and
    [NewSession] does not fail. *)
Theorem docker_backend_ready ping insp info goos goarch r agent home local p mk cp be r' :
  goos ≠ "" → goarch ≠ "" →
  StartBackend_docker ping insp info goos goarch r agent home local p mk cp = Ok (be, r') →
  (∃ id, insp = Some (id, Some true) ∧ bk_containerID be = id ∧ id ≠ "") ∧
  bk_connected be = true ∧ resolveContainerPath home p = Some (bk_agentPath be) ∧ Files_begin be = FMaking ∧
  OS r' ≠ "" ∧ Arch r' ≠ "" ∧ (OS r ≠ "" → OS r' = OS r) ∧ (Arch r ≠ "" → Arch r' = Arch r).
Proof.
  intros Hos Harch. unfold StartBackend_docker, docker_Start.
  destruct ping; [|done]. cbn [negb]. destruct insp as [[id [[]|]]|]; try done. cbn [negb fst snd].
  set (d := match docker_DetectPlatform info with Some p => _ | None => _ end).
  destruct (resolved_platform d goos goarch r) as [Ho Ha].
  destruct (agent _ _) as [path|e]; [|done]. destruct (UploadAgent _ _ _ _ _ _ _) as [[q|] be'] eqn:E; [|done].
  intros [= <- <-]. pose proof (UploadAgent_ready _ _ _ _ _ _ _ _ _ E) as (Hid & Hne & Hp & Hq & Hf & Hr & Hc). cbn in *.
  split; [exists id; by rewrite Hid|]. split; [done|]. rewrite Hp. split; [done|]. rewrite Ho, Ha.
  split. { unfold Files_begin. rewrite Hid, Hf, Hp, !(proj2 (seqb_false _ _)) by done. done. }
  destruct (String.eqb_spec (OS r) ""), (String.eqb_spec (Arch r) ""), (String.eqb_spec d.1 ""), (String.eqb_spec d.2 "");
    split_and!; done.
Qed.

(** ** Witnesses *)

Module Demo.

Lemma backend_for_config_witness :
  @Finalize PathRules.literal_engine Config.Demo.host (Config.Demo.cfg true ["~/p:/srv/p"]) = Ok (Config.Demo.done_cfg, []) ∧
  buildBackend (backendFactories (λ _ _ _ _ _ _, true) (λ _, true) DockerContext.Demo.host0 DockerContext.Demo.tp0 None (λ s, s)
    (λ _ _, None) true true) Config.Demo.done_cfg = Ok (BkSSH "dev" "" 0 (10 * Second) "" "").
Proof.
  pose proof (backend_for_config (λ _ _ _ _ _ _, true) (λ _, true) DockerContext.Demo.host0 DockerContext.Demo.tp0 None (λ s, s)
    (λ _ _, None) (H := PathRules.literal_engine) Config.Demo.host (Config.Demo.cfg true ["~/p:/srv/p"]) Config.Demo.done_cfg []) as H.
  split; [vm_compute; reflexivity|]. specialize (H ltac:(vm_compute; reflexivity)). revert H.
  destruct (buildBackend _ _) as [b|e] eqn:E; vm_compute in E; [|discriminate E].
  injection E as <-. intros _. reflexivity.
Defined.

Definition agent_for (os arch : string) : result resolve_error string := Ok ("/lib/agent/" +:+ os +:+ "/" +:+ arch).
Definition remote0 : RemoteConfig :=
  mkRemote "docker" (mkSSH "" "" 0) (mkDocker "web" "") (mkCompose "" "" 0 "") "" "" "" "".

Lemma docker_backend_ready_witness :
  ∃ be r', StartBackend_docker true (Some ("abc", Some true)) (Some ("linux", "aarch64")) "linux" "amd64" remote0 agent_for
      (Some "/root") (λ _, LFile 3 "bin") "~/agent" true true = Ok (be, r') ∧
    bk_agentPath be = "/root/agent" ∧ Arch r' = "arm64" ∧ Files_begin be = FMaking.
Proof.
  destruct (StartBackend_docker true (Some ("abc", Some true)) (Some ("linux", "aarch64")) "linux" "amd64" remote0 agent_for
      (Some "/root") (λ _, LFile 3 "bin") "~/agent" true true) as [[be r']|e] eqn:E; [|vm_compute in E; discriminate E].
  destruct (docker_backend_ready true (Some ("abc", Some true)) (Some ("linux", "aarch64")) "linux" "amd64" remote0 agent_for
      (Some "/root") (λ _, LFile 3 "bin") "~/agent" true true be r') as (_ & _ & _ & H & _); [discriminate..|exact E|].
  exists be, r'. split; [reflexivity|]. vm_compute in E. injection E as <- <-. split; [reflexivity|]. split; [reflexivity|exact H].
Defined.

(** Without the docker tag the docker backend is not available. *)
Example not_compiled :
  buildBackend (backendFactories (λ _ _ _ _ _ _, true) (λ _, true) DockerContext.Demo.host0 DockerContext.Demo.tp0 None (λ s, s)
    (λ _ _, None) true false) (mkConfig (mkLogging "" "" "") remote0
      (Config.Container Config.Demo.done_cfg) (mkAgent [] []) (mkComponents "" "" "" "" "")) =
  Err (BNotCompiled "docker" ["ssh"]).
Proof. vm_compute. reflexivity. Qed.

(** An empty compose project passes validation and fails when the backend is built. *)
Definition compose_cfg : Config :=
  mkConfig (mkLogging "" "" "")
    (mkRemote "compose" (mkSSH "" "" 0) (mkDocker "" "") (mkCompose "" "web" 0 "") "" "" "" "")
    (Config.Container (Config.Demo.cfg false ["~/p:/srv/p"])) (mkAgent [] []) (mkComponents "" "" "" "" "").
Example empty_project_accepted :
  match @Finalize PathRules.literal_engine Config.Demo.host compose_cfg with
  | Ok (c, _) =>
      buildBackend (backendFactories (λ _ _ _ _ _ _, true) (λ _, true) DockerContext.Demo.host0 DockerContext.Demo.tp0 None
        (λ s, s) (λ _ _, None) true true) c = Err (BCompose PErrProject)
  | Err _ => False
  end.
Proof. vm_compute. reflexivity. Qed.

End Demo.
