(* ===== verification/Recording.v ===== *)
(** * Recording: the session recorder and the forwarding of log records

    Models [pkg/agentproto/recording.go], the recording calls of
    [pkg/agentproto/mux.go] and [pkg/remoteexec/agent_runner.go],
    [pkg/agentproto/loghandler.go] and the levels of [pkg/logging/logging.go].

    Many commands record into one file at the same time.  A schedule is the
    sequence of the atomic regions their goroutines execute: the atomic add that
    takes a number, and one write under the recorder's lock.  Clock readings and
    the outcomes of the writes are part of the schedule. *)

From S2P Require Import Prelude GoStrings PathStub FileClient Mux.
Local Open Scope Z_scope.

(** ** Records *)

Definition RecordSessionHeader : Z := 1.
Definition RecordCommandStart : Z := 2.
Definition RecordFrame : Z := 3.
Definition RecordCommandEnd : Z := 4.
Definition RecordSessionFooter : Z := 5.

Inductive Direction : Type := DirSend | DirRecv.

Record SessionHeader := mkHeader {
  hd_Version : string; hd_StartTime : Z; hd_LocalUser : string; hd_LocalPID : Z;
  hd_BackendType : string; hd_BackendAddr : string; hd_AgentPath : string;
}.
Record CommandStart := mkStart { cs_SeqNum : Z; cs_StartTime : Z; cs_Exec : ExecMsg }.
Record RecordedFrame := mkRecorded { rf_SeqNum : Z; rf_Timestamp : Z; rf_Direction : Direction; rf_Frame : Frame }.
Record CommandEnd := mkEnd { ce_SeqNum : Z; ce_EndTime : Z; ce_ExitCode : Z }.
Record SessionFooter := mkFooter { ft_EndTime : Z; ft_CommandCount : Z }.

Record Rec := mkRec {
  rc_Type : Z; rc_Header : option SessionHeader; rc_CmdStart : option CommandStart;
  rc_Frame : option RecordedFrame; rc_CmdEnd : option CommandEnd; rc_Footer : option SessionFooter;
}.

Definition header_rec (h : SessionHeader) : Rec := mkRec RecordSessionHeader (Some h) None None None None.
Definition start_rec (k t : Z) (m : ExecMsg) : Rec :=
  mkRec RecordCommandStart None (Some (mkStart k t m)) None None None.
Definition frame_rec (k t : Z) (d : Direction) (f : Frame) : Rec :=
  mkRec RecordFrame None None (Some (mkRecorded k t d f)) None None.
Definition end_rec (k t code : Z) : Rec := mkRec RecordCommandEnd None None None (Some (mkEnd k t code)) None.
Definition footer_rec (t n : Z) : Rec := mkRec RecordSessionFooter None None None None (Some (mkFooter t n)).

(** ** The recorder *)

(** A write succeeds, fails without writing, or fails after part of the bytes. *)
Inductive write_outcome : Type := WrOk | WrNothing | WrTorn.
#[export] Instance write_outcome_eq_dec : EqDecision write_outcome.
Proof. solve_decision. Defined.

(** [out] is the stream: a record, or [None] for the fragment of a torn write. *)
Record Recorder := mkRecorder { seqNum : Z; out : list (option Rec); writable : bool; has_file : bool }.

Definition NewRecorder (create : bool) : option Recorder :=
  if create then Some (mkRecorder 0 [] true true) else None.
Definition NewRecorderWriter : Recorder := mkRecorder 0 [] true false.

Definition with_out (r : Recorder) (l : list (option Rec)) : Recorder := mkRecorder (seqNum r) l (writable r) (has_file r).

Definition rec_write (o : write_outcome) (x : Rec) (r : Recorder) : bool * Recorder :=
  if writable r then
    match o with
    | WrOk => (true, with_out r (out r ++ [Some x]))
    | WrNothing => (false, r)
    | WrTorn => (false, with_out r (out r ++ [None]))
    end
  else (false, r).

Definition WriteSessionHeader (o : write_outcome) (h : SessionHeader) : Recorder → bool * Recorder :=
  rec_write o (header_rec h).

(** [r.seqNum.Add(1) - 1] on 32 bits, then the write: two atomic regions. *)
Definition take_number (r : Recorder) : Z * Recorder :=
  (u32 (u32 (seqNum r + 1) - 1), mkRecorder (u32 (seqNum r + 1)) (out r) (writable r) (has_file r)).
Definition write_start (o : write_outcome) (k t : Z) (m : ExecMsg) : Recorder → bool * Recorder :=
  rec_write o (start_rec k t m).
Definition WriteCommandStart (o : write_outcome) (t : Z) (m : ExecMsg) (r : Recorder) : Z * bool * Recorder :=
  let '(k, r) := take_number r in let '(ok, r) := write_start o k t m r in (k, ok, r).

Definition WriteFrame (o : write_outcome) (k t : Z) (d : Direction) (f : Frame) : Recorder → bool * Recorder :=
  rec_write o (frame_rec k t d f).
Definition WriteCommandEnd (o : write_outcome) (k t code : Z) : Recorder → bool * Recorder :=
  rec_write o (end_rec k t code).
Definition WriteSessionFooter (o : write_outcome) (t : Z) (r : Recorder) : bool * Recorder :=
  rec_write o (footer_rec t (seqNum r)) r.

(** After the file is closed every write fails. *)
Definition rec_Close (o : write_outcome) (t : Z) (r : Recorder) : Recorder :=
  let r := (WriteSessionFooter o t r).2 in
  if has_file r then mkRecorder (seqNum r) (out r) false (has_file r) else r.

(** [ReadRecording] on what the successive calls of the decoder give; [None] is
    an error other than the end of the stream. *)
Fixpoint ReadRecording (l : list (option Rec)) : list Rec * bool :=
  match l with
  | [] => ([], true)
  | None :: _ => ([], false)
  | Some x :: l => let '(xs, ok) := ReadRecording l in (x :: xs, ok)
  end.

(** ** Commands that record *)

(** What a run of [RunWithControl] holds of the recorder: the number it took, and
    from the start record on whether its mux records ([SetRecorder]). *)
Inductive phase : Type :=
  | PNumbered (k : Z) (m : ExecMsg)
  | PRun (k : Z) (m : ExecMsg) (rec : bool)
  | PEnded (k : Z) (m : ExecMsg) (rec : bool) (code : Z)
  | PReturned (k : Z).

Inductive act : Type :=
  | ANumber (m : ExecMsg)
  | AStart (t : Z) (o : write_outcome)
  | ASend (t : Z) (f : Frame) (o : write_outcome)
  | ARecv (t : Z) (f : Frame) (o : write_outcome)
  | AEnd (t code : Z) (o : write_outcome)
  | AReturn.

(** [Mux.Send] and [Mux.ReadLoop] ignore the result of the write. *)
Definition mux_record (rec : bool) (o : write_outcome) (k t : Z) (d : Direction) (f : Frame) (r : Recorder) : Recorder :=
  if rec then (WriteFrame o k t d f r).2 else r.

(** The end record is written after the read loop and the input bridges have
    ended.  The goroutine that forwards signals is not waited for, so it can
    still send afterwards.  An early return (a frame that could not be sent)
    writes no end record. *)
Definition act_step (a : act) (p : option phase) (r : Recorder) : option (phase * Recorder) :=
  match a, p with
  | ANumber m, None => let '(k, r) := take_number r in Some (PNumbered k m, r)
  | AStart t o, Some (PNumbered k m) => let '(ok, r) := write_start o k t m r in Some (PRun k m ok, r)
  | ASend t f o, Some (PRun k m b) => Some (PRun k m b, mux_record b o k t DirSend f r)
  | ASend t f o, Some (PEnded k m b code) =>
      if Type_ f =? FrameSignal then Some (PEnded k m b code, mux_record b o k t DirSend f r) else None
  | ARecv t f o, Some (PRun k m b) => Some (PRun k m b, mux_record b o k t DirRecv f r)
  | AEnd t code o, Some (PRun k m b) => Some (PEnded k m b code, (WriteCommandEnd o k t code r).2)
  | AReturn, Some (PRun k m b) => Some (PReturned k, r)
  | _, _ => None
  end.

Inductive item : Type := ICmd (c : nat) (a : act) | IClose (t : Z) (o : write_outcome).
Record rstate := mkRState { rs_rec : Recorder; rs_cmds : gmap nat phase }.

Definition item_step (i : item) (s : rstate) : option rstate :=
  match i with
  | ICmd c a =>
      '(p, r) ← act_step a (rs_cmds s !! c) (rs_rec s);
      Some (mkRState r (<[c := p]> (rs_cmds s)))
  | IClose t o => Some (mkRState (rec_Close o t (rs_rec s)) (rs_cmds s))
  end.
Fixpoint run_items (l : list item) (s : rstate) : option rstate :=
  match l with [] => Some s | i :: l => item_step i s ≫= run_items l end.

(** A recorder on which [k] commands have been numbered and nothing written. *)
Definition fresh_at (k : Z) (file : bool) : rstate := mkRState (mkRecorder k [] true file) ∅.

(** ** Reading one command back *)

Definition rec_seq (x : Rec) : option Z :=
  match rc_CmdStart x, rc_Frame x, rc_CmdEnd x with
  | Some s, _, _ => Some (cs_SeqNum s)
  | _, Some f, _ => Some (rf_SeqNum f)
  | _, _, Some e => Some (ce_SeqNum e)
  | _, _, _ => None
  end.
Definition select (k : Z) (l : list (option Rec)) : list Rec :=
  filter (λ x, rec_seq x = Some k) (omap id l).

Definition phase_seq (p : phase) : Z :=
  match p with PNumbered k _ | PRun k _ _ | PEnded k _ _ _ | PReturned k => k end.
(** The items that concern command [c]: its own and the closing of the file. *)
Definition concerns (c : nat) (i : item) : bool :=
  match i with ICmd c' _ => bool_decide (c' = c) | IClose _ _ => true end.
Definition is_number (i : item) : bool := match i with ICmd _ (ANumber _) => true | _ => false end.
Definition numbers (l : list item) : nat := length (filter (λ i, is_number i = true) l).
Definition own (c : nat) (l : list item) : list item := filter (λ i, concerns c i = true) l.

Lemma select_app k l1 l2 : select k (l1 ++ l2) = select k l1 ++ select k l2.
Proof. unfold select. by rewrite omap_app, filter_app. Qed.
Lemma run_items_app l1 l2 s : run_items (l1 ++ l2) s = run_items l1 s ≫= run_items l2.
Proof.
  revert s. induction l1 as [|i l1 IH]; intros s; [done|]. cbn [app run_items].
  destruct (item_step i s) as [s'|]; [apply IH|done].
Qed.
Lemma run_items_snoc l i s : run_items (l ++ [i]) s = run_items l s ≫= item_step i.
Proof.
  rewrite run_items_app. destruct (run_items l s) as [s'|]; [|done].
  cbn. by destruct (item_step i s').
Qed.

Lemma own_snoc c l i : own c (l ++ [i]) = own c l ++ (if concerns c i then [i] else []).
Proof. unfold own. rewrite filter_app. f_equal. cbn. by destruct (concerns c i). Qed.
Lemma numbers_snoc l i : numbers (l ++ [i]) = (numbers l + if is_number i then 1 else 0)%nat.
Proof. unfold numbers. rewrite filter_app, length_app. f_equal. cbn. by destruct (is_number i). Qed.

(** What a write adds to the stream. *)
Definition written_rec (o : write_outcome) (x : Rec) (open : bool) : list (option Rec) :=
  if open then match o with WrOk => [Some x] | WrNothing => [] | WrTorn => [None] end else [].
Lemma rec_write_eq o x r :
  rec_write o x r = (bool_decide (o = WrOk) && writable r, with_out r (out r ++ written_rec o x (writable r))).
Proof.
  unfold rec_write, written_rec. destruct r as [n l [] hf], o; cbn; unfold with_out; cbn; by rewrite ?app_nil_r.
Qed.

(** The records an action adds, of the command's own number, and what it leaves
    of the recorder; only [ANumber] looks at the number. *)
Definition act_adds (a : act) (p : option phase) (open : bool) : list (option Rec) :=
  match a, p with
  | AStart t o, Some (PNumbered k m) => written_rec o (start_rec k t m) open
  | ASend t f o, Some (PRun k _ true) | ASend t f o, Some (PEnded k _ true _) =>
      written_rec o (frame_rec k t DirSend f) open
  | ARecv t f o, Some (PRun k _ true) => written_rec o (frame_rec k t DirRecv f) open
  | AEnd t code o, Some (PRun k _ _) => written_rec o (end_rec k t code) open
  | _, _ => []
  end.
Lemma act_step_spec a p r q r' :
  act_step a p r = Some (q, r') →
  out r' = out r ++ act_adds a p (writable r) ∧ writable r' = writable r ∧ has_file r' = has_file r ∧
  match a with
  | ANumber m => p = None ∧ q = PNumbered (u32 (u32 (seqNum r + 1) - 1)) m ∧ seqNum r' = u32 (seqNum r + 1)
  | _ => seqNum r' = seqNum r ∧ ∃ p0, p = Some p0 ∧ phase_seq q = phase_seq p0
  end.
Proof.
  destruct a, p as [[? ?|? ? []|? ? [] ?|?]|]; cbn; unfold write_start, mux_record, WriteFrame, WriteCommandEnd;
    rewrite ?rec_write_eq; try case_match; intros ?; simplify_eq/=; rewrite ?app_nil_r; eauto 10.
Qed.
Lemma act_step_sim a p r1 r2 q r1' :
  writable r1 = writable r2 → (match a with ANumber _ => seqNum r1 = seqNum r2 | _ => True end) →
  act_step a p r1 = Some (q, r1') → ∃ r2', act_step a p r2 = Some (q, r2').
Proof.
  intros Hw Hn. destruct a, p as [[? ?|? ? []|? ? [] ?|?]|]; cbn; unfold write_start, mux_record, WriteFrame, WriteCommandEnd;
    rewrite ?rec_write_eq; try case_match; intros ?; simplify_eq/=; rewrite ?Hw, ?Hn; eauto.
Qed.

Lemma select_written k o x open : rec_seq x ≠ Some k → select k (written_rec o x open) = [].
Proof.
  intros H. destruct open, o; cbn; try done. by case_decide.
Qed.
Lemma select_adds k a p open : (∀ p0, p = Some p0 → phase_seq p0 ≠ k) → select k (act_adds a p open) = [].
Proof.
  intros H. destruct a, p as [[? ?|? ? []|? ? [] ?|?]|]; cbn; try done;
    apply select_written; cbn; intros ?; simplify_eq; eapply H; eauto.
Qed.
Lemma rec_Close_spec o t r :
  out (rec_Close o t r) = out r ++ written_rec o (footer_rec t (seqNum r)) (writable r) ∧
  seqNum (rec_Close o t r) = seqNum r ∧ has_file (rec_Close o t r) = has_file r ∧
  writable (rec_Close o t r) = (writable r && negb (has_file r)).
Proof.
  unfold rec_Close, WriteSessionFooter. rewrite rec_write_eq. destruct r as [n l [] []]; by cbn.
Qed.

(** Numbers come from the counter, so below [2 ^ 32] commands they are distinct. *)
Lemma number_taken n : is_u 32 n → u32 (u32 (u32 n + 1) - 1) = n.
Proof.
  intros H. unfold u32, uwrap in *. rewrite (Z.mod_small n) by exact H.
  rewrite Zminus_mod_idemp_l. replace (n + 1 - 1) with n by lia. apply Z.mod_small. exact H.
Qed.

Record rinv (file : bool) (l : list item) (s : rstate) : Prop := {
  ri_num : seqNum (rs_rec s) = u32 (Z.of_nat (numbers l));
  ri_file : has_file (rs_rec s) = file;
  ri_range c p : rs_cmds s !! c = Some p → 0 ≤ phase_seq p < Z.of_nat (numbers l);
  ri_inj c d p q : rs_cmds s !! c = Some p → rs_cmds s !! d = Some q → phase_seq p = phase_seq q → c = d;
  ri_out k : Z.of_nat (numbers l) ≤ k → select k (out (rs_rec s)) = [];
}.

Lemma rinv_number file l s c m p r :
  Z.of_nat (numbers l) < 2 ^ 32 → rinv file l s → act_step (ANumber m) (rs_cmds s !! c) (rs_rec s) = Some (p, r) →
  rs_cmds s !! c = None ∧ p = PNumbered (Z.of_nat (numbers l)) m ∧ out r = out (rs_rec s) ∧
  rinv file (l ++ [ICmd c (ANumber m)]) (mkRState r (<[c := p]> (rs_cmds s))).
Proof.
  intros Hn [H1 H2 H3 H4 H5] Hs. apply act_step_spec in Hs as (Ho & Hw & Hf & Hp & -> & Hk).
  rewrite H1, number_taken in * by (unfold is_u; lia). cbn in Ho. rewrite app_nil_r in Ho.
  do 3 (split; [done|]).
  split; rewrite ?numbers_snoc; cbn [rs_rec rs_cmds is_number]; rewrite ?Nat2Z.inj_add.
  - rewrite Hk. unfold u32. by rewrite uwrap_add_l.
  - congruence.
  - intros d q [[<- <-]|[? Hd]]%lookup_insert_Some; cbn; [|apply H3 in Hd]; lia.
  - intros d e q q' [[<- <-]|[? Hd]]%lookup_insert_Some [[<- <-]|[? He]]%lookup_insert_Some; cbn; intros Hq; auto;
      [apply H3 in He | apply H3 in Hd | eauto]; lia.
  - intros k ?. rewrite Ho. apply H5. lia.
Qed.

Lemma rinv_other file l s c a p r :
  is_number (ICmd c a) = false → rinv file l s → act_step a (rs_cmds s !! c) (rs_rec s) = Some (p, r) →
  (∃ p0, rs_cmds s !! c = Some p0 ∧ phase_seq p = phase_seq p0) ∧
  rinv file (l ++ [ICmd c a]) (mkRState r (<[c := p]> (rs_cmds s))).
Proof.
  intros Ha [H1 H2 H3 H4 H5] Hs. apply act_step_spec in Hs as (Ho & Hw & Hf & Hs).
  assert (seqNum r = seqNum (rs_rec s) ∧ ∃ p0, rs_cmds s !! c = Some p0 ∧ phase_seq p = phase_seq p0) as (Hk & p0 & Hc & Hp)
    by (by destruct a).
  split; [eauto|]. split; rewrite ?numbers_snoc, ?Ha, ?Nat.add_0_r; cbn [rs_rec rs_cmds].
  - congruence.
  - congruence.
  - intros d q [[<- <-]|[? Hd]]%lookup_insert_Some; rewrite ?Hp; eauto.
  - intros d e q q' [[<- <-]|[? Hd]]%lookup_insert_Some [[<- <-]|[? He]]%lookup_insert_Some; rewrite ?Hp; eauto.
  - intros k ?. rewrite Ho, select_app, H5, select_adds; [done| |lia]. rewrite Hc. intros ? [= <-].
    specialize (H3 _ _ Hc). lia.
Qed.

Lemma rinv_close file l s t o :
  rinv file l s → rinv file (l ++ [IClose t o]) (mkRState (rec_Close o t (rs_rec s)) (rs_cmds s)).
Proof.
  intros [H1 H2 H3 H4 H5]. pose proof (rec_Close_spec o t (rs_rec s)) as (Ho & Hk & Hf & _).
  split; rewrite ?numbers_snoc; cbn [rs_rec rs_cmds is_number]; rewrite ?Nat.add_0_r; try congruence; eauto.
  intros k ?. by rewrite Ho, select_app, H5, select_written.
Qed.

Lemma rinv_run file l s :
  Z.of_nat (numbers l) ≤ 2 ^ 32 → run_items l (fresh_at 0 file) = Some s → rinv file l s.
Proof.
  revert s. induction l as [|i l IH] using rev_ind; intros s.
  { intros _ [= <-]. split; cbn; try done. }
  rewrite run_items_snoc, numbers_snoc, Nat2Z.inj_add. intros Hn. rewrite bind_Some. intros (s0 & H0 & Hi).
  assert (rinv file l s0) as I by (apply IH; [lia|done]).
  destruct i as [c a|t o]; cbn [item_step] in Hi; [|simplify_eq; by apply rinv_close].
  apply bind_Some in Hi as ([p r] & Hs & [= <-]).
  destruct (is_number (ICmd c a)) eqn:Ea; [|by eapply rinv_other].
  destruct a; try done. eapply rinv_number; eauto. lia.
Qed.

(** ** One command alone *)

Definition alike (c : nat) (k : Z) (s s' : rstate) : Prop :=
  writable (rs_rec s') = writable (rs_rec s) ∧ has_file (rs_rec s') = has_file (rs_rec s) ∧
  rs_cmds s' !! c = rs_cmds s !! c ∧
  match rs_cmds s !! c with
  | None => seqNum (rs_rec s') = k ∧ ∀ j, select j (out (rs_rec s')) = []
  | Some _ => select k (out (rs_rec s')) = select k (out (rs_rec s))
  end.

Lemma alike_close c k s s' t o :
  alike c k s s' →
  alike c k (mkRState (rec_Close o t (rs_rec s)) (rs_cmds s)) (mkRState (rec_Close o t (rs_rec s')) (rs_cmds s')).
Proof.
  intros (Hw & Hf & Hc & H). unfold alike. cbn [rs_rec rs_cmds].
  pose proof (rec_Close_spec o t (rs_rec s)) as (-> & _ & -> & ->).
  pose proof (rec_Close_spec o t (rs_rec s')) as (-> & -> & -> & ->).
  rewrite Hw, Hf. do 3 (split; [done|]). destruct (rs_cmds s !! c).
  - by rewrite !select_app, !select_written, !app_nil_r.
  - destruct H as [<- H]. split; [done|]. intros j. by rewrite select_app, select_written, H.
Qed.

Lemma alike_other c k d a s s' p r :
  d ≠ c → alike c k s s' → act_step a (rs_cmds s !! d) (rs_rec s) = Some (p, r) →
  (is_Some (rs_cmds s !! c) → ∀ p0, rs_cmds s !! d = Some p0 → phase_seq p0 ≠ k) →
  alike c k (mkRState r (<[d := p]> (rs_cmds s))) s'.
Proof.
  intros Hd (Hw & Hf & Hc & H) Hs Hk. apply act_step_spec in Hs as (Ho & Hw' & Hf' & _).
  unfold alike. cbn [rs_rec rs_cmds]. rewrite lookup_insert_ne by done. rewrite Hw, Hf, Hc.
  do 3 (split; [done|]). destruct (rs_cmds s !! c); [|done].
  by rewrite Ho, select_app, select_adds, app_nil_r by eauto.
Qed.

Lemma alike_own c k a s s' p r :
  alike c k s s' → act_step a (rs_cmds s !! c) (rs_rec s) = Some (p, r) →
  (∀ m, a = ANumber m → seqNum (rs_rec s) = k ∧ select k (out r) = []) →
  ∃ r', act_step a (rs_cmds s' !! c) (rs_rec s') = Some (p, r') ∧
    alike c k (mkRState r (<[c := p]> (rs_cmds s))) (mkRState r' (<[c := p]> (rs_cmds s'))).
Proof.
  intros (Hw & Hf & Hc & H) Hs Hn.
  assert (∃ r', act_step a (rs_cmds s' !! c) (rs_rec s') = Some (p, r')) as [r' Hs'].
  { rewrite Hc. eapply act_step_sim; [done| |done]. destruct a; try done.
    destruct (Hn _ eq_refl) as [-> _]. apply act_step_spec in Hs as (_ & _ & _ & Hp & _). rewrite Hp in H.
    by destruct H. }
  exists r'. split; [done|]. apply act_step_spec in Hs as (Ho & Hw1 & Hf1 & Hs), Hs' as (Ho' & Hw2 & Hf2 & Hs').
  unfold alike. cbn [rs_rec rs_cmds]. rewrite !lookup_insert_eq, Hw1, Hw2, Hf1, Hf2.
  do 3 (split; [done|]). rewrite Hc, Hw in Ho'.
  destruct (rs_cmds s !! c) eqn:Ec; [by rewrite Ho, Ho', !select_app, H|].
  destruct a; try (destruct Hs as (_ & ? & ? & _); done).
  destruct (Hn _ eq_refl) as [_ ->]. rewrite Ho', select_app. cbn. rewrite app_nil_r. by destruct H.
Qed.

(** A run with other commands, seen from one of them, is a run of that command
    alone that starts at its number. *)
Lemma recording_sim file l s c k :
  Z.of_nat (numbers l) ≤ 2 ^ 32 → run_items l (fresh_at 0 file) = Some s →
  (∀ p, rs_cmds s !! c = Some p → phase_seq p = k) →
  ∃ s', run_items (own c l) (fresh_at k file) = Some s' ∧ alike c k s s'.
Proof.
  revert s. induction l as [|i l IH] using rev_ind; intros s.
  { intros _ [= <-] _. by exists (fresh_at k file). }
  intros Hn Hr Hp. pose proof (rinv_run _ _ _ Hn Hr) as I'. revert Hr.
  rewrite own_snoc, run_items_snoc, bind_Some. intros (s0 & H0 & Hi).
  assert (Z.of_nat (numbers l) ≤ 2 ^ 32) as Hl by (rewrite numbers_snoc in Hn; lia).
  pose proof (rinv_run _ _ _ Hl H0) as I. specialize (IH _ Hl H0).
  destruct i as [d a|t o]; cbn [item_step concerns] in *.
  2: { simplify_eq. destruct IH as (s' & H1 & H2); [done|].
       exists (mkRState (rec_Close o t (rs_rec s')) (rs_cmds s')).
       split; [by rewrite run_items_snoc, H1|by apply alike_close]. }
  apply bind_Some in Hi as ([p r] & Hs & [= <-]). cbn [rs_cmds] in Hp. case_bool_decide as Hd.
  - subst d. rewrite lookup_insert_eq in Hp. specialize (Hp _ eq_refl).
    assert (∀ p0, rs_cmds s0 !! c = Some p0 → phase_seq p0 = k) as Hp0.
    { intros p0 Hp0. apply act_step_spec in Hs as (_ & _ & _ & Hs). rewrite Hp0 in Hs.
      destruct a; [by destruct Hs|..]; destruct Hs as (_ & ? & [= <-] & <-); done. }
    destruct (IH Hp0) as (s' & H1 & H2). edestruct alike_own as (r' & H3 & H4); [done|done| |].
    { intros m ->. rewrite numbers_snoc in Hn. cbn [is_number] in Hn.
      destruct (rinv_number file l s0 c m p r) as (_ & -> & Ho & _); [lia|done..|].
      cbn in Hp. subst k. rewrite Ho. split; [|by eapply ri_out; eauto].
      rewrite (ri_num _ _ _ I). apply uwrap_id. unfold is_u. lia. }
    eexists. split; [|exact H4]. rewrite run_items_snoc, H1. cbn. by rewrite H3.
  - rewrite lookup_insert_ne in Hp by done. destruct (IH Hp) as (s' & H1 & H2). exists s'. rewrite app_nil_r.
    split; [done|]. eapply alike_other; [done..|]. intros [p0 Hc] p1 Hp1 ?. specialize (Hp _ Hc). apply Hd.
    eapply ri_inj; [exact I|..]; eauto. congruence.
Qed.

(** ** The shape of a command's records *)

Definition frame_of (k : Z) (x : Rec) : Prop := ∃ t d f, x = frame_rec k t d f.
Definition late_signal (k : Z) (x : Rec) : Prop := ∃ t f, x = frame_rec k t DirSend f ∧ Type_ f = FrameSignal.
Definition running_shape (k : Z) (m : ExecMsg) (rec : bool) (l : list Rec) : Prop :=
  if rec then ∃ t fs, l = start_rec k t m :: fs ∧ Forall (frame_of k) fs else l = [].
Definition shape (p : phase) (l : list Rec) : Prop :=
  match p with
  | PNumbered _ _ => l = []
  | PRun k m rec => running_shape k m rec l
  | PEnded k m rec code => ∃ l0 e late, l = l0 ++ e ++ late ∧ running_shape k m rec l0 ∧
      (e = [] ∨ ∃ t, e = [end_rec k t code]) ∧ Forall (late_signal k) late ∧ (rec = false → late = [])
  | PReturned k => ∃ m rec, running_shape k m rec l
  end.

Lemma select_own k o x open :
  rec_seq x = Some k → select k (written_rec o x open) = if bool_decide (o = WrOk) && open then [x] else [].
Proof. intros H. destruct open, o; cbn; try done. by rewrite decide_True. Qed.

#[local] Arguments select : simpl never.
#[local] Arguments written_rec : simpl never.

Lemma running_shape_frame k m l o t d f open :
  running_shape k m true l → running_shape k m true (l ++ select k (written_rec o (frame_rec k t d f) open)).
Proof.
  intros (t0 & fs & -> & H). rewrite select_own by done. case_match; rewrite ?app_nil_r; exists t0; [|by exists fs].
  exists (fs ++ [frame_rec k t d f]). split; [done|]. apply Forall_app_2; [done|]. apply Forall_singleton. red; eauto.
Qed.

Lemma shape_step a p r q r' l :
  act_step a (Some p) r = Some (q, r') → shape p l →
  shape q (l ++ select (phase_seq q) (act_adds a (Some p) (writable r))).
Proof.
  destruct a as [m'|t o|t f o|t f o|t code o|], p as [k m|k m []|k m [] code'|k]; cbn; unfold write_start; rewrite ?rec_write_eq; try case_match eqn:Ef;
    intros [= <- <-]; cbn; rewrite ?app_nil_r; intros H; simplify_eq/=; auto;
    try exact (running_shape_frame _ _ _ _ _ _ _ _ H).
  - rewrite select_own by done. case_match; cbn; eauto.
  - destruct H as (l0 & e & late & -> & H0 & He & Hl & _). rewrite select_own by done.
    exists l0, e. destruct (bool_decide _ && _); [|exists late; rewrite app_nil_r; by split_and!].
    exists (late ++ [frame_rec k t DirSend f]). rewrite <- !app_assoc. split_and!; try done. apply Forall_app_2; [done|].
    apply Forall_singleton. exists t, f. split; [done|]. by apply Z.eqb_eq.
  - rewrite select_own by done. exists l, (if bool_decide (o = WrOk) && writable r then [end_rec k t code] else []), [].
    rewrite app_nil_r. split; [done|]. split; [done|]. split; [|done]. case_match; eauto.
  - rewrite select_own by done. exists [], (if bool_decide (o = WrOk) && writable r then [end_rec k t code] else []), [].
    rewrite app_nil_r. split; [done|]. split; [done|]. split; [|done]. case_match; eauto.
  - by exists m, true.
  - by exists m, false.
Qed.

Lemma shape_run file l s c p :
  Z.of_nat (numbers l) ≤ 2 ^ 32 → run_items l (fresh_at 0 file) = Some s → rs_cmds s !! c = Some p →
  shape p (select (phase_seq p) (out (rs_rec s))).
Proof.
  revert s p. induction l as [|i l IH] using rev_ind; intros s p Hn Hr; [by injection Hr as <-|].
  pose proof (rinv_run _ _ _ Hn Hr) as I'. revert Hr. rewrite run_items_snoc, bind_Some. intros (s0 & H0 & Hi) Hp.
  assert (Z.of_nat (numbers l) ≤ 2 ^ 32) as Hl by (rewrite numbers_snoc in Hn; lia).
  pose proof (rinv_run _ _ _ Hl H0) as I. destruct i as [d a|t o]; cbn [item_step] in Hi.
  2: { simplify_eq. cbn [rs_rec rs_cmds] in *. pose proof (rec_Close_spec o t (rs_rec s0)) as (-> & _).
       rewrite select_app, select_written, app_nil_r by done. by apply (IH s0). }
  apply bind_Some in Hi as ([q r] & Hs & [= <-]). cbn [rs_rec rs_cmds] in *.
  pose proof Hs as (Ho & _ & _ & Hq)%act_step_spec. rewrite Ho, select_app.
  apply lookup_insert_Some in Hp as [[<- <-]|[Hd Hp]].
  - destruct (rs_cmds s0 !! d) as [p0|] eqn:E0.
    + eapply shape_step; [exact Hs|]. assert (phase_seq q = phase_seq p0) as ->; [|by apply (IH s0)].
      destruct a; [by destruct Hq|..]; destruct Hq as (_ & ? & [= <-] & <-); done.
    + destruct a; try (destruct Hq as (_ & ? & ? & _); done). rewrite numbers_snoc in Hn. cbn [is_number] in Hn.
      destruct (rinv_number file l s0 d m q r) as (_ & -> & _); [lia|done|by rewrite E0|].
      cbn. rewrite app_nil_r. by eapply ri_out.
  - rewrite select_adds, app_nil_r; [by apply (IH s0)|]. intros p0 E0 Hk. apply Hd. by eapply (ri_inj _ _ _ I).
Qed.

(** C21: the recording separates its commands.  In every interleaving of up to
    [2 ^ 32] commands with each other and with the closing of the file, with any
    outcome of each write, no two commands have the same number, the records of a
    command's number are exactly those of a run in which the command records
    alone, and they are its start record, frames, at most one end record with
    its exit code and after that only signals it still sent. *)
Theorem recording_demux file l s c p :
  Z.of_nat (numbers l) ≤ 2 ^ 32 → run_items l (fresh_at 0 file) = Some s → rs_cmds s !! c = Some p →
  (∀ d q, d ≠ c → rs_cmds s !! d = Some q → phase_seq q ≠ phase_seq p) ∧
  (∃ s', run_items (own c l) (fresh_at (phase_seq p) file) = Some s' ∧ rs_cmds s' !! c = Some p ∧
    select (phase_seq p) (out (rs_rec s)) = select (phase_seq p) (out (rs_rec s'))) ∧
  shape p (select (phase_seq p) (out (rs_rec s))).
Proof.
  intros Hn Hr Hc. split_and!.
  - intros d q Hd Hq E. apply Hd. by eapply (ri_inj _ _ _ (rinv_run _ _ _ Hn Hr)).
  - destruct (recording_sim file l s c (phase_seq p)) as (s' & H1 & _ & _ & H2 & H3); [done|done|congruence|].
    rewrite Hc in H2, H3. eauto.
  - by eapply shape_run.
Qed.

(** ** Types of records *)

(** The types of the optional fields that are set. *)
Definition populated (x : Rec) : list Z :=
  (if rc_Header x is Some _ then [RecordSessionHeader] else []) ++ (if rc_CmdStart x is Some _ then [RecordCommandStart] else []) ++
  (if rc_Frame x is Some _ then [RecordFrame] else []) ++ (if rc_CmdEnd x is Some _ then [RecordCommandEnd] else []) ++
  (if rc_Footer x is Some _ then [RecordSessionFooter] else []).
Definition well_typed (x : Rec) : Prop := populated x = [rc_Type x].
Definition torn_free (l : list (option Rec)) : Prop := Forall (λ x, is_Some x) l.

Lemma omap_id_app (l1 l2 : list (option Rec)) : omap id (l1 ++ l2) = omap id l1 ++ omap id l2.
Proof. apply omap_app. Qed.
Lemma typed_written o x open : well_typed x → Forall well_typed (omap id (written_rec o x open)).
Proof. intros. destruct open, o; cbn; repeat constructor; done. Qed.
Lemma typed_adds a p open : Forall well_typed (omap id (act_adds a p open)).
Proof.
  destruct a, p as [[? ?|? ? []|? ? [] ?|?]|]; cbn; try constructor; by apply typed_written.
Qed.
Lemma ReadRecording_torn_free l : torn_free l → ReadRecording l = (omap id l, true).
Proof. induction 1 as [|x l [y ->] _ IH]; [done|]. cbn. by rewrite IH. Qed.
Lemma ReadRecording_prefix l : ∃ l', omap id l = (ReadRecording l).1 ++ l'.
Proof.
  induction l as [|[x|] l [l' IH]]; cbn; [by exists []| |by eexists].
  destruct (ReadRecording l) as [xs ok]. cbn in *. exists l'. by rewrite IH.
Qed.

Lemma typed_item i s s' :
  item_step i s = Some s' → Forall well_typed (omap id (out (rs_rec s))) → Forall well_typed (omap id (out (rs_rec s'))).
Proof.
  destruct i as [c a|t o]; cbn.
  - rewrite bind_Some. intros ([p r] & (Ho & _)%act_step_spec & [= <-]) Ht. cbn.
    rewrite Ho, omap_id_app. apply Forall_app_2; [done|apply typed_adds].
  - intros [= <-] H. cbn. pose proof (rec_Close_spec o t (rs_rec s)) as (-> & _).
    rewrite omap_id_app. apply Forall_app_2; [done|by apply typed_written].
Qed.

(** C39: every record of a recording, a session header at its start included, has
    exactly the field its type names, however its commands interleave; reading
    gives a prefix of the records, and all of them when no write was torn. *)
Theorem recording_typed h o l s :
  let r0 := (WriteSessionHeader o h (mkRecorder 0 [] true true)).2 in
  run_items l (mkRState r0 ∅) = Some s →
  Forall well_typed (omap id (out (rs_rec s))) ∧
  Forall well_typed (ReadRecording (out (rs_rec s))).1 ∧
  (torn_free (out (rs_rec s)) → ReadRecording (out (rs_rec s)) = (omap id (out (rs_rec s)), true)).
Proof.
  intros r0 Hr. assert (Forall well_typed (omap id (out (rs_rec s)))) as H.
  { assert (Forall well_typed (omap id (out r0))) as H0 by (unfold r0; destruct o; cbn; by repeat constructor).
    revert Hr H0. change r0 with (rs_rec (mkRState r0 ∅)) at 2. generalize (mkRState r0 ∅).
    induction l as [|i l IH]; intros s0; cbn; [by intros [= <-]|].
    rewrite bind_Some. intros (s1 & H1 & H2) H0. eapply IH; [done|]. by eapply typed_item. }
  split; [done|]. split; [|apply ReadRecording_torn_free].
  destruct (ReadRecording_prefix (out (rs_rec s))) as [l' E]. rewrite E in H. by apply Forall_app in H as [H _].
Qed.

(** ** Log records: agent to operator *)

Definition LevelTrace : Z := -8.
Definition LevelDebug : Z := -4.
Definition LevelInfo : Z := 0.
Definition LevelWarn : Z := 4.
Definition LevelError : Z := 8.

Definition ParseLevel (s : string) : Z :=
  let s := ToLower s in
  if String.eqb s "trace" then LevelTrace
  else if String.eqb s "debug" then LevelDebug
  else if String.eqb s "warn" then LevelWarn
  else if String.eqb s "error" then LevelError
  else LevelInfo.

(** [Setup]: whether a record is written, and the text of its level; [String] is the level's
    own text. *)
Definition setup_enabled (level : string) (lvl : Z) : bool := ParseLevel level <=? lvl.
Definition level_text (String : Z → string) (lvl : Z) : string := if lvl =? LevelTrace then "TRACE" else String lvl.

(** A [slog.Attr] with the string of its value. *)
Definition Attr : Type := string * string.
Record MuxLogHandler := mkLogHandler { lh_level : Z; lh_attrs : list string; lh_group : string }.

Definition NewMuxLogHandler (level : Z) : MuxLogHandler := mkLogHandler level [] "".
Definition Enabled (h : MuxLogHandler) (level : Z) : bool := lh_level h <=? level.

Definition qualified (group key : string) : string :=
  if String.eqb group "" then key else group +:+ "." +:+ key.
Definition attr_string (group : string) (a : Attr) : string := qualified group a.1 +:+ "=" +:+ a.2.

Definition WithAttrs (h : MuxLogHandler) (l : list Attr) : MuxLogHandler :=
  mkLogHandler (lh_level h) (lh_attrs h ++ (attr_string (lh_group h) <$> l)) (lh_group h).
Definition WithGroup (h : MuxLogHandler) (name : string) : MuxLogHandler :=
  mkLogHandler (lh_level h) (lh_attrs h) (qualified (lh_group h) name).

(** The frame [Handle] sends for a record. *)
Definition Handle_log (h : MuxLogHandler) (level : Z) (msg : string) (l : list Attr) : Frame :=
  mkFrame FrameLog 0 "" 0 0 "" None
    (Some (mkLog level msg (lh_attrs h ++ (attr_string (lh_group h) <$> l)))) None None None None None.

(** The receiver: the attributes the runner's log callback passes on. *)
Definition cut_attr (kv : string) : Attr := default (kv, "") (CutByte "="%char kv).
Definition log_attrs (e : LogEntry) : list Attr := ("source", "agent") :: (cut_attr <$> lg_Attrs e).

(** A logger as slog builds it: groups opened and attributes attached in order. *)
Inductive log_op : Type := LWith (l : list Attr) | LGroup (name : string).
Definition derive (h : MuxLogHandler) (ops : list log_op) : MuxLogHandler :=
  foldl (λ h o, match o with LWith l => WithAttrs h l | LGroup n => WithGroup h n end) h ops.

(** The reference: every attribute under the names of the groups open where it
    was attached, joined by dots. *)
Definition under (groups : list string) (a : Attr) : Attr := (Join "."%char (groups ++ [a.1]), a.2).
Fixpoint attached (groups : list string) (ops : list log_op) (last : list Attr) : list Attr :=
  match ops with
  | [] => under groups <$> last
  | LWith l :: ops => (under groups <$> l) ++ attached groups ops last
  | LGroup n :: ops => attached (groups ++ [n]) ops last
  end.
Definition no_equals (s : string) : bool := negb (contains_byte "="%char s).
Definition op_plain (o : log_op) : Prop :=
  match o with LWith l => Forall (λ a, no_equals a.1 = true) l | LGroup n => n ≠ "" ∧ no_equals n = true end.

Definition group_ok (groups : list string) : Prop := Forall (λ n, n ≠ "" ∧ no_equals n = true) groups.

Lemma Join_not_empty groups : group_ok groups → groups ≠ [] → Join "."%char groups ≠ "".
Proof.
  intros H Hne. destruct H as [|n [|n' l] [Hn _] H]; [done|done|].
  rewrite Join_cons by done. by destruct n.
Qed.
Lemma qualified_Join groups key :
  group_ok groups → qualified (Join "."%char groups) key = Join "."%char (groups ++ [key]).
Proof.
  intros H. unfold qualified. destruct (decide (groups = [])) as [->|Hne]; [done|].
  rewrite (proj2 (seqb_false _ _)) by (by apply Join_not_empty). by rewrite Join_app.
Qed.
Lemma no_equals_Join groups key :
  group_ok groups → no_equals key = true → contains_byte "="%char (Join "."%char (groups ++ [key])) = false.
Proof.
  intros H Hk. induction H as [|n l [Hn He] H IH]; cbn [app]; [by apply negb_true_iff in Hk|].
  rewrite Join_cons by (by destruct l). rewrite contains_byte_app. cbn. apply negb_true_iff in He. by rewrite He, IH.
Qed.
Lemma cut_attr_string groups a :
  group_ok groups → no_equals a.1 = true → cut_attr (attr_string (Join "."%char groups) a) = under groups a.
Proof.
  intros H Ha. unfold cut_attr, attr_string, under. rewrite qualified_Join by done.
  change ("=" +:+ a.2) with (String "="%char a.2). by rewrite CutByte_app by (by apply no_equals_Join).
Qed.
Lemma cut_attrs groups l :
  group_ok groups → Forall (λ a, no_equals a.1 = true) l →
  cut_attr <$> (attr_string (Join "."%char groups) <$> l) = under groups <$> l.
Proof.
  intros H Hl. rewrite <- list_fmap_compose. apply list_fmap_ext. intros i a Ha. apply cut_attr_string; [done|].
  by eapply Forall_lookup_1 in Hl.
Qed.

Lemma derive_attrs ops groups h last :
  group_ok groups → Forall op_plain ops → Forall (λ a, no_equals a.1 = true) last → lh_group h = Join "."%char groups →
  cut_attr <$> (lh_attrs (derive h ops) ++ (attr_string (lh_group (derive h ops)) <$> last)) =
  (cut_attr <$> lh_attrs h) ++ attached groups ops last.
Proof.
  intros Hg Hops Hl. revert groups h Hg. induction Hops as [|o ops Ho _ IH]; intros groups h Hg Hh.
  - cbn. by rewrite Hh, fmap_app, cut_attrs.
  - destruct o as [l|n]; cbn [derive foldl attached].
    + rewrite (IH groups) by done. cbn. by rewrite Hh, fmap_app, cut_attrs, app_assoc.
    + rewrite (IH (groups ++ [n])); [done| |].
      * by apply Forall_app_2; [|apply Forall_singleton].
      * cbn. by rewrite Hh, qualified_Join.
Qed.

(** A log record of the agent reaches the operator's logger with its level, its
    message and exactly its attributes, each under the groups open where it was
    attached, when group names are not empty and no group or key contains [=]. *)
Theorem log_forwarded level ops lvl msg last :
  Forall op_plain ops → Forall (λ a, no_equals a.1 = true) last →
  ∃ e, Log (Handle_log (derive (NewMuxLogHandler level) ops) lvl msg last) = Some e ∧
    lg_Level e = lvl ∧ lg_Msg e = msg ∧ log_attrs e = ("source", "agent") :: attached [] ops last.
Proof.
  intros Hops Hl. eexists. split; [done|]. split; [done|]. split; [done|]. unfold log_attrs. f_equal. cbn.
  rewrite (derive_attrs ops []); [done|constructor|done..].
Qed.

Module Demo.

Definition m0 : ExecMsg := mkExec "/bin/x" ["x"] [] "/" [].
Definition sig : Frame := frame0 FrameSignal.
(** Two commands in turn; the second is still running when the file is closed. *)
Definition schedule : list item :=
  [ICmd 0 (ANumber m0); ICmd 1 (ANumber m0); ICmd 1 (AStart 1 WrOk); ICmd 0 (AStart 2 WrOk);
   ICmd 0 (ASend 3 (frame0 FrameExec) WrOk); ICmd 1 (ARecv 4 (frame0 FrameData) WrNothing);
   ICmd 0 (ARecv 5 (frame0 FrameExit) WrOk); ICmd 0 (AEnd 6 3 WrOk); ICmd 0 (ASend 7 sig WrOk);
   IClose 8 WrOk; ICmd 1 (AEnd 9 0 WrOk)].
Definition final : rstate := default (fresh_at 0 true) (run_items schedule (fresh_at 0 true)).

(** The second command's end comes after the file was closed and is lost. *)
Example end_after_close_lost :
  select 1 (out (rs_rec final)) = [start_rec 1 1 m0] ∧
  select 0 (out (rs_rec final)) =
    [start_rec 0 2 m0; frame_rec 0 3 DirSend (frame0 FrameExec); frame_rec 0 5 DirRecv (frame0 FrameExit);
     end_rec 0 6 3; frame_rec 0 7 DirSend sig].
Proof. split; reflexivity. Qed.

Lemma recording_demux_witness :
  (Z.of_nat (numbers schedule) ≤ 2 ^ 32 ∧ rs_cmds final !! 0%nat = Some (PEnded 0 m0 true 3)) ∧
  shape (PEnded 0 m0 true 3) (select 0 (out (rs_rec final))).
Proof.
  split; [split; [vm_compute; discriminate|reflexivity]|].
  apply (recording_demux true schedule final 0 (PEnded 0 m0 true 3)); [vm_compute; discriminate|reflexivity..].
Defined.

Definition h0 : SessionHeader := mkHeader "1" 0 "u" 1 "ssh" "h" "/a".
Definition with_header : rstate := mkRState (WriteSessionHeader WrOk h0 (mkRecorder 0 [] true true)).2 ∅.
Definition final_h : rstate := Eval vm_compute in default with_header (run_items schedule with_header).
Lemma recording_typed_witness :
  run_items schedule with_header = Some final_h ∧
    ReadRecording (out (rs_rec final_h)) = (omap id (out (rs_rec final_h)), true).
Proof.
  assert (run_items schedule with_header = Some final_h) as E by (vm_compute; reflexivity).
  split; [exact E|]. apply (recording_typed h0 WrOk schedule final_h E). unfold final_h. cbn [rs_rec out].
  repeat constructor; by eexists.
Defined.

(** Names match in any case; an unknown name, [warning] for one, is info. *)
Example levels :
  (ParseLevel "Trace", ParseLevel "WARN", ParseLevel "warning", ParseLevel "") = (-8, 4, 0, 0).
Proof. reflexivity. Qed.

Lemma log_forwarded_witness :
  ∃ e, Log (Handle_log (derive (NewMuxLogHandler 0) [LWith [("a", "1=2")]; LGroup "g"; LGroup "h"]) 4 "msg" [("k", "v")]) = Some e ∧
    log_attrs e = [("source", "agent"); ("a", "1=2"); ("g.h.k", "v")].
Proof.
  destruct (log_forwarded 0 [LWith [("a", "1=2")]; LGroup "g"; LGroup "h"] 4 "msg" [("k", "v")]) as (e & H1 & _ & _ & H2);
    [repeat constructor; discriminate|repeat constructor|].
  exists e. split; [exact H1|]. rewrite H2. reflexivity.
Defined.

End Demo.
