(* ===== verification/Wire.v ===== *)
(** * Wire: frames as bytes on a shared connection

    Models the two codecs, [pkg/agentproto/codec.go] and the encoder and decoder of
    [pkg/broker/protocol.go]: the same locked encoder and plain decoder around the CBOR
    library.  The rest of the development works on sequences of frames and on their
    interleavings; this file shows that this is what the bytes mean.  The library is an
    interface ([Codec]) with two documented properties of CBOR: a value decodes to itself
    whatever follows it, and no proper prefix of an encoding decodes.  The first holds of
    values whose texts are UTF-8, which are the values a codec is over: [Layout.typed_laws]
    has it for the type [Layout.ranged] of those, and [Layout.frames_roundtrip] what becomes
    of the others.

    Any number of goroutines send over one encoder.  The library hands the bytes of a value
    to the connection in one [Write], which the kernel may take in pieces; the state is the
    bytes the holder of the lock has not written yet, and the bytes on the wire. *)

From S2P Require Import Prelude GoStrings Streams RemoteExec Broker.

(** ** The library *)

(** [A] is the type of the values the library reads back, those with texts in UTF-8. *)
Class Codec (A : Type) := {
  marshal : A → string;
  decode1 : string → option (A * string);     (** the first value of a stream, and the rest *)
}.
Class CodecLaws (A : Type) {C : Codec A} : Prop := {
  marshal_not_empty x : marshal x ≠ "";
  decode_marshal x t : decode1 (marshal x +:+ t) = Some (x, t);
  decode_prefix x p q : marshal x = p +:+ q → q ≠ "" → decode1 p = None;
}.

(** ** The encoder and its goroutines *)

Section wire.
Context {A : Type} {C : Codec A} {CL : CodecLaws A}.

(** [Encoder]: the lock is held together with the bytes that are still to be written;
    [broken] is a connection whose [Write] has failed. *)
Record encoder := mkEncoder { pending : option string; on_wire : string; broken : bool }.
Definition NewEncoder : encoder := mkEncoder None "" false.

(** The goroutines with the frames they have still to send, and their encoder. *)
Record senders := mkSenders { todo : list (list A); enc : encoder }.

(** The regions of [Encode] in the order of the code: take the lock with the bytes of the
    value, write them piecewise, return and unlock.  A failed write ends the call; the
    callers ignore it or stop. *)
Definition Encode_lock (x : A) (e : encoder) : option encoder :=
  match pending e with
  | None => Some (mkEncoder (Some (marshal x)) (on_wire e) (broken e))
  | Some _ => None
  end.
Definition Encode_write (n : nat) (e : encoder) : option encoder :=
  match pending e with
  | Some r => if broken e then None else Some (mkEncoder (Some (sdrop n r)) (on_wire e +:+ stake n r) false)
  | None => None
  end.
Definition Encode_return (ok : bool) (e : encoder) : option encoder :=
  match pending e with
  | Some r =>
      if ok then if String.eqb r "" then Some (mkEncoder None (on_wire e) (broken e)) else None
      else Some (mkEncoder None (on_wire e) true)
  | None => None
  end.

Inductive wstep : senders → senders → Prop :=
  | ws_lock i x l s e : todo s !! i = Some (x :: l) → Encode_lock x (enc s) = Some e →
      wstep s (mkSenders (<[i := l]> (todo s)) e)
  | ws_write n s e : Encode_write n (enc s) = Some e → wstep s (mkSenders (todo s) e)
  | ws_return ok s e : Encode_return ok (enc s) = Some e → wstep s (mkSenders (todo s) e).

(** ** The decoder *)

(** [Decode] until it fails: the frames, and whether the stream ended after a whole one. *)
Fixpoint decode_from (fuel : nat) (s : string) : list A * bool :=
  match s with
  | EmptyString => ([], true)
  | _ =>
      match fuel with
      | O => ([], false)
      | S fuel =>
          match decode1 s with
          | None => ([], false)
          | Some (x, t) => let '(l, ok) := decode_from fuel t in (x :: l, ok)
          end
      end
  end.
(** A frame is at least one byte, so the length of the stream is enough fuel. *)
Definition decode_stream (s : string) : list A * bool := decode_from (slen s) s.

Definition wire_of (l : list A) : string := sconcat (marshal <$> l).

Lemma wire_of_app l k : wire_of (l ++ k) = wire_of l +:+ wire_of k.
Proof. unfold wire_of. by rewrite fmap_app, sconcat_app. Qed.
Lemma wire_of_one x : wire_of [x] = marshal x.
Proof. unfold wire_of. apply sapp_nil_r. Qed.

Lemma decode_from_frames fuel l t :
  (slen (wire_of l +:+ t) ≤ fuel)%nat → (t = "" ∨ decode1 t = None) →
  decode_from fuel (wire_of l +:+ t) = (l, String.eqb t "").
Proof.
  revert fuel. induction l as [|x l IH]; intros fuel Hf Ht.
  - change (wire_of []) with "". rewrite sapp_nil_l in *. destruct t as [|c t]; [by destruct fuel|].
    destruct fuel as [|fuel]; cbn in *; [lia|]. destruct Ht as [?|Ht]; [done|]. by rewrite Ht.
  - change (x :: l) with ([x] ++ l) in *. rewrite wire_of_app, wire_of_one, <- sapp_assoc in *.
    pose proof (marshal_not_empty x) as Hne. pose proof (decode_marshal x (wire_of l +:+ t)) as Hd.
    rewrite slen_app in Hf. destruct (marshal x) as [|c m] eqn:Em; [done|]. cbn [slen String.length] in Hf.
    destruct fuel as [|fuel]; [cbn in Hf; lia|]. cbn [decode_from] in *. rewrite sapp_cons in *. rewrite Hd.
    rewrite IH; [done|cbn in Hf; lia|done].
Qed.
Lemma decode_stream_frames l t :
  t = "" ∨ decode1 t = None → decode_stream (wire_of l +:+ t) = (l, String.eqb t "").
Proof. intros. by apply decode_from_frames. Qed.

(** ** Interleavings *)

(** [takes ls out ls']: taking [out], in order, from the fronts of [ls] leaves [ls']. *)
Inductive takes : list (list A) → list A → list (list A) → Prop :=
  | takes_nil ls : takes ls [] ls
  | takes_step i x l ls out ls' :
      ls !! i = Some (x :: l) → takes (<[i := l]> ls) out ls' → takes ls (x :: out) ls'.

Lemma takes_snoc ls out ls' i x l :
  takes ls out ls' → ls' !! i = Some (x :: l) → takes ls (out ++ [x]) (<[i := l]> ls').
Proof.
  induction 1 as [ls|j y k ls out ls' Hj _ IH]; intros Hi; cbn.
  - eapply takes_step; [done|constructor].
  - eapply takes_step; [done|by apply IH].
Qed.
Lemma takes_merges ls out ls' : takes ls out ls' → Forall (λ l, l = []) ls' → merges ls out.
Proof. induction 1 as [|i x l ls out ls' Hi _ IH]; intros He; [by constructor|]. eapply merges_step; eauto. Qed.

Lemma takes_complete ls out ls' : takes ls out ls' → ∃ rest, merges ls (out ++ rest).
Proof.
  induction 1 as [ls|i x l ls out ls' Hi _ [rest IH]]; [exists (concat ls); apply merges_concat|].
  exists rest. cbn. by eapply merges_step.
Qed.

(** ** The invariant *)

(** After [pre] has been sent, some frames are complete on the wire, followed by a part of
    the next; while the connection works the frames are those taken so far, the last one
    perhaps in progress. *)
Definition winv (pre : list A) (ls : list (list A)) (s : senders) : Prop :=
  ∃ out full part, takes ls out (todo s) ∧ on_wire (enc s) = wire_of full +:+ part ∧
    if broken (enc s) then full `prefix_of` pre ++ out ∧ (part = "" ∨ decode1 part = None)
    else match pending (enc s) with
         | None => pre ++ out = full ∧ part = ""
         | Some r => ∃ x, pre ++ out = full ++ [x] ∧ marshal x = part +:+ r
         end.

Lemma winv_init ls : winv [] ls (mkSenders ls NewEncoder).
Proof. exists [], [], "". split; [constructor|]. by split. Qed.

(** The bytes of a frame that are on the wire: all of them, or a prefix that does not
    decode. *)
Lemma part_of_frame x p r : marshal x = p +:+ r → (r = "" ∧ p = marshal x) ∨ decode1 p = None.
Proof.
  intros E. destruct (decide (r = "")) as [->|Hr]; [left|right; by eapply decode_prefix].
  by rewrite sapp_nil_r in E.
Qed.
Lemma wire_of_snoc full x : wire_of full +:+ marshal x = wire_of (full ++ [x]) +:+ "".
Proof. by rewrite wire_of_app, wire_of_one, sapp_nil_r. Qed.

Lemma winv_return pre ls s ok e :
  winv pre ls s → Encode_return ok (enc s) = Some e → winv pre ls (mkSenders (todo s) e).
Proof.
  intros (out & full & part & Ht & Hw & Hn). unfold Encode_return. destruct (pending (enc s)) as [r|]; [|done].
  destruct ok.
  - destruct (String.eqb_spec r "") as [->|]; [|done]. intros [= <-]. unfold winv. cbn. destruct (broken (enc s)).
    + by exists out, full, part.
    + destruct Hn as (x & Ho & Hx). rewrite sapp_nil_r in Hx. exists out, (full ++ [x]), "".
      split; [done|]. split; [|done]. by rewrite Hw, <- Hx, wire_of_snoc.
  - intros [= <-]. unfold winv. cbn. destruct (broken (enc s)); [by exists out, full, part|].
    destruct Hn as (x & Ho & Hx). destruct (part_of_frame _ _ _ Hx) as [[-> ->]|Hp].
    + exists out, (full ++ [x]), "". split; [done|]. split; [by rewrite Hw, wire_of_snoc|]. rewrite Ho. auto.
    + exists out, full, part. split; [done|]. split; [done|]. rewrite Ho. split; [by eexists|by right].
Qed.

Lemma winv_step pre ls s s' : wstep s s' → winv pre ls s → winv pre ls s'.
Proof.
  intros Hs Hi. destruct Hs as [i x l s e Hx He|n s e He|ok s e He]; [| |by eapply winv_return];
    destruct Hi as (out & full & part & Ht & Hw & Hn).
  - unfold Encode_lock in He. destruct (pending (enc s)); simplify_eq. exists (out ++ [x]), full, part. cbn.
    split; [by eapply takes_snoc|]. split; [done|]. rewrite app_assoc. destruct (broken (enc s)).
    + destruct Hn as [Hp Hd]. split; [by apply prefix_app_r|done].
    + destruct Hn as [-> ->]. by exists x.
  - unfold Encode_write in He. destruct (pending (enc s)) as [r|]; [|done].
    destruct (broken (enc s)) eqn:Eb; simplify_eq. destruct Hn as (x & Ho & Hx).
    exists out, full, (part +:+ stake n r). split; [done|]. cbn. split; [by rewrite Hw, sapp_assoc|].
    exists x. split; [done|]. by rewrite <- sapp_assoc, stake_sdrop.
Qed.
Lemma winv_steps pre ls s s' : rtc wstep s s' → winv pre ls s → winv pre ls s'.
Proof. induction 1; eauto using winv_step. Qed.

(** The next group of senders, when the first is done. *)
Lemma winv_next pre ls ls' s :
  winv pre ls s → pending (enc s) = None →
  ∃ out, takes ls out (todo s) ∧ winv (pre ++ out) ls' (mkSenders ls' (enc s)).
Proof.
  intros (out & full & part & Ht & Hw & Hn) Hp. exists out. split; [done|]. exists [], full, part.
  split; [constructor|]. split; [done|]. cbn. rewrite Hp, app_nil_r in *. by destruct (broken (enc s)).
Qed.

(** What the other end reads at any moment is a prefix of what has been taken; a frame is
    never mixed with another; when nothing is in progress it is all of it. *)
Lemma winv_decodes pre ls s :
  winv pre ls s →
  ∃ out, takes ls out (todo s) ∧ (decode_stream (on_wire (enc s))).1 `prefix_of` pre ++ out ∧
    (broken (enc s) = false → pending (enc s) = None → decode_stream (on_wire (enc s)) = (pre ++ out, true)).
Proof.
  intros (out & full & part & Ht & Hw & Hn). exists out. split; [done|]. rewrite Hw.
  destruct (broken (enc s)).
  - destruct Hn as [Hp Hd]. by rewrite decode_stream_frames.
  - destruct (pending (enc s)) as [r|].
    + destruct Hn as (x & -> & Hx). split; [|done]. destruct (part_of_frame _ _ _ Hx) as [[-> ->]|Hp].
      * rewrite wire_of_snoc, decode_stream_frames by auto. done.
      * rewrite decode_stream_frames by auto. by eexists.
    + destruct Hn as [-> ->]. by rewrite decode_stream_frames by auto.
Qed.

(** Every interleaving can occur: each frame written at once. *)
Lemma send_frames ls out ls' w :
  takes ls out ls' →
  rtc wstep (mkSenders ls (mkEncoder None w false)) (mkSenders ls' (mkEncoder None (w +:+ wire_of out) false)).
Proof.
  intros Ht. revert w. induction Ht as [ls|i x l ls out ls' Hi _ IH]; intros w.
  - change (wire_of []) with "". by rewrite sapp_nil_r.
  - change (x :: out) with ([x] ++ out). rewrite wire_of_app, wire_of_one, sapp_assoc.
    eapply rtc_l; [by eapply (ws_lock i x l)|]. cbn.
    eapply rtc_l; [by apply (ws_write (slen (marshal x)))|]. cbn.
    assert (stake (slen (marshal x)) (marshal x) = marshal x ∧ sdrop (slen (marshal x)) (marshal x) = "") as [-> ->].
    { pose proof (stake_app (marshal x) "") as H1. pose proof (sdrop_app (marshal x) "") as H2.
      by rewrite sapp_nil_r in H1, H2. }
    eapply rtc_l; [by apply (ws_return true)|]. apply IH.
Qed.
End wire.
Arguments senders : clear implicits.

(** ** The broker's connection *)

Section broker.
Context {C : Codec BFrame} {CL : CodecLaws BFrame}.

(** The copying goroutines, and the exit frame once all of them have returned. *)
Inductive conn_state (d : Deps) (run : Request → run_result) (dec : result string Request) : senders BFrame → bool → Prop :=
  | cs_body s : rtc wstep (mkSenders (serveConn d run dec).1 NewEncoder) s → conn_state d run dec s false
  | cs_exit s s' : conn_state d run dec s false → Forall (λ l, l = []) (todo s) → pending (enc s) = None →
      rtc wstep (mkSenders [[(serveConn d run dec).2]] (enc s)) s' → conn_state d run dec s' true.

Lemma takes_one {A} (x : A) out ls : takes [[x]] out ls → out = [] ∨ out = [x].
Proof.
  inversion 1 as [|i y l ? out' ? Hi Ht]; subst; [by left|]. destruct i as [|[|i]]; simplify_eq/=.
  inversion Ht as [|j z k ? ? ? Hj]; subst; [by right|]. by destruct j as [|[|j]].
Qed.

End broker.

(** ** A codec for every countable type, and witnesses *)

(** The bits of the code of a value, ended by a byte of its own. *)
Fixpoint bits (p : positive) : string :=
  match p with xH => "E" | xO p => String "0" (bits p) | xI p => String "1" (bits p) end.
Fixpoint unbits (s : string) : option (positive * string) :=
  match s with
  | EmptyString => None
  | String c s =>
      if Ascii.eqb c "E" then Some (xH, s)
      else if Ascii.eqb c "0" then '(p, t) ← unbits s; Some (xO p, t)
      else if Ascii.eqb c "1" then '(p, t) ← unbits s; Some (xI p, t)
      else None
  end.
#[local] Instance countable_codec `{Countable A} : Codec A :=
  {| marshal x := bits (encode x); decode1 s := '(p, t) ← unbits s; x ← decode p; Some (x, t) |}.

Lemma unbits_bits p t : unbits (bits p +:+ t) = Some (p, t).
Proof. induction p as [p IH|p IH|]; cbn; rewrite ?sapp_cons; cbn; by rewrite ?IH. Qed.
Lemma unbits_prefix p a b : bits p = a +:+ b → b ≠ "" → unbits a = None.
Proof.
  revert a. induction p as [p IH|p IH|]; intros [|c a] E Hb; try done; rewrite sapp_cons in E; injection E as <- E; cbn.
  - by rewrite (IH a E Hb).
  - by rewrite (IH a E Hb).
  - destruct a as [|c a]; [by rewrite sapp_nil_l in E; subst|done].
Qed.
#[local] Instance countable_codec_laws `{Countable A} : CodecLaws A.
Proof.
  split.
  - intros x. cbn. by destruct (encode x).
  - intros x t. cbn. rewrite unbits_bits. cbn. by rewrite decode_encode.
  - intros x p q E Hq. cbn in *. by rewrite (unbits_prefix _ _ _ E Hq).
Qed.

#[local] Instance BFrame_eq_dec : EqDecision BFrame.
Proof. solve_decision. Defined.
#[local] Instance BFrame_countable : Countable BFrame :=
  inj_countable' (λ f, (b_Stream f, b_Data f, b_Code f, b_Error f, b_Signal f))
    (λ '(s, d, c, e, g), mkBFrame s d c e g) (λ '(mkBFrame _ _ _ _ _), eq_refl).

Module Demo.
Import Broker.Demo.

Definition sent : list BFrame := take 3 wire.
Definition finished : senders BFrame := mkSenders [[]] (mkEncoder None (wire_of sent +:+ wire_of [exit_bframe 42 None]) false).

Lemma body_taken : takes (serveConn deps run (Ok req)).1 sent [[]; []; []].
Proof.
  apply (takes_step 2 _ []); [reflexivity|]. apply (takes_step 0 _ [data_bframe "stdout" "lo"]); [reflexivity|].
  apply (takes_step 0 _ []); [reflexivity|]. constructor.
Qed.
Lemma finished_reachable : conn_state deps run (Ok req) finished true.
Proof.
  eapply (cs_exit _ _ _ (mkSenders [[]; []; []] (mkEncoder None (wire_of sent) false))); [|by repeat constructor|done|].
  - constructor. rewrite <- (sapp_nil_l (wire_of sent)). apply (send_frames _ _ _ ""), body_taken.
  - apply send_frames. apply (takes_step 0 _ []); [reflexivity|]. constructor.
Qed.


(** Without the lock two senders mix their bytes: both frames are lost. *)
Example unlocked_bytes_mix :
  let x := encode (data_bframe "stdout" "a") in let y := encode (data_bframe "stderr" "b") in
  let a := bits x in let b := bits y in
  decode_stream (A := BFrame) (stake 40 a +:+ stake 40 b +:+ sdrop 40 a +:+ sdrop 40 b) ≠
    ([data_bframe "stdout" "a"; data_bframe "stderr" "b"], true).
Proof. vm_compute. discriminate. Qed.
End Demo.
