(* ===== verification/FileIO.v ===== *)
(** * FileIO: what a process reads and writes through the workspace

    Composes three layers: the FUSE handlers of [WorkspaceFS], the agent client and
    server of [AgentFS], and a remote system that keeps regular files.  Of the system
    only the documented behaviour of [os.File] is used ([FileLaws]): positioned reads
    and writes, appends, truncation, stat and close, any of which may fail and a write
    of which may be short.  The abstract specification is a store of byte arrays with
    names and open files ([store], [allowed]); the main theorem is that every sequence of
    opens, reads, writes, truncations and releases is a run of that store. *)

From S2P Require Import Prelude GoStrings Streams FileClient Mux AgentFS WorkspaceFS.
Local Open Scope Z_scope.

(** ** Byte arrays *)

Fixpoint zeros (n : nat) : string := match n with O => "" | S n => String "000"%char (zeros n) end.
(** [s] extended with zero bytes to at least [n]. *)
Definition pad (n : nat) (s : string) : string := s +:+ zeros (n - slen s).
Definition resize (n : nat) (s : string) : string := stake n (pad n s).
Definition sub (s : string) (off len : nat) : string := stake len (sdrop off s).
(** A write of no bytes has no effect, also beyond the end. *)
Definition splice (s : string) (off : nat) (d : string) : string :=
  if String.eqb d "" then s else resize off s +:+ d +:+ sdrop (off + slen d) s.

Lemma slen_zeros n : slen (zeros n) = n.
Proof. induction n; cbn; congruence. Qed.
Lemma slen_resize n s : slen (resize n s) = n.
Proof. unfold resize, pad. rewrite slen_stake, slen_app, slen_zeros. lia. Qed.
Lemma stake_stake n s : stake n (stake n s) = stake n s.
Proof. revert s. induction n as [|n IH]; intros [|c s]; cbn; [done..|]. by rewrite IH. Qed.
Lemma stake_all s : stake (slen s) s = s.
Proof. rewrite <- (sapp_nil_r s) at 2. apply stake_app. Qed.
Lemma resize_self s : resize (slen s) s = s.
Proof. unfold resize, pad. rewrite Nat.sub_diag. cbn. rewrite sapp_nil_r. apply stake_all. Qed.
Lemma sdrop_all n s : (slen s ≤ n)%nat → sdrop n s = "".
Proof. revert s. induction n as [|n IH]; intros [|c s] H; cbn in *; try done; [lia|]. apply IH. lia. Qed.

(** What was written is what is read. *)
Lemma sub_splice s off d : sub (splice s off d) off (slen d) = d.
Proof.
  unfold splice, sub. destruct (String.eqb_spec d "") as [->|Hd]; [by destruct (sdrop off s)|].
  rewrite <- (slen_resize off s) at 1. by rewrite sdrop_app, stake_app.
Qed.
Lemma splice_end s d : splice s (slen s) d = s +:+ d.
Proof.
  unfold splice. destruct (String.eqb_spec d "") as [->|_]; [by rewrite sapp_nil_r|].
  rewrite resize_self, sdrop_all by lia. by rewrite sapp_nil_r.
Qed.

(** ** The remote system *)

(** Regular files of the system: the inode of an open file, whether it was opened for
    appending, the inode of a path, the bytes of an inode. *)
Class Files (W : Type) := {
  inode_of : W → handle → option Z;
  append_of : W → handle → bool;
  resolve : W → string → option Z;
  content : W → Z → string;
}.

Section laws.
Context {W : Type} {F : Files W}.

(** Nothing but the bytes of [i], which are now [s]. *)
Definition only (w w' : W) (i : Z) (s : string) : Prop :=
  (∀ f, inode_of w' f = inode_of w f) ∧ (∀ f, append_of w' f = append_of w f) ∧
  (∀ p, resolve w' p = resolve w p) ∧ content w' i = s ∧ ∀ j, j ≠ i → content w' j = content w j.

(** [f] is a new open file of the inode of [p]. *)
Definition opens (w w' : W) (p : string) (f : handle) (app : bool) : Prop :=
  inode_of w f = None ∧ inode_of w' f = resolve w p ∧ append_of w' f = app ∧
  (∀ g, g ≠ f → inode_of w' g = inode_of w g ∧ append_of w' g = append_of w g) ∧
  (∀ q, resolve w' q = resolve w q).
(** A call that failed changed nothing. *)
Definition kept (w w' : W) : Prop := ∀ i, only w w' i (content w i).

Definition O_TRUNC : Z := 512.

Class FileLaws (os : ∀ r : req, W → reply r * W) : Prop := {
  (** [ReadAt]: the bytes that are there, with [io.EOF] when they are fewer than asked. *)
  law_read w f i off n d e w' :
    inode_of w f = Some i → 0 ≤ off → 0 < n → os (HReadAt f off n) w = ((d, e), w') →
    kept w w' ∧ match e with
                | None => d = sub (content w i) (Z.to_nat off) (Z.to_nat n) ∧ slen d = Z.to_nat n
                | Some EEOF => d = sub (content w i) (Z.to_nat off) (Z.to_nat n)
                | Some _ => True
                end;
  (** [WriteAt] of a file that was not opened for appending. *)
  law_write_at w f i off d n e w' :
    inode_of w f = Some i → append_of w f = false → 0 ≤ off → os (HWriteAt f d off) w = ((n, e), w') →
    0 ≤ n ≤ Z.of_nat (slen d) ∧ (e = None → n = Z.of_nat (slen d)) ∧
    only w w' i (splice (content w i) (Z.to_nat off) (stake (Z.to_nat n) d));
  (** [Write] of one that was. *)
  law_append w f i d n e w' :
    inode_of w f = Some i → append_of w f = true → os (HWrite f d) w = ((n, e), w') →
    0 ≤ n ≤ Z.of_nat (slen d) ∧ (e = None → n = Z.of_nat (slen d)) ∧
    only w w' i (content w i +:+ stake (Z.to_nat n) d);
  law_truncate w f i n e w' :
    inode_of w f = Some i → 0 ≤ n → os (HTruncate f n) w = (e, w') →
    match e with None => only w w' i (resize (Z.to_nat n) (content w i)) | Some _ => kept w w' end;
  law_stat w f i x w' :
    inode_of w f = Some i → os (HStat f) w = (x, w') →
    kept w w' ∧ match x with Ok st => fi_Size st = Z.of_nat (slen (content w i)) | Err _ => True end;
  law_sync w f i e w' : inode_of w f = Some i → os (HSync f) w = (e, w') → kept w w';
  (** [close(2)] releases the descriptor whether or not it reports an error. *)
  law_close w f i e w' :
    inode_of w f = Some i → os (HClose f) w = (e, w') →
    (∀ g, g ≠ f → inode_of w' g = inode_of w g ∧ append_of w' g = append_of w g) ∧
    (∀ p, resolve w' p = resolve w p) ∧ (∀ j, content w' j = content w j);
  (** [Open], and [OpenFile] without [O_CREATE]. *)
  law_open w p x w' :
    os (FOpen p) w = (x, w') →
    match x with
    | Err _ => kept w w'
    | Ok f => opens w w' p f false ∧ ∀ j, content w' j = content w j
    end;
  law_open_file w p flags mode x w' :
    has flags O_CREATE = false → os (FOpenFile p flags mode) w = (x, w') →
    match x with
    | Err _ => kept w w'
    | Ok f => opens w w' p f (has flags O_APPEND) ∧
        ∀ j, content w' j = if has flags O_TRUNC && bool_decide (resolve w p = Some j) then "" else content w j
    end;
}.
End laws.

(** ** The abstract store *)

(** Names, bytes, and the open files: the handle the kernel was given and its inode, by
    the number that identifies it on the wire. *)
Record store := mkStore {
  names : gmap string Z; bytes : gmap Z string; opened : gmap Z (fileHandle * Z) }.

Inductive event : Type :=
  | EvOpen (rel : string) (flags : Z)
  | EvRead (rel : string) (k : Z) (len off : Z)
  | EvWrite (rel : string) (k : Z) (data : string) (off : Z)
  | EvSetSize (rel : string) (k : Z) (size : Z)
  | EvFsync (rel : string) (k : Z)
  | EvRelease (k : Z).

Definition fh_key (fh : fileHandle) : option handle :=
  match h_write fh with Some w => Some w | None => h_read fh end.
Definition writable (fh : fileHandle) : bool := bool_decide (is_Some (h_write fh)).

Definition set_bytes (s : store) (i : Z) (b : string) : store :=
  mkStore (names s) (<[i := b]> (bytes s)) (opened s).

Section spec.
Variable f : FileSystem.

(** What the kernel sends: known paths and handles, lengths and offsets of its own ABI,
    writes and truncations through handles it opened for writing. *)
Definition handle_writable (s : store) (k : Z) : bool := default false (writable ∘ fst <$> opened s !! k).
Definition enabled (s : store) (ev : event) : Prop :=
  match ev with
  | EvOpen rel flags =>
      is_Some (names s !! absPath f rel ≫= λ i, bytes s !! i) ∧ (0 ≤ flags < 2 ^ 31 ∧ has flags O_CREATE = false)
  | EvRead _ k len off => is_Some (opened s !! k) ∧ 0 ≤ len ∧ 0 ≤ off
  | EvWrite _ k data off => handle_writable s k = true ∧ 0 ≤ off ∧ Z.of_nat (slen data) < 2 ^ 32
  | EvSetSize _ k size => handle_writable s k = true ∧ 0 ≤ size < 2 ^ 63
  | EvFsync _ k | EvRelease k => is_Some (opened s !! k)
  end.
#[global] Instance enabled_dec s ev : Decision (enabled s ev).
Proof. destruct ev; apply _. Defined.

Lemma handle_writable_spec s k : handle_writable s k = true ↔ ∃ x, opened s !! k = Some x ∧ writable x.1 = true.
Proof.
  unfold handle_writable. destruct (opened s !! k) as [x|]; cbn; [|by split; [|intros (? & ? & _)]].
  split; [by eauto|]. by intros (? & [= <-] & ?).
Qed.

(** The answers the store allows, with the store after. *)
Inductive allowed (s : store) : event → out → store → Prop :=
  | al_open rel flags fh k i b b' :
      names s !! absPath f rel = Some i → bytes s !! i = Some b →
      fh_key fh = Some k → opened s !! k = None → h_flags fh = flags →
      writable fh = negb (Z.land flags O_ACCMODE =? 0) →
      b' = (if writable fh && has flags O_TRUNC then "" else b) →
      allowed s (EvOpen rel flags) (OOpened fh FOPEN_DIRECT_IO)
        (mkStore (names s) (<[i := b']> (bytes s)) (<[k := (fh, i)]> (opened s)))
  | al_read rel k len off fh i b :
      opened s !! k = Some (fh, i) → bytes s !! i = Some b →
      allowed s (EvRead rel k len off) (OData (sub b (Z.to_nat off) (Z.to_nat len))) s
  | al_write rel k data off fh i b n errno :
      opened s !! k = Some (fh, i) → bytes s !! i = Some b →
      0 ≤ n ≤ Z.of_nat (slen data) → (errno = 0 → n = Z.of_nat (slen data)) →
      allowed s (EvWrite rel k data off) (OWritten n errno)
        (set_bytes s i (splice b (if has (h_flags fh) O_APPEND then slen b else Z.to_nat off)
                          (stake (Z.to_nat n) data)))
  | al_set_size rel k size fh i b a :
      opened s !! k = Some (fh, i) → bytes s !! i = Some b → a_Size a = size →
      allowed s (EvSetSize rel k size) (OAttr a) (set_bytes s i (resize (Z.to_nat size) b))
  | al_set_size_unseen rel k size fh i b errno :
      opened s !! k = Some (fh, i) → bytes s !! i = Some b → errno ≠ 0 →
      allowed s (EvSetSize rel k size) (OErrno errno) (set_bytes s i (resize (Z.to_nat size) b))
  | al_fsync rel k errno : allowed s (EvFsync rel k) (OErrno errno) s
  | al_release k errno :
      allowed s (EvRelease k) (OErrno errno) (mkStore (names s) (bytes s) (delete k (opened s)))
  | al_fails ev errno :
      errno ≠ 0 → (match ev with EvRelease _ | EvWrite _ _ _ _ => False | _ => True end) →
      allowed s ev (OErrno errno) s.

(** A run of the store: one answer per request.  Nothing is promised after a request the
    kernel does not send. *)
Inductive traces : store → list event → list out → store → Prop :=
  | tr_nil s : traces s [] [] s
  | tr_step s ev evs o os s1 s2 :
      enabled s ev → allowed s ev o s1 → traces s1 evs os s2 → traces s (ev :: evs) (o :: os) s2
  | tr_foreign s ev evs os : ¬ enabled s ev → traces s (ev :: evs) os s.

(** The handler the kernel's request reaches; [fhs] are the handles it was given. *)
Definition handler (fhs : gmap Z fileHandle) (ev : event) : prog out :=
  match ev with
  | EvOpen rel flags => fileNode_handle f rel (ROpen flags)
  | EvRead rel k len off => fileNode_handle f rel (RRead (fhs !! k) len off)
  | EvWrite rel k data off => fileNode_handle f rel (RWrite (fhs !! k) data off)
  | EvSetSize rel k size =>
      fileNode_handle f rel (RSetattr (fhs !! k) (mkSetAttr (FATTR_SIZE + FATTR_FH) None None None None None (Some size)))
  | EvFsync rel k => fileNode_handle f rel (RFsync (fhs !! k))
  | EvRelease k => match fhs !! k with Some h => errno_out (Release h) | None => Ret (OErrno 0) end
  end.
Definition handles_of (fhs : gmap Z fileHandle) (ev : event) (o : out) : gmap Z fileHandle :=
  match ev, o with
  | EvOpen _ _, OOpened fh _ => match fh_key fh with Some k => <[k := fh]> fhs | None => fhs end
  | EvRelease k, _ => delete k fhs
  | _, _ => fhs
  end.
(** The requests one after the other against an implementation of the file client. *)
Fixpoint session {W} (impl : ∀ r : req, W → reply r * W) (evs : list event) (fhs : gmap Z fileHandle) (w : W) : list out * W :=
  match evs with
  | [] => ([], w)
  | ev :: evs =>
      let '(o, w1) := run impl (handler fhs ev) w in
      let '(os, w2) := session impl evs (handles_of fhs ev o) w1 in (o :: os, w2)
  end.
End spec.

(** ** The representation *)

Section refinement.
Context {W : Type} {F : Files W}.
Variable os : ∀ r : req, W → reply r * W.
Variable os_readdir : string → W → result go_err (list (result go_err FileInfo)) * W.
Variable Error : go_err → string.
Context {L : FileLaws os}.
Hypothesis Error_text : ∀ e, Error e ≠ "".
Variable f : FileSystem.

Local Abbreviation agent := (agent (W := W)).
Local Abbreviation spec := (spec_call os os_readdir).

(** The handle [fh] is number [k] on the wire, and [g] on the remote side. *)
Definition shaped (a : agent) (k : Z) (fh : fileHandle) (g : handle) : Prop :=
  (h_read fh = Some k ∧ h_write fh = None) ∨
  (h_read fh = None ∧ h_write fh = Some k ∧ append_of (osw a) g = has (h_flags fh) O_APPEND ∧
   c_flags (cli a) !! k = Some (h_flags fh)).
Definition opened_as (s : store) (a : agent) (k : Z) (fh : fileHandle) (i : Z) (g : handle) : Prop :=
  get (srv a) k = Some g ∧ inode_of (osw a) g = Some i ∧ shaped a k fh g ∧ is_Some (bytes s !! i).

(** [n] more files can be opened before the numbers run out. *)
Record rep (n : Z) (a : agent) (s : store) : Prop := {
  rep_names p i : names s !! p = Some i → resolve (osw a) p = Some i;
  rep_bytes i b : bytes s !! i = Some b → content (osw a) i = b;
  rep_opened k fh i : opened s !! k = Some (fh, i) → ∃ g, opened_as s a k fh i g;
  rep_keys k x : opened s !! k = Some x → 0 < k ≤ next (srv a);
  rep_inj k k' x x' g : opened s !! k = Some x → opened s !! k' = Some x' →
    get (srv a) k = Some g → get (srv a) k' = Some g → k = k';
  rep_next : 0 ≤ n ∧ 0 ≤ next (srv a) ∧ next (srv a) + n < 2 ^ 32;
}.

Lemma shaped_key a k fh g : shaped a k fh g → fh_key fh = Some k.
Proof. unfold fh_key. intros [[? ->]|(? & -> & ?)]; done. Qed.
Lemma shaped_writable a k fh g :
  shaped a k fh g → writable fh = true →
  h_write fh = Some k ∧ append_of (osw a) g = has (h_flags fh) O_APPEND ∧ appending a k = has (h_flags fh) O_APPEND.
Proof.
  unfold writable, appending. intros [[? ->]|(? & -> & ? & ->)] Hw; [by apply bool_decide_eq_true, is_Some_None in Hw|].
  done.
Qed.

Lemma wire_errno e : toErrno (wire_err e) ≠ 0.
Proof.
  destruct e as [n| | | | | |]; try done. unfold wire_err. cbn zeta. repeat case_match; try done.
  cbn. by apply Z.eqb_neq.
Qed.
(** The end of a file is not an error on the wire. *)
Lemma wire_not_eof {A} e (x y : A) : match wire_err e with EEOF => x | _ => y end = y.
Proof. destruct e as [n| | | | | |]; try done. unfold wire_err. cbn zeta. by repeat case_match. Qed.

(** ** Changes of the system that keep the representation *)

Lemma shaped_os a w k fh g : append_of w g = append_of (osw a) g → shaped a k fh g → shaped (with_os a w) k fh g.
Proof. unfold shaped, with_os. intros E. cbn. by rewrite E. Qed.

Lemma rep_only n a s i b w :
  rep n a s → is_Some (bytes s !! i) → only (osw a) w i b → rep n (with_os a w) (set_bytes s i b).
Proof.
  intros [R1 R2 R3 R4 R5 R6] [b0 Hb0] (H1 & H2 & H3 & H4 & H5). split; cbn; try done.
  - intros p j. rewrite H3. apply R1.
  - intros j c. destruct (decide (j = i)) as [->|Hne].
    + rewrite lookup_insert_eq. intros [= <-]. done.
    + rewrite lookup_insert_ne by done. rewrite H5 by done. apply R2.
  - intros k fh j Hk. destruct (R3 _ _ _ Hk) as (g & ? & ? & ? & ?). exists g. split; [done|].
    split; [cbn; by rewrite H1|]. split; [by apply shaped_os|]. by apply lookup_insert_is_Some'; right.
Qed.
Lemma set_bytes_same s i b : bytes s !! i = Some b → set_bytes s i b = s.
Proof. intros H. destruct s as [ns bs os']. unfold set_bytes. cbn in *. by rewrite insert_id. Qed.
Lemma rep_unchanged n a s i b w : rep n a s → bytes s !! i = Some b → kept (osw a) w → rep n (with_os a w) s.
Proof.
  intros R Hb Hk. rewrite <- (set_bytes_same _ _ _ Hb). apply rep_only; [done|by eexists|].
  rewrite <- (rep_bytes _ _ _ R _ _ Hb). apply Hk.
Qed.
Lemma rep_kept n a s k fh i g w :
  rep n a s → opened_as s a k fh i g → kept (osw a) w → rep n (with_os a w) s.
Proof. intros R (_ & _ & _ & b & Hb). by eapply rep_unchanged. Qed.

(** ** Each request *)

(** The state of a handle, and its bytes. *)
Lemma rep_handle n a s k fh i :
  rep n a s → opened s !! k = Some (fh, i) →
  ∃ g b, opened_as s a k fh i g ∧ bytes s !! i = Some b ∧ content (osw a) i = b.
Proof.
  intros R Hk. destruct (rep_opened _ _ _ R _ _ _ Hk) as (g & Hg). pose proof Hg as (_ & _ & _ & b & Hb).
  exists g, b. split; [done|]. split; [done|]. by apply (rep_bytes _ _ _ R).
Qed.

Lemma step_read n a s rel k len off :
  rep n a s → enabled f s (EvRead rel k len off) →
  let '(o, a') := run spec (handler f (fst <$> opened s) (EvRead rel k len off)) a in
  ∃ s', allowed f s (EvRead rel k len off) o s' ∧ rep n a' s'.
Proof.
  intros R ([[fh i] Hk] & Hlen & Hoff). destruct (rep_handle _ _ _ _ _ _ R Hk) as (g & b & Hg & Hb & Hc).
  pose proof Hg as (Hget & Hi & Hs & _).
  cbn [handler fileNode_handle]. rewrite lookup_fmap, Hk. cbn [fmap option_fmap option_map fst]. unfold file_Read.
  apply shaped_key in Hs. unfold fh_key in Hs. cbn zeta iota beta. rewrite Hs.
  destruct (Z.eqb_spec len 0) as [->|Hl]; cbn [run].
  { exists s. split; [|done]. change "" with (sub b (Z.to_nat off) (Z.to_nat 0)). by econstructor. }
  assert (0 < len) as Hpos by lia. cbn [spec_call]. unfold spec_file. rewrite Hget. rewrite (proj2 (Z.leb_gt len 0)) by lia.
  destruct (os (HReadAt g off len) (osw a)) as [[d e] w] eqn:Eo.
  destruct (law_read _ _ _ _ _ _ _ _ Hi Hoff Hpos Eo) as [Hkept Hd].
  pose proof (rep_kept _ _ _ _ _ _ _ _ R Hg Hkept) as Hrep.
  assert (d = sub b (Z.to_nat off) (Z.to_nat len) →
    allowed f s (EvRead rel k len off) (OData (stake (Z.to_nat len) d)) s) as Hok.
  { intros ->. unfold sub. rewrite stake_stake. by econstructor. }
  rewrite Hc in Hd.
  destruct e as [[]|]; cbn [run]; cbn iota beta; rewrite ?wire_not_eof; exists s; (split; [|done]); auto using al_fails, wire_errno.
  by apply Hok, Hd.
Qed.

(** The bytes after a write of [n] bytes of [data]. *)
Definition written (fh : fileHandle) (b data : string) (off n : Z) : string :=
  splice b (if has (h_flags fh) O_APPEND then slen b else Z.to_nat off) (stake (Z.to_nat n) data).

Lemma step_write n a s rel k data off :
  rep n a s → enabled f s (EvWrite rel k data off) →
  let '(o, a') := run spec (handler f (fst <$> opened s) (EvWrite rel k data off)) a in
  ∃ s', allowed f s (EvWrite rel k data off) o s' ∧ rep n a' s'.
Proof.
  intros R (([fh i] & Hk & Hw)%handle_writable_spec & Hoff & Hlen). cbn [fst] in Hw.
  destruct (rep_handle _ _ _ _ _ _ R Hk) as (g & b & Hg & Hb & Hc). pose proof Hg as (Hget & Hi & Hs & _).
  destruct (shaped_writable _ _ _ _ Hs Hw) as (Hwr & Happ & Hcl).
  cbn [handler fileNode_handle]. rewrite lookup_fmap, Hk. cbn [fmap option_fmap option_map fst]. unfold file_Write, write_handle.
  cbn [mbind option_bind]. rewrite Hwr. cbn zeta.
  assert (∀ m e w, 0 ≤ m ≤ Z.of_nat (slen data) → (e = None → m = Z.of_nat (slen data)) →
    only (osw a) w i (written fh b data off m) →
    ∃ s', allowed f s (EvWrite rel k data off) (OWritten (u32 m) (errno_of (wire_err <$> e))) s' ∧ rep n (with_os a w) s') as Hok.
  { intros m e w Hm He Ho. unfold u32. rewrite uwrap_id by (unfold is_u; lia).
    exists (set_bytes s i (written fh b data off m)). split; [|by apply rep_only].
    eapply al_write; [done..|]. destruct e as [e|]; [|auto]. intros E. by apply wire_errno in E. }
  destruct (has (h_flags fh) O_APPEND) eqn:Ea; cbn [run spec_call]; rewrite Hcl; unfold spec_write, spec_file; rewrite Hget.
  - change (-1 <? 0) with true. cbn iota. destruct (os (HWrite g data) (osw a)) as [[m e] w] eqn:Eo.
    destruct (law_append _ _ _ _ _ _ _ Hi Happ Eo) as (Hm & He & Ho). apply (Hok m e w); [done..|].
    unfold written. by rewrite Ea, splice_end, <- Hc.
  - rewrite (proj2 (Z.ltb_ge off 0)) by done. destruct (os (HWriteAt g data off) (osw a)) as [[m e] w] eqn:Eo.
    destruct (law_write_at _ _ _ _ _ _ _ _ Hi Happ Hoff Eo) as (Hm & He & Ho). apply (Hok m e w); [done..|].
    unfold written. by rewrite Ea, <- Hc.
Qed.

Lemma step_fsync n a s rel k :
  rep n a s → enabled f s (EvFsync rel k) →
  let '(o, a') := run spec (handler f (fst <$> opened s) (EvFsync rel k)) a in
  ∃ s', allowed f s (EvFsync rel k) o s' ∧ rep n a' s'.
Proof.
  intros R [[fh i] Hk]. destruct (rep_handle _ _ _ _ _ _ R Hk) as (g & b & Hg & Hb & Hc). pose proof Hg as (Hget & Hi & Hs & _).
  cbn [handler fileNode_handle]. rewrite lookup_fmap, Hk. cbn [fmap option_fmap option_map fst]. unfold file_Fsync.
  assert (∀ p, p = Call (HSync k) (λ e, Ret (OErrno (errno_of e))) →
    let '(o, a') := run spec p a in ∃ s', allowed f s (EvFsync rel k) o s' ∧ rep n a' s') as Hok.
  { intros p ->. cbn [run spec_call]. unfold spec_file. rewrite Hget. unfold spec_unit.
    destruct (os (HSync g) (osw a)) as [e w] eqn:Eo. cbn [fst snd run]. exists s. split; [constructor|].
    eapply rep_kept; [done..|]. by eapply law_sync. }
  destruct fh as [r w fl]. destruct Hs as [[Hr Hw]|(Hr & Hw & _)]; cbn in Hr, Hw; subst; by apply Hok.
Qed.

Lemma applyAttr_size st : a_Size (applyAttr f st) = u64 (fi_Size st).
Proof.
  unfold applyAttr, applyFileInfo. cbn [with_ids a_Size].
  destruct (fi_Sys st) as [?|[?|]|[?|]|[?|]|]; reflexivity.
Qed.

Lemma statFromInfo_size st : fs_Size (statFromInfo st) = fi_Size st.
Proof. unfold statFromInfo, augmentStatFromSys. by repeat case_match. Qed.

(** [Setattr] of the size alone is a truncation of the open file and a stat of it. *)
Lemma set_size_prog rel fh k size :
  h_write fh = Some k → 0 ≤ size < 2 ^ 63 →
  fileNode_handle f rel (RSetattr (Some fh) (mkSetAttr (FATTR_SIZE + FATTR_FH) None None None None None (Some size))) =
  Call (HTruncate k size) (λ e, and_then (Ret (errno_of e)) (file_Getattr f rel (Some fh))).
Proof.
  intros Hw Hs. unfold fileNode_handle, Setattr. change (negb _) with false. cbn iota.
  unfold setattr_owner, setattr_mode, setattr_times, setattr_size, write_handle. cbn. rewrite Hw. cbn.
  assert (swrap 64 size = size) as -> by (apply swrap_small; lia). done.
Qed.

Lemma step_set_size n a s rel k size :
  rep n a s → enabled f s (EvSetSize rel k size) →
  let '(o, a') := run spec (handler f (fst <$> opened s) (EvSetSize rel k size)) a in
  ∃ s', allowed f s (EvSetSize rel k size) o s' ∧ rep n a' s'.
Proof.
  intros R (([fh i] & Hk & Hw)%handle_writable_spec & Hsz). cbn [fst] in Hw.
  destruct (rep_handle _ _ _ _ _ _ R Hk) as (g & b & Hg & Hb & Hc). pose proof Hg as (Hget & Hi & Hs & _).
  destruct (shaped_writable _ _ _ _ Hs Hw) as (Hwr & _ & _).
  cbn [handler]. rewrite lookup_fmap, Hk. cbn [fmap option_fmap option_map fst]. rewrite (set_size_prog rel fh k size Hwr Hsz).
  cbn [run spec_call]. unfold spec_file. rewrite Hget. unfold spec_unit.
  destruct (os (HTruncate g size) (osw a)) as [e w] eqn:Eo.
  pose proof (law_truncate _ _ _ _ _ _ Hi (proj1 Hsz) Eo) as Ht. cbn [fst snd].
  destruct e as [e|]; cbn [fmap option_fmap option_map errno_of]; unfold and_then; cbn [mbind prog_mbind prog_bind].
  { rewrite (proj2 (Z.eqb_neq _ _) (wire_errno e)). cbn [negb run]. exists s. split; [by apply al_fails; [apply wire_errno|]|].
    by eapply rep_kept. }
  change (negb (0 =? 0)) with false. cbn iota. unfold file_Getattr, write_handle. cbn [mbind option_bind]. rewrite Hwr.
  set (b' := resize (Z.to_nat size) b). rewrite Hc in Ht. fold b' in Ht.
  assert (rep n (with_os a w) (set_bytes s i b')) as R' by (by apply rep_only).
  cbn [run spec_call]. unfold spec_file. cbn [srv with_os]. rewrite Hget. unfold spec_val. cbn [osw with_os].
  destruct (os (HStat g) w) as [x w'] eqn:Es. destruct Ht as (T1 & T2 & T3 & T4 & T5).
  destruct (law_stat w g i x w') as [Hkept Hx]; [by rewrite T1|done|].
  assert (rep n (with_os (with_os a w) w') (set_bytes s i b')) as R''.
  { rewrite <- (set_bytes_same (set_bytes s i b') i b') by apply lookup_insert_eq. apply rep_only; [done| |].
    - cbn. rewrite lookup_insert_eq. by eexists.
    - cbn. rewrite <- T4. apply Hkept. }
  cbn [fst snd]. destruct x as [st|e]; cbn [run]; exists (set_bytes s i b'); (split; [|done]).
  - eapply al_set_size; [done..|]. rewrite applyAttr_size. cbn [wire_info statInfo fi_Size].
    rewrite T4 in Hx. unfold b' in Hx. rewrite slen_resize, Z2Nat.id in Hx by lia.
    rewrite statFromInfo_size, Hx. unfold u64. apply uwrap_id. unfold is_u. lia.
  - eapply al_set_size_unseen; [done..|]. apply wire_errno.
Qed.

(** ** Open and release *)

(** A handle with one side open is released by one close. *)
Lemma Release_one a k fh g :
  shaped a k fh g → ∃ q, run spec (errno_out (Release fh)) a = run spec (Call (HClose k) (λ e, Ret (OErrno (q e)))) a.
Proof.
  destruct fh as [r w fl]. intros [[Hr Hw]|(Hr & Hw & _)]; cbn in Hr, Hw; subst.
  - by exists errno_of.
  - exists (λ e, match e with Some e => toErrno e | None => 0 end). cbn [errno_out Release h_read h_write mbind prog_mbind prog_bind run].
    by destruct (spec (HClose k) a) as [[e|] a'].
Qed.

Lemma rep_weaken n a s : rep (n + 1) a s → 0 ≤ n → rep n a s.
Proof. intros [R1 R2 R3 R4 R5 R6] Hn. split; try done. lia. Qed.

Lemma step_release n a s k :
  rep n a s → enabled f s (EvRelease k) →
  let '(o, a') := run spec (handler f (fst <$> opened s) (EvRelease k)) a in
  ∃ s', allowed f s (EvRelease k) o s' ∧ rep n a' s'.
Proof.
  intros R [[fh i] Hk]. destruct (rep_handle _ _ _ _ _ _ R Hk) as (g & b & Hg & Hb & Hc). pose proof Hg as (Hget & Hi & Hs & _).
  cbn [handler]. rewrite lookup_fmap, Hk. cbn [fmap option_fmap option_map fst].
  destruct (Release_one _ _ _ _ Hs) as [q ->].
  cbn [run spec_call]. unfold spec_file. rewrite Hget. destruct (os (HClose g) (osw a)) as [e w] eqn:Eo.
  cbn [run]. eexists. split; [apply al_release|].
  destruct (law_close _ _ _ _ _ Hi Eo) as (C1 & C2 & C3). destruct R as [R1 R2 R3 R4 R5 R6].
  assert (∀ k' x, delete k (opened s) !! k' = Some x → k' ≠ k ∧ opened s !! k' = Some x ∧
    get (mkServer (delete k (handles (srv a))) (next (srv a))) k' = get (srv a) k') as Hdel.
  { intros k' x. rewrite lookup_delete_Some. intros [? ?]. split; [done|]. split; [done|]. unfold get. cbn.
    by rewrite lookup_delete_ne. }
  split; cbn [names bytes opened srv osw next]; try done.
  - intros p j. rewrite C2. apply R1.
  - intros j c. rewrite C3. apply R2.
  - intros k' fh' j Hk'. destruct (Hdel _ _ Hk') as (Hne & Hk0 & Hg'). destruct (R3 _ _ _ Hk0) as (g' & G1 & G2 & G3 & G4).
    assert (g' ≠ g) as Hgg by (intros ->; eauto). destruct (C1 _ Hgg) as [E1 E2].
    exists g'. split; [exact (eq_trans Hg' G1)|]. split; [cbn [osw]; by rewrite E1|]. split; [|done].
    unfold shaped in *. cbn. by rewrite E2.
  - intros k' x Hk'. destruct (Hdel _ _ Hk') as (_ & ? & _). by eapply R4.
  - intros k1 k2 x1 x2 g' H1 H2 G1 G2. destruct (Hdel _ _ H1) as (_ & ? & E1), (Hdel _ _ H2) as (_ & ? & E2).
    eapply (R5 k1 k2); [done..|exact (eq_trans (eq_sym E1) G1)|exact (eq_trans (eq_sym E2) G2)].
Qed.

(** The new handle, and the representation with it. *)
Lemma rep_open n a s p i b b' g w fh flags :
  rep (n + 1) a s → 0 ≤ n → names s !! p = Some i → bytes s !! i = Some b →
  inode_of (osw a) g = None → inode_of w g = Some i →
  (∀ h, h ≠ g → inode_of w h = inode_of (osw a) h ∧ append_of w h = append_of (osw a) h) →
  (∀ q, resolve w q = resolve (osw a) q) →
  content w i = b' → (∀ j, j ≠ i → content w j = content (osw a) j) →
  let k := next (srv a) + 1 in
  let a' := register (mkAgent (mkServer (<[k := g]> (handles (srv a))) k) (cli a) w) k flags in
  shaped a' k fh g →
  opened s !! k = None ∧ rep n a' (mkStore (names s) (<[i := b']> (bytes s)) (<[k := (fh, i)]> (opened s))).
Proof.
  intros [R1 R2 R3 R4 R5 R6] Hn Hp Hb Hnew Hi Hoth Hres Hc Hcs k a' Hsh.
  assert (opened s !! k = None) as Hfree.
  { destruct (opened s !! k) as [x|] eqn:E; [|done]. apply R4 in E. unfold k in E. lia. }
  assert (∀ k', k' ≠ k → get (srv a') k' = get (srv a) k') as Hget by (intros; unfold get; cbn; by rewrite lookup_insert_ne).
  assert (get (srv a') k = Some g) as Hgk by (unfold get; cbn; by rewrite lookup_insert_eq).
  assert (∀ k' x h, opened s !! k' = Some x → get (srv a') k' = Some h → h ≠ g ∧ get (srv a) k' = Some h) as Hold.
  { intros k' [fh' j] h Hk' Hg'. assert (k' ≠ k) by congruence. rewrite Hget in Hg' by done. split; [|done].
    intros ->. destruct (R3 _ _ _ Hk') as (g' & G1 & G2 & _). congruence. }
  split; [done|]. split; cbn [names bytes opened].
  - intros q j. unfold a'. cbn [register osw]. rewrite Hres. apply R1.
  - intros j c. unfold a'. cbn [register osw]. destruct (decide (j = i)) as [->|Hne].
    + rewrite lookup_insert_eq. congruence.
    + rewrite lookup_insert_ne by done. rewrite Hcs by done. apply R2.
  - intros k' fh' j. destruct (decide (k' = k)) as [->|Hne].
    + rewrite lookup_insert_eq. intros [= <- <-]. exists g. split; [done|]. split; [done|]. split; [done|].
      cbn. rewrite lookup_insert_eq. by eexists.
    + rewrite lookup_insert_ne by done. intros Hk'. destruct (R3 _ _ _ Hk') as (h & G1 & G2 & G3 & G4).
      destruct (Hold k' _ h Hk') as [Hhg _]; [by rewrite Hget|]. destruct (Hoth _ Hhg) as [E1 E2].
      exists h. split; [by rewrite Hget|]. split; [unfold a'; cbn [register osw]; by rewrite E1|].
      split; [|by apply lookup_insert_is_Some'; right].
      unfold shaped, a' in *. cbn [register osw cli c_flags]. rewrite E2, lookup_insert_ne by done. done.
  - intros k' x. change (next (srv a')) with k. destruct (decide (k' = k)) as [->|Hne].
    + intros _. unfold k. lia.
    + rewrite lookup_insert_ne by done. intros Hk'. apply R4 in Hk'. unfold k. lia.
  - intros k1 k2 x1 x2 h. destruct (decide (k1 = k)) as [->|N1], (decide (k2 = k)) as [->|N2]; [done|..].
    + rewrite Hgk, (lookup_insert_ne _ k k2) by congruence. intros _ H2 [= <-] G2. by destruct (Hold _ _ _ H2 G2).
    + rewrite Hgk, (lookup_insert_ne _ k k1) by congruence. intros H1 _ G1 [= <-]. by destruct (Hold _ _ _ H1 G1).
    + rewrite !lookup_insert_ne, !Hget by done. eauto.
  - cbn. unfold k. lia.
Qed.

Lemma put_fresh n a s g :
  rep (n + 1) a s → 0 ≤ n →
  put (srv a) g = (next (srv a) + 1, mkServer (<[next (srv a) + 1 := g]> (handles (srv a))) (next (srv a) + 1)).
Proof.
  intros [_ _ _ _ _ R6] Hn. unfold put. cbn zeta. unfold u32. rewrite uwrap_id by (unfold is_u; lia).
  by rewrite (proj2 (Z.eqb_neq _ 0)) by lia.
Qed.

(** An open that the system did, seen through the server and the client. *)
Lemma opened_rep n a s rel flags g w (wr : bool) i b b' :
  rep (n + 1) a s → 0 ≤ n → names s !! absPath f rel = Some i → bytes s !! i = Some b →
  wr = negb (Z.land flags O_ACCMODE =? 0) →
  opens (osw a) w (absPath f rel) g (if wr then has flags O_APPEND else false) →
  b' = (if wr && has flags O_TRUNC then "" else b) →
  content w i = b' → (∀ j, j ≠ i → content w j = content (osw a) j) →
  let k := next (srv a) + 1 in
  let fh := if wr then mkHandle None (Some k) flags else mkHandle (Some k) None flags in
  ∃ s', allowed f s (EvOpen rel flags) (OOpened fh FOPEN_DIRECT_IO) s' ∧
    rep n (spec_open (Ok g, w) (if wr then flags else 0) a).2 s'.
Proof.
  intros R Hn Hp Hb Hwr (O1 & O2 & O3 & O4 & O5) Hb' Hc Hcs k fh.
  rewrite (rep_names _ _ _ R _ _ Hp) in O2. unfold spec_open. cbn [fst snd]. rewrite (put_fresh _ _ _ g R Hn). cbn [snd].
  destruct (rep_open n a s _ i b b' g w fh (if wr then flags else 0) R Hn Hp Hb O1 O2 O4 O5 Hc Hcs) as [Hfree Hrep].
  { unfold shaped, fh. destruct wr; [right|left; done]. cbn. by rewrite lookup_insert_eq. }
  eexists. split; [|exact Hrep]. assert (writable fh = wr) as Ew by (by destruct wr).
  eapply al_open; try done; [by destruct wr..|by rewrite Ew|by rewrite Ew].
Qed.

Lemma step_open n a s rel flags :
  rep (n + 1) a s → 0 ≤ n → enabled f s (EvOpen rel flags) →
  let '(o, a') := run spec (handler f (fst <$> opened s) (EvOpen rel flags)) a in
  ∃ s', allowed f s (EvOpen rel flags) o s' ∧ rep n a' s'.
Proof.
  intros R Hn ([b Hb] & Hfl & Hcr). apply bind_Some in Hb as (i & Hp & Hb).
  pose proof (rep_bytes _ _ _ R _ _ Hb) as Hc. pose proof (rep_names _ _ _ R _ _ Hp) as Hres.
  assert (∀ e w, kept (osw a) w → ∃ s', allowed f s (EvOpen rel flags) (OErrno (toErrno (wire_err e))) s' ∧ rep n (with_os a w) s') as Hbad.
  { intros e w Hk. exists s. split; [by apply al_fails; [apply wire_errno|]|]. apply rep_weaken; [|done]. by eapply rep_unchanged. }
  cbn [handler fileNode_handle]. unfold file_Open. destruct (Z.land flags O_ACCMODE =? 0) eqn:Eacc; cbn [run spec_call].
  - destruct (os (FOpen (absPath f rel)) (osw a)) as [[g|e] w] eqn:Eo; pose proof (law_open _ _ _ _ Eo) as Ho; [|by apply Hbad].
    destruct Ho as [Ho Hcs].
    destruct (opened_rep n a s rel flags g w false i b b R Hn Hp Hb) as (s' & Hal & Hrep);
      [by rewrite Eacc|done|done|by rewrite Hcs|by intros|].
    unfold spec_open in *. cbn [fst snd] in *. rewrite (put_fresh _ _ _ g R Hn) in *. by exists s'.
  - rewrite (swrap_small 32 flags) by lia.
    destruct (os (FOpenFile (absPath f rel) flags (wire_mode 0)) (osw a)) as [[g|e] w] eqn:Eo;
      pose proof (law_open_file _ _ _ _ _ _ Hcr Eo) as Ho; [|by apply Hbad].
    destruct Ho as [Ho Hcs].
    destruct (opened_rep n a s rel flags g w true i b (if has flags O_TRUNC then "" else b) R Hn Hp Hb) as (s' & Hal & Hrep);
      [by rewrite Eacc|done|done| | |].
    + by rewrite Hcs, Hres, bool_decide_eq_true_2, andb_true_r, Hc.
    + intros j Hj. rewrite Hcs, Hres, bool_decide_eq_false_2, andb_false_r by congruence. done.
    + unfold spec_open in *. cbn [fst snd] in *. rewrite (put_fresh _ _ _ g R Hn) in *. by exists s'.
Qed.

(** ** Sessions *)

Definition cost (ev : event) : Z := match ev with EvOpen _ _ => 1 | _ => 0 end.
Definition opens_in (evs : list event) : Z := foldr Z.add 0 (cost <$> evs).

Lemma opens_in_nonneg evs : 0 ≤ opens_in evs.
Proof. induction evs as [|[]]; unfold opens_in in *; cbn in *; lia. Qed.

Lemma step_event n a s ev :
  rep (n + cost ev) a s → 0 ≤ n → enabled f s ev →
  let '(o, a') := run spec (handler f (fst <$> opened s) ev) a in
  ∃ s', allowed f s ev o s' ∧ rep n a' s'.
Proof.
  destruct ev; cbn [cost]; rewrite ?Z.add_0_r; intros R Hn He;
    [by apply step_open|by apply step_read|by apply step_write|by apply step_set_size|by apply step_fsync|by apply step_release].
Qed.

(** The kernel's table of handles is that of the store. *)
Lemma allowed_handles s ev o s' : allowed f s ev o s' → handles_of (fst <$> opened s) ev o = fst <$> opened s'.
Proof.
  destruct 1; cbn; try done.
  - by rewrite H1, fmap_insert.
  - by rewrite fmap_delete.
  - by destruct ev.
Qed.

Lemma session_traces evs n a s :
  rep n a s → opens_in evs ≤ n → ∃ s', traces f s evs (session f spec evs (fst <$> opened s) a).1 s'.
Proof.
  revert n a s. induction evs as [|ev evs IH]; intros n a s R Hn; cbn [session]; [by eexists; constructor|].
  destruct (decide (enabled f s ev)) as [He|He]; [|exists s; by constructor].
  assert (opens_in (ev :: evs) = cost ev + opens_in evs) as E by done. pose proof (opens_in_nonneg evs).
  pose proof (step_event (n - cost ev) a s ev) as Hs. rewrite Z.sub_add in Hs. specialize (Hs R ltac:(lia) He).
  destruct (run spec (handler f (fst <$> opened s) ev) a) as [o a1]. destruct Hs as (s1 & Hal & R1).
  rewrite (allowed_handles _ _ _ _ Hal). destruct (IH (n - cost ev) a1 s1 R1 ltac:(lia)) as [s' Ht].
  destruct (session f spec evs (fst <$> opened s1) a1) as [os' a2]. exists s'. cbn. by econstructor.
Qed.

Lemma session_agent evs fhs a :
  session f (agent_call os os_readdir Error) evs fhs a = session f spec evs fhs a.
Proof.
  revert fhs a. induction evs as [|ev evs IH]; intros fhs a; cbn; [done|].
  rewrite programs_over_agent by done. destruct (run spec (handler f fhs ev) a) as [o a1]. by rewrite IH.
Qed.

(** [remoteFile.Read]: a read at the position, which the bytes read move. *)
Definition remoteFile_Read (k size pos : Z) (a : agent) : (string * option go_err) * Z * agent :=
  let '((d, e), a') := remoteFile_ReadAt os os_readdir Error Delivered k pos size a in ((d, e), swrap 64 (pos + Z.of_nat (slen d)), a').
Fixpoint read_seq (k : Z) (sizes : list Z) (pos : Z) (a : agent) : list (string * option go_err) :=
  match sizes with
  | [] => []
  | size :: sizes => let '(x, pos', a') := remoteFile_Read k size pos a in x :: read_seq k sizes pos' a'
  end.
Definition read_ok (x : string * option go_err) : Prop := x.2 = None ∨ x.2 = Some EEOF.

Lemma sub_add b p n m : sub b p n +:+ sub b (p + slen (sub b p n)) m = sub b p (n + m).
Proof.
  unfold sub. rewrite sdrop_add, slen_stake. set (c := sdrop p b). clearbody c. clear. revert n.
  induction c as [|x c IH]; intros [|n]; cbn; try done; [by destruct m|]. rewrite sapp_cons. f_equal.
  rewrite <- IH. done.
Qed.

(** Reads one after the other deliver the bytes of the file in order, each one as far as its
    buffer, whatever the sizes of the buffers: together they are one read of the whole. *)
Theorem sequential_reads n a s k fh i b sizes pos :
  rep n a s → opened s !! k = Some (fh, i) → bytes s !! i = Some b →
  Forall (λ z, 0 < z) sizes → 0 ≤ pos → pos + foldr Z.add 0 sizes < 2 ^ 63 →
  Forall read_ok (read_seq k sizes pos a) →
  sconcat (fst <$> read_seq k sizes pos a) = sub b (Z.to_nat pos) (Z.to_nat (foldr Z.add 0 sizes)).
Proof.
  revert a pos. induction sizes as [|z sizes IH]; intros a pos R Hk Hb Hz Hp Hmax Hok; [cbn; unfold sub; by destruct (sdrop (Z.to_nat pos) b)|].
  inversion Hz as [|? ? Hz0 Hz']; subst. destruct (rep_handle _ _ _ _ _ _ R Hk) as (g & b' & Hg & Hb' & Hc).
  simplify_eq. pose proof Hg as (Hget & Hi & _). assert (0 ≤ foldr Z.add 0 sizes) as Hn.
  { clear -Hz'. induction Hz'; cbn in *; lia. }
  cbn [read_seq foldr] in *. unfold remoteFile_Read in *.
  pose proof (agent_call_spec os os_readdir Error Error_text (HReadAt k pos z) a) as E. unfold agent_call in E. cbn [agent_call_over] in E.
  rewrite E in *. clear E. cbn [spec_call] in *. unfold spec_file in *. rewrite Hget in *.
  rewrite (proj2 (Z.leb_gt z 0)) in * by lia. destruct (os (HReadAt g pos z) (osw a)) as [[d e] w] eqn:Eo.
  destruct (law_read _ _ _ _ _ _ _ _ Hi Hp Hz0 Eo) as [Hkept Hd].
  pose proof (rep_kept _ _ _ _ _ _ _ _ R Hg Hkept) as R'.
  assert (e = None ∨ e = Some EEOF) as He.
  { destruct e as [[]|]; auto; inversion Hok as [|? ? Hx _]; subst; destruct Hx as [Hx|Hx]; cbn in Hx; try done;
      injection Hx as Hx; exfalso; revert Hx; clear; cbn; repeat case_match; done. }
  assert (d = sub (content (osw a) i) (Z.to_nat pos) (Z.to_nat z)) as -> by (destruct He as [-> | ->]; [apply Hd|exact Hd]).
  set (d := sub (content (osw a) i) (Z.to_nat pos) (Z.to_nat z)) in *.
  assert (stake (Z.to_nat z) d = d) as Ed by (unfold d, sub; apply stake_stake).
  assert (slen d ≤ Z.to_nat z)%nat as Hl by (unfold d, sub; rewrite slen_stake; lia).
  assert (swrap 64 (pos + Z.of_nat (slen d)) = pos + Z.of_nat (slen d)) as Hw by (apply swrap_small; lia).
  assert (Z.to_nat (pos + Z.of_nat (slen d)) = (Z.to_nat pos + slen d)%nat) as Hpos by lia.
  destruct He as [-> | ->]; rewrite Ed, Hw in *; inversion Hok as [|? ? _ Hok']; subst; cbn [fst fmap list_fmap];
    rewrite sconcat_cons, (IH _ _ R' Hk Hb Hz') by (done || lia); rewrite Hpos; unfold d; rewrite sub_add; f_equal; lia.
Qed.

(** C4: files behave through the workspace as files.  Whatever opens, reads, writes,
    truncations, syncs and releases the kernel sends, over any number of handles and
    files, the answers that come back through the FUSE handlers, the agent's client, the
    wire and the agent's server are answers of a store of byte arrays: a read returns the
    bytes that are there, a write changes exactly the bytes it reports, at the offset or at
    the end for a handle opened for appending, a handle keeps naming the file it was opened
    on, an error changes nothing.  The bound on the opens is the width of the handle
    numbers. *)
Theorem files_refine_store ns bs cl w evs :
  (∀ p i, ns !! p = Some i → resolve w p = Some i) → (∀ i b, bs !! i = Some b → content w i = b) →
  opens_in evs < 2 ^ 32 →
  let a := mkAgent (mkServer ∅ 0) cl w in
  ∃ s', traces f (mkStore ns bs ∅) evs (session f (agent_call os os_readdir Error) evs ∅ a).1 s'.
Proof.
  intros Hns Hbs Hev a. rewrite session_agent.
  assert (rep (opens_in evs) a (mkStore ns bs ∅)) as R.
  { pose proof (opens_in_nonneg evs). split; cbn; try done. }
  destruct (session_traces evs _ _ _ R (Z.le_refl _)) as [s' Ht]. cbn in Ht. rewrite fmap_empty in Ht. by exists s'.
Qed.
End refinement.

(** What was written is read back, through any handle of the same file. *)
Lemma write_then_read f s rel k data off n s1 rel' k' d s2 fh fh' i :
  opened s !! k = Some (fh, i) → opened s !! k' = Some (fh', i) → has (h_flags fh) O_APPEND = false →
  allowed f s (EvWrite rel k data off) (OWritten n 0) s1 →
  allowed f s1 (EvRead rel' k' (Z.of_nat (slen data)) off) (OData d) s2 → d = data.
Proof.
  intros Hk Hk' Hap Hw Hr. inversion Hw; subst. simplify_eq. inversion Hr; subst. cbn in *. rewrite Hap in *. simplify_eq.
  match goal with H : _ = 0 → _ |- _ => rewrite (H eq_refl) in * end.
  rewrite lookup_insert_eq in *. simplify_eq. rewrite Nat2Z.id, stake_all. apply sub_splice.
Qed.

(** ** Files in memory, and the witness *)

Module Ram.
Record ram := mkRam { r_names : gmap string Z; r_data : gmap Z string; r_open : gmap Z (Z * bool); r_next : Z }.

#[local] Instance ram_files : Files ram := {|
  inode_of w (h : Z) := fst <$> r_open w !! h;
  append_of w (h : Z) := default false (snd <$> r_open w !! h);
  resolve w p := r_names w !! p;
  content w i := default "" (r_data w !! i);
|}.

Definition bad : go_err := EErrno Errno.EBADF.
Definition set_data (w : ram) (i : Z) (s : string) : ram :=
  mkRam (r_names w) (<[i := s]> (r_data w)) (r_open w) (r_next w).
Definition on_file {A} (w : ram) (h : Z) (no : A) (k : Z → bool → string → A * ram) : A * ram :=
  match r_open w !! h with None => (no, w) | Some (i, ap) => k i ap (content w i) end.
Definition open_file (w : ram) (p : string) (ap trunc : bool) : result go_err handle * ram :=
  match r_names w !! p, r_open w !! r_next w with
  | Some i, None =>
      (Ok (r_next w), mkRam (r_names w) (if trunc then <[i := ""]> (r_data w) else r_data w)
         (<[r_next w := (i, ap)]> (r_open w)) (r_next w + 1))
  | _, _ => (Err ENotExist, w)
  end.

Definition ram_os (r : req) : ram → reply r * ram :=
  match r return ram → reply r * ram with
  | FOpen p => λ w, open_file w p false false
  | FOpenFile p flags _ => λ w, open_file w p (has flags O_APPEND) (has flags O_TRUNC)
  | HReadAt h off n => λ w, on_file w h ("", Some bad) (λ i _ s,
      let d := sub s (Z.to_nat off) (Z.to_nat n) in
      ((d, if Z.of_nat (slen d) <? n then Some EEOF else None), w))
  | HWriteAt h d off => λ w, on_file w h (0, Some bad) (λ i _ s,
      ((Z.of_nat (slen d), None), set_data w i (splice s (Z.to_nat off) d)))
  | HWrite h d => λ w, on_file w h (0, Some bad) (λ i _ s, ((Z.of_nat (slen d), None), set_data w i (s +:+ d)))
  | HTruncate h n => λ w, on_file w h (Some bad) (λ i _ s, (None, set_data w i (resize (Z.to_nat n) s)))
  | HStat h => λ w, on_file w h (Err bad) (λ i _ s, (Ok (mkFI "" (Z.of_nat (slen s)) 420 0 false SysOther), w))
  | HSync h => λ w, on_file w h (Some bad) (λ _ _ _, (None, w))
  | HClose h => λ w, on_file w h (Some bad) (λ _ _ _,
      (None, mkRam (r_names w) (r_data w) (delete h (r_open w)) (r_next w)))
  | FCreate _ => λ w, (Err bad, w)
  | FStat _ | FLstat _ => λ w, (Err bad, w)
  | FReadDir _ => λ w, (Err bad, w)
  | FReadlink _ | FGetwd => λ w, (Err bad, w)
  | FStatfs _ => λ w, (Err bad, w)
  | FMkdir _ _ | FMkdirAll _ _ | FRemove _ | FRename _ _ | FSymlink _ _ | FLink _ _ | FChmod _ _
  | FChown _ _ _ | FChtimes _ _ _ | FTruncate _ _ => λ w, (Some bad, w)
  end.

Lemma ram_kept w : kept w w.
Proof. intros i. by repeat split. Qed.
Lemma ram_only w i s : only w (set_data w i s) i s.
Proof.
  repeat split; cbn; [by rewrite lookup_insert_eq|]. intros j Hj. by rewrite lookup_insert_ne.
Qed.
Lemma open_file_law w p ap trunc x w' :
  open_file w p ap trunc = (x, w') →
  match x with
  | Err _ => kept w w'
  | Ok f => opens w w' p f ap ∧
      ∀ j, content w' j = if trunc && bool_decide (resolve w p = Some j) then "" else content w j
  end.
Proof.
  unfold open_file. destruct (r_names w !! p) as [i|] eqn:Ep; [|intros [= <- <-]; apply ram_kept].
  destruct (r_open w !! r_next w) eqn:Eo; intros [= <- <-]; [apply ram_kept|]. split.
  - unfold opens. cbn [inode_of append_of resolve content ram_files r_open r_names r_data r_next]. rewrite Eo, lookup_insert_eq, Ep. split_and!; try done. intros g Hg. by rewrite lookup_insert_ne.
  - intros j. cbn [inode_of append_of resolve content ram_files r_open r_names r_data r_next]. rewrite Ep. destruct trunc; cbn; [|done]. case_bool_decide as Hj.
    + injection Hj as ->. by rewrite lookup_insert_eq.
    + by rewrite lookup_insert_ne by congruence.
Qed.
Lemma on_file_some {A} w h i (no : A) k :
  inode_of w h = Some i → on_file w h no k = k i (append_of w h) (content w i).
Proof.
  unfold on_file. cbn [inode_of append_of ram_files]. change handle with Z in h. destruct (r_open w !! h) as [[j ap]|]; [by intros [= <-]|by intros [=]].
Qed.

#[local] Instance ram_laws : FileLaws ram_os.
Proof.
  split.
  - intros w f i off n d e w' Hi _ _. cbn [ram_os]. rewrite (on_file_some _ _ _ _ _ Hi).
    intros [= <- <- <-]. split; [apply ram_kept|].
    destruct (_ <? _) eqn:E; [done|]. apply Z.ltb_ge in E. split; [done|].
    unfold sub in *. rewrite slen_stake in *. lia.
  - intros w f i off d n e w' Hi _ _. cbn [ram_os]. rewrite (on_file_some _ _ _ _ _ Hi). intros [= <- <- <-].
    rewrite Nat2Z.id, stake_all. split; [lia|]. split; [done|]. apply ram_only.
  - intros w f i d n e w' Hi _. cbn [ram_os]. rewrite (on_file_some _ _ _ _ _ Hi). intros [= <- <- <-].
    rewrite Nat2Z.id, stake_all. split; [lia|]. split; [done|]. apply ram_only.
  - intros w f i n e w' Hi _. cbn [ram_os]. rewrite (on_file_some _ _ _ _ _ Hi). intros [= <- <-]. apply ram_only.
  - intros w f i x w' Hi. cbn [ram_os]. rewrite (on_file_some _ _ _ _ _ Hi). intros [= <- <-]. split; [apply ram_kept|done].
  - intros w f i e w' Hi. cbn [ram_os]. rewrite (on_file_some _ _ _ _ _ Hi). intros [= <- <-]. apply ram_kept.
  - intros w f i e w' Hi. cbn [ram_os]. rewrite (on_file_some _ _ _ _ _ Hi). intros [= <- <-].
    split; [|done]. intros g Hg. cbn. by rewrite lookup_delete_ne.
  - intros w p x w' E. apply open_file_law in E. by destruct x.
  - intros w p flags mode x w' _ E. by apply open_file_law in E.
Qed.

Definition disk : ram := mkRam {["/w/a" := 1]} {[1 := "hello"]} ∅ 3.
Definition evs : list event :=
  [EvOpen "a" 2; EvOpen "a" 1025; EvWrite "a" 1 "J" 0; EvWrite "a" 2 "!!" 0; EvRead "a" 1 100 0;
   EvSetSize "a" 1 3; EvRelease 2; EvRead "a" 1 100 1].
Definition no_readdir (p : string) (w : ram) : result go_err (list (result go_err FileInfo)) * ram := (Err bad, w).

(** A write at an offset and an append through another handle, read back; then cut. *)
Lemma files_refine_store_witness :
  ∃ s' attr, traces (New "/w" None) (mkStore {["/w/a" := 1]} {[1 := "hello"]} ∅) evs
    [OOpened (mkHandle None (Some 1) 2) FOPEN_DIRECT_IO; OOpened (mkHandle None (Some 2) 1025) FOPEN_DIRECT_IO;
     OWritten 1 0; OWritten 2 0; OData "Jello!!"; OAttr attr; OErrno 0; OData "el"] s'.
Proof.
  destruct (files_refine_store ram_os no_readdir (λ _, "error") ltac:(done) (New "/w" None) {["/w/a" := 1]} {[1 := "hello"]}
    (mkClient ∅ ∅) disk evs) as [s' Ht]; [done| |done|].
  - intros i b. change (content disk i) with (default "" (({[1 := "hello"]} : gmap Z string) !! i)). by intros ->.
  - exists s'. eexists. vm_compute in Ht |- *. exact Ht.
Defined.
End Ram.
