(* ===== verification/DockerExec.v ===== *)
(** * DockerExec: one-shot commands in a container

    Models [execCapture] of [pkg/remote/docker/backend.go], the goroutines it shares a
    session with, [mkdirInContainer] of [upload.go] and the accessors of the backend.
    [execCapture] runs four goroutines: the demultiplexer of [session.go], which writes the
    command's output into two in-memory pipes, two readers of those pipes, and the caller,
    which waits, closes the session and collects.  A pipe has no buffer: a write is over when
    a reader has taken all of it, or when the pipe is closed. *)

From S2P Require Import Prelude GoStrings Streams RemoteExec DockerSession.
Local Open Scope go_scope.

(** ** execCapture *)

(** The command line; [None] is the panic of the index expression. *)
Definition exec_cmdline (cmd : list string) : option string :=
  match cmd with
  | a :: b :: rest =>
      if String.eqb a "sh" && String.eqb b "-c" then head rest else Some (Join " " cmd)
  | _ => Some (Join " " cmd)
  end.

Definition tmp_size : nat := 256.

(** The caller: in [Wait], after [Close] with the result of [Wait], returned. *)
Inductive caller : Type := CWaiting | CCollecting (w : ds_wait) | CReturned (out : string) (w : ds_wait).

Record capture := mkCap {
  cp_src : list (bool * string);       (** what the demultiplexer has still to write: to stdout or not *)
  cp_out : option string;              (** the write each pipe is in *)
  cp_err : option string;
  cp_copied : option bool;             (** the demultiplexer has returned, with an error or not *)
  cp_sess : dockerSession;
  cp_buf : string;
  cp_out_eof : bool; cp_err_eof : bool;
  cp_caller : caller;
}.

(** After a successful [Start]. *)
Definition capture0 (cmdline : string) (src : list (bool * string)) : capture :=
  mkCap src None None None (Start cmdline true true newSession).2 "" false false CWaiting.

(** A pipe after its reader took up to a buffer of the write. *)
Definition rest_of (w : string) : option string :=
  let r := sdrop tmp_size w in if String.eqb r "" then None else Some r.

(** A reader sees the end when the writer closed its end or [Close] closed the pipes. *)
Definition at_end (c : capture) : bool := bool_decide (is_Some (cp_copied c)) || negb (ds_pipes_open (cp_sess c)).

Inductive cap_step : capture → capture → Prop :=
  | cap_write (o : bool) w src c :
      cp_src c = (o, w) :: src → cp_out c = None → cp_err c = None → cp_copied c = None →
      cap_step c (mkCap src (if o then Some w else None) (if o then None else Some w) None (cp_sess c) (cp_buf c)
        (cp_out_eof c) (cp_err_eof c) (cp_caller c))
  | cap_copy_end (failed : bool) c :
      cp_out c = None → cp_err c = None → cp_copied c = None → (failed = false → cp_src c = []) →
      cap_step c (mkCap (cp_src c) None None (Some failed) (cp_sess c) (cp_buf c) (cp_out_eof c) (cp_err_eof c) (cp_caller c))
  | cap_mark_done failed polls c :
      cp_copied c = Some failed → ds_done (cp_sess c) = None →
      cap_step c (mkCap (cp_src c) (cp_out c) (cp_err c) (cp_copied c) (markDone failed polls (cp_sess c)) (cp_buf c)
        (cp_out_eof c) (cp_err_eof c) (cp_caller c))
  | cap_read_out w c :
      cp_out c = Some w →
      cap_step c (mkCap (cp_src c) (rest_of w) (cp_err c) (cp_copied c) (cp_sess c) (cp_buf c +:+ stake tmp_size w)
        (cp_out_eof c) (cp_err_eof c) (cp_caller c))
  | cap_read_err w c :
      cp_err c = Some w →
      cap_step c (mkCap (cp_src c) (cp_out c) (rest_of w) (cp_copied c) (cp_sess c) (cp_buf c)
        (cp_out_eof c) (cp_err_eof c) (cp_caller c))
  | cap_out_end c :
      cp_out c = None → at_end c = true → cp_out_eof c = false →
      cap_step c (mkCap (cp_src c) (cp_out c) (cp_err c) (cp_copied c) (cp_sess c) (cp_buf c) true (cp_err_eof c) (cp_caller c))
  | cap_err_end c :
      cp_err c = None → at_end c = true → cp_err_eof c = false →
      cap_step c (mkCap (cp_src c) (cp_out c) (cp_err c) (cp_copied c) (cp_sess c) (cp_buf c) (cp_out_eof c) true (cp_caller c))
  | cap_wait w c :
      cp_caller c = CWaiting → Wait (cp_sess c) = Some w →
      cap_step c (mkCap (cp_src c) (cp_out c) (cp_err c) (cp_copied c) (Close (cp_sess c)) (cp_buf c)
        (cp_out_eof c) (cp_err_eof c) (CCollecting w))
  | cap_return w c :
      cp_caller c = CCollecting w → cp_out_eof c = true → cp_err_eof c = true →
      cap_step c (mkCap (cp_src c) (cp_out c) (cp_err c) (cp_copied c) (cp_sess c) (cp_buf c) true true
        (CReturned (cp_buf c) w)).

(** What the command wrote to its standard output. *)
Definition stdout_of (src : list (bool * string)) : string :=
  sconcat ((λ x : bool * string, if x.1 then x.2 else "") <$> src).

Lemma stdout_of_app a b : stdout_of (a ++ b) = stdout_of a +:+ stdout_of b.
Proof. unfold stdout_of. by rewrite fmap_app, sconcat_app. Qed.

(** ** The invariant *)

Lemma tmp_size_pos : (0 < tmp_size)%nat.
Proof. unfold tmp_size. lia. Qed.
#[local] Opaque tmp_size.

Record cap_inv (src0 : list (bool * string)) (c : capture) : Prop := {
  ci_bytes : ∃ pre, src0 = pre ++ cp_src c ∧ stdout_of pre = cp_buf c +:+ default "" (cp_out c);
  ci_one : cp_out c = None ∨ cp_err c = None;
  ci_copied : ∀ b, cp_copied c = Some b → cp_out c = None ∧ cp_err c = None ∧ (b = false → cp_src c = []);
  ci_started : ds_started (cp_sess c) = true;
  ci_done : is_Some (ds_done (cp_sess c)) → is_Some (cp_copied c);
  ci_waiting : cp_caller c = CWaiting → ds_pipes_open (cp_sess c) = true;
  ci_caller : cp_caller c ≠ CWaiting → is_Some (cp_copied c);
  ci_result : ∀ w, (cp_caller c = CCollecting w ∨ ∃ o, cp_caller c = CReturned o w) → Wait (cp_sess c) = Some w;
  ci_eof : cp_out_eof c = true → is_Some (cp_copied c);
  ci_out : ∀ o w, cp_caller c = CReturned o w → o = cp_buf c;
}.

Lemma rest_of_bytes w : stake tmp_size w +:+ default "" (rest_of w) = w.
Proof.
  unfold rest_of. destruct (String.eqb_spec (sdrop tmp_size w) "") as [E|]; [|apply stake_sdrop].
  rewrite <- (stake_sdrop tmp_size w) at 2. by rewrite E.
Qed.
Lemma Wait_done s w : ds_started s = true → Wait s = Some w → is_Some (ds_done s).
Proof. unfold Wait. intros ->. cbn. by destruct (ds_done s). Qed.
Lemma Wait_Close s : Wait (Close s) = Wait s.
Proof. unfold Wait, Close. by destruct (ds_closed s) eqn:E. Qed.
Lemma at_end_copied src0 c : cap_inv src0 c → at_end c = true → is_Some (cp_copied c).
Proof.
  intros I. unfold at_end. rewrite orb_true_iff, bool_decide_eq_true, negb_true_iff. intros [?|Hp]; [done|].
  apply (ci_caller _ _ I). intros Hw. rewrite (ci_waiting _ _ I Hw) in Hp. done.
Qed.

Lemma cap_inv_init cmd src : cap_inv src (capture0 cmd src).
Proof.
  split; cbn; try done; auto; try (by intros []).
  - exists []. done.
  - by intros w [?|[??]].
Qed.

Lemma cap_inv_step src0 c c' : cap_step c c' → cap_inv src0 c → cap_inv src0 c'.
Proof.
  intros Hs I. pose proof I as [(pre & Hsrc & Hpre) I2 I3 I4 I5 I6 I7 I8 I9 I10].
  destruct Hs as [o w src c E1 E2 E3 E4|failed c E1 E2 E3 E4|failed polls c E1 E2|w c E1|w c E1|c E1 E2 E3|c E1 E2 E3|w c E1 E2|w c E1 E2 E3];
    split; cbn; try done; auto.
  - exists (pre ++ [(o, w)]). rewrite <- app_assoc. cbn. rewrite <- E1. split; [done|].
    rewrite stdout_of_app, Hpre, E2. unfold stdout_of. cbn. rewrite !sapp_nil_r. by destruct o.
  - destruct o; auto.
  - by rewrite E4 in I5.
  - by rewrite E4 in I7.
  - by rewrite E4 in I9.
  - exists pre. by rewrite E1 in Hpre.
  - by intros b [= <-].
  - by exists pre.
  - intros w Hw. apply I8 in Hw. by apply Wait_done in Hw as [? ?]; [congruence|].
  - exists pre. split; [done|]. rewrite Hpre, E1. cbn. by rewrite <- sapp_assoc, rest_of_bytes.
  - destruct I2 as [I2|I2]; [congruence|auto].
  - intros b Hb. apply I3 in Hb as (? & _). congruence.
  - intros o w' Ho. assert (is_Some (cp_copied c)) as [b Hb] by (apply I7; congruence).
    apply I3 in Hb as (? & _). congruence.
  - by exists pre.
  - destruct I2 as [I2|I2]; [auto|congruence].
  - intros b Hb. apply I3 in Hb as (_ & ? & _). congruence.
  - by exists pre.
  - intros _. by eapply at_end_copied.
  - by exists pre.
  - by exists pre.
  - unfold Close. by destruct (ds_closed (cp_sess c)).
  - unfold Close. by destruct (ds_closed (cp_sess c)).
  - intros _. by eapply I5, Wait_done.
  - rewrite Wait_Close. by intros w' [[= <-]|[o [=]]].
  - by exists pre.
  - intros w' [[=]|[o [= _ <-]]]. apply I8. auto.
  - intros o w' [= <- _]. done.
Qed.

(** ** Progress *)

Definition pending_cost (w : option string) : nat := match w with Some w => S (slen w) | None => 0 end.
Definition flag (b : bool) : nat := if b then 0 else 1.
(** What is left to do: bytes, writes, and one for each thing that happens once. *)
Definition cap_cost (c : capture) : nat :=
  foldr (λ x n, (2 + slen x.2 + n)%nat) 0 (cp_src c) + pending_cost (cp_out c) + pending_cost (cp_err c) +
  flag (bool_decide (is_Some (cp_copied c))) + flag (bool_decide (is_Some (ds_done (cp_sess c)))) +
  flag (cp_out_eof c) + flag (cp_err_eof c) +
  match cp_caller c with CWaiting => 2 | CCollecting _ => 1 | CReturned _ _ => 0 end.

Lemma pending_rest w : (pending_cost (rest_of w) < pending_cost (Some w))%nat.
Proof.
  unfold rest_of. cbn [pending_cost]. destruct (String.eqb_spec (sdrop tmp_size w) ""); cbn [pending_cost]; [lia|].
  rewrite slen_sdrop. pose proof tmp_size_pos. destruct w as [|x w]; [done|]. cbn [slen String.length]. lia.
Qed.
Lemma cap_cost_step c c' : cap_step c c' → (cap_cost c' < cap_cost c)%nat.
Proof.
  destruct 1 as [o w src c E1 E2 E3 E4|failed c E1 E2 E3 E4|failed polls c E1 E2|w c E1|w c E1|c E1 E2 E3|c E1 E2 E3|w c E1 E2|w c E1 E2 E3];
    unfold cap_cost; cbn [cp_src cp_out cp_err cp_copied cp_sess cp_buf cp_out_eof cp_err_eof cp_caller].
  - rewrite E1, E2, E3, E4. destruct o; cbn; lia.
  - rewrite E1, E2, E3. cbn. lia.
  - rewrite E1, E2. cbn. lia.
  - rewrite E1. pose proof (pending_rest w). lia.
  - rewrite E1. pose proof (pending_rest w). lia.
  - rewrite E3. cbn. lia.
  - rewrite E3. cbn. lia.
  - rewrite E1. assert (ds_done (Close (cp_sess c)) = ds_done (cp_sess c)) as ->
      by (unfold Close; by destruct (ds_closed (cp_sess c))). lia.
  - rewrite E1, E2, E3. lia.
Qed.
Lemma cap_cost_steps n c c' : nsteps cap_step n c c' → (n + cap_cost c' ≤ cap_cost c)%nat.
Proof. induction 1 as [|n c c1 c' Hs _ IH]; [lia|]. apply cap_cost_step in Hs. lia. Qed.

Lemma cap_progress src0 c :
  cap_inv src0 c → (∃ o w, cp_caller c = CReturned o w) ∨ ∃ c', cap_step c c'.
Proof.
  intros I. destruct (cp_out c) as [w|] eqn:Eo; [right; eexists; by apply (cap_read_out w)|].
  destruct (cp_err c) as [w|] eqn:Ee; [right; eexists; by apply (cap_read_err w)|].
  destruct (cp_copied c) as [b|] eqn:Ec.
  - assert (at_end c = true) as Hend by (unfold at_end; by rewrite Ec).
    destruct (cp_out_eof c) eqn:E1; [|right; eexists; by apply cap_out_end].
    destruct (cp_err_eof c) eqn:E2; [|right; eexists; by apply cap_err_end].
    destruct (cp_caller c) as [|w|o w] eqn:Ew; [|right; eexists; by apply (cap_return w)|by eauto].
    right. destruct (ds_done (cp_sess c)) as [d|] eqn:Ed; [|eexists; by apply (cap_mark_done b [])].
    assert (is_Some (Wait (cp_sess c))) as [w Hw].
    { unfold Wait. rewrite (ci_started _ _ I), Ed. destruct d as [[e|] code]; cbn; by eexists. }
    eexists. by apply (cap_wait w).
  - right. destruct (cp_src c) as [|[o w] src] eqn:Es; [eexists; by apply (cap_copy_end false)|].
    eexists. by apply (cap_write o w src).
Qed.

(** C18: [execCapture] returns, with the whole output.  Whatever the order of its goroutines
    and the sizes of the writes, it cannot block: while it has not returned some goroutine
    can go on, and the steps of a run are bounded by the bytes and writes of the output.
    When it returns, with the result of [Wait], the bytes are everything the command wrote
    to standard output; only when the output stream broke is it what came before. *)
Theorem capture_whole_output cmd src n c :
  nsteps cap_step n (capture0 cmd src) c →
  (n ≤ cap_cost (capture0 cmd src))%nat ∧
  match cp_caller c with
  | CReturned out w =>
      Wait (cp_sess c) = Some w ∧ (cp_copied c = Some false → out = stdout_of src) ∧
      ∃ pre, pre `prefix_of` src ∧ out = stdout_of pre
  | _ => ∃ c', cap_step c c'
  end.
Proof.
  intros Hn. split; [apply cap_cost_steps in Hn; lia|].
  assert (cap_inv src c) as I.
  { apply rtc_nsteps_2 in Hn. revert Hn. apply (rtc_ind_r (cap_inv src)); [apply cap_inv_init|]. eauto using cap_inv_step. }
  destruct (cp_caller c) as [| |o w] eqn:E.
  1-2: destruct (cap_progress _ _ I) as [(? & ? & ?)|?]; [congruence|done].
  destruct (ci_caller _ _ I) as [b Hb]; [congruence|].
  destruct (ci_copied _ _ I _ Hb) as (Ho & _ & Hsrc). destruct (ci_bytes _ _ I) as (pre & Hp & Hbuf).
  rewrite Ho in Hbuf. cbn in Hbuf. rewrite sapp_nil_r in Hbuf. rewrite (ci_out _ _ I _ _ E).
  split; [apply (ci_result _ _ I); eauto|]. split.
  - rewrite Hb. intros [= ->]. rewrite (Hsrc eq_refl), app_nil_r in Hp. by rewrite Hp.
  - exists pre. split; [|done]. rewrite Hp. by eexists.
Qed.

(** ** mkdirInContainer *)

(** [exec]: whether the exec was created and attached; [insp]: whether the daemon still calls
    it running, and its exit code, when the output has ended. *)
Definition mkdirInContainer (create attach : bool) (insp : option (bool * Z)) : bool :=
  create && attach && match insp with Some (_, code) => (code =? 0)%Z | None => false end.

(** A daemon that lags behind the end of the output, as [markDone] allows for, reports a
    running command with exit code zero: a failed [mkdir] counts as done. *)
Example mkdir_lagging_daemon : mkdirInContainer true true (Some (true, 0%Z)) = true.
Proof. reflexivity. Qed.

(** ** The backend *)

Definition IsConnected (b : Backend) : bool := bk_connected b.
Definition LastErr (b : Backend) : bool := bk_lastErr b.
(** A session of the container, when the backend was started. *)
Definition NewSession (b : Backend) : option dockerSession :=
  if String.eqb (bk_containerID b) "" then None else Some newSession.

Lemma docker_Start_connected ping insp b :
  IsConnected b = false →
  (IsConnected (docker_Start ping insp b).2 = (docker_Start ping insp b).1) ∧
  (LastErr (docker_Start ping insp b).2 = negb (docker_Start ping insp b).1).
Proof. unfold docker_Start, IsConnected, LastErr. intros E. destruct ping; [destruct insp as [[id [[]|]]|]|]; cbn; by rewrite ?E. Qed.

(** The home directory the captured output gives, and the upload with it. *)
Definition captured (c : caller) : option string :=
  match c with CReturned out DWOk => Some out | _ => None end.
Definition dquote : string := String "034"%char "".
Definition home_cmd : list string := ["sh"; "-c"; "printf %s " +:+ dquote +:+ "$HOME" +:+ dquote].

#[local] Transparent tmp_size.
Module Demo.
Definition src : list (bool * string) := [(true, "/ho"); (false, "warning"); (true, "me/u")].
Definition sess1 : dockerSession := markDone false [IRunning; IExited 0] (Start "x" true true newSession).2.
Definition final : capture :=
  mkCap [] None None (Some false) (Close sess1) "/home/u" true true (CReturned "/home/u" DWOk).

Lemma final_reachable : ∃ n, nsteps cap_step n (capture0 "x" src) final.
Proof.
  exists 12%nat. unfold capture0, src.
  eapply nsteps_l; [by eapply (cap_write true "/ho")|]. cbn.
  eapply nsteps_l; [by eapply cap_read_out|]. cbn.
  eapply nsteps_l; [by eapply (cap_write false "warning")|]. cbn.
  eapply nsteps_l; [by eapply cap_read_err|]. cbn.
  eapply nsteps_l; [by eapply (cap_write true "me/u")|]. cbn.
  eapply nsteps_l; [by eapply cap_read_out|]. cbn.
  eapply nsteps_l; [by eapply (cap_copy_end false)|]. cbn.
  eapply nsteps_l; [by eapply cap_out_end|]. cbn.
  eapply nsteps_l; [by eapply (cap_mark_done false [IRunning; IExited 0])|]. cbn.
  eapply nsteps_l; [by eapply cap_wait|]. cbn.
  eapply nsteps_l; [by eapply cap_err_end|]. cbn.
  eapply nsteps_l; [by eapply cap_return|]. cbn. constructor.
Qed.

Lemma capture_whole_output_witness :
  stdout_of src = "/home/u" ∧ captured (cp_caller final) = Some (stdout_of src) ∧
  resolveContainerPath (captured (cp_caller final)) "~/.cache/agent" = Some "/home/u/.cache/agent".
Proof.
  destruct final_reachable as [n Hn]. destruct (capture_whole_output "x" src n final Hn) as (_ & _ & Hout & _).
  split; [reflexivity|]. split; [|reflexivity]. exact (f_equal Some (Hout eq_refl)).
Defined.
End Demo.
