(* ===== verification/SshDial.v ===== *)
(** * SshDial: how an SSH connection is made

    Models [NewDialer] and [dialSSH] of [pkg/sshconn/dialer.go], [New] of
    [pkg/dialer/dialer.go] with the interface binding of [control_linux.go] and
    [control_other.go], and the built-in ssh transport to a docker daemon of
    [pkg/remote/docker/sshdaemon_ssh.go].  The ssh_config library, the name and interface
    lookups of the system and the URL parser are parameters; the pieces already in
    [SshBackend] and [DockerContext] are composed here the way the code composes them. *)

From S2P Require Import Prelude GoStrings RemoteExec SshBackend DockerContext.
Local Open Scope Z_scope.

(** ** net.Dialer (pkg/dialer) *)

(** [net.Dialer]: the local address, the device its control hook binds the socket to, the
    timeout of a connect (zero is none). *)
Record net_Dialer (IP : Type) := mkNetDialer {
  nd_LocalAddr : option IP; nd_Control : option string; nd_Timeout : Z }.
Arguments mkNetDialer {IP}.
Arguments nd_LocalAddr {IP}.
Arguments nd_Control {IP}.
Arguments nd_Timeout {IP}.

Inductive bindctl_error : Type := BCUnsupported.

(** [newBindControl] on Linux, and on other systems. *)
Definition newBindControl_linux (iface : string) : result bindctl_error (option string) :=
  if String.eqb iface "" then Ok None else Ok (Some iface).
Definition newBindControl_other (iface : string) : result bindctl_error (option string) :=
  if String.eqb iface "" then Ok None else Err BCUnsupported.

(** The hook: [control] and [setsockopt] say whether the two calls succeed. *)
Inductive hook_error : Type := HookControl | HookSetsockopt (iface : string).
Definition run_hook (ctl : option string) (control setsockopt : bool) : option hook_error :=
  match ctl with
  | None => None
  | Some iface => if negb control then Some HookControl else if negb setsockopt then Some (HookSetsockopt iface) else None
  end.

Inductive dialer_error : Type := DEBind (e : bind_error) | DEInterface.

Section ip.
Context {IP : Type}.
Variable ParseIP : string → option IP.
Variable lookup : string → option (option (list (iface_addr (IP := IP)))).
Variable newBindControl : string → result bindctl_error (option string).

(** [dialer.New] *)
Definition dialer_New (bind iface : string) : result dialer_error (net_Dialer IP) :=
  let finish (addr : option IP) :=
    match newBindControl iface with
    | Err _ => Err DEInterface
    | Ok ctl => Ok (mkNetDialer addr ctl 0)
    end in
  if String.eqb bind "" then finish None
  else match ResolveBindAddr ParseIP lookup bind with
       | Err e => Err (DEBind e)
       | Ok ip => finish (Some ip)
       end.

(** The dialer [appendBindDial] installs. *)
Definition daemon_dialer (bind iface : string) : result dialer_error (net_Dialer IP) :=
  match dialer_New bind iface with
  | Err e => Err e
  | Ok d => Ok (mkNetDialer (nd_LocalAddr d) (nd_Control d) (10 * Second))
  end.

(** ** NewDialer *)

Record DialConfig := mkDialConfig {
  dc_Host : string; dc_User : string; dc_Port : Z; dc_Timeout : Z; dc_Bind : string; dc_BindInterface : string }.

(** The options of ssh_config the code reads. *)
Record ssh_options := mkOpts {
  so_Hostname : option string; so_Port : option Z; so_User : option string;
  so_ConnectTimeout : option Z; so_ServerAliveInterval : option Z }.

(** The library: the lookup of a host, and the client configuration for options and the user
    of the terminal prompts, with the timeout it carries. *)
Variable cfg_t : Type.
Variable Resolve : string → string → Z → option ssh_options.
Variable SSHClientConfig : ssh_options → string → option cfg_t.

Record Dialer := mkDialer { d_net : net_Dialer IP; d_Addr : string; d_config : cfg_t; d_KeepAliveInterval : Z }.
Inductive newdialer_error : Type := NDHost | NDResolve | NDConfig | NDBinding (e : dialer_error).

Definition set_timeout (o : ssh_options) (t : option Z) : ssh_options :=
  mkOpts (so_Hostname o) (so_Port o) (so_User o) t (so_ServerAliveInterval o).

Definition NewDialer (c : DialConfig) : result newdialer_error Dialer :=
  if String.eqb (dc_Host c) "" then Err NDHost
  else match Resolve (dc_Host c) (dc_User c) (dc_Port c) with
       | None => Err NDResolve
       | Some opts =>
           let opts := set_timeout opts (connect_timeout (dc_Timeout c) (so_ConnectTimeout opts)) in
           let user := match so_User opts with Some u => u | None => dc_User c end in
           match SSHClientConfig opts user with
           | None => Err NDConfig
           | Some sshConfig =>
               match dialer_New (dc_Bind c) (dc_BindInterface c) with
               | Err e => Err (NDBinding e)
               | Ok nd =>
                   Ok (mkDialer nd (dial_addr (so_Hostname opts) (so_Port opts)) sshConfig
                         (keepalive_interval (so_ServerAliveInterval opts)))
               end
           end
       end.

(** ** dialSSH *)

Inductive dial_call : Type := CDial (d : net_Dialer IP) (addr : string) | CHandshake (addr : string) (c : cfg_t) | CCloseRaw.

(** The calls, and whether there is a connection. *)
Definition dialSSH (d : Dialer) (dials handshakes : bool) : list dial_call * bool :=
  if negb dials then ([CDial (d_net d) (d_Addr d)], false)
  else if negb handshakes then ([CDial (d_net d) (d_Addr d); CHandshake (d_Addr d) (d_config d); CCloseRaw], false)
  else ([CDial (d_net d) (d_Addr d); CHandshake (d_Addr d) (d_config d)], true).

(** ** Theorems *)

(** The client configuration of resolved options: the caller's timeout where ssh_config has
    none, the prompts for the user ssh_config names, else the caller's. *)
Definition client_config (c : DialConfig) (opts : ssh_options) : option cfg_t :=
  SSHClientConfig (set_timeout opts (connect_timeout (dc_Timeout c) (so_ConnectTimeout opts)))
    (default (dc_User c) (so_User opts)).

(** The binding of a dialer is the configured one or there is no dialer. *)
Lemma dialer_New_binding bind iface d :
  dialer_New bind iface = Ok d →
  match nd_LocalAddr d with
  | None => bind = ""
  | Some ip => bind ≠ "" ∧ ResolveBindAddr ParseIP lookup bind = Ok ip
  end ∧ newBindControl iface = Ok (nd_Control d) ∧ nd_Timeout d = 0.
Proof.
  unfold dialer_New. destruct (String.eqb_spec bind "") as [->|Hb].
  - destruct (newBindControl iface) as [ctl|[]]; [|done]. by intros [= <-].
  - destruct (ResolveBindAddr ParseIP lookup bind) as [ip|e]; [|done].
    destruct (newBindControl iface) as [ctl|[]]; [|done]. by intros [= <-].
Qed.

(** A dialer dials what ssh_config resolves the configured host to, from the configured
    local address and device, and no TCP connection of a dial is left behind: either the
    handshake made it the connection that is returned or it is closed.  There is a dialer
    exactly when the host is set, ssh_config resolves it and the binding can be made; so
    later reconnects cannot fail for these reasons. *)
Theorem ssh_dial_as_configured c :
  match NewDialer c with
  | Ok d =>
      (∃ opts, Resolve (dc_Host c) (dc_User c) (dc_Port c) = Some opts ∧
         client_config c opts = Some (d_config d) ∧
         d_Addr d = JoinHostPort (default "" (so_Hostname opts)) (Itoa (default 22 (so_Port opts)))) ∧
      match nd_LocalAddr (d_net d) with
      | None => dc_Bind c = ""
      | Some ip => dc_Bind c ≠ "" ∧ ResolveBindAddr ParseIP lookup (dc_Bind c) = Ok ip
      end ∧ newBindControl (dc_BindInterface c) = Ok (nd_Control (d_net d)) ∧
      ∀ dials handshakes,
        head (dialSSH d dials handshakes).1 = Some (CDial (d_net d) (d_Addr d)) ∧
        (dials = true → (CCloseRaw ∈ (dialSSH d dials handshakes).1 ↔ (dialSSH d dials handshakes).2 = false))
  | Err NDHost => dc_Host c = ""
  | Err NDResolve => Resolve (dc_Host c) (dc_User c) (dc_Port c) = None
  | Err NDConfig => ∃ opts, Resolve (dc_Host c) (dc_User c) (dc_Port c) = Some opts ∧ client_config c opts = None
  | Err (NDBinding e) => dialer_New (dc_Bind c) (dc_BindInterface c) = Err e
  end.
Proof.
  unfold NewDialer. destruct (String.eqb_spec (dc_Host c) "") as [|_]; [done|].
  destruct (Resolve _ _ _) as [opts|] eqn:Er; [|done]. cbn zeta.
  assert (SSHClientConfig (set_timeout opts (connect_timeout (dc_Timeout c) (so_ConnectTimeout opts)))
    (match so_User (set_timeout opts (connect_timeout (dc_Timeout c) (so_ConnectTimeout opts))) with Some u => u | None => dc_User c end)
    = client_config c opts) as -> by (unfold client_config; cbn [so_User set_timeout]; by destruct (so_User opts)).
  destruct (client_config c opts) as [sc|] eqn:Ec; [|by eauto].
  destruct (dialer_New _ _) as [nd|e] eqn:Ed; [|done]. apply dialer_New_binding in Ed as (H1 & H2 & _).
  split; [by exists opts|]. split; [done|]. split; [done|].
  intros [] []; cbn; (split; [done|]); intros; try done; split; try done; rewrite ?elem_of_cons, ?elem_of_nil; naive_solver.
Qed.

(** The connect timeout goes into the options of the ssh client only; the socket is dialed
    without one, and the handshake takes none from the configuration. *)
Theorem connect_timeout_not_dialed c d : NewDialer c = Ok d → nd_Timeout (d_net d) = 0.
Proof.
  unfold NewDialer. destruct (String.eqb (dc_Host c) ""); [done|]. destruct (Resolve _ _ _) as [opts|]; [|done].
  cbn zeta. destruct (SSHClientConfig _ _) as [sc|]; [|done].
  destruct (dialer_New _ _) as [nd|e] eqn:Ed; [|done]. apply dialer_New_binding in Ed as (_ & _ & H). by intros [= <-].
Qed.

(** ** The built-in ssh transport of the docker client *)

(** A parsed URL: the user name when there is user information, host, port, path. *)
Record url := mkURL { u_User : option string; u_Hostname : string; u_Port : string; u_Path : string }.
Inductive builtin_error : Type := BIParse | BIPort (p : string) | BIDialer (e : newdialer_error).

(** [builtinSSHDial]: the dialer and the remote command. *)
Definition builtinSSHDial (u : option url) (bind iface : string) : result builtin_error (Dialer * string) :=
  match u with
  | None => Err BIParse
  | Some u =>
      let user := default "" (u_User u) in
      match (if String.eqb (u_Port u) "" then Some 0 else Atoi (u_Port u)) with
      | None => Err (BIPort (u_Port u))
      | Some port =>
          let remoteCmd := dial_command (u_Path u) in
          match NewDialer (mkDialConfig (u_Hostname u) user port (10 * Second) bind iface) with
          | Err e => Err (BIDialer e)
          | Ok d => Ok (d, remoteCmd)
          end
      end
  end.

(** [tp_builtin] of [DockerContext.transports], discharged. *)
Definition builtin_ok (parse : string → option url) (host bind iface : string) : bool :=
  match builtinSSHDial (parse host) bind iface with Ok _ => true | Err _ => false end.
(** [dialer_ok] of [Backends]. *)
Definition dialer_ok (host user : string) (port timeout : Z) (bind iface : string) : bool :=
  match NewDialer (mkDialConfig host user port timeout bind iface) with Ok _ => true | Err _ => false end.

Lemma builtin_ok_dialer parse host bind iface :
  builtin_ok parse host bind iface = true →
  ∃ u port, parse host = Some u ∧ dialer_ok (u_Hostname u) (default "" (u_User u)) port (10 * Second) bind iface = true ∧
    (u_Port u = "" ∧ port = 0 ∨ Atoi (u_Port u) = Some port).
Proof.
  unfold builtin_ok, builtinSSHDial, dialer_ok. destruct (parse host) as [u|]; [|done].
  destruct (String.eqb_spec (u_Port u) "") as [E|E].
  - destruct (NewDialer _) eqn:Ed; [|done]. intros _. exists u, 0. cbn in Ed. by rewrite Ed, E; auto.
  - destruct (Atoi (u_Port u)) as [port|] eqn:Ea; [|done]. destruct (NewDialer _) eqn:Ed; [|done].
    intros _. exists u, port. cbn in Ed. rewrite Ed, Ea. auto.
Qed.
End ip.

(** A failed dial leaves no session and no connection. *)
Lemma dial_stdio_released conn sess stdin stdout start :
  let '(ops, ok) := dial_stdio conn sess stdin stdout start in
  ok = false → (conn = true → DCloseConn ∈ ops) ∧ (conn = true → sess = true → DCloseSession ∈ ops).
Proof.
  destruct conn; [destruct sess; [destruct stdin; [destruct stdout; [destruct start|]|]|]|]; cbn; try done;
    intros _; split; intros; try done; rewrite !elem_of_cons; tauto.
Qed.

(** [sshStdioConn.Close]: all three are closed, and an error of the session comes first. *)
Inductive stdio_part : Type := PStdin | PSession | PConn.
Definition sshStdioConn_Close (serr cerr : option string) : list stdio_part * option string :=
  ([PStdin; PSession; PConn], match serr with Some e => Some e | None => cerr end).

Module Demo.
Definition ip_of (s : string) : option string := if String.eqb s "10.0.0.1" then Some s else None.
Definition ifaces (s : string) : option (option (list (iface_addr (IP := string)))) :=
  if String.eqb s "eth0" then Some (Some [mkAddr (Some "fe80::1") false None; mkAddr (Some "192.0.2.7") true (Some "192.0.2.7")]) else None.
Definition resolve (host user : string) (port : Z) : option ssh_options :=
  if String.eqb host "box" then Some (mkOpts (Some "box.example.com") (Some 2222) None None (Some 15)) else None.
Definition config (o : ssh_options) (user : string) : option (option Z * string) := Some (so_ConnectTimeout o, user).

(** Bound to an interface by name and by device, with the fallback timeout. *)
Example dial_box :
  NewDialer ip_of ifaces newBindControl_linux _ resolve config (mkDialConfig "box" "me" 0 (3 * Second) "eth0" "vrf1") =
  Ok (mkDialer _ (mkNetDialer (Some "192.0.2.7") (Some "vrf1") 0) "box.example.com:2222" (Some 3, "me") (15 * Second)).
Proof. vm_compute. reflexivity. Qed.
Example dial_box_other :
  NewDialer ip_of ifaces newBindControl_other _ resolve config (mkDialConfig "box" "me" 0 0 "" "vrf1") = Err (NDBinding DEInterface).
Proof. vm_compute. reflexivity. Qed.
Example builtin_box :
  builtinSSHDial ip_of ifaces newBindControl_linux _ resolve config (Some (mkURL None "box" "22x" "")) "" "" = Err (BIPort "22x").
Proof. vm_compute. reflexivity. Qed.
End Demo.
