(* ===== verification/TracerMain.v ===== *)
(** * TracerMain: the tracer process from its start to its exit status

    Models [Start] of [pkg/tracer/tracer.go] and [main] of [cmd/mproxy-tracer/main_linux.go]
    around the event loop of [Tracer]: which program is started with which environment, what
    happens when a step of the start fails, which signals are passed on, and the exit status.
    What becomes of the command when the tracer exits early is the documented rule of
    ptrace(2): a tracee of a tracer that is gone is killed when the exit-kill option is set,
    and otherwise detached and restarted. *)

From S2P Require Import Prelude GoStrings PathRules EnvFilter Arch TraceeMemory Tracer Launch.
Local Open Scope Z_scope.

Inductive start_error : Type := SELookPath | SEFork | SEWait | SESetOptions | SEResume.

(** The command when [Start] returns: never forked; attached, with the exit-kill option or
    not; or followed to the end of the loop. *)
Inductive child : Type := NoChild | Attached (pid : Z) (exitkill : bool) | Followed (pid : Z).

(** What the kernel does with the command when the tracer exits. *)
Inductive fate : Type := FateNone | FateKilled | FateUntraced.
Definition on_exit (c : child) : fate :=
  match c with
  | NoChild | Followed _ => FateNone
  | Attached _ true => FateKilled
  | Attached _ false => FateUntraced
  end.

Section start.
Context `{Regexp} {M : Type} `{TraceeVM M} (arch : Arch).
Variable cfg : Config.
Variable sysGetcwd : Z.
Variable fuel : nat.

(** The answers of the system to the calls of [Start], and the events of the loop. *)
Record start_world := mkWorld {
  w_look : string → option string;
  w_fork : string → list string → list string → option Z;
  w_wait : bool; w_setoptions : bool; w_resume : bool;
  w_tracees : Z → Tracee M;
  w_events : list (Z * wait_status * Tracee M);
}.

Local Abbreviation loop := (traceLoop arch cfg sysGetcwd fuel).

(** [Start]: the exit code, the error, and the command; [None] is the panic on an empty
    command. *)
Definition Start (w : start_world) (argv env : list string) : option (Z * option start_error * child) :=
  match argv with
  | [] => None
  | prog :: _ =>
      match w_look w prog with
      | None => Some (127, Some SELookPath, NoChild)
      | Some binary =>
          let env := start_env cfg env in
          match w_fork w binary argv env with
          | None => Some (127, Some SEFork, NoChild)
          | Some pid =>
              if negb (w_wait w) then Some (127, Some SEWait, Attached pid false)
              else if negb (w_setoptions w) then Some (127, Some SESetOptions, Attached pid false)
              else if negb (w_resume w) then Some (127, Some SEResume, Attached pid true)
              else
                let st := loop (NewEnvBaselineFromSlice env) pid (w_tracees w) (w_events w) in
                Some (exitCode st, None, Followed pid)
          end
      end
  end.

(** ** The exit status of the command *)

(** The events that end a process. *)
Definition ends_pid (pid : Z) (e : Z * wait_status * Tracee M) : bool :=
  (e.1.1 =? pid) && match e.1.2 with WExited _ | WSignaled _ => true | _ => false end.
Definition status_of (ws : wait_status) : Z :=
  match ws with WExited c => c | WSignaled s => 128 + s | _ => 127 end.

Local Abbreviation step := (trace_step arch cfg sysGetcwd fuel).
Local Abbreviation tloop := (trace_loop arch cfg sysGetcwd fuel).

Lemma syscall_stop_known base (st : TState M) pid k :
  is_Some (pids st !! k) → is_Some (pids (syscall_stop arch cfg sysGetcwd fuel base st pid) !! k).
Proof.
  intros Hk. unfold syscall_stop, handleSyscallStop.
  repeat (case_match; simplify_eq/=; try done; try (apply lookup_insert_is_Some'; by right)).
Qed.
(** Only its own end makes a process unknown, and only the command's end sets the code. *)
Lemma step_keeps base c (st : TState M) pid ws t :
  ends_pid c (pid, ws, t) = false → is_Some (pids st !! c) →
  is_Some (pids (step base c st pid ws) !! c) ∧ exitCode (step base c st pid ws) = exitCode st.
Proof.
  unfold ends_pid. cbn [fst snd]. intros He Hc. destruct ws as [code|sig|sig ev msg|]; cbn [trace_step].
  - rewrite andb_true_r, Z.eqb_neq in He. rewrite (proj2 (Z.eqb_neq _ _)) by done. cbn. by rewrite lookup_delete_ne.
  - rewrite andb_true_r, Z.eqb_neq in He. rewrite (proj2 (Z.eqb_neq _ _)) by done. cbn. by rewrite lookup_delete_ne.
  - clear He. split.
    + repeat case_match; cbn; try done; try (apply lookup_insert_is_Some'; by right). by apply syscall_stop_known.
    + unfold syscall_stop. repeat (case_match; simplify_eq/=; try done).
  - done.
Qed.
Lemma observe_keeps (st : TState M) pid t :
  pids (observe st pid t) = pids st ∧ exitCode (observe st pid t) = exitCode st.
Proof. done. Qed.

Lemma loop_before base c (st : TState M) evs rest :
  is_Some (pids st !! c) → Forall (λ e, ends_pid c e = false) evs →
  ∃ st', tloop base c st (evs ++ rest) = tloop base c st' rest ∧ is_Some (pids st' !! c) ∧ exitCode st' = exitCode st.
Proof.
  revert st. induction evs as [|[[pid ws] t] evs IH]; intros st Hc Hev; [by exists st|].
  inversion Hev as [|? ? He Hev']; subst. cbn [app trace_loop].
  case_decide as Hd; [rewrite Hd in Hc; by destruct Hc|].
  destruct (step_keeps base c (observe st pid t) pid ws t He Hc) as [H1 H2].
  destruct (IH _ H1 Hev') as (st' & E & Hs & Hx). exists st'. split; [done|]. split; [done|]. by rewrite Hx, H2.
Qed.
(** After the end of the command the code does not change. *)
Lemma loop_after base c (st : TState M) evs :
  Forall (λ e, ends_pid c e = false) evs → exitCode (tloop base c st evs) = exitCode st.
Proof.
  revert st. induction evs as [|[[pid ws] t] evs IH]; intros st Hev; [done|].
  inversion Hev as [|? ? He Hev']; subst. cbn [trace_loop]. case_decide; [done|]. rewrite IH by done.
  unfold ends_pid in He. cbn [fst snd] in He. destruct ws as [code|sig|sig ev msg|]; cbn [trace_step].
  - rewrite andb_true_r in He. by rewrite He.
  - rewrite andb_true_r in He. by rewrite He.
  - unfold syscall_stop. repeat (case_match; simplify_eq/=; try done).
  - done.
Qed.

(** The loop reports how the command itself ended, whatever its descendants do before and
    after. *)
Lemma loop_status base c trs pre ws t post :
  Forall (λ e, ends_pid c e = false) pre → Forall (λ e, ends_pid c e = false) post →
  ends_pid c (c, ws, t) = true →
  exitCode (loop base c trs (pre ++ (c, ws, t) :: post)) = status_of ws.
Proof.
  intros Hpre Hpost He. unfold traceLoop.
  destruct (loop_before base c (mkTState {[c := pid0]} trs 127 []) pre ((c, ws, t) :: post)) as (st & -> & Hs & Hx);
    [cbn; rewrite lookup_singleton_eq; by eexists|done|].
  cbn [trace_loop]. case_decide as Hd; [rewrite Hd in Hs; by destruct Hs|]. rewrite loop_after by done.
  unfold ends_pid in He. cbn [fst snd] in He. rewrite Z.eqb_refl in He.
  destruct ws; cbn [trace_step status_of exitCode]; rewrite ?Z.eqb_refl; done.
Qed.

(** ** main *)

(** [main]: the exit status of the tracer and the fate of the command. *)
Definition tracer_main (w : Config → start_world) (run : Config → start_world → list string → list string → option (Z * option start_error * child))
    (args environ : list string) : option (Z * fate) :=
  match parseArgs args with
  | Some (a, c :: argv) =>
      match run (ta_cfg a) (w (ta_cfg a)) (c :: argv) environ with
      | Some (code, _, ch) => Some (code, on_exit ch)
      | None => None
      end
  | _ => Some (2, FateNone)
  end.
End start.
Arguments start_world : clear implicits.
Arguments mkWorld {M}.

(** The signals of the terminal reach the command by themselves; of the others only these
    two are passed on, and while the command is not there yet the channel keeps eight. *)
Definition notified (sig : Z) : bool := (sig =? 15) || (sig =? 1).
Definition forwarded (before after : list Z) : list Z :=
  take 8 (base.filter (λ s, notified s = true) before) ++ base.filter (λ s, notified s = true) after.

Section theorems.
Context `{Regexp} {M : Type} `{TraceeVM M} (arch : Arch).
Variable sysGetcwd : Z.
Variable fuel : nat.
Local Abbreviation Start cfg := (Start arch cfg sysGetcwd fuel).
Local Abbreviation main w := (tracer_main w (λ cfg, Start cfg)).

(** C29: the exit status of the tracer.  A usage error is 2; a command that cannot be found,
    started or set up for tracing is 127; otherwise the status is how the command itself
    ended, 128 plus the number for a signal, whatever its descendants do.  The command runs
    with the remapped environment, and after the tracer is gone it is not running untraced
    unless the very setup of tracing failed. *)
Theorem tracer_exit_status (w : Config → start_world M) args environ :
  match parseArgs args with
  | None | Some (_, []) => main w args environ = Some (2, FateNone)
  | Some (a, prog :: rest) =>
      let cfg := ta_cfg a in let argv := prog :: rest in
      ∃ code fate, main w args environ = Some (code, fate) ∧
      match w_look (w cfg) prog ≫= λ binary, w_fork (w cfg) binary argv (start_env cfg environ) with
      | None => code = 127 ∧ fate = FateNone
      | Some pid =>
          (fate = FateUntraced ↔ w_wait (w cfg) && w_setoptions (w cfg) = false) ∧
          (w_wait (w cfg) && w_setoptions (w cfg) && w_resume (w cfg) = false → code = 127) ∧
          (w_wait (w cfg) && w_setoptions (w cfg) && w_resume (w cfg) = true →
           ∀ pre ws t post, w_events (w cfg) = pre ++ (pid, ws, t) :: post → ends_pid pid (pid, ws, t) = true →
             Forall (λ e, ends_pid pid e = false) (pre ++ post) → code = status_of ws ∧ fate = FateNone)
      end
  end.
Proof.
  unfold tracer_main. destruct (parseArgs args) as [[a [|prog rest]]|]; [done| |done]. cbn zeta.
  set (cfg := ta_cfg a). cbn [TracerMain.Start]. destruct (w_look (w cfg) prog) as [binary|]; cbn [mbind option_bind]; [|by eexists _, _].
  cbn zeta. destruct (w_fork (w cfg) binary (prog :: rest) (start_env cfg environ)) as [pid|]; [|by eexists _, _].
  destruct (w_wait (w cfg)); cbn [negb andb]; [|eexists _, _; by split_and!].
  destruct (w_setoptions (w cfg)); cbn [negb andb]; [|eexists _, _; by split_and!].
  destruct (w_resume (w cfg)); cbn [negb]; [|eexists _, _; by split_and!].
  eexists _, _. split; [done|]. split; [done|]. split; [done|]. intros _ pre ws t post Hev He [Hpre Hpost]%Forall_app.
  split; [|done]. rewrite Hev. by apply loop_status.
Qed.

(** A command that is killed after its child has failed; and one whose tracing could not be
    set up: the tracer reports 127 and the command goes on without it. *)
Definition demo_world (m : M) (setoptions : bool) : start_world M :=
  let t := mkTracee None m true false in
  mkWorld (λ p, Some ("/bin/" +:+ p)) (λ _ _ _, Some 7) true setoptions true (λ _, t)
    [(7, WStopped SIGTRAP PTRACE_EVENT_FORK (Some 9), t); (9, WStopped SIGSTOP 0 None, t); (9, WExited 1, t); (7, WSignaled 15, t)].
Example tracer_killed (m : M) :
  main (λ _, demo_world m true) ["--shim-path"; "/s"; "--"; "make"] ["PATH=/bin"] = Some (143, FateNone).
Proof. reflexivity. Qed.
Example tracer_setup_fails (m : M) :
  main (λ _, demo_world m false) ["--shim-path"; "/s"; "--"; "make"] ["PATH=/bin"] = Some (127, FateUntraced).
Proof. reflexivity. Qed.
End theorems.

(** ** machineproxy's own exit status *)

(** What [cmd.Run] of the namespace gives for the end of its process: nil, or an exit error
    with its code, which is -1 after a signal. *)
Inductive run_error : Type := REExit (code : Z) | REOther.
Definition cmd_Run (started : bool) (ws : wait_status) : option run_error :=
  if negb started then Some REOther
  else match ws with
       | WExited 0 => None
       | WExited c => Some (REExit c)
       | _ => Some (REExit (-1))
       end.
(** [main] of [cmd/machineproxy]; the system keeps eight bits of a status. *)
Definition machineproxy_exit (r : option run_error) : Z :=
  match r with
  | None => 0
  | Some (REExit c) => uwrap 8 c
  | Some REOther => 1
  end.

(** The status of the tracer is that of machineproxy, so with [tracer_exit_status] a script
    sees how its command ended. *)
Lemma exit_status_passed c : 0 ≤ c < 256 → machineproxy_exit (cmd_Run true (WExited c)) = c.
Proof.
  intros Hc. destruct c as [|c|c]; [done| |lia]. cbn [cmd_Run negb machineproxy_exit]. apply uwrap_id. unfold is_u. lia.
Qed.
