(* ===== verification/BrokerServer.v ===== *)
(** * BrokerServer: the broker's listener and its connections

    Models [Server.Start] and [listenUnixPrivate] of [pkg/broker/server.go], and the part of
    [StartBroker] and [createBrokerSocketPath] of [cmd/machineproxy/runtime.go] that makes
    the socket and waits for it.  The server is a transition system: the accept loop, the
    goroutine that closes the listener when the context ends, and one goroutine per
    connection, which the loop waits for before it returns. *)

From S2P Require Import Prelude GoStrings.
Local Open Scope Z_scope.

(** ** The socket *)

Definition o700 : Z := 448.

(** The permission bits a file gets under a umask. *)
Definition created_mode (bits umask : Z) : Z := Z.ldiff bits umask.

(** [listenUnixPrivate]: the mode of the socket, when the listen succeeds, and the umask of
    the process after the call. *)
Definition listenUnixPrivate (umask : Z) (listens : bool) : option Z * Z :=
  let oldUmask := umask in
  let umask := o77 in
  (if listens then Some (created_mode o777 umask) else None, oldUmask).

(** [createBrokerSocketPath]: the mode of the directory, which [MkdirTemp] asks 0700 for. *)
Definition createBrokerSocketPath (umask : Z) (mkdir : option string) : option (string * Z) * Z :=
  let oldUmask := umask in
  let umask := o77 in
  (match mkdir with Some dir => Some (dir +:+ "/broker.sock", created_mode o700 umask) | None => None end, oldUmask).

(** Nobody but the owner can reach the broker, whatever the umask of the process, which is
    the same afterwards. *)
Lemma socket_private umask listens mkdir :
  (listenUnixPrivate umask listens).2 = umask ∧ (createBrokerSocketPath umask mkdir).2 = umask ∧
  (∀ m, (listenUnixPrivate umask listens).1 = Some m → m = o700) ∧
  (∀ p m, (createBrokerSocketPath umask mkdir).1 = Some (p, m) → m = o700).
Proof. split; [done|]. split; [done|]. split; [by destruct listens; intros m [= <-]|by destruct mkdir; intros p m [= <- <-]]. Qed.

(** ** The accept loop *)

(** The loop: accepting; waiting for the connections after a failed accept, with what it
    will return; returned ([None] is a nil error). *)
Inductive accept_pc : Type := Accepting | Draining | Returned (err : option string).

Record server := mkServer {
  sv_pc : accept_pc;
  sv_ctx : bool;                (** the context has ended *)
  sv_open : bool;               (** the listener is open *)
  sv_serving : gset nat;        (** the connections whose goroutine has not returned *)
  sv_next : nat;
  sv_err : string;              (** the error of the failed accept *)
}.
Definition server0 : server := mkServer Accepting false true ∅ 0 "".

(** Who takes a step: the outside world (a shim that connects, a system that refuses an
    accept, whoever ends the context), or the server with the connections it serves. *)
Inductive who : Type := Outside | Inside.

Inductive sv_step : who → server → server → Prop :=
  | sv_accept s :
      sv_pc s = Accepting → sv_open s = true →
      sv_step Outside s (mkServer Accepting (sv_ctx s) true ({[sv_next s]} ∪ sv_serving s) (S (sv_next s)) (sv_err s))
  | sv_accept_error err s :
      (** the system refuses: no descriptor, no memory *)
      sv_pc s = Accepting → sv_open s = true →
      sv_step Outside s (mkServer Draining (sv_ctx s) true (sv_serving s) (sv_next s) err)
  | sv_cancel s : sv_step Outside s (mkServer (sv_pc s) true (sv_open s) (sv_serving s) (sv_next s) (sv_err s))
  | sv_close_listener s :
      (** the goroutine: [<-ctx.Done()], then [ln.Close()] *)
      sv_ctx s = true → sv_open s = true →
      sv_step Inside s (mkServer (sv_pc s) true false (sv_serving s) (sv_next s) (sv_err s))
  | sv_accept_closed s :
      (** an [Accept] on a closed listener, also one that was blocked when it was closed *)
      sv_pc s = Accepting → sv_open s = false →
      sv_step Inside s (mkServer Draining (sv_ctx s) false (sv_serving s) (sv_next s) "use of closed network connection")
  | sv_conn_done c s :
      c ∈ sv_serving s →
      sv_step Inside s (mkServer (sv_pc s) (sv_ctx s) (sv_open s) (sv_serving s ∖ {[c]}) (sv_next s) (sv_err s))
  | sv_return s :
      sv_pc s = Draining → sv_serving s = ∅ →
      sv_step Inside s
        (mkServer (Returned (if sv_ctx s then None else Some (sv_err s))) (sv_ctx s) (sv_open s) ∅ (sv_next s) (sv_err s)).
Definition sv_any (s s' : server) : Prop := ∃ w, sv_step w s s'.

(** A nil error is returned only after the context ended, and with no connection left. *)
Record sv_inv (s : server) : Prop := {
  si_open : sv_open s = false → sv_ctx s = true;
  si_returned : ∀ err, sv_pc s = Returned err → sv_serving s = ∅ ∧ (err = None → sv_ctx s = true);
}.

Lemma sv_inv_step s s' : sv_any s s' → sv_inv s → sv_inv s'.
Proof.
  intros [w Hs]. destruct Hs as [s E1 E2|err s E1 E2|s|s E1 E2|s E1 E2|c s Hc|s E1 E2]; intros [I1 I2];
    split; cbn; try done; auto.
  - intros err He. split; [by eapply I2|done].
  - intros err He. destruct (I2 _ He) as [Hs ?]. split; [rewrite Hs; set_solver|done].
  - intros err He. destruct (I2 _ He) as [Hs ?]. split; [rewrite Hs; set_solver|done].
  - intros err [= <-]. split; [done|]. by destruct (sv_ctx s).
Qed.
Lemma sv_inv_reachable s : rtc sv_any server0 s → sv_inv s.
Proof. apply (rtc_ind_r sv_inv); [split; cbn; done|]. eauto using sv_inv_step. Qed.

(** *** Shutting down *)

(** What is left to do inside: the listener, the loop, the connections. *)
Definition sv_left (s : server) : nat :=
  (if sv_open s then 1 else 0) + match sv_pc s with Accepting => 2 | Draining => 1 | Returned _ => 0 end + size (sv_serving s).

Lemma inside_less s s' : sv_step Inside s s' → (sv_left s' < sv_left s)%nat.
Proof.
  intros Hs. remember Inside as w eqn:Ew. destruct Hs as [| | |s E1 E2|s E1 E2|c s Hc|s E1 E2]; try done; unfold sv_left; cbn.
  - rewrite E2. lia.
  - rewrite E1, E2. lia.
  - assert (size (sv_serving s ∖ {[c]}) < size (sv_serving s))%nat; [|lia]. apply subset_size. set_solver.
  - rewrite E1. destruct (sv_open s); rewrite size_empty; lia.
Qed.
Lemma inside_sn s : sn (sv_step Inside) s.
Proof.
  induction s as [s IH] using (induction_ltof1 _ sv_left). constructor. intros s' Hs. by apply IH, inside_less.
Qed.

(** When the context has ended the server alone gets on until it has returned. *)
Lemma inside_progress s :
  sv_ctx s = true → (∀ err, sv_pc s ≠ Returned err) → ∃ s', sv_step Inside s s'.
Proof.
  intros Hc Hp. destruct (sv_pc s) as [| |err] eqn:Ep; [| |by destruct (Hp err)].
  - destruct (sv_open s) eqn:Eo; eexists; [by apply sv_close_listener|by apply sv_accept_closed].
  - destruct (decide (sv_serving s = ∅)) as [E|[c Hn]%set_choose_L]; eexists; [by apply sv_return|by apply (sv_conn_done c)].
Qed.

Definition ending (n : nat) (s : server) : Prop :=
  sv_ctx s = true ∧ sv_next s = n ∧ ∀ err, sv_pc s = Returned err → err = None ∧ sv_serving s = ∅.
Lemma inside_ending n s s' : sv_step Inside s s' → ending n s → ending n s'.
Proof.
  intros Hs (Hc & Hn & Hr). remember Inside as w eqn:Ew.
  destruct Hs as [| | |s E1 E2|s E1 E2|c s Hin|s E1 E2]; try done; split_and!; cbn; try done.
  - intros err He. destruct (Hr _ He) as [-> Hs]. split; [done|]. rewrite Hs. set_solver.
  - intros err [= <-]. by rewrite Hc.
Qed.

(** C19: [Start] ends when its context does, and never before its connections.  When it has
    returned every connection has been served, and it returns nil only after the context
    ended.  From any state in which the context has ended, unless it has returned before,
    the steps of the server and the ends of the running commands alone bring it to an end,
    in whatever order they happen: there is no infinite sequence of them, and where none
    is left [Start] has returned nil with no connection open and none accepted meanwhile.
    So shutting down waits for the running commands and for nothing else; in particular it
    needs no new connection to wake the accept loop, because the goroutine closes the
    listener. *)
Theorem broker_serves_all s :
  rtc sv_any server0 s →
  (∀ err, sv_pc s = Returned err → sv_serving s = ∅ ∧ (err = None → sv_ctx s = true)) ∧
  (sv_ctx s = true → (∀ err, sv_pc s ≠ Returned err) →
     sn (sv_step Inside) s ∧
     ∀ s', rtc (sv_step Inside) s s' → nf (sv_step Inside) s' →
       sv_pc s' = Returned None ∧ sv_serving s' = ∅ ∧ sv_next s' = sv_next s).
Proof.
  intros Hr. pose proof (sv_inv_reachable _ Hr) as [_ I]. split; [done|]. intros Hc Hp. split; [apply inside_sn|].
  intros s' Hs Hn. assert (ending (sv_next s) s') as (Hc' & Hnx & He).
  { clear Hn. revert s' Hs. apply (rtc_ind_r (ending (sv_next s))); [|eauto using inside_ending].
    split_and!; [done|done|]. intros err Herr. by destruct (Hp err). }
  destruct (sv_pc s') as [| |err] eqn:Ep.
  1,2: destruct Hn, (inside_progress s') as [y Hy]; [done|congruence|by exists y].
  by destruct (He err eq_refl) as [-> ->].
Qed.

(** After an accept that fails for another reason the listener is never closed while the
    context lives, and nobody accepts: a shim that connects then waits. *)
Theorem accept_error_leaves_socket s s' :
  sv_pc s = Draining → sv_ctx s = false → sv_open s = true → rtc sv_any s s' → sv_ctx s' = false →
  sv_open s' = true ∧ sv_pc s' ≠ Accepting ∧ sv_next s' = sv_next s.
Proof.
  intros Hp Hc Ho Hr.
  cut (sv_ctx s' = false → sv_pc s' ≠ Accepting ∧ sv_open s' = true ∧ sv_next s' = sv_next s); [naive_solver|].
  revert s' Hr. apply (rtc_ind_r (λ s', sv_ctx s' = false → sv_pc s' ≠ Accepting ∧ sv_open s' = true ∧ sv_next s' = sv_next s)).
  - intros _. split; [congruence|done].
  - intros x y _ [w Hxy] IH.
    destruct Hxy; cbn; intros Hctx; try done; try (destruct IH as (? & ? & ?); [done|]; by split_and!); congruence.
Qed.

(** ** Waiting for the socket *)

Inductive wake : Type := WTick | WTimeout | WDone.
Inductive ready_error : Type := RTimeout | RContext.

(** One round: whether the socket is there, else what wakes the loop. *)
Fixpoint await_ready (rounds : list (bool * wake)) : option (option ready_error) :=
  match rounds with
  | [] => None
  | (true, _) :: _ => Some None
  | (false, WTick) :: rounds => await_ready rounds
  | (false, WTimeout) :: _ => Some (Some RTimeout)
  | (false, WDone) :: _ => Some (Some RContext)
  end.

(** It reports the socket only when it was there, and stops at the first wake that is not a
    tick. *)
Lemma await_ready_ok rounds :
  (await_ready rounds = Some None → Exists (λ r, r.1 = true) rounds) ∧
  (Exists (λ r, r.1 = true ∨ r.2 ≠ WTick) rounds → is_Some (await_ready rounds)).
Proof.
  induction rounds as [|[[] w] rounds [IH1 IH2]]; cbn.
  - split; [done|]. by intros ?%Exists_nil.
  - split; [|by eexists]. intros _. by apply Exists_cons_hd.
  - destruct w; cbn.
    + split; [intros ?; apply Exists_cons_tl; auto|]. intros [[?|?]|He]%Exists_cons; cbn in *; [done|done|auto].
    + split; [done|]. by eexists.
    + split; [done|]. by eexists.
Qed.

Module Demo.
(** Two connections, the context ends, one is still served. *)
Definition busy : server := mkServer Accepting true true {[1%nat]} 2 "".
Lemma busy_reachable : rtc sv_any server0 busy.
Proof.
  eapply rtc_l; [eexists; by apply sv_accept|]. cbn. eapply rtc_l; [eexists; by apply sv_accept|]. cbn.
  eapply rtc_l; [eexists; apply sv_cancel|]. cbn.
  eapply rtc_l; [eexists; apply (sv_conn_done 0%nat); cbn; set_solver|]. cbn.
  replace (({[1%nat]} ∪ ({[0%nat]} ∪ ∅)) ∖ {[0%nat]}) with ({[1%nat]} : gset nat) by (vm_compute; reflexivity).
  constructor.
Qed.
Definition ended : server := mkServer (Returned None) true false ∅ 2 "use of closed network connection".
Lemma busy_ends : rtc (sv_step Inside) busy ended ∧ nf (sv_step Inside) ended.
Proof.
  split; [|intros [y Hy]; inversion Hy; by simplify_eq/=; set_solver].
  eapply rtc_l; [by apply sv_close_listener|]. eapply rtc_l; [by apply sv_accept_closed|]. cbn.
  eapply rtc_l; [apply (sv_conn_done 1%nat); cbn; set_solver|]. cbn. eapply rtc_l; [by apply sv_return|]. constructor.
Qed.
Lemma broker_serves_all_witness : sn (sv_step Inside) busy ∧ sv_pc ended = Returned None.
Proof.
  destruct (broker_serves_all busy busy_reachable) as [_ [H1 H2]]; [reflexivity|intros err [=]|].
  split; [exact H1|]. by apply (H2 ended); apply busy_ends.
Defined.
End Demo.
