(* ===== verification/Platforms.v ===== *)
(** * Platforms: the macOS and Windows variants

    Models the files built on macOS only ([cmd/machineproxy/runchild_darwin.go],
    [pkg/ns/runner_darwin.go], [cmd/mproxy-shim/fd_darwin.go]) and on Windows only
    ([build_windows.go] and [signal_windows.go] of [pkg/childproc], [setup_windows.go] and
    [reap_windows.go] of [pkg/subreaper]), and relates them to the Linux ones where both do
    the same job.  Windows handles are numbers of a ledger, like the descriptors of
    [ChildProc]. *)

From S2P Require Import Prelude GoStrings PathRules Tracer Broker ChildProc Launch.
Local Open Scope Z_scope.

(** ** macOS: the child's command and environment *)

Module Darwin.

(** [remapPWDEnv]: the entry before [env] are in [pre]. *)
Fixpoint remapPWD_loop (from to : string) (whole pre env : list string) : list string :=
  match env with
  | [] => whole
  | e :: rest =>
      match CutPrefix e "PWD=" with
      | None => remapPWD_loop from to whole (pre ++ [e]) rest
      | Some v =>
          let '(mapped, matched) := RewritePathPrefix v from to in
          if negb matched || String.eqb mapped v then whole
          else pre ++ ("PWD=" +:+ mapped) :: rest
      end
  end.
Definition remapPWDEnv (env : list string) (from to : string) : list string := remapPWD_loop from to env [] env.

(** [buildChildInvocation]: [dylib] is the interposer when it was found. *)
Definition buildChildInvocation (dylib : option string) (localCommands : list string) (cwdFrom cwdTo : string)
    (cmdline env : list string) : list string * list string :=
  let out := env ++ match dylib with Some d => ["DYLD_INSERT_LIBRARIES=" +:+ d] | None => [] end in
  let out := out ++ match localCommands with [] => [] | l => ["MPROXY_WHITELIST=" +:+ Join ":"%char l] end in
  let out := if String.eqb cwdTo "" then out
             else remapPWDEnv (out ++ ["MPROXY_CWD_FROM=" +:+ cwdFrom; "MPROXY_CWD_TO=" +:+ cwdTo]) cwdFrom cwdTo in
  (cmdline, out).

(** [Namespace.Command] and [Namespace.Run]: the program, its arguments, directory and
    environment, or an error; binds are ignored. *)
Definition ns_Command (cmdline : list string) : string * list string :=
  match cmdline with [] => ("", []) | p :: args => (p, args) end.
Definition ns_Run (workingDir : string) (cmdline env : list string) (binds : list Bind) : option (string * list string * string * list string) :=
  match cmdline with [] => None | p :: args => Some (p, args, workingDir, env) end.

(** The loop over [/dev/fd]. *)
Definition keep_fd (getfd : Z → option Z) (brokerFD dirFD : Z) (name : string) : option Z :=
  match ParseUint 32 name with
  | None => None
  | Some fd =>
      if (fd <? 3) || (fd =? dirFD) || (fd =? brokerFD) then None
      else match getfd fd with
           | None => None
           | Some flags => if negb (Z.land flags FD_CLOEXEC =? 0) then None else Some fd
           end
  end.
Definition detectExtraFDs (names : option (list string)) (getfd : Z → option Z) (brokerFD dirFD : Z) : list Z :=
  match names with None => [] | Some names => omap (keep_fd getfd brokerFD dirFD) names end.

(** *** Theorems *)

Lemma remapPWD_loop_tracer from to pre env :
  remapPWD_loop from to (pre ++ env) pre env = (Tracer.remapPWD_from from to pre env).1.
Proof.
  revert pre. induction env as [|e env IH]; intros pre; cbn; [by rewrite app_nil_r|].
  destruct (CutPrefix e "PWD=") as [v|].
  - destruct (RewritePathPrefix v from to) as [mapped matched]. by destruct (negb matched || String.eqb mapped v).
  - rewrite <- IH. f_equal. by rewrite <- app_assoc.
Qed.
(** Both platforms start the command with the same working directory in its environment. *)
Theorem pwd_same_on_both env from to : remapPWDEnv env from to = (Tracer.remapPWDEnv env from to).1.
Proof. apply (remapPWD_loop_tracer from to [] env). Qed.

(** Without a working directory mapping the environment is extended only, and the command is
    never changed. *)
Lemma darwin_environment dylib local from to cmdline env :
  (buildChildInvocation dylib local from to cmdline env).1 = cmdline ∧
  (to = "" → ∃ added, (buildChildInvocation dylib local from to cmdline env).2 = env ++ added ∧
     Forall (λ e, HasPrefix e "DYLD_INSERT_LIBRARIES=" || HasPrefix e "MPROXY_WHITELIST=" = true) added).
Proof.
  split; [done|]. intros ->. unfold buildChildInvocation. cbn. rewrite <- app_assoc. eexists. split; [done|].
  apply Forall_app. split; [destruct dylib|destruct local]; constructor; try done.
Qed.

(** The descriptors announced on Linux and on macOS are the same for a process whose
    inherited descriptors have a readable name and are no anonymous inodes. *)
Theorem fds_same_on_both p brokerFD dirFD :
  (∀ names name fd, pf_names p = Some names → name ∈ names → ParseUint 32 name = Some fd →
     ∃ target, pf_readlink p ("/proc/self/fd/" +:+ name) = Some target ∧ HasPrefix target "anon_inode:" = false) →
  Broker.detectExtraFDs p brokerFD dirFD = detectExtraFDs (pf_names p) (pf_getfd p) brokerFD dirFD.
Proof.
  intros Hl. unfold Broker.detectExtraFDs, detectExtraFDs. destruct (pf_names p) as [names|]; [|done].
  specialize (λ name fd, Hl names name fd eq_refl). induction names as [|name names IH]; [done|].
  assert (Broker.keep_fd p brokerFD dirFD name = keep_fd (pf_getfd p) brokerFD dirFD name) as E.
  { unfold Broker.keep_fd, keep_fd. destruct (ParseUint 32 name) as [fd|] eqn:Ep; [|done].
    destruct (_ || _); [done|]. destruct (pf_getfd p fd) as [flags|]; [|done]. destruct (negb _); [done|].
    destruct (Hl name fd) as (target & -> & Ha); [by left|done|]. by rewrite Ha. }
  cbn. rewrite E. rewrite IH; [done|]. intros name' fd Hin. apply Hl. by right.
Qed.
End Darwin.

(** ** Linux: the same call through bubblewrap *)

Module Linux.
(** [Namespace.Run]: the program, its arguments and its environment. *)
Definition bwrap_Run (bwrapBin workingDir : string) (cmdline env : list string) (binds : list Bind) : string * list string * list string :=
  (bwrapBin, buildBwrapArgs workingDir cmdline binds, env).

(** The command is the end of the arguments, whatever is bound, and both platforms hand it
    the caller's environment. *)
Lemma bwrap_Run_command bwrapBin workingDir p args env binds :
  ∃ pre, (bwrap_Run bwrapBin workingDir (p :: args) env binds).1.2 = pre ++ p :: args ∧
    (bwrap_Run bwrapBin workingDir (p :: args) env binds).2 = env ∧
    Darwin.ns_Run workingDir (p :: args) env binds = Some (p, args, workingDir, env).
Proof.
  unfold bwrap_Run, buildBwrapArgs. cbn [fst snd]. eexists. split; [|done]. by rewrite !app_assoc.
Qed.
End Linux.

(** ** Windows *)

Module Windows.

Record handles := mkHandles { h_next : nat; h_open : gset nat }.
Definition open_handle (h : handles) : nat * handles := (h_next h, mkHandles (S (h_next h)) ({[h_next h]} ∪ h_open h)).
Definition close_handle (x : nat) (h : handles) : handles := mkHandles (h_next h) (h_open h ∖ {[x]}).
Definition handles_ok (h : handles) : Prop := ∀ x, x ∈ h_open h → (x < h_next h)%nat.

(** [unprivilegedPrimaryToken]: the token, or none when the process is not elevated.  The
    answers: the own token opens, is elevated, has a linked token, which can be duplicated. *)
Inductive token_error : Type := TOpen | TLinked | TDuplicate.
Definition unprivilegedPrimaryToken (opens elevated linked duplicates : bool) (h : handles) :
    result token_error (option nat) * handles :=
  if negb opens then (Err TOpen, h)
  else
    let '(current, h) := open_handle h in
    if negb elevated then (Ok None, close_handle current h)
    else if negb linked then (Err TLinked, close_handle current h)
    else
      let '(lnk, h) := open_handle h in
      if negb duplicates then (Err TDuplicate, close_handle current (close_handle lnk h))
      else
        let '(primary, h) := open_handle h in
        (Ok (Some primary), close_handle current (close_handle lnk h)).

Inductive build_error : Type := WBExtra | WBToken (e : token_error) | WBPipes.
(** [Build]; the token, when there is one, stays open for the process. *)
Definition Build (LookPath : string → option string) (spec : Spec) (opens elevated linked duplicates : bool)
    (l : ledger) (h : handles) : result build_error (Cmd * Pipes * option nat) * ledger * handles :=
  match sp_ExtraFDs spec with
  | _ :: _ => (Err WBExtra, l, h)
  | [] =>
      let cmd := newCmd LookPath spec in
      let '(tok, h) := if DropSudoCredentials spec then unprivilegedPrimaryToken opens elevated linked duplicates h
                       else (Ok None, h) in
      match tok with
      | Err e => (Err (WBToken e), l, h)
      | Ok tok =>
          match setupStdPipes cmd l with
          | (None, l) => (Err WBPipes, l, h)
          | (Some (c, p), l) => (Ok (c, p, tok), l, h)
          end
      end
  end.

(** [SignalGroup]: a break event for the console signals, termination for the others. *)
Inductive win_call : Type := CtrlBreak (pid : Z) | Terminate (pid code : Z).
Definition SignalGroup (pid : option Z) (sig : Z) : option win_call :=
  match pid with
  | None => None
  | Some pid =>
      if (sig =? 2) || (sig =? 3) || (sig =? 1) then Some (CtrlBreak (u32 pid)) else Some (Terminate (u32 pid) (u32 (128 + sig)))
  end.

(** [Setup]: the job, when the current process is in it. *)
Inductive setup_error : Type := JCreate | JLimit | JAssign.
Definition Setup (creates limits assigns : bool) (h : handles) : result setup_error nat * handles :=
  if negb creates then (Err JCreate, h)
  else
    let '(job, h) := open_handle h in
    if negb limits then (Err JLimit, close_handle job h)
    else if negb assigns then (Err JAssign, close_handle job h)
    else (Ok job, h).

(** [Reaper.WaitFor]: the exit code of a started command, 127 otherwise. *)
Definition WaitFor (started : bool) (state : option Z) : Z :=
  if negb started then 127 else match state with None => 127 | Some code => code end.

(** *** Theorems *)

Lemma open_close h : handles_ok h → h_open (close_handle (h_next h) (open_handle h).2) = h_open h.
Proof.
  intros Hok. cbn. apply leibniz_equiv. intros x. rewrite elem_of_difference, elem_of_union, !elem_of_singleton.
  split; [naive_solver|]. intros Hx. split; [by right|]. intros ->. apply Hok in Hx. lia.
Qed.

(** The only handle a credential drop leaves open is the token that was asked for. *)
Theorem token_handles opens elevated linked duplicates h :
  handles_ok h →
  match unprivilegedPrimaryToken opens elevated linked duplicates h with
  | (Ok (Some t), h') => (t ∉ h_open h) ∧ h_open h' = {[t]} ∪ h_open h
  | (_, h') => h_open h' = h_open h
  end.
Proof.
  intros Hok. unfold unprivilegedPrimaryToken, open_handle, close_handle.
  assert (∀ k, h_next h + k ∉ h_open h)%nat as Hf by (intros k Hk%Hok; lia).
  pose proof (Hf 0%nat). pose proof (Hf 1%nat). pose proof (Hf 2%nat).
  rewrite Nat.add_0_r, Nat.add_1_r in *. replace (h_next h + 2)%nat with (S (S (h_next h))) in * by lia.
  assert (h_next h ≠ S (h_next h) ∧ h_next h ≠ S (S (h_next h)) ∧ S (h_next h) ≠ S (S (h_next h))) as (? & ? & ?) by lia.
  destruct opens; [|done]. destruct elevated, linked, duplicates; cbn; try split; try done;
    apply leibniz_equiv; intros x; rewrite ?elem_of_difference, ?elem_of_union, ?elem_of_singleton;
    destruct (decide (x = h_next h)), (decide (x = S (h_next h))), (decide (x = S (S (h_next h)))); subst; naive_solver.
Qed.

(** A job that could not be set up is closed; one that could stays open, since closing it
    ends every process in it. *)
Lemma setup_handles creates limits assigns h :
  handles_ok h →
  match Setup creates limits assigns h with
  | (Ok job, h') => job ∈ h_open h'
  | (Err _, h') => h_open h' = h_open h
  end.
Proof.
  intros Hok. unfold Setup. pose proof (open_close h Hok) as Hoc. cbn in Hoc.
  destruct creates; [|done]. destruct limits, assigns; cbn; try done. set_solver.
Qed.
End Windows.

(** ** The shim's files (main.go) *)

(** [fdFileSet]: one wrapper per descriptor, kept until the end. *)
Record fdFileSet := mkFiles { files : gmap Z nat }.
Definition fdFileSet_Get (NewFile : Z → option nat) (fd : Z) (s : fdFileSet) : option nat * fdFileSet :=
  match files s !! fd with
  | Some f => (Some f, s)
  | None => match NewFile fd with Some f => (Some f, mkFiles (<[fd := f]> (files s))) | None => (None, s) end
  end.
Definition fdFileSet_Close (s : fdFileSet) : fdFileSet := mkFiles ∅.

(** Asking again gives the same file, and asking for another changes nothing. *)
Lemma fdFileSet_stable NewFile NewFile' fd fd' f s s' :
  fdFileSet_Get NewFile fd s = (Some f, s') →
  (fdFileSet_Get NewFile' fd s').1 = Some f ∧ (fdFileSet_Get NewFile' fd (fdFileSet_Get NewFile' fd' s').2).1 = Some f.
Proof.
  intros Hg. assert (files s' !! fd = Some f) as Hf.
  { unfold fdFileSet_Get in Hg. destruct (files s !! fd) eqn:E; [by simplify_eq|].
    destruct (NewFile fd); simplify_eq. apply lookup_insert_eq. }
  unfold fdFileSet_Get. rewrite Hf. split; [done|].
  destruct (files s' !! fd') eqn:E'; cbn [snd]; [by rewrite Hf|].
  destruct (NewFile' fd'); cbn [snd files]; [|by rewrite Hf]. rewrite lookup_insert_ne by congruence. by rewrite Hf.
Qed.
