(* ===== verification/StubStack.v ===== *)
(** * StubStack: a bare command name in the container, end to end

    Composes the agent's enumeration of its PATH ([AgentMain]), the stub directory
    ([PathStub]) that [BuildPathStubs] mounts, the PATH of the container ([Launch]), the
    tracer's decision ([Tracer]), the request of the shim and the broker's mapping of paths
    and environment ([Broker], [Runtime], [PathMapper]) and the command the agent builds
    ([ChildProc]).  A shell in the container looks a name up on its PATH; what runs is the
    program a shell on the remote machine would have found. *)

From S2P Require Import Prelude GoStrings GoPaths PathRules PathStub PathMapper EnvFilter Tracer Streams Mux.
From S2P Require Import AgentFS RemoteExec Broker ChildProc AgentMain ExecStack Launch Config Runtime.
Local Open Scope Z_scope.

(** ** What the container sees *)

(** The path a PATH search tries for a segment; the empty segment is the current directory. *)
Definition seg_path (d name : string) : string := if String.eqb d "" then name else d +:+ "/" +:+ name.

(** The search a POSIX shell makes, with what may be executed. *)
Definition search_segments (runnable : string → bool) (name : string) (dirs : list string) : option string :=
  first_some (λ d, if runnable (seg_path d name) then Some (seg_path d name) else None) dirs.
Definition path_search (runnable : string → bool) (path name : string) : option string :=
  search_segments runnable name (Split ":"%char path).

Definition getenv_PATH (env : list string) : option string := first_some path_value env.

(** The stub directory is mounted with [default_permissions] and its attributes name no
    owner, so that for an ordinary user the bits for others decide. *)
Definition stub_runnable (now : Z) (f : FileSystem) (name : string) : bool :=
  match dirNode_handle now f (DLookup name) with
  | REntry a => Z.testbit (a_mode a) 0
  | _ => false
  end.

(** The stubs are bound over [dir]; they have no subdirectories. *)
Definition container_runnable (now : Z) (dir : string) (f : FileSystem) (others : string → bool) (p : string) : bool :=
  match CutPrefix p (dir +:+ "/") with
  | Some name => negb (contains_byte slash name) && stub_runnable now f name
  | None => others p
  end.

(** ** What a run sets up *)

Section stubs.
Context `{Regexp}.

(** The file system [BuildPathStubs] mounts for the entries of the remote. *)
Definition stub_fs (c : Config.Config) (found : list PathInfoEntry) : FileSystem :=
  New (FilterLocalCommands found (LocalCommands (Container c)) (PathStubDir (Container c))).

(** What [StartBroker] gives the broker: the agent runner, the filter and the mapper. *)
Definition broker_deps (c : Config.Config) (l : list mountInstance) (stubMap : gmap string PathInfoEntry) : Deps :=
  mkDeps true true (Some (broker_env_filter c (negb (bool_decide (stubMap = ∅)))))
    (broker_path_mapper c l stubMap).

(** ** The stub of a name *)

(** A local command claims the name. *)
Definition claimed (c : Config.Config) (name : string) : bool :=
  existsb (λ cmd, MatchLocalCommand cmd (PathStubDir (Container c) +:+ "/" +:+ name)) (LocalCommands (Container c)).

Lemma claimed_false c name :
  claimed c name = false ↔
  ∀ cmd, cmd ∈ LocalCommands (Container c) → MatchLocalCommand cmd (PathStubDir (Container c) +:+ "/" +:+ name) = false.
Proof. unfold claimed. rewrite <- Forall_forall. apply existsb_False. Qed.

Lemma find_entry_filter_rules name found cmds mount :
  find_entry name (FilterLocalCommands found cmds mount) =
  if existsb (λ cmd, MatchLocalCommand cmd (mount +:+ "/" +:+ name)) cmds then None else find_entry name found.
Proof.
  rewrite <- compile_rules_match. unfold FilterLocalCommands.
  destruct (compile_rules cmds) as [|r rs]; [done|]. set (rules := r :: rs).
  induction found as [|e found IH]; [by destruct (existsb _ _)|].
  rewrite filter_cons. case_decide as Hd; unfold find_entry in *; cbn [first_some].
  - destruct (String.eqb (Name e) name) eqn:En; [|exact IH].
    apply seqb_true in En as <-. by rewrite Hd.
  - rewrite IH. destruct (String.eqb (Name e) name) eqn:En; [|done].
    apply seqb_true in En as <-. apply not_false_iff_true in Hd. by rewrite Hd.
Qed.

(** The stub of a name is what the remote's own search finds, unless a local command
    claims it. *)
Lemma stub_Lookup c RD St penv name :
  Lookup (stub_fs c (EnumerateLocally RD St penv [])) name =
  if claimed c name then None else path_lookup RD St name (splitPath penv).
Proof.
  destruct (New_spec (FilterLocalCommands (EnumerateLocally RD St penv []) (LocalCommands (Container c))
    (PathStubDir (Container c)))) as [Hl _].
  unfold stub_fs. rewrite Hl, find_entry_filter_rules. fold (claimed c name).
  destruct (EnumerateLocally_path_order RD St penv []) as [_ Hf]. by rewrite Hf.
Qed.

(** A remote search finds only files that somebody may execute. *)
Lemma path_lookup_executable RD St name dirs e :
  path_lookup RD St name dirs = Some e → Z.land (Mode e) o111 ≠ 0.
Proof.
  unfold path_lookup. intros (l1 & d & l2 & _ & Hd & _)%first_some_Some.
  destruct (String.eqb d ""); [done|]. destruct (RD d) as [names|]; [|done]. case_bool_decide; [|done].
  unfold enum_candidate in Hd. destruct (St (PathJoin d name)) as [st|]; [|done].
  unfold executable in Hd. destruct (fi_regular st); [|done]. cbn [andb] in Hd.
  destruct (Z.land (fi_perm st) o111 =? 0) eqn:E; [done|]. apply Z.eqb_neq in E. by injection Hd as <-.
Qed.

(** The bit for others of a stub is the bit of the file, as soon as anybody may read or
    execute the file. *)
Lemma stub_mode_others now n e :
  Z.land (Mode e) o555 ≠ 0 → Z.testbit (a_mode (applyEntryAttr now n e)) 0 = Z.testbit (Mode e) 0.
Proof.
  intros Hx. unfold applyEntryAttr. apply Z.eqb_neq in Hx.
  destruct (0 <? MTimeNanos e); cbn [a_mode]; rewrite Hx, Z.lor_spec, Z.land_spec; by rewrite andb_true_r.
Qed.

Lemma stub_runnable_spec c RD St penv now name :
  stub_runnable now (stub_fs c (EnumerateLocally RD St penv [])) name =
  match path_lookup RD St name (splitPath penv) with
  | Some e => negb (claimed c name) && Z.testbit (Mode e) 0
  | None => false
  end.
Proof.
  unfold stub_runnable. cbn [dirNode_handle]. rewrite stub_Lookup.
  destruct (path_lookup RD St name (splitPath penv)) as [e|] eqn:He; [|by destruct (claimed c name)].
  destruct (claimed c name); [done|]. cbn [negb andb]. apply stub_mode_others.
  apply path_lookup_executable in He. by apply (land_sub_nonzero _ o111).
Qed.
End stubs.

(** ** The search *)

Lemma search_segments_app run name l k :
  search_segments run name (l ++ k) =
  match search_segments run name l with Some p => Some p | None => search_segments run name k end.
Proof. unfold search_segments. induction l as [|d l IH]; [done|]. cbn. by destruct (run (seg_path d name)). Qed.

(** The stub directory as a segment of its own. *)
Lemma search_stub_segment now dir f others name :
  dir ≠ "" → contains_byte slash name = false →
  search_segments (container_runnable now dir f others) name [dir] =
  if stub_runnable now f name then Some (dir +:+ "/" +:+ name) else None.
Proof.
  intros Hd Hn. unfold search_segments, seg_path. apply seqb_false in Hd. cbn [first_some]. rewrite Hd.
  unfold container_runnable. rewrite (sapp_assoc dir).
  assert (CutPrefix ((dir +:+ "/") +:+ name) (dir +:+ "/") = Some name) as -> by by apply CutPrefix_spec.
  rewrite Hn. cbn [negb andb]. by destruct (stub_runnable now f name).
Qed.

Lemma getenv_PATH_first pre v post :
  Forall (λ e, path_value e = None) pre → getenv_PATH (pre ++ ("PATH=" +:+ v) :: post) = Some v.
Proof.
  intros Hp. unfold getenv_PATH. induction Hp as [|e pre He _ IH]; cbn [app first_some]; [|by rewrite He].
  unfold path_value. assert (CutPrefix ("PATH=" +:+ v) "PATH=" = Some v) as -> by by apply CutPrefix_spec. done.
Qed.

(** ** The environment of the forwarded command *)

Lemma strip_free dir l : stub_free dir l → l ≫= strip_entry dir = l.
Proof.
  induction 1 as [|e l He _ IH]; [done|]. cbn [mbind list_bind]. rewrite IH, strip_entry_id; [done|].
  intros v Hv. by apply He.
Qed.
Lemma stub_free_filter (P : string → Prop) `{!∀ x, Decision (P x)} dir l :
  stub_free dir l → stub_free dir (base.filter P l).
Proof. unfold stub_free. rewrite !Forall_forall. intros Hl x [_ Hx]%list_elem_of_filter. by apply Hl. Qed.

Section env.
Context `{Regexp}.

(** Neither the changed names nor the name of the entry depend on the value of PATH. *)
Lemma parseChanged_PATH pre v v' post :
  parseChangedEnvs (pre ++ ("PATH=" +:+ v) :: post) = parseChangedEnvs (pre ++ ("PATH=" +:+ v') :: post).
Proof. induction pre as [|e pre IH]; cbn; [done|]. destruct (CutPrefix e _); [done|exact IH]. Qed.

Lemma forwardedb_PATH env env' keep remove v v' :
  parseChangedEnvs env = parseChangedEnvs env' →
  forwardedb env keep remove ("PATH=" +:+ v) = forwardedb env' keep remove ("PATH=" +:+ v').
Proof.
  intros E. unfold forwardedb. rewrite E.
  assert (∀ x, envName ("PATH=" +:+ x) = "PATH") as Hn by done. by rewrite !Hn.
Qed.

(** The broker's filter takes the stub directory off the PATH of the container again: the
    command gets the environment it would have had without stubs. *)
Lemma broker_env_undoes c env extra position :
  let dir := PathStubDir (Container c) in
  dir ≠ "" → contains_byte ":"%char dir = false → stub_free dir env → Exists (λ e, is_Some (path_value e)) env →
  stub_free dir extra →
  broker_env_filter c true (injectPath env dir position ++ extra) =
  Filter (env ++ extra) (Agent_EnvKeep (Agent c)) (Agent_EnvRemove (Agent c)).
Proof.
  intros dir Hd Hc Hf Hx Hex. unfold broker_env_filter. fold dir. rewrite StripPathSegment_bind by done.
  unfold injectPath. set (pp := negb (String.eqb position "append")).
  destruct (inject_from_strip pp dir env Hc Hf Hx) as (pre & v & post & -> & Hv & _ & -> & _).
  unfold stub_free in Hf. rewrite Forall_app, Forall_cons in Hf. destruct Hf as (Hpre & Hpv & Hpost).
  rewrite <- !app_assoc. cbn [app]. set (rest := post ++ extra).
  assert (stub_free dir rest) as Hrest by by apply Forall_app.
  rewrite !Filter_filter, !filter_app. set (k := Agent_EnvKeep (Agent c)). set (r := Agent_EnvRemove (Agent c)).
  set (e1 := pre ++ ("PATH=" +:+ spliced pp dir v) :: rest). set (e2 := pre ++ ("PATH=" +:+ v) :: rest).
  assert (parseChangedEnvs e1 = parseChangedEnvs e2) as Hp by apply parseChanged_PATH.
  assert (∀ l : list string, base.filter (λ e, forwardedb e1 k r e = true) l = base.filter (λ e, forwardedb e2 k r e = true) l) as Heq.
  { intros l. apply list_filter_iff. intros e. unfold forwardedb. by rewrite Hp. }
  rewrite bind_app, !Heq, strip_free by by apply stub_free_filter. f_equal.
  rewrite !filter_cons, (forwardedb_PATH e2 e2 k r (spliced pp dir v) v) by done.
  case_decide; cbn [mbind list_bind]; rewrite !strip_free by by apply stub_free_filter.
  - rewrite strip_entry_spliced; [done|done|done|]. apply Hpv. unfold path_value. by apply CutPrefix_spec.
  - done.
Qed.
End env.

(** ** The theorems *)

Section end_to_end.
Context `{Regexp}.

(** What the remote's search and the local commands make of a name: the path of its stub. *)
Definition stub_path (c : Config.Config) (found : option PathInfoEntry) (name : string) : option string :=
  match found with
  | Some e =>
      if negb (claimed c name) && Z.testbit (Mode e) 0 then Some (PathStubDir (Container c) +:+ "/" +:+ name) else None
  | None => None
  end.

Lemma stub_search c RD St penv env now others name :
  let dir := PathStubDir (Container c) in
  let run := container_runnable now dir (stub_fs c (EnumerateLocally RD St penv [])) others in
  dir ≠ "" → contains_byte ":"%char dir = false → stub_free dir env → Exists (λ e, is_Some (path_value e)) env →
  contains_byte slash name = false →
  ∃ v v', getenv_PATH env = Some v ∧ getenv_PATH (injectPath env dir (PathProxy (Container c))) = Some v' ∧
    path_search run v' name =
      let stub := stub_path c (path_lookup RD St name (splitPath penv)) name in
      if String.eqb (PathProxy (Container c)) "append" then path_search run v name ∪ stub
      else stub ∪ path_search run v name.
Proof.
  intros dir run Hd Hc Hf Hx Hn. unfold injectPath. set (pp := negb _).
  destruct (inject_from_strip pp dir env Hc Hf Hx) as (pre & v & post & -> & Hv & Hpre & -> & _).
  exists v, (spliced pp dir v). split; [by apply getenv_PATH_first|]. split; [by apply getenv_PATH_first|].
  unfold path_search. rewrite spliced_segments by done.
  assert (search_segments run name [dir] = stub_path c (path_lookup RD St name (splitPath penv)) name) as Hs.
  { unfold run. rewrite search_stub_segment, stub_runnable_spec by done. unfold stub_path.
    by destruct (path_lookup RD St name (splitPath penv)). }
  unfold pp. destruct (String.eqb (PathProxy (Container c)) "append"); cbn [negb].
  - rewrite search_segments_app, Hs. by destruct (search_segments run name _), (stub_path c _ name).
  - pose proof (search_segments_app run name [dir] (Split ":"%char v)) as Ha. cbn [app] in Ha. rewrite Ha, Hs.
    destruct (stub_path c _ name); by destruct (search_segments run name (Split ":"%char v)).
Qed.

(** What a shell in the container finds for a bare name.  With the stubs in front it finds
    the stub whenever a shell on the remote machine would find the command, no local
    command claims the name and others may execute the file, and goes on with the user's
    own PATH otherwise; with "append" the user's own PATH comes first. *)
Theorem container_search c RD St penv env now others name :
  let dir := PathStubDir (Container c) in
  let run := container_runnable now dir (stub_fs c (EnumerateLocally RD St penv [])) others in
  dir ≠ "" → contains_byte ":"%char dir = false → stub_free dir env → Exists (λ e, is_Some (path_value e)) env →
  contains_byte slash name = false →
  ∃ v v', getenv_PATH env = Some v ∧ getenv_PATH (injectPath env dir (PathProxy (Container c))) = Some v' ∧
    path_search run v' name =
      let stub := stub_path c (path_lookup RD St name (splitPath penv)) name in
      if String.eqb (PathProxy (Container c)) "append" then path_search run v name ∪ stub
      else stub ∪ path_search run v name.
Proof. apply stub_search. Qed.

(** A stub is never executed locally: the tracer forwards every exec of one. *)
Lemma stub_not_allowed c cfg name :
  CfgWhitelist cfg = LocalCommands (Container c) → Tracer.ShimPath cfg ≠ PathStubDir (Container c) +:+ "/" +:+ name →
  claimed c name = false → shouldAllow cfg (PathStubDir (Container c) +:+ "/" +:+ name) = false.
Proof.
  intros Hw Hs Hc. unfold shouldAllow. set (p := PathStubDir (Container c) +:+ "/" +:+ name) in *.
  assert (p ≠ "") as Hp%seqb_false by (unfold p; by destruct (PathStubDir (Container c))).
  assert (String.eqb p (Tracer.ShimPath cfg) = false) as -> by (apply seqb_false; congruence).
  rewrite Hp, Hw. exact Hc.
Qed.

Lemma stub_mapped c l f name e :
  Lookup f name = Some e →
  ∃ m, d_PathMapper (broker_deps c l (Entries f)) = Some m ∧
    m (PathStubDir (Container c) +:+ "/" +:+ name) = RemotePath e.
Proof.
  intros Hl. cbn [broker_deps d_PathMapper]. unfold broker_path_mapper. set (ms := mi_mount <$> l).
  destruct (buildPathMapper ms (PathStubDir (Container c)) (Entries f)) as [m|] eqn:Hm.
  - exists m. split; [done|]. by eapply buildPathMapper_stub.
  - apply buildPathMapper_None in Hm as [Hm _]. unfold Lookup, Entries in *. rewrite Hm in Hl.
    by rewrite lookup_empty in Hl.
Qed.

(** C8: a command that exists on the remote machine runs there when its name is typed in the
    container.  The agent lists its PATH; the stubs of the run are mounted and put on the
    container's PATH; for every name that the remote's own search resolves to a file [e]
    others may execute, and that no local command claims, a shell in the container finds
    the stub, the tracer does not let it run locally, and what the agent builds for the
    forwarded exec is the program [e] with the arguments of the call, in the environment
    the command would have had without stubs, filtered on both ends. *)
Theorem stub_command_end_to_end {W} build_Error os os_readdir Error (w : W) h wc r out c l cfg env extra now others name e :
  let dir := PathStubDir (Container c) in
  agent_started r →
  agent_sends (AgentMain.run build_Error os os_readdir Error h wc w true
    (option_list (config_frame <$> ar_AgentConfig r) ++ [query_frame []])) out →
  dir ≠ "" → contains_byte ":"%char dir = false → stub_free dir env → Exists (λ e, is_Some (path_value e)) env →
  stub_free dir extra → contains_byte slash name = false → PathProxy (Container c) ≠ "append" →
  CfgWhitelist cfg = LocalCommands (Container c) → Tracer.ShimPath cfg ≠ dir +:+ "/" +:+ name →
  path_lookup (h_ReadDir h) (h_Stat h) name (splitPath (h_PATH h)) = Some e →
  claimed c name = false → Z.testbit (Mode e) 0 = true →
  ∃ found v,
    (EnumeratePaths r [] true true out).2 = Ok found ∧
    getenv_PATH (injectPath env dir (PathProxy (Container c))) = Some v ∧
    path_search (container_runnable now dir (stub_fs c found) others) v name = Some (dir +:+ "/" +:+ name) ∧
    shouldAllow cfg (dir +:+ "/" +:+ name) = false ∧
    ∀ argv cwd fds acfg LookPath u g led cmd p led',
      Build LookPath u g (spec_of acfg (exec_msg (prepare_request (broker_deps c l (Entries (stub_fs c found)))
        (shim_request (new_argv cfg (dir +:+ "/" +:+ name) argv)
           (injectPath env dir (PathProxy (Container c)) ++ extra) (Some cwd) fds)))) led = (BuildOk cmd p, led') →
      let env1 := Filter (env ++ extra) (Agent_EnvKeep (Agent c)) (Agent_EnvRemove (Agent c)) in
      cmd_Args cmd = RemotePath e :: drop 1 argv ∧
      cmd_Env cmd = match acfg with Some a => Filter env1 (ac_EnvKeep a) (ac_EnvRemove a) | None => env1 end.
Proof.
  intros dir Hst Hs Hd Hc Hf Hx Hex Hn Hpp Hw Hshim He Hcl Hbit.
  set (found := EnumerateLocally (h_ReadDir h) (h_Stat h) (h_PATH h) []).
  destruct (stub_search c (h_ReadDir h) (h_Stat h) (h_PATH h) env now others name Hd Hc Hf Hx Hn)
    as (v0 & v & _ & Hv & Hsearch). fold found dir in Hsearch.
  exists found, v. split; [by eapply enumerate_end_to_end|]. split; [done|]. split.
  { rewrite Hsearch. apply seqb_false in Hpp. rewrite Hpp, He. cbn [stub_path]. rewrite Hcl, Hbit. cbn [negb andb].
    by destruct (path_search _ v0 name). }
  split; [by apply stub_not_allowed|].
  assert (Lookup (stub_fs c found) name = Some e) as Hl by (unfold found; by rewrite stub_Lookup, Hcl, He).
  destruct (stub_mapped c l _ name e Hl) as (m & Hm & Hmn).
  intros argv cwd fds acfg LookPath u g led cmd p led' Hb.
  destruct (intercepted_build _ _ _ _ _ _ _ _ _ _ _ _ _ _ _ Hb) as (Ha & _ & _ & Henv & _).
  rewrite Hm in Ha. split; [rewrite Ha; cbn [default from_option id]; unfold dir; by rewrite Hmn|]. rewrite Henv.
  cbn [broker_deps d_EnvFilter].
  assert (bool_decide (Entries (stub_fs c found) = ∅) = false) as ->.
  { apply bool_decide_eq_false. intros E. unfold Lookup, Entries in *. rewrite E in Hl. by rewrite lookup_empty in Hl. }
  cbn [negb]. unfold dir. by rewrite broker_env_undoes.
Qed.
End end_to_end.

(** ** Witnesses *)

Module Demo.
#[local] Existing Instance literal_engine.

(** A remote machine with a compiler for everybody and a tool for its owner. *)
Definition readdir (d : string) : option (list string) :=
  if String.eqb d "/usr/bin" then Some ["gcc"; "make"; "secret"] else None.
Definition stat (p : string) : option PathStub.FileInfo :=
  if String.eqb p "/usr/bin/secret" then Some (PathStub.mkFileInfo true 488 10 0) else Some (PathStub.mkFileInfo true 493 10 0).
Definition rh : host :=
  AgentMain.mkHost (λ _, None) "" "" (mkLedger 10 ∅ 100 []) (λ _, Err "no such file") readdir stat "/sbin:/usr/bin".
Definition found : list PathInfoEntry := EnumerateLocally readdir stat "/sbin:/usr/bin" [].
Definition gcc : PathInfoEntry := mkInfo "gcc" "/usr/bin/gcc" 493 10 0.

Definition kc : ContainerConfig :=
  mkContainer ["/stubs/make"] [] false "" "inherit" "remote" [] "prepend" "/stubs" None "" "" [] [].
Definition cfg : Config.Config :=
  Config.mkConfig (Logging Runtime.Demo.cfg0) (Remote Runtime.Demo.cfg0) kc (mkAgent ["*"] []) (Components Runtime.Demo.cfg0).
Definition tcfg : Tracer.Config := Tracer.mkConfig "/opt/shim" ["/stubs/make"] "" "".
Definition env0 : list string := ["HOME=/h"; "PATH=/bin:/usr/bin"].
Definition extra0 : list string := ["MPROXY_SHIM_PATH=/opt/shim"].
Definition out0 : list Frame := [info_frame found].
Definition others0 (p : string) : bool := String.eqb p "/bin/make" || String.eqb p "/bin/gcc".

Lemma env0_free : stub_free "/stubs" env0 ∧ Exists (λ e, is_Some (path_value e)) env0 ∧ stub_free "/stubs" extra0.
Proof.
  unfold stub_free. split_and!.
  - apply Forall_forall. intros e He v Hv. unfold env0 in He.
    apply elem_of_cons in He as [->|He%list_elem_of_singleton]; [done|subst]. vm_compute in Hv. injection Hv as <-.
    split; [done|]. apply (bool_decide_unpack _). by vm_compute.
  - right. left. by eexists.
  - apply Forall_singleton. intros v Hv. by vm_compute in Hv.
Qed.

Lemma found_sent :
  agent_sends (AgentMain.run (λ _, "build error") demo_os demo_readdir (λ _, "error") rh ChildFirst ([] : list FileClient.req) true
    (option_list (config_frame <$> ar_AgentConfig RemoteExec.Demo.runner) ++ [query_frame []])) out0.
Proof.
  exists [], [], []. split_and!; [by repeat constructor|done| |by vm_compute]. apply merges_nil. by repeat constructor.
Qed.

Lemma container_search_witness :
  ∃ v, getenv_PATH (injectPath env0 "/stubs" "prepend") = Some v ∧
    path_search (container_runnable 0 "/stubs" (stub_fs cfg found) others0) v "gcc" = Some "/stubs/gcc".
Proof.
  destruct env0_free as (H1 & H2 & _).
  destruct (container_search cfg readdir stat "/sbin:/usr/bin" env0 0 others0 "gcc") as (v & v' & _ & Hv & Hs);
    [done|reflexivity|exact H1|exact H2|reflexivity|].
  exists v'. split; [exact Hv|]. etransitivity; [exact Hs|].
  assert (stub_path cfg (path_lookup readdir stat "gcc" (splitPath "/sbin:/usr/bin")) "gcc" = Some "/stubs/gcc") as ->
    by (vm_compute; reflexivity).
  change (String.eqb (PathProxy (Container cfg)) "append") with false. cbv iota zeta. by destruct (path_search _ v "gcc").
Defined.

(** What the agent builds for [gcc -c] typed in the container. *)
Definition built : ChildProc.build_result * ledger :=
  Build (λ _, None) "" "" (spec_of None (exec_msg (prepare_request (broker_deps cfg [] (Entries (stub_fs cfg found)))
    (shim_request (new_argv tcfg "/stubs/gcc" ["gcc"; "-c"]) (injectPath env0 "/stubs" "prepend" ++ extra0) (Some "/w") []))))
    ChildProc.Demo.l0.

Lemma stub_command_end_to_end_witness :
  shouldAllow tcfg "/stubs/gcc" = false ∧
  match built.1 with
  | BuildOk cmd _ => cmd_Args cmd = ["/usr/bin/gcc"; "-c"] ∧ cmd_Env cmd = env0 ++ extra0
  | _ => False
  end.
Proof.
  destruct env0_free as (H1 & H2 & H3).
  destruct (stub_command_end_to_end (λ _, "build error") demo_os demo_readdir (λ _, "error") ([] : list FileClient.req) rh
    ChildFirst RemoteExec.Demo.runner out0 cfg [] tcfg env0 extra0 0 others0 "gcc" gcc)
    as (fd & v & Hfd & _ & _ & Ha & Hb).
  - exists RemoteExec.Demo.sess, "/home/u/agent". repeat split.
  - exact found_sent.
  - done.
  - reflexivity.
  - exact H1.
  - exact H2.
  - exact H3.
  - reflexivity.
  - done.
  - reflexivity.
  - done.
  - vm_compute. reflexivity.
  - vm_compute. reflexivity.
  - reflexivity.
  - split; [exact Ha|]. assert (fd = found) as -> by (vm_compute in Hfd; injection Hfd as <-; vm_compute; reflexivity).
    unfold built. destruct (Build _ _ _ _ _) as [[cmd p| |] led'] eqn:E; [|by vm_compute in E..].
    destruct (Hb _ _ _ _ _ _ _ _ _ _ _ E) as [H4 H5]. split; [exact H4|]. rewrite H5. vm_compute. reflexivity.
Defined.

(** A local command claims its name: the user's own program is found. *)
Example local_command_wins :
  path_search (container_runnable 0 "/stubs" (stub_fs cfg found) others0) "/stubs:/bin" "make" = Some "/bin/make".
Proof. vm_compute. reflexivity. Qed.

(** A file only its owner and group may execute is on the remote's PATH and has a stub, but
    a search in the container passes over it. *)
Example owner_only_stub_hidden :
  path_lookup readdir stat "secret" ["/sbin"; "/usr/bin"] = Some (mkInfo "secret" "/usr/bin/secret" 488 10 0) ∧
  is_Some (Lookup (stub_fs cfg found) "secret") ∧
  path_search (container_runnable 0 "/stubs" (stub_fs cfg found) others0) "/stubs:/bin" "secret" = None.
Proof. vm_compute. split_and!; [done|by eexists|done]. Qed.
End Demo.
