(* ===== verification/Layout.v ===== *)
(** * Layout: the frames as CBOR maps

    Models the struct tags of [pkg/agentproto/frame.go], of [pkg/broker/protocol.go] and of
    the request in [pkg/remoteexec/runner.go], and the encoder options of the two [init]
    functions.  A Go type is described by what the CBOR library does with its values
    ([gotype]); a struct is the list of its tags ([fields]), from which both directions of
    the codec follow.  The tags of a struct are distinct, no value is lost by [omitempty]
    and no field is read at a type it was not written at, so every frame comes back as it
    was sent; but the decoder, with its default options, refuses text that is no UTF-8,
    which the encoder writes.

    The library itself turns data items into bytes and back; it is an interface
    ([Wire.Codec]) with the laws of [Wire.CodecLaws].  A nil slice and an empty one are one
    value here, as everywhere in this development. *)

From stdpp Require Import sorting.
From S2P Require Import Prelude GoStrings FileClient PathStub Mux RemoteExec Broker Recording Wire.
Local Open Scope Z_scope.

(** ** Data items *)

(** No induction over items is needed. *)
#[local] Unset Elimination Schemes.
Inductive item : Type :=
  | INull
  | IBool (b : bool)
  | IInt (z : Z)
  | IBytes (s : string)
  | IText (s : string)
  | IArr (l : list item)
  | IMap (m : list (string * item)).
#[local] Set Elimination Schemes.

(** ** Text *)

(** UTF-8 as RFC 3629 defines it: no overlong forms, no surrogates, nothing above U+10FFFF. *)
Definition byte_in (lo hi : nat) (c : ascii) : bool := (lo <=? nat_of_ascii c)%nat && (nat_of_ascii c <=? hi)%nat.
Definition cont : ascii → bool := byte_in 128 191.
Fixpoint valid_utf8 (s : string) : bool :=
  match s with
  | EmptyString => true
  | String a s1 =>
      if byte_in 0 127 a then valid_utf8 s1
      else
        match s1 with
        | EmptyString => false
        | String b s2 =>
            if byte_in 194 223 a then cont b && valid_utf8 s2
            else
              match s2 with
              | EmptyString => false
              | String c s3 =>
                  if byte_in 224 239 a then
                    byte_in (if byte_in 224 224 a then 160 else 128) (if byte_in 237 237 a then 159 else 191) b
                    && cont c && valid_utf8 s3
                  else
                    match s3 with
                    | EmptyString => false
                    | String d s4 =>
                        byte_in 240 244 a
                        && byte_in (if byte_in 240 240 a then 144 else 128) (if byte_in 244 244 a then 143 else 191) b
                        && cont c && cont d && valid_utf8 s4
                    end
              end
        end
  end.

(** ** Go types *)

(** What the library does with the values of a type: how one is written and read, the zero
    value (none where the model has no name for it), which values [omitempty] drops, and
    which the Go type has. *)
Record gotype (A : Type) := mkType {
  t_enc : A → item; t_dec : item → option A; t_zero : option A; t_empty : A → bool; t_range : A → bool;
}.
Arguments mkType {A}.
Arguments t_enc {A}.
Arguments t_dec {A}.
Arguments t_zero {A}.
Arguments t_empty {A}.
Arguments t_range {A}.

(** A value the type has is read back; one it does not have, or whose text is no UTF-8, is
    refused. *)
Class Lawful {A} (t : gotype A) : Prop := {
  lw_decode x : t_dec t (t_enc t x) = if t_range t x then Some x else None;
  lw_empty x : t_empty t x = true → t_zero t = Some x ∧ t_range t x = true;
}.

Definition tInteger (lo hi : Z) : gotype Z :=
  mkType IInt (λ i, match i with IInt z => if (lo <=? z) && (z <=? hi) then Some z else None | _ => None end)
    (Some 0) (Z.eqb 0) (λ z, (lo <=? z) && (z <=? hi)).
Definition tUint (w : Z) : gotype Z := tInteger 0 (2 ^ w - 1).
Definition tInt (w : Z) : gotype Z := tInteger (- 2 ^ (w - 1)) (2 ^ (w - 1) - 1).
Definition tBool : gotype bool :=
  mkType IBool (λ i, match i with IBool b => Some b | _ => None end) (Some false) negb (λ _, true).
(** The encoder writes any string; the decoder's default options refuse text that is no
    UTF-8. *)
Definition tText : gotype string :=
  mkType IText (λ i, match i with IText s => if valid_utf8 s then Some s else None | _ => None end)
    (Some "") (String.eqb "") valid_utf8.
Definition tBytes : gotype string :=
  mkType IBytes (λ i, match i with IBytes s => Some s | INull => Some "" | _ => None end) (Some "") (String.eqb "") (λ _, true).

(** A nil slice is written as null and read from null. *)
Definition tSlice {A} (t : gotype A) : gotype (list A) :=
  mkType (λ l, match l with [] => INull | _ => IArr (t_enc t <$> l) end)
    (λ i, match i with INull => Some [] | IArr l => mapM (t_dec t) l | _ => None end)
    (Some []) (λ l, match l with [] => true | _ => false end) (forallb (t_range t)).
Definition tPtr {A} (t : gotype A) : gotype (option A) :=
  mkType (λ o, match o with None => INull | Some x => t_enc t x end)
    (λ i, match i with INull => Some None | _ => Some <$> t_dec t i end)
    (Some None) (λ o, match o with None => true | Some _ => false end)
    (λ o, match o with None => true | Some x => t_range t x end).

(** ** Structs *)

(** The fields of a struct [A] with their tags: key, [omitempty], type, selector; [C] is
    the type of the constructor's arguments still to come. *)
Inductive fields (A : Type) : Type → Type :=
  | fnil : fields A A
  | fcons {B C} (key : string) (omit : bool) (t : gotype B) (get : A → B) (rest : fields A C) : fields A (B → C).
Arguments fnil {A}.
Arguments fcons {A B C}.

(** What one field contributes to the map. *)
Definition emit {A B} (omit : bool) (t : gotype B) (get : A → B) (x : A) : option item :=
  if omit && t_empty t (get x) then None else Some (t_enc t (get x)).

Fixpoint emits {A C} (fs : fields A C) (x : A) : list (string * item) :=
  match fs with
  | fnil => []
  | fcons key omit t get rest => match emit omit t get x with Some i => [(key, i)] | None => [] end ++ emits rest x
  end.

(** [CanonicalEncOptions]: shorter keys first, then bytewise. *)
Definition canon (a b : string * item) : Prop :=
  (slen a.1 < slen b.1)%nat ∨ (slen a.1 = slen b.1 ∧ String.le a.1 b.1).
#[global] Instance canon_dec a b : Decision (canon a b).
Proof. unfold canon. apply _. Defined.

Definition assoc (key : string) (m : list (string * item)) : option item :=
  first_some (λ kv, if String.eqb kv.1 key then Some kv.2 else None) m.

(** Reading: a missing key leaves the zero value, unknown keys are skipped. *)
Definition fetch {B} (key : string) (t : gotype B) (m : list (string * item)) : option B :=
  match assoc key m with None => t_zero t | Some i => t_dec t i end.

Fixpoint read_fields {A C} (fs : fields A C) (m : list (string * item)) : C → option A :=
  match fs with
  | fnil => λ x, Some x
  | fcons key _ t _ rest => λ mk, b ← fetch key t m; read_fields rest m (mk b)
  end.

Fixpoint keys {A C} (fs : fields A C) : list string :=
  match fs with fnil => [] | fcons key _ _ _ rest => key :: keys rest end.
Fixpoint fields_range {A C} (fs : fields A C) (x : A) : bool :=
  match fs with fnil => true | fcons _ _ t get rest => t_range t (get x) && fields_range rest x end.
Fixpoint rebuild {A C} (fs : fields A C) (x : A) : C → A :=
  match fs with fnil => λ y, y | fcons _ _ _ get rest => λ mk, rebuild rest x (mk (get x)) end.

(** [omitempty] never drops a struct that is not behind a pointer; the zero struct is what
    is read from an empty map. *)
Definition tStruct {A C} (fs : fields A C) (mk : C) : gotype A :=
  mkType (λ x, IMap (merge_sort canon (emits fs x)))
    (λ i, match i with IMap m => if forallb (λ kv, valid_utf8 kv.1) m then read_fields fs m mk else None | _ => None end)
    (read_fields fs [] mk) (λ _, false)
    (fields_range fs).

(** *** Laws *)

(** [0] is in the range of every integer type. *)
Lemma tInteger_lawful lo hi : (lo <=? 0) && (0 <=? hi) = true → Lawful (tInteger lo hi).
Proof.
  intros H0. split; intros x; [done|]. intros Hx. change ((0 =? x) = true) in Hx. by apply Z.eqb_eq in Hx as <-.
Qed.
Lemma tUint_lawful w : 0 ≤ w → Lawful (tUint w).
Proof. intros Hw. apply tInteger_lawful. pose proof (Z.pow_pos_nonneg 2 w). lia. Qed.
Lemma tInt_lawful w : 0 < w → Lawful (tInt w).
Proof. intros Hw. apply tInteger_lawful. pose proof (Z.pow_pos_nonneg 2 (w - 1)). lia. Qed.
#[global] Hint Extern 1 (Lawful (tUint _)) => apply tUint_lawful; lia : typeclass_instances.
#[global] Hint Extern 1 (Lawful (tInt _)) => apply tInt_lawful; lia : typeclass_instances.
#[global] Instance tBool_lawful : Lawful tBool.
Proof. split; [done|by intros []]. Qed.
#[global] Instance tText_lawful : Lawful tText.
Proof. split; [done|]. intros x Hx. by apply seqb_true in Hx as <-. Qed.
#[global] Instance tBytes_lawful : Lawful tBytes.
Proof. split; [done|]. intros x Hx. by apply seqb_true in Hx as <-. Qed.
Lemma mapM_decode {A} (t : gotype A) `{!Lawful t} l :
  mapM (t_dec t) (t_enc t <$> l) = if forallb (t_range t) l then Some l else None.
Proof.
  induction l as [|x l IH]; [done|]. rewrite fmap_cons. cbn [mapM forallb]. rewrite lw_decode, IH.
  by destruct (t_range t x), (forallb (t_range t) l).
Qed.
#[global] Instance tSlice_lawful {A} (t : gotype A) `{!Lawful t} : Lawful (tSlice t).
Proof. split; [|by intros []]. intros [|x l]; [done|]. exact (mapM_decode t (x :: l)). Qed.
#[global] Instance tPtr_lawful {A} (t : gotype A) `{!Lawful t} : (∀ x, t_enc t x ≠ INull) → Lawful (tPtr t).
Proof.
  intros Hn. split; [|by intros []]. intros [x|]; [|done]. cbn. pose proof (Hn x) as Hx0.
  pose proof (lw_decode x) as Hd. destruct (t_enc t x); try done; rewrite Hd; by destruct (t_range t x).
Qed.

Class LawfulFields {A C} (fs : fields A C) : Prop := lawful_fields : 
  (fix go {C} (fs : fields A C) : Prop :=
     match fs with fnil => True | fcons _ _ t _ rest => Lawful t ∧ go rest end) C fs.
#[global] Instance fnil_lawful {A} : LawfulFields (@fnil A).
Proof. done. Qed.
#[global] Instance fcons_lawful {A B C} key omit (t : gotype B) (get : A → B) (rest : fields A C) :
  Lawful t → LawfulFields rest → LawfulFields (fcons key omit t get rest).
Proof. by split. Qed.

Lemma assoc_elem key i m : NoDup m.*1 → (key, i) ∈ m → assoc key m = Some i.
Proof.
  unfold assoc. induction m as [|[k j] m IH]; [by intros _ ?%elem_of_nil|]. cbn. rewrite NoDup_cons, elem_of_cons.
  intros [Hk Hn] [[= <- <-]|Hi]; [by rewrite seqb_refl|].
  destruct (String.eqb k key) eqn:E; [|by apply IH]. apply seqb_true in E as ->.
  destruct Hk. apply list_elem_of_fmap. by exists (key, i).
Qed.
Lemma assoc_none key m : key ∉ m.*1 → assoc key m = None.
Proof.
  intros Hk. apply first_some_None, Forall_forall. intros [k i] Hi. cbn. rewrite (proj2 (seqb_false _ _)); [done|].
  intros ->. apply Hk, list_elem_of_fmap. by exists (key, i).
Qed.

Lemma emits_keys {A C} (fs : fields A C) x : (emits fs x).*1 `sublist_of` keys fs.
Proof.
  induction fs as [|B C key omit t get rest IH]; cbn; [done|]. rewrite fmap_app.
  destruct (emit omit t get x); cbn; [by apply sublist_skip|by apply sublist_cons].
Qed.

(** What a map says about the fields of [x]. *)
Fixpoint agrees {A C} (fs : fields A C) (x : A) (m : list (string * item)) : Prop :=
  match fs with
  | fnil => True
  | fcons key omit t get rest => assoc key m = emit omit t get x ∧ agrees rest x m
  end.

Lemma agrees_sub {A C} (fs : fields A C) x m :
  NoDup m.*1 → (∀ kv, kv ∈ emits fs x → kv ∈ m) → (∀ k, k ∈ keys fs → k ∉ (emits fs x).*1 → k ∉ m.*1) →
  NoDup (keys fs) → agrees fs x m.
Proof.
  intros Hm. induction fs as [|B C key omit t get rest IH]; cbn; [done|].
  intros Hin Hout [Hk Hn]%NoDup_cons.
  assert (key ∉ (emits rest x).*1) as Hkr by (intros ?; eapply Hk, elem_of_sublist; [done|apply emits_keys]).
  destruct (emit omit t get x) as [i|] eqn:E.
  - split; [apply assoc_elem; [done|apply Hin; left]|]. apply IH; [set_solver|intros k Hkk Hnk|done].
    apply Hout; [by right|]. cbn. rewrite not_elem_of_cons. split; [by intros ->|done].
  - cbn in *. split; [apply assoc_none, Hout; [by left|done]|]. apply IH; [done|intros k Hkk Hnk|done].
    apply Hout; [by right|done].
Qed.
Lemma agrees_struct {A C} (fs : fields A C) x :
  NoDup (keys fs) → agrees fs x (merge_sort canon (emits fs x)).
Proof.
  intros Hn. set (m := merge_sort _ _). assert (m ≡ₚ emits fs x) as Hp by apply merge_sort_Permutation.
  apply agrees_sub; [|by intros kv Hk; rewrite Hp|by intros k _ Hk; rewrite Hp|done].
  rewrite Hp. eapply sublist_NoDup; [done|apply emits_keys].
Qed.

Lemma read_agrees {A C} (fs : fields A C) x m mk :
  LawfulFields fs → agrees fs x m →
  read_fields fs m mk = if fields_range fs x then Some (rebuild fs x mk) else None.
Proof.
  induction fs as [|B C key omit t get rest IH]; cbn; [done|].
  intros [Ht Hr] [Ha Hag]. unfold fetch. rewrite Ha. unfold emit.
  assert (match (if omit && t_empty t (get x) then None else Some (t_enc t (get x))) with
          | Some i => t_dec t i | None => t_zero t end = if t_range t (get x) then Some (get x) else None) as ->.
  { destruct (omit && t_empty t (get x)) eqn:E; [|by rewrite lw_decode].
    apply andb_true_iff in E as [_ E]. by destruct (lw_empty _ E) as [-> ->]. }
  destruct (t_range t (get x)); cbn; [by apply IH|done].
Qed.

(** A struct with distinct keys, whose constructor takes the fields in the order of the
    selectors, is read back as it was written. *)
Definition keys_ok (l : list string) : bool := bool_decide (NoDup l) && forallb valid_utf8 l.

Lemma struct_keys_utf8 {A C} (fs : fields A C) x m :
  forallb valid_utf8 (keys fs) = true → m ≡ₚ emits fs x → forallb (λ kv, valid_utf8 kv.1) m = true.
Proof.
  rewrite !forallb_forall. intros Hk Hm kv Hin. apply Hk, list_elem_of_In. eapply elem_of_sublist; [|apply (emits_keys fs x)].
  apply list_elem_of_fmap. exists kv. rewrite <- Hm. by apply list_elem_of_In in Hin.
Qed.

Lemma tStruct_lawful {A C} (fs : fields A C) mk :
  LawfulFields fs → keys_ok (keys fs) = true → (∀ x, rebuild fs x mk = x) → Lawful (tStruct fs mk).
Proof.
  intros Hl [Hn%bool_decide_eq_true Hu]%andb_true_iff Hr. split; [|done]. intros x. cbn [t_dec t_enc tStruct].
  rewrite (struct_keys_utf8 fs x) by (done || apply merge_sort_Permutation).
  rewrite (read_agrees fs x); [by rewrite Hr|done|by apply agrees_struct].
Qed.

(** A lawful struct type: the keys are compared by computation. *)
Ltac struct_law := apply tStruct_lawful; [apply _|vm_compute; reflexivity|by intros []].

(** ** frame.go *)

Definition tLogEntry : gotype LogEntry :=
  tStruct (fcons "lvl" false (tInt 64) lg_Level $ fcons "msg" false tText lg_Msg $
           fcons "a" true (tSlice tText) lg_Attrs fnil)
    mkLog.
Definition tAgentConfig : gotype AgentConfig :=
  tStruct (fcons "env_keep" false (tSlice tText) ac_EnvKeep $ fcons "env_remove" false (tSlice tText) ac_EnvRemove fnil)
    mkAgentConfig.
Definition tExecMsg : gotype ExecMsg :=
  tStruct (fcons "path" false tText ex_Path $ fcons "argv" false (tSlice tText) ex_Argv $
           fcons "env" false (tSlice tText) ex_Env $ fcons "cwd" false tText ex_Cwd $
           fcons "fds" true (tSlice (tUint 32)) ex_ExtraFDs fnil)
    mkExec.
Definition tPathQuery : gotype PathQuery :=
  tStruct (fcons "paths" true (tSlice tText) Paths fnil) mkQuery.
Definition tPathInfoEntry : gotype PathInfoEntry :=
  tStruct (fcons "name" false tText Name $ fcons "path" false tText RemotePath $ fcons "mode" false (tUint 32) Mode $
           fcons "size" false (tInt 64) Size $ fcons "mtime" true (tInt 64) MTimeNanos fnil)
    mkInfo.
Definition tPathInfo : gotype PathInfo :=
  tStruct (fcons "entries" false (tSlice tPathInfoEntry) pi_Entries fnil) mkPathInfo.

Definition tFileStat : gotype FileStat :=
  tStruct (fcons "n" false tText fs_Name $ fcons "s" false (tInt 64) fs_Size $ fcons "m" false (tUint 32) fs_Mode $
           fcons "t" true (tInt 64) fs_MTimeNanos $ fcons "at" true (tInt 64) fs_ATimeNanos $
           fcons "ct" true (tInt 64) fs_CTimeNanos $ fcons "uid" true (tUint 32) fs_UID $
           fcons "gid" true (tUint 32) fs_GID $ fcons "nl" true (tUint 32) fs_Nlink $
           fcons "rd" true (tUint 32) fs_Rdev $ fcons "bl" true (tUint 64) fs_Blocks $
           fcons "bs" true (tUint 32) fs_Blksize $ fcons "ino" true (tUint 64) fs_Ino $
           fcons "d" true tBool fs_IsDir fnil)
    mkFileStat.
Definition tFileStatfs : gotype Statfs :=
  tStruct (fcons "b" true (tUint 64) sfs_Blocks $ fcons "bf" true (tUint 64) sfs_Bfree $
           fcons "ba" true (tUint 64) sfs_Bavail $ fcons "f" true (tUint 64) sfs_Files $
           fcons "ff" true (tUint 64) sfs_Ffree $ fcons "bs" true (tUint 32) sfs_Bsize $
           fcons "fr" true (tUint 32) sfs_Frsize $ fcons "nl" true (tUint 32) sfs_NameLen fnil)
    mkStatfs.
(** A directory entry is its only field. *)
Definition tFileDirEntry : gotype FileStat :=
  tStruct (fcons "st" false tFileStat id fnil) id.

Definition tFileOpReq : gotype FileOpReq :=
  tStruct (fcons "id" false (tUint 32) ReqID $ fcons "op" false (tUint 8) Op $ fcons "p" true tText rq_Path $
           fcons "np" true tText rq_NewPath $ fcons "fl" true (tInt 32) rq_Flags $ fcons "mo" true (tUint 32) rq_Mode $
           fcons "uid" true (tUint 32) rq_UID $ fcons "gid" true (tUint 32) rq_GID $
           fcons "h" true (tUint 32) rq_Handle $ fcons "of" true (tInt 64) rq_Offset $
           fcons "sz" true (tInt 64) rq_Size $ fcons "at" true (tInt 64) rq_AtimeNanos $
           fcons "mt" true (tInt 64) rq_MTimeNanos $ fcons "d" true tBytes rq_Data fnil)
    mkReq.
Definition tFileOpResp : gotype FileOpResp :=
  tStruct (fcons "id" false (tUint 32) rs_ReqID $ fcons "er" true (tUint 32) rs_Errno $
           fcons "em" true tText rs_ErrMsg $ fcons "h" true (tUint 32) rs_Handle $ fcons "d" true tBytes rs_Data $
           fcons "n" true (tInt 64) rs_N $ fcons "eof" true tBool rs_EOF $ fcons "p" true tText rs_Path $
           fcons "st" true (tPtr tFileStat) rs_Stat $ fcons "sf" true (tPtr tFileStatfs) rs_Statfs $
           fcons "en" true (tSlice tFileDirEntry) rs_Entries fnil)
    mkResp.

Definition Frame_fields : fields Frame _ :=
  fcons "t" false (tUint 8) Type_ $ fcons "s" true (tUint 32) Stream $ fcons "d" true tBytes Data $
  fcons "sig" true (tInt 64) Signal $ fcons "c" true (tInt 64) Code $ fcons "e" true tText ErrorStr $
  fcons "x" true (tPtr tExecMsg) Exec $ fcons "l" true (tPtr tLogEntry) Log $
  fcons "cfg" true (tPtr tAgentConfig) FConfig $ fcons "q" true (tPtr tPathQuery) Query $
  fcons "i" true (tPtr tPathInfo) Info $ fcons "fop" true (tPtr tFileOpReq) FileOp_ $
  fcons "frp" true (tPtr tFileOpResp) FileResp fnil.
Definition tFrame : gotype Frame := tStruct Frame_fields mkFrame.

(** ** The broker's protocol *)

Definition tBFrame : gotype BFrame :=
  tStruct (fcons "stream" false tText b_Stream $ fcons "data" true tBytes b_Data $ fcons "code" true (tInt 64) b_Code $
           fcons "error" true tText b_Error $ fcons "signal" true (tInt 64) b_Signal fnil)
    mkBFrame.
Definition tRequest : gotype Request :=
  tStruct (fcons "path" false tText Path $ fcons "argv" false (tSlice tText) Argv $ fcons "env" false (tSlice tText) Env $
           fcons "cwd" false tText Cwd $ fcons "extra_fds" true (tSlice (tUint 32)) ExtraFDs fnil)
    mkRequest.

(** ** recording.go *)

(** The other values of the Go type are no directions. *)
Definition tDirection : gotype Direction :=
  mkType (λ d, IInt (match d with DirSend => 1 | DirRecv => 2 end))
    (λ i, match i with IInt 1 => Some DirSend | IInt 2 => Some DirRecv | _ => None end) None (λ _, false) (λ _, true).
Definition tSessionHeader : gotype SessionHeader :=
  tStruct (fcons "version" false tText hd_Version $ fcons "start_time" false (tInt 64) hd_StartTime $
           fcons "local_user" false tText hd_LocalUser $ fcons "local_pid" false (tInt 64) hd_LocalPID $
           fcons "backend_type" true tText hd_BackendType $ fcons "backend_addr" true tText hd_BackendAddr $
           fcons "agent_path" false tText hd_AgentPath fnil)
    mkHeader.
Definition tCommandStart : gotype CommandStart :=
  tStruct (fcons "seq" false (tUint 32) cs_SeqNum $ fcons "start_time" false (tInt 64) cs_StartTime $
           fcons "exec" false tExecMsg cs_Exec fnil)
    mkStart.
Definition tRecordedFrame : gotype RecordedFrame :=
  tStruct (fcons "seq" false (tUint 32) rf_SeqNum $ fcons "ts" false (tInt 64) rf_Timestamp $
           fcons "dir" false tDirection rf_Direction $ fcons "frame" false tFrame rf_Frame fnil)
    mkRecorded.
Definition tCommandEnd : gotype CommandEnd :=
  tStruct (fcons "seq" false (tUint 32) ce_SeqNum $ fcons "end_time" false (tInt 64) ce_EndTime $
           fcons "exit_code" false (tInt 64) ce_ExitCode fnil)
    mkEnd.
Definition tSessionFooter : gotype SessionFooter :=
  tStruct (fcons "end_time" false (tInt 64) ft_EndTime $ fcons "command_count" false (tUint 32) ft_CommandCount fnil)
    mkFooter.
Definition tRecord : gotype Rec :=
  tStruct (fcons "type" false (tUint 8) rc_Type $ fcons "header" true (tPtr tSessionHeader) rc_Header $
           fcons "cmd_start" true (tPtr tCommandStart) rc_CmdStart $ fcons "frame" true (tPtr tRecordedFrame) rc_Frame $
           fcons "cmd_end" true (tPtr tCommandEnd) rc_CmdEnd $ fcons "footer" true (tPtr tSessionFooter) rc_Footer fnil)
    mkRec.

(** *** Every struct is lawful *)

#[global] Instance tLogEntry_lawful : Lawful tLogEntry.
Proof. struct_law. Qed.
#[global] Instance tAgentConfig_lawful : Lawful tAgentConfig.
Proof. struct_law. Qed.
#[global] Instance tExecMsg_lawful : Lawful tExecMsg.
Proof. struct_law. Qed.
#[global] Instance tPathQuery_lawful : Lawful tPathQuery.
Proof. struct_law. Qed.
#[global] Instance tPathInfoEntry_lawful : Lawful tPathInfoEntry.
Proof. struct_law. Qed.
#[global] Instance tPathInfo_lawful : Lawful tPathInfo.
Proof. struct_law. Qed.
#[global] Instance tFileStat_lawful : Lawful tFileStat.
Proof. struct_law. Qed.
#[global] Instance tFileStatfs_lawful : Lawful tFileStatfs.
Proof. struct_law. Qed.
#[global] Instance tFileDirEntry_lawful : Lawful tFileDirEntry.
Proof. struct_law. Qed.
#[global] Instance tFileOpReq_lawful : Lawful tFileOpReq.
Proof. struct_law. Qed.
#[global] Instance tPtr_struct_lawful {A C} (fs : fields A C) mk :
  Lawful (tStruct fs mk) → Lawful (tPtr (tStruct fs mk)).
Proof. intros ?. by apply tPtr_lawful. Qed.
#[global] Instance tFileOpResp_lawful : Lawful tFileOpResp.
Proof. struct_law. Qed.
#[global] Instance tFrame_lawful : Lawful tFrame.
Proof. struct_law. Qed.
#[global] Instance tBFrame_lawful : Lawful tBFrame.
Proof. struct_law. Qed.
#[global] Instance tRequest_lawful : Lawful tRequest.
Proof. struct_law. Qed.
#[global] Instance tDirection_lawful : Lawful tDirection.
Proof. split; [by intros []|done]. Qed.
#[global] Instance tSessionHeader_lawful : Lawful tSessionHeader.
Proof. struct_law. Qed.
#[global] Instance tCommandStart_lawful : Lawful tCommandStart.
Proof. struct_law. Qed.
#[global] Instance tRecordedFrame_lawful : Lawful tRecordedFrame.
Proof. struct_law. Qed.
#[global] Instance tCommandEnd_lawful : Lawful tCommandEnd.
Proof. struct_law. Qed.
#[global] Instance tSessionFooter_lawful : Lawful tSessionFooter.
Proof. struct_law. Qed.
#[global] Instance tRecord_lawful : Lawful tRecord.
Proof. struct_law. Qed.

(** *** Peers of another version *)

Lemma assoc_skip key extra m : key ∉ extra.*1 → assoc key (extra ++ m) = assoc key m.
Proof.
  unfold assoc. induction extra as [|[k i] extra IH]; [done|]. cbn. rewrite not_elem_of_cons. intros [Hk He].
  rewrite (proj2 (seqb_false _ _)) by congruence. by apply IH.
Qed.
Lemma agrees_extra {A C} (fs : fields A C) x extra m :
  (∀ k, k ∈ keys fs → k ∉ extra.*1) → agrees fs x m → agrees fs x (extra ++ m).
Proof.
  induction fs as [|B C key omit t get rest IH]; cbn; [done|]. intros Hk [Ha Hr]. split.
  - rewrite assoc_skip; [done|]. apply Hk. by left.
  - apply IH; [|done]. intros k Hin. apply Hk. by right.
Qed.

(** Keys a struct does not have are skipped. *)
Lemma struct_extra_keys {A C} (fs : fields A C) mk x extra :
  LawfulFields fs → keys_ok (keys fs) = true → rebuild fs x mk = x → t_range (tStruct fs mk) x = true →
  (∀ k, k ∈ keys fs → k ∉ extra.*1) → forallb (λ kv, valid_utf8 kv.1) extra = true →
  t_dec (tStruct fs mk) (IMap (extra ++ merge_sort canon (emits fs x))) = Some x.
Proof.
  intros Hl [Hn%bool_decide_eq_true Hu]%andb_true_iff Hr Hx He Heu. cbn [t_dec t_range tStruct] in *.
  rewrite forallb_app, Heu, (struct_keys_utf8 fs x) by (done || apply merge_sort_Permutation). cbn [andb].
  rewrite (read_agrees fs x); [by rewrite Hr, Hx|done|]. apply agrees_extra; [done|]. by apply agrees_struct.
Qed.

(** ** Bytes *)

Section bytes.
Context {L : Codec item} {LL : CodecLaws item}.

(** The library reads items from bytes without looking into their texts; it does when a text
    becomes a Go string.  [Encode] and [Decode] at a type: the values a Go variable of the
    type can hold, with texts in UTF-8. *)
Definition ranged {A} (t : gotype A) : Type := dsig (λ x, t_range t x = true).

Definition Encode {A} (t : gotype A) (x : A) : string := marshal (t_enc t x).
Definition Decode {A} (t : gotype A) (s : string) : option (A * string) :=
  '(i, rest) ← decode1 s; x ← t_dec t i; Some (x, rest).

Definition to_ranged {A} (t : gotype A) (x : A) : option (ranged t) :=
  match decide (t_range t x = true) with
  | left H => Some (dexist (P := λ x, t_range t x = true) x H)
  | right _ => None
  end.
#[export] Instance typed_codec {A} (t : gotype A) : Codec (ranged t) :=
  {| marshal x := Encode t (proj1_sig x);
     decode1 s := '(x, rest) ← Decode t s; y ← to_ranged t x; Some (y, rest) |}.

Lemma to_ranged_self {A} (t : gotype A) (x : ranged t) : to_ranged t (proj1_sig x) = Some x.
Proof.
  unfold to_ranged. destruct (decide _) as [H|H]; [f_equal; by apply dsig_eq|]. by destruct H, (proj2_dsig x).
Qed.

Lemma Decode_Encode {A} (t : gotype A) `{!Lawful t} x rest :
  Decode t (Encode t x +:+ rest) = if t_range t x then Some (x, rest) else None.
Proof. unfold Decode, Encode. rewrite decode_marshal. cbn. rewrite lw_decode. by destruct (t_range t x). Qed.
Lemma Decode_prefix {A} (t : gotype A) x p q : Encode t x = p +:+ q → q ≠ "" → Decode t p = None.
Proof. intros He Hq. unfold Decode. by rewrite (decode_prefix _ _ _ He Hq). Qed.

#[export] Instance typed_laws {A} (t : gotype A) `{!Lawful t} : CodecLaws (ranged t).
Proof.
  split.
  - intros x. exact (marshal_not_empty (t_enc t (proj1_sig x))).
  - intros x rest. cbn. pose proof (proj2_dsig x) as Hx. rewrite (Decode_Encode t), Hx. cbn.
    by rewrite to_ranged_self.
  - intros x p q He Hq. cbn in *. by rewrite (Decode_prefix t _ _ _ He Hq).
Qed.


(** [ReadRecording] on the bytes of a file: the records, and whether it ended after a whole
    one. *)
Definition ReadRecording_bytes (file : string) : list (ranged tRecord) * bool := decode_stream file.

End bytes.

(** ** A codec of items, and witnesses *)

(** Items as generic trees, which stdpp can enumerate. *)
Fixpoint item_tree (i : item) : gen_tree (bool + Z + string) :=
  match i with
  | INull => GenNode 0 []
  | IBool b => GenLeaf (inl (inl b))
  | IInt z => GenLeaf (inl (inr z))
  | IBytes s => GenNode 1 [GenLeaf (inr s)]
  | IText s => GenLeaf (inr s)
  | IArr l => GenNode 2 (item_tree <$> l)
  | IMap m => GenNode 3 ((λ kv, GenNode 4 [GenLeaf (inr kv.1); item_tree kv.2]) <$> m)
  end.
Definition tree_key (t : gen_tree (bool + Z + string)) : string := match t with GenLeaf (inr s) => s | _ => "" end.
Fixpoint tree_item (t : gen_tree (bool + Z + string)) : item :=
  match t with
  | GenLeaf (inl (inl b)) => IBool b
  | GenLeaf (inl (inr z)) => IInt z
  | GenLeaf (inr s) => IText s
  | GenNode 1 [GenLeaf (inr s)] => IBytes s
  | GenNode 2 l => IArr (tree_item <$> l)
  | GenNode 3 l => IMap ((λ t, match t with GenNode _ [k; v] => (tree_key k, tree_item v) | _ => ("", INull) end) <$> l)
  | _ => INull
  end.
Lemma tree_item_tree : ∀ i, tree_item (item_tree i) = i.
Proof.
  fix IH 1. intros [|b|z|s|s|l|m]; cbn; try done; f_equal.
  - induction l as [|i l IHl]; cbn; [done|]. by rewrite IH, IHl.
  - induction m as [|[k i] m IHm]; cbn; [done|]. by rewrite IH, IHm.
Qed.
#[global] Instance item_eq_dec : EqDecision item.
Proof.
  intros i j. destruct (decide (item_tree i = item_tree j)) as [E|E]; [left|right; congruence].
  by rewrite <- (tree_item_tree i), E, tree_item_tree.
Defined.
#[global] Instance item_countable : Countable item := inj_countable' item_tree tree_item tree_item_tree.

Module Demo.
#[local] Existing Instance countable_codec.
#[local] Existing Instance countable_codec_laws.
#[local] Existing Instance typed_codec.
#[local] Existing Instance typed_laws.

Definition f0 : Frame := mkFrame FrameExec 0 "" 0 0 "" (Some (mkExec "/bin/ls" ["ls"] [] "/w" [5])) None None None None None None.
Definition b0 : BFrame := data_bframe "stdout" "hi".
Definition q0 : Request := mkRequest "/bin/ls" ["ls"] ["A=1"] "/w" [].
Definition r0 : Rec := mkRec RecordFrame None None (Some (mkRecorded 1 7 DirRecv f0)) None None.

(** Canonical order: shorter keys first. *)
Example layout_example : t_enc tFrame f0 = IMap [("t", IInt 1);
  ("x", IMap [("cwd", IText "/w"); ("env", INull); ("fds", IArr [IInt 5]); ("argv", IArr [IText "ls"]); ("path", IText "/bin/ls")])].
Proof. vm_compute. reflexivity. Qed.

Definition resp_entry (name : string) : FileOpResp :=
  mkResp 1 0 "" 0 "" 0 false "" None None [mkFileStat name 0 420 0 0 0 0 0 1 0 0 0 0 false].


(** A file name in Latin-1, as an argument and as a directory entry. *)
Definition latin1 : string := String "x" (String (ascii_of_nat 233) "").
Example latin1_refused :
  Decode tRequest (Encode tRequest (mkRequest "/bin/ls" ["ls"; latin1] [] "/w" [])) = None ∧
  Decode tFrame (Encode tFrame (mkFrame FrameFileResp 0 "" 0 0 "" None None None None None None
    (Some (resp_entry latin1)))) = None.
Proof.
  split.
  - pose proof (Decode_Encode tRequest (mkRequest "/bin/ls" ["ls"; latin1] [] "/w" []) "") as E.
    by rewrite sapp_nil_r in E.
  - pose proof (Decode_Encode tFrame (mkFrame FrameFileResp 0 "" 0 0 "" None None None None None None
      (Some (resp_entry latin1))) "") as E. by rewrite sapp_nil_r in E.
Qed.

Definition whole : ranged tRecord := dexist (P := λ x, t_range tRecord x = true) r0 eq_refl.

Definition bad : Rec := mkRec RecordCommandStart None (Some (mkStart 1 7 (mkExec "/bin/ls" ["ls"; latin1] [] "/w" []))) None None None.

End Demo.
