(* ===== verification/RemoteBackend.v ===== *)
(** * RemoteBackend: the interface of a remote, and its two implementations

    Models the [Backend] interface of [pkg/remote/backend.go] as a class with the promises
    its comments make, the ssh backend of [pkg/remote/ssh/backend.go] over the connection
    manager ([SshManager], with [NewManager], the guard of [Start] and the accessors of
    [pkg/sshconn/manager.go]) and the docker backend of [pkg/remote/docker/backend.go] over
    [DockerSession].  What the proxy does with a backend is proved against the class, and
    both backends discharge it. *)

From S2P Require Import Prelude GoStrings FileClient RemoteExec SshManager SshBackend DockerSession DockerExec.
Local Open Scope Z_scope.

(** ** remote.Backend *)

(** [remote.Type] *)
Definition TypeSSH : string := "ssh".
Definition TypeDocker : string := "docker".
Definition TypeCompose : string := "compose".

(** A backend as the rest of the program sees it.  [S] are its states; [b_Started] says that
    [Start] returned nil in a state, [b_NewSession] whether a session is given, [b_Files]
    whether a file client is there without further work. *)
Class Backend (S : Type) := {
  b_Type : string;
  b_Addr : S → string;
  b_User : S → string;
  b_Fresh : S → Prop;
  b_Started : S → Prop;
  b_IsConnected : S → bool;
  b_LastErr : S → bool;                   (** non-nil *)
  b_KeepAliveInterval : S → Z;
  b_SendKeepAlive : S → option string;    (** the error *)
  b_NewSession : S → bool;
  b_Files : S → bool;
  b_Close : S → S;
}.

(** The promises: a backend that has not been started is not connected and gives nothing; a
    started one is connected, has no error and gives sessions; nobody outside has to keep
    the connection alive; a closed one is not connected. *)
Class BackendLaws (S : Type) {B : Backend S} : Prop := {
  law_fresh s : b_Fresh s → b_IsConnected s = false ∧ b_LastErr s = false ∧ b_NewSession s = false ∧ b_Files s = false;
  law_started s : b_Started s → b_IsConnected s = true ∧ b_LastErr s = false ∧ b_NewSession s = true;
  law_keepalive s : b_KeepAliveInterval s = 0 ∧ b_SendKeepAlive s = None;
  law_closed s : b_IsConnected (b_Close s) = false ∧ b_LastErr (b_Close s) = b_LastErr s;
}.

(** ** The ssh manager's construction and accessors (manager.go) *)

(** [Options]: whether there is a dial function, and the two intervals. *)
Record Options := mkOptions { o_Dial : bool; o_ReconnectInterval : Z; o_KeepAliveInterval : Z }.

Definition NewManager_options (o : Options) : Options :=
  mkOptions (o_Dial o) (if o_ReconnectInterval o <=? 0 then 2 * Second else o_ReconnectInterval o)
    (if o_KeepAliveInterval o <? 0 then 0 else o_KeepAliveInterval o).

(** [run] makes a keepalive ticker. *)
Definition has_keepalive (o : Options) : bool := 0 <? o_KeepAliveInterval o.

(** [Start] up to the first connection attempt: an error, nothing to do, or the manager with
    which it goes on. *)
Inductive manager_start : Type := MSNoDial | MSAlready | MSRun (m : Manager).
Definition Manager_Start (o : Options) (m : Manager) : manager_start :=
  if negb (o_Dial o) then MSNoDial
  else if started m then MSAlready
  else MSRun (mkManager (conn m) (sftp m) true (lastErr m)).

Definition Manager_LastErr (m : Manager) : bool := lastErr m.
Definition Manager_SFTP (m : Manager) : option nat := sftp m.
Definition Manager_CurrentConn (m : Manager) : option nat := conn m.

Definition is_on (l : loop_pc) : bool := match l with LOff => false | _ => true end.

(** A manager that runs has been started and one that does not has not, so that every
    further [Start] does nothing. *)
Lemma started_once keepalive s :
  reachable keepalive s → started (mgr s) = is_on (loop s) ∧ (loop s = LOff → conn (mgr s) = None).
Proof.
  intros Hr. split; [|intros E; apply mgr_reachable_inv in Hr as [_ _ _ H _ _ _]; apply H; by rewrite E].
  revert s Hr. unfold reachable. apply (rtc_ind_r (λ s, started (mgr s) = is_on (loop s))); [done|].
  intros s s' _ [ch s0 s1 Hs|x s0] IH; [|by destruct x].
  unfold step in Hs. destruct (loop s0) as [|k|k c|k c|k| | | |c| | | |] eqn:El, ch; simplify_eq; cbn in *; try done;
    try (by destruct k); try (by destruct (IsConnected (mgr s0))).
  all: repeat (case_match; simplify_eq); cbn; try done.
Qed.

(** The first [Start] is the first step of the manager, the others are no steps. *)
Lemma Manager_Start_step o s :
  reachable (has_keepalive o) s → o_Dial o = true →
  match Manager_Start o (mgr s) with
  | MSNoDial => False
  | MSAlready => loop s ≠ LOff
  | MSRun m => step (has_keepalive o) COk s = Some (with_mgr s (m, open s) (LDial KStart))
  end.
Proof.
  intros Hr Hd. destruct (started_once _ _ Hr) as [Hs _]. unfold Manager_Start. rewrite Hd, Hs. cbn [negb].
  unfold step. by destruct (loop s).
Qed.

(** ** The ssh backend *)

Record ssh_Config := mkSshConfig {
  sc_Host : string; sc_User : string; sc_Port : Z; sc_ConnectTimeout : Z; sc_Bind : string; sc_BindInterface : string }.

(** The configuration, the dialer's address, the manager's options and its state. *)
Record sshBackend := mkSshB { sb_cfg : ssh_Config; sb_addr : string; sb_opts : Options; sb_state : SshManager.state }.

Inductive ssh_new_error : Type := SNHost | SNDialer.
(** [New]; the dialer, when there is one, is its address and its keepalive interval. *)
Definition ssh_New (NewDialer : ssh_Config → Z → option (string * Z)) (cfg : ssh_Config) : result ssh_new_error sshBackend :=
  if String.eqb (sc_Host cfg) "" then Err SNHost
  else
    let timeout := if sc_ConnectTimeout cfg =? 0 then 10 * Second else sc_ConnectTimeout cfg in
    match NewDialer cfg timeout with
    | None => Err SNDialer
    | Some (addr, keep) => Ok (mkSshB cfg addr (NewManager_options (mkOptions true Second keep)) init)
    end.

Definition sb_mgr (b : sshBackend) : Manager := mgr (sb_state b).

(** [NewSession]: the manager gives one when it asks a live connection for it. *)
Definition ssh_NewSession (b : sshBackend) : bool :=
  match NewSession_call (NewSession_read (sb_state b)) (sb_state b) with SAsked _ => true | _ => false end.

(** [UploadAgent]: over the file client, when there is one. *)
Definition ssh_UploadAgent (b : sshBackend) (local : result go_err local_reads) (remotePath : string) (mode : Z) :
    result unit (prog (result go_err string)) :=
  match Backend_Files (sb_mgr b) with
  | None => Err tt
  | Some _ => Ok (uploadViaFileClient local remotePath mode)
  end.

Definition ssh_Close (b : sshBackend) : sshBackend :=
  mkSshB (sb_cfg b) (sb_addr b) (sb_opts b) (ext_step XClose (sb_state b)).

(** [Start] returned nil when it saw the manager in this state, after turns in which it was
    not connected. *)
Definition ssh_Started (b : sshBackend) : Prop :=
  reachable (has_keepalive (sb_opts b)) (sb_state b) ∧
  ∃ pre ev, Forall (λ t, SshManager.IsConnected t.1 = false) pre ∧ Backend_Start (pre ++ [(sb_mgr b, ev)]) = Some StartOk.

#[export] Instance ssh_backend : Backend sshBackend := {|
  b_Type := TypeSSH;
  b_Addr := sb_addr;
  b_User b := sc_User (sb_cfg b);
  b_Fresh b := sb_state b = init;
  b_Started := ssh_Started;
  b_IsConnected b := SshManager.IsConnected (sb_mgr b);
  b_LastErr b := Manager_LastErr (sb_mgr b);
  b_KeepAliveInterval _ := 0;
  b_SendKeepAlive _ := None;
  b_NewSession := ssh_NewSession;
  b_Files b := bool_decide (is_Some (Backend_Files (sb_mgr b)));
  b_Close := ssh_Close;
|}.

Lemma Backend_Start_last pre m ev :
  Forall (λ t, SshManager.IsConnected t.1 = false) pre → Backend_Start (pre ++ [(m, ev)]) = Some StartOk →
  SshManager.IsConnected m = true.
Proof.
  induction 1 as [|[m' ev'] pre Hm _ IH]; cbn; [destruct (SshManager.IsConnected m); [done|by destruct ev]|].
  cbn in Hm. rewrite Hm. by destruct ev'.
Qed.

(** A connected manager has an open connection to ask. *)
Lemma connected_session b :
  reachable (has_keepalive (sb_opts b)) (sb_state b) → SshManager.IsConnected (sb_mgr b) = true →
  ssh_NewSession b = true ∧ is_Some (Backend_Files (sb_mgr b)) ∧ lastErr (sb_mgr b) = false.
Proof.
  intros [Hs Ho _ _ He _ _]%mgr_reachable_inv Hc. unfold sb_mgr in *. unfold SshManager.IsConnected in Hc.
  apply bool_decide_eq_true in Hc as [c Hc]. split_and!.
  - unfold ssh_NewSession, NewSession_read, NewSession_call, client_nil. rewrite Hc, bool_decide_false; [done|].
    rewrite Ho, Hc. cbn. set_solver.
  - unfold Backend_Files. rewrite Hs, Hc. by eexists.
  - apply He. by eexists.
Qed.

#[export] Instance ssh_backend_laws : BackendLaws sshBackend.
Proof.
  split; cbn.
  - intros b E. unfold sb_mgr, ssh_NewSession. rewrite E. by vm_compute.
  - intros b [Hr (pre & ev & Hp & Hs)]. apply Backend_Start_last in Hs as Hc; [|done].
    destruct (connected_session b Hr Hc) as (H1 & _ & H3). done.
  - done.
  - done.
Qed.

(** ** The docker backend *)

(** The configured container, and the state. *)
Record dockerBackend := mkDockerB { dk_Container : string; dk_be : DockerSession.Backend }.

(** [Start] returned nil: the daemon answered with a running container and its id. *)
Definition docker_Started (b : dockerBackend) : Prop :=
  ∃ before ping insp, docker_Start ping insp before = (true, dk_be b) ∧ bk_containerID (dk_be b) ≠ "".

#[export] Instance docker_backend : Backend dockerBackend := {|
  b_Type := TypeDocker;
  b_Addr := dk_Container;
  b_User _ := "";
  b_Fresh b := dk_be b = Backend0;
  b_Started := docker_Started;
  b_IsConnected b := DockerExec.IsConnected (dk_be b);
  b_LastErr b := DockerExec.LastErr (dk_be b);
  b_KeepAliveInterval _ := 0;
  b_SendKeepAlive _ := None;
  b_NewSession b := bool_decide (is_Some (DockerExec.NewSession (dk_be b)));
  b_Files b := match Files_begin (dk_be b) with FReturned (Some _) => true | _ => false end;
  b_Close b := mkDockerB (dk_Container b) (docker_Close (dk_be b) ∅).1;
|}.

#[export] Instance docker_backend_laws : BackendLaws dockerBackend.
Proof.
  split; cbn.
  - intros b ->. done.
  - intros b (before & ping & insp & Hs & Hid). unfold docker_Start in Hs.
    destruct ping, insp as [[id [[]|]]|]; try done. injection Hs as Hs. rewrite <- Hs in *. cbn in *.
    split_and!; [done..|]. apply bool_decide_eq_true. unfold NewSession. cbn.
    rewrite (proj2 (seqb_false _ _) Hid). by eexists.
  - done.
  - done.
Qed.

(** ** What the proxy relies on *)

Section client.
Context {S : Type} {B : Backend S} {BL : BackendLaws S}.

(** The provider the runners get: the backend, with the session it would give. *)
Definition provider_of (s : S) (sess : session) : provider := Some (if b_NewSession s then Some sess else None).

(** Once [Start] has returned nil the agent runner finds a session, and a run fails only for
    reasons of its own: the upload, the session's pipes or its start.  Before, every run
    fails with the provider's error and makes no other call. *)
Theorem started_backend_runs s sess ensure rec cfg req fds cfg_ok exec_ok out :
  let r := mkAgentRunner (provider_of s sess) (Some (Some ensure)) rec cfg in
  (b_Started s → s_stdin sess = true → s_stdout sess = true → s_stderr sess = true →
     s_start sess (shellQuote ensure) = true → agent_started r) ∧
  (b_Fresh s → (RunWithControl r req fds cfg_ok exec_ok out).2 = (127, Some ErrNewSession) ∧
     Forall (λ o, o = ONewSession) (RunWithControl r req fds cfg_ok exec_ok out).1).
Proof.
  intros r. split.
  - intros Hs H1 H2 H3 H4. apply law_started in Hs as (_ & _ & Hn). exists sess, ensure. unfold r, provider_of. cbn.
    by rewrite Hn.
  - intros Hf. apply law_fresh in Hf as (_ & _ & Hn & _). unfold r, provider_of. rewrite Hn.
    unfold RunWithControl, start_agent, with_session. cbn. split; [done|]. by repeat constructor.
Qed.
End client.

(** After [Close] the two differ.  The ssh backend gives no session.  The docker backend keeps
    the id of its container and the path of the agent: it still gives sessions, and a call
    of [Files] starts a new file agent, which nothing closes any more. *)
Theorem close_differs :
  (∀ b : sshBackend, b_NewSession (b_Close b) = false ∧ b_Files (b_Close b) = false) ∧
  (∀ b : dockerBackend, b_NewSession (b_Close b) = b_NewSession b ∧
     (bk_containerID (dk_be b) ≠ "" → bk_agentPath (dk_be b) ≠ "" → Files_begin (dk_be (b_Close b)) = FMaking)).
Proof.
  split; [done|]. intros b. split; [done|]. intros Hid Hp. cbn. unfold Files_begin. cbn.
  by rewrite (proj2 (seqb_false _ _) Hid), (proj2 (seqb_false _ _) Hp).
Qed.

(** ** Witnesses *)

Module Demo.
Definition dk : dockerBackend := mkDockerB "web" (mkBackend "0123456789ab" true false None "").
Lemma dk_started : b_Started dk.
Proof. exists Backend0, true, (Some ("0123456789ab", Some true)). done. Qed.

Definition sb : sshBackend :=
  mkSshB (mkSshConfig "box" "me" 0 0 "" "") "box:22" (NewManager_options (mkOptions true Second 0)) SshManager.Demo.s_up.
Lemma sb_started : b_Started sb.
Proof. split; [exact SshManager.Demo.s_up_reachable|]. exists [(NewManager, EvTick)], EvTick. by split; [repeat constructor|]. Qed.

Lemma started_backend_runs_witness :
  agent_started (mkAgentRunner (provider_of dk RemoteExec.Demo.sess) (Some (Some "/agent")) None None) ∧
  agent_started (mkAgentRunner (provider_of sb RemoteExec.Demo.sess) (Some (Some "/agent")) None None).
Proof.
  split.
  - apply (started_backend_runs dk RemoteExec.Demo.sess "/agent" None None (mkRequest "" [] [] "" []) [] true true []);
      [exact dk_started|reflexivity..].
  - apply (started_backend_runs sb RemoteExec.Demo.sess "/agent" None None (mkRequest "" [] [] "" []) [] true true []);
      [exact sb_started|reflexivity..].
Defined.
End Demo.
