(* ===== verification/PlatformStat.v ===== *)
(** * PlatformStat: attributes of remote files on every platform

    Models the files of [pkg/agentproto] and [pkg/workspacefs] that are built per platform:
    [fileop_stat_{linux,darwin,freebsd,unix,other}.go], [stat_details_{linux,darwin,freebsd,
    other}.go] and [stat_helpers_{linux,darwin,freebsd,other}.go], and the platform files of
    [pkg/subreaper] and of the FUSE check.  A platform is an instance of a class; the
    attributes of a file that come through an agent on any Unix are those stat(2) gives for
    the file there, except for the values the protocol cannot tell from absent ones. *)

From S2P Require Import Prelude GoStrings FileClient WorkspaceFS Mux AgentFS.
Local Open Scope Z_scope.

(** ** statfs *)

(** [syscall.Statfs_t]: [sf_Iosize] is [Frsize] on Linux; on FreeBSD the available blocks
    and the free inodes are signed. *)
Record Statfs_t := mkStatfs_t {
  sf_Blocks : Z; sf_Bfree : Z; sf_Bavail : Z; sf_Files : Z; sf_Ffree : Z; sf_Bsize : Z; sf_Iosize : Z; sf_Namelen : Z }.

(** ** A platform *)

Class Platform := {
  statfsFromSyscallOS : Statfs_t → Statfs;
  pl_fillStatTimes : FileStat → Stat_t → FileStat;
  pl_applySyscallStat : Attr → Stat_t → Attr;
  atimeFromStat : Stat_t → Z;
  pl_Setup : (list Z → option Z) → option Z;       (** the call that makes a reaper, and its error *)
  preflightFUSE : (string → bool) → bool;          (** given which files exist *)
}.

(** The kernel's numbers. *)
Definition PR_SET_CHILD_SUBREAPER : Z := 36.
Definition procP_PID : Z := 0.
Definition procReapAcquire : Z := 2.

Definition macfuse_candidates : list string :=
  ["/Library/Filesystems/macfuse.fs/Contents/Resources/mount_macfuse";
   "/Library/Filesystems/osxfuse.fs/Contents/Resources/mount_osxfuse"].

(** Where FUSE is part of the kernel. *)
Definition preflight_other (exists_ : string → bool) : bool := true.

Module Linux.
Definition statfs_linux (s : Statfs_t) : Statfs :=
  mkStatfs (sf_Blocks s) (sf_Bfree s) (sf_Bavail s) (sf_Files s) (sf_Ffree s) (u32 (sf_Bsize s)) (u32 (sf_Iosize s))
    (u32 (sf_Namelen s)).
Definition Setup_linux (prctl : list Z → option Z) : option Z := prctl [PR_SET_CHILD_SUBREAPER; 1; 0; 0; 0].
Definition atimeFromStat_linux (st : Stat_t) : Z := st_Atim st.
#[export] Instance platform : Platform := {|
  statfsFromSyscallOS := statfs_linux; pl_fillStatTimes := fillStatTimes; pl_applySyscallStat := applySyscallStat;
  atimeFromStat := atimeFromStat_linux; pl_Setup := Setup_linux; preflightFUSE := preflight_other |}.
End Linux.

Module Darwin.
Definition statfs_darwin (s : Statfs_t) : Statfs :=
  mkStatfs (sf_Blocks s) (sf_Bfree s) (sf_Bavail s) (sf_Files s) (sf_Ffree s) (sf_Bsize s) (u32 (sf_Iosize s)) 1024.
Definition fillStatTimes_darwin (s : FileStat) (st : Stat_t) : FileStat :=
  mkFileStat (fs_Name s) (fs_Size s) (fs_Mode s) (st_Mtim st) (st_Atim st) (st_Ctim st)
    (fs_UID s) (fs_GID s) (fs_Nlink s) (fs_Rdev s) (fs_Blocks s) (fs_Blksize s) (fs_Ino s) (fs_IsDir s).
Definition applySyscallStat_darwin (a : Attr) (s : Stat_t) : Attr :=
  mkAttr (st_Ino s) (a_Size a) (u64 (st_Blocks s)) (t_sec (st_Atim s)) (t_sec (st_Mtim s)) (t_sec (st_Ctim s))
    (t_nsec (st_Atim s)) (t_nsec (st_Mtim s)) (t_nsec (st_Ctim s))
    (a_Mode a) (u32 (st_Nlink s)) (st_Uid s) (st_Gid s) (u32 (st_Rdev s)) (u32 (st_Blksize s)).
Definition preflight_darwin (exists_ : string → bool) : bool := existsb exists_ macfuse_candidates.
Definition atimeFromStat_darwin (st : Stat_t) : Z := st_Atim st.
Definition Setup_darwin (call : list Z → option Z) : option Z := None.
#[export] Instance platform : Platform := {|
  statfsFromSyscallOS := statfs_darwin; pl_fillStatTimes := fillStatTimes_darwin; pl_applySyscallStat := applySyscallStat_darwin;
  atimeFromStat := atimeFromStat_darwin; pl_Setup := Setup_darwin; preflightFUSE := preflight_darwin |}.
End Darwin.

Module FreeBSD.
Definition statfs_freebsd (s : Statfs_t) : Statfs :=
  mkStatfs (sf_Blocks s) (sf_Bfree s) (u64 (sf_Bavail s)) (sf_Files s) (u64 (sf_Ffree s)) (u32 (sf_Bsize s))
    (u32 (sf_Iosize s)) 255.
Definition fillStatTimes_freebsd (s : FileStat) (st : Stat_t) : FileStat :=
  mkFileStat (fs_Name s) (fs_Size s) (fs_Mode s) (st_Mtim st) (st_Atim st) (st_Ctim st)
    (fs_UID s) (fs_GID s) (fs_Nlink s) (fs_Rdev s) (fs_Blocks s) (fs_Blksize s) (fs_Ino s) (fs_IsDir s).
Definition applySyscallStat_freebsd (a : Attr) (s : Stat_t) : Attr :=
  mkAttr (st_Ino s) (a_Size a) (u64 (st_Blocks s)) (t_sec (st_Atim s)) (t_sec (st_Mtim s)) (t_sec (st_Ctim s))
    (t_nsec (st_Atim s)) (t_nsec (st_Mtim s)) (t_nsec (st_Ctim s))
    (a_Mode a) (u32 (st_Nlink s)) (st_Uid s) (st_Gid s) (u32 (st_Rdev s)) (u32 (st_Blksize s)).
Definition Setup_freebsd (procctl : list Z → option Z) : option Z := procctl [procP_PID; 0; procReapAcquire; 0; 0; 0].
Definition atimeFromStat_freebsd (st : Stat_t) : Z := st_Atim st.
#[export] Instance platform : Platform := {|
  statfsFromSyscallOS := statfs_freebsd; pl_fillStatTimes := fillStatTimes_freebsd; pl_applySyscallStat := applySyscallStat_freebsd;
  atimeFromStat := atimeFromStat_freebsd; pl_Setup := Setup_freebsd; preflightFUSE := preflight_other |}.
End FreeBSD.

(** Elsewhere nothing is known of a file but its name, size, mode and time. *)
Module Other.
Definition augmentStatFromSys (s : FileStat) (sys : Sys) : FileStat := s.
Definition unixModeFromSys (sys : Sys) : option Z := None.
Definition handleStatfs : FileOpResp := mkResp 0 Errno.ENOSYS "statfs unsupported" 0 "" 0 false "" None None [].
Definition applyStatDetailsOS (a : Attr) (sys : Sys) : Attr := a.
Definition currentATimeOS (sys : Sys) : option Z := None.
Definition currentUIDOS (sys : Sys) : option Z := None.
Definition currentGIDOS (sys : Sys) : option Z := None.
End Other.

(** ** The agent on a platform *)

Section agent.
Context `{Platform}.

(** [augmentStatFromSys] and [statFromInfo] with the platform's times. *)
Definition pl_augment (s : FileStat) (sys : Sys) : FileStat :=
  match sys with
  | SysStat (Some st) =>
      pl_fillStatTimes
        (mkFileStat (fs_Name s) (fs_Size s) (fs_Mode s) (fs_MTimeNanos s) (fs_ATimeNanos s) (fs_CTimeNanos s)
          (st_Uid st) (st_Gid st) (u32 (st_Nlink st)) (u32 (st_Rdev st)) (u64 (st_Blocks st))
          (u32 (st_Blksize st)) (u64 (st_Ino st)) (fs_IsDir s)) st
  | _ => s
  end.
Definition pl_statFromInfo (info : FileInfo) : FileStat :=
  let mode := fi_Mode info in
  let mode :=
    if Z.land mode ModeType =? ModeIrregular then
      match AgentFS.unixModeFromSys (fi_Sys info) with
      | Some sysMode => Z.lor (modeFromUnix sysMode) (Perm mode)
      | None => mode
      end
    else mode in
  pl_augment
    (mkFileStat (fi_Name info) (fi_Size info) (u32 mode) (fi_ModTime info) 0 0 0 0 0 0 0 0 0 (fi_IsDir info))
    (fi_Sys info).

(** [handleStatfs] *)
Definition pl_handleStatfs (Error : go_err → string) (statfs : string → result go_err Statfs_t) (p : string) : FileOpResp :=
  match statfs p with Err e => errResp Error e | Ok st => resp_statfs (statfsFromSyscallOS st) end.
End agent.

(** The Unix platforms agree on files; only their names for the times differ. *)
Class Unix (P : Platform) : Prop := {
  ux_times s st : pl_fillStatTimes s st = AgentFS.fillStatTimes s st;
  ux_attr a st : pl_applySyscallStat a st = WorkspaceFS.applySyscallStat a st;
  ux_atime st : atimeFromStat st = st_Atim st;
}.
#[export] Instance linux_unix : Unix Linux.platform.
Proof. by split. Qed.
#[export] Instance darwin_unix : Unix Darwin.platform.
Proof. by split. Qed.
#[export] Instance freebsd_unix : Unix FreeBSD.platform.
Proof. by split. Qed.

(** *** What stat(2) says of a file *)

(** The mode [os.Stat] makes of a [st_mode]. *)
Definition os_mode (m : Z) : Z :=
  let ty := Z.land m o170000 in
  Z.land m o777
  + (if ty =? o60000 then ModeDevice else if ty =? o20000 then ModeDevice + ModeCharDevice
     else if ty =? o40000 then ModeDir else if ty =? o10000 then ModeNamedPipe
     else if ty =? o120000 then ModeSymlink else if ty =? o140000 then ModeSocket else 0)
  + (if Z.testbit m 10 then ModeSetgid else 0) + (if Z.testbit m 11 then ModeSetuid else 0)
  + (if Z.testbit m 9 then ModeSticky else 0).
(** What the agent's [os.Stat] or [os.Lstat] returns for it. *)
Definition os_info (name : string) (size : Z) (st : Stat_t) : FileInfo :=
  mkFI name size (os_mode (st_Mode st)) (st_Mtim st) (Z.land (st_Mode st) o170000 =? o40000) (SysStat (Some st)).

(** A [st_mode]: one of the seven types, and twelve bits. *)
Definition file_types : list Z := [o10000; o20000; o40000; o60000; o100000; o120000; o140000].
Definition stat_mode (m : Z) : Prop := ∃ ty bits, ty ∈ file_types ∧ 0 ≤ bits < 4096 ∧ m = ty + bits.

(** The attributes of the file as the kernel's own stat has them, in the form of a FUSE
    reply, which has times in seconds and nanoseconds. *)
Definition stat_attr (size : Z) (st : Stat_t) : Attr :=
  mkAttr (st_Ino st) size (st_Blocks st)
    (t_sec (st_Atim st)) (t_sec (st_Mtim st)) (t_sec (st_Ctim st)) (t_nsec (st_Atim st)) (t_nsec (st_Mtim st)) (t_nsec (st_Ctim st))
    (st_Mode st) (st_Nlink st) (st_Uid st) (st_Gid st) (st_Rdev st) (st_Blksize st).

(** A stat the protocol can carry: the fields fit the frame's types, and those for which zero
    stands for absent on the wire are not zero. *)
Record carried (size : Z) (st : Stat_t) : Prop := {
  cr_mode : stat_mode (st_Mode st);
  cr_size : is_u 64 size ∧ is_u 64 (st_Blocks st) ∧ is_u 64 (st_Ino st);
  cr_small : is_u 32 (st_Nlink st) ∧ is_u 32 (st_Rdev st) ∧ is_u 32 (st_Blksize st);
  cr_ino : st_Ino st ≠ 0;
  cr_times : st_Atim st ≠ 0 ∧ st_Mtim st ≠ 0 ∧ st_Ctim st ≠ 0;
  cr_nlink : st_Nlink st ≠ 0;
  cr_blksize : st_Blksize st ≠ 0;
  cr_blocks : st_Blocks st ≠ 0 ∨ size = 0;
}.

(** The mode goes through Go's and back, and is never irregular. *)
Lemma mode_there_and_back m :
  stat_mode m →
  fuseModeFromFileMode (u32 (os_mode m)) = m ∧ (Z.land (os_mode m) ModeType =? ModeIrregular) = false.
Proof.
  intros (ty & bits & Hty & Hb & ->).
  assert (forallb (λ bits, forallb (λ ty, (fuseModeFromFileMode (u32 (os_mode (ty + bits))) =? ty + bits) &&
    negb (Z.land (os_mode (ty + bits)) ModeType =? ModeIrregular)) file_types) (seqZ 0 4096) = true) as Hall by (vm_compute; reflexivity).
  rewrite forallb_forall in Hall. specialize (Hall bits ltac:(apply list_elem_of_In, elem_of_seqZ; lia)).
  rewrite forallb_forall in Hall. apply list_elem_of_In in Hty. destruct (andb_prop _ _ (Hall ty Hty)) as [H1 H2].
  split; [by apply Z.eqb_eq|by apply negb_true_iff].
Qed.


(** ** What zero cannot say *)

(** A sparse file without a block of its own: the agent's answer leaves its block count out,
    and the workspace reports as many blocks as the size needs. *)
Theorem sparse_blocks_invented P `{!Unix P} info st :
  fi_Sys info = SysStat (Some st) → st_Blocks st = 0 → 0 < fi_Size info < 2 ^ 63 →
  a_Blocks (applyFileInfo info) = 0 ∧
  a_Blocks (applyFileInfo (statInfo (pl_statFromInfo info))) = (fi_Size info + 511) / 512.
Proof.
  intros Hs Hb Hsz. unfold pl_statFromInfo, pl_augment. rewrite Hs, ux_times.
  unfold applyFileInfo, applyStatDetails, statInfo. rewrite Hs. cbn. rewrite Hb. split; [done|].
  assert (u64 (fi_Size info) = fi_Size info) as -> by (apply uwrap_id; unfold is_u; lia).
  change (nz (u64 0) (u64 (fi_Size info + 511) / 512)) with (u64 (fi_Size info + 511) / 512). f_equal. apply uwrap_id. unfold is_u. lia.
Qed.

(** On FreeBSD a file system whose reserve is in use has a negative number of available
    blocks, which is reported as nearly 2^64. *)
Theorem freebsd_negative_bavail s :
  - 2 ^ 63 ≤ sf_Bavail s < 0 → 2 ^ 63 ≤ sfs_Bavail (FreeBSD.statfs_freebsd s).
Proof.
  intros Hs. cbn. assert (u64 (sf_Bavail s) = sf_Bavail s + 2 ^ 64) as ->; [|lia].
  rewrite <- (uwrap_id 64 (sf_Bavail s + 2 ^ 64)) by (unfold is_u; lia). unfold u64, uwrap.
  by rewrite Z.add_mod, Z.mod_same, Z.add_0_r, Z.mod_mod by lia.
Qed.

(** ** Witnesses *)

Module Demo.
Definition st0 : Stat_t := mkStat_t 33188 1000 1000 1 0 8 4096 77 (5 * 10 ^ 9) (6 * 10 ^ 9) (7 * 10 ^ 9).

Lemma st0_carried : carried 100 st0.
Proof.
  split; try done; [|by left]. exists o100000, 420. split_and!; [apply (bool_decide_unpack _); by vm_compute|done..].
Qed.
End Demo.
