(* ===== verification/Shutdown.v ===== *)
(** * Shutdown: closing the runtime, with unmounts that can fail

    Models [runtimeDeps.Close] of [cmd/machineproxy/runtime.go] action by action, the two
    [Mount] functions of [pkg/workspacefs] and [pkg/pathstub], [newRuntimeDeps] and
    [EnterNamespace].  [Runtime] lets every unmount succeed; here each has an outcome, and
    [os.RemoveAll] does what it does: on a directory that is still mounted it walks into the
    served tree.  The files of the remote machine are a set of paths. *)

From S2P Require Import Prelude GoStrings PathMapper Launch Config Runtime.
Local Open Scope nat_scope.

(** ** FUSE mounts (workspacefs.Mount, pathstub.Mount) *)

(** The mount itself and the wait for it can fail; a mount that was not awaited is undone. *)
Definition fuse_Mount (mounts waits : bool) (d : nat) (w : world) : bool * world :=
  if negb mounts then (false, w)
  else let w := serve d w in
       if negb waits then (false, unmount d w) else (true, w).

(** The goroutine of a mount: when the context ends, it unmounts. *)
Definition ctx_done (d : nat) (w : world) : world := unmount d w.

Lemma unmount_serve d w : d ∉ w_servers w → unmount d (serve d w) = w.
Proof.
  intros Hd. destruct w as [ds ss n]. unfold unmount, serve. cbn in *. f_equal. set_solver.
Qed.
(** A failed mount leaves no server, so that [Runtime] may treat it as one outcome. *)
Lemma fuse_Mount_outcome mounts waits d w :
  d ∉ w_servers w → fuse_Mount mounts waits d w = if mounts && waits then (true, serve d w) else (false, w).
Proof. intros Hd. unfold fuse_Mount. destruct mounts, waits; cbn; by rewrite ?unmount_serve. Qed.

(** ** The machine *)

(** The runtime's ledger, the files of the remote machine that the remote user may remove
    (clean absolute paths), and the remote directory behind each workspace server as the
    configuration spells it; the servers without one are read-only. *)
Record machine := mkMachine { mc_world : world; mc_files : gset string; mc_root : gmap nat string }.
Definition in_world (f : world → world) (m : machine) : machine := mkMachine (f (mc_world m)) (mc_files m) (mc_root m).

(** The directory a workspace serves ([workspacefs.New]). *)
Definition served_root (root : string) : string :=
  let cleanRoot := Clean root in if String.eqb cleanRoot "." then "/" else cleanRoot.

(** Strictly below the directory a workspace serves; below the root is everything else. *)
Definition below (root p : string) : bool :=
  if String.eqb (served_root root) "/" then HasPrefix p "/" && negb (String.eqb p "/")
  else HasPrefix p (served_root root +:+ "/").
Example below_root : below "/" "/etc/passwd" = true ∧ below "/" "/" = false ∧ below "/home/u/" "/home/u/x" = true ∧
  below "/home/u/" "/home/u" = false ∧ below "/home/u" "/home/u2/x" = false ∧ below "" "/x" = true.
Proof. by vm_compute. Qed.

(** [os.RemoveAll] of a directory: a mounted one cannot be removed, but everything in it is
    removed first. *)
Definition RemoveAll (d : nat) (m : machine) : machine :=
  if bool_decide (d ∈ w_servers (mc_world m)) then
    match mc_root m !! d with
    | Some root => mkMachine (mc_world m) (base.filter (λ p, below root p = false) (mc_files m)) (mc_root m)
    | None => m
    end
  else in_world (remove_dir d) m.

(** ** Close *)

Inductive act : Type :=
  | ARecorderClose | ACancelBroker | ARemoveSocket
  | ARemoveAll (d : nat) | AUnmount (d : nat) | ALeave | ABackendClose.

(** What [Close] releases is in [held], beside the recorder, the broker's context and the
    backend. *)
Record deps := mkDeps { dp_recorder : bool; dp_cancel : bool; dp_held : held; dp_backend : bool }.

(** Each directory of the instances once. *)
Fixpoint remove_once (seen : gset nat) (l : list mountInstance) : list act :=
  match l with
  | [] => []
  | i :: l =>
      if bool_decide (fuseDir i ∈ seen) then remove_once seen l
      else ARemoveAll (fuseDir i) :: remove_once ({[fuseDir i]} ∪ seen) l
  end.
Definition unmounts (l : list mountInstance) : list act :=
  omap (λ i, if mi_server i then Some (AUnmount (fuseDir i)) else None) l.

Definition Close_acts (d : deps) : list act :=
  (if dp_recorder d then [ARecorderClose] else [])
  ++ (if dp_cancel d then [ACancelBroker] else [])
  ++ match hl_broker (dp_held d) with Some b => [ARemoveSocket; ARemoveAll b] | None => [] end
  ++ match hl_stub (dp_held d) with Some s => [AUnmount s; ARemoveAll s] | None => [] end
  ++ unmounts (hl_mounts (dp_held d)) ++ remove_once ∅ (hl_mounts (dp_held d))
  ++ [ALeave] ++ (if dp_backend d then [ABackendClose] else []).

(** [unmounted d]: whether the unmount of [d] succeeds; every error is logged only. *)
Definition act_step (unmounted : nat → bool) (a : act) (m : machine) : machine :=
  match a with
  | ARemoveAll d => RemoveAll d m
  | AUnmount d => if unmounted d then in_world (unmount d) m else m
  | _ => m
  end.
Definition acts_run (unmounted : nat → bool) (l : list act) (m : machine) : machine :=
  foldl (λ m a, act_step unmounted a m) m l.
Definition Close (unmounted : nat → bool) (d : deps) (m : machine) : machine := acts_run unmounted (Close_acts d) m.

(** ** The rest of the construction *)

(** [newRuntimeDeps]: the backend or nothing. *)
Definition newRuntimeDeps {E B} (build : Config → result E B) (c : Config) : result E (B * deps) :=
  match build c with
  | Err e => Err e
  | Ok b => Ok (b, mkDeps false false held0 true)
  end.
(** [EnterNamespace]: the namespace is prepared. *)
Definition EnterNamespace (LookPath : string → option string) : bool := bool_decide (is_Some (Prepare LookPath)).

(** ** What Close does to the remote files *)

(** The directories of the runtime as a run leaves them ([Runtime.minv]): the broker's is not
    mounted, the stubs are read-only, and a mounted directory of an instance belongs to an
    instance that has the server. *)
Record held_ok (h : held) (m : machine) : Prop := {
  ho_broker b : hl_broker h = Some b → b ∉ w_servers (mc_world m);
  ho_stub s : hl_stub h = Some s → mc_root m !! s = None;
  ho_mounts i : i ∈ hl_mounts h → fuseDir i ∈ w_servers (mc_world m) → fuseDir i ∈ served (hl_mounts h);
  ho_stub_mounts s i : hl_stub h = Some s → i ∈ hl_mounts h → fuseDir i ≠ s;
}.

Lemma acts_run_app u l k m : acts_run u (l ++ k) m = acts_run u k (acts_run u l m).
Proof. unfold acts_run. by rewrite foldl_app. Qed.

(** The unmounts touch the servers only. *)
Lemma unmounts_run u l m :
  let m' := acts_run u (unmounts l) m in
  mc_files m' = mc_files m ∧ mc_root m' = mc_root m ∧ w_dirs (mc_world m') = w_dirs (mc_world m) ∧
  w_next (mc_world m') = w_next (mc_world m) ∧
  ∀ x, x ∈ w_servers (mc_world m') ↔ x ∈ w_servers (mc_world m) ∧ ¬ (x ∈ served l ∧ u x = true).
Proof.
  revert m. induction l as [|i l IH]; intros m; [cbn; split_and!; try done; set_solver|].
  destruct i as [mt d sv]. destruct sv; [|exact (IH m)].
  change (unmounts (mkInst mt d true :: l)) with (AUnmount d :: unmounts l).
  change (served (mkInst mt d true :: l)) with (d :: served l).
  destruct (IH (act_step u (AUnmount d) m)) as (H1 & H2 & H3 & H4 & H5).
  cbn [acts_run foldl]. fold (acts_run u (unmounts l) (act_step u (AUnmount d) m)). cbn [act_step] in *.
  destruct (u d) eqn:Eu; cbn [in_world mc_files mc_root mc_world unmount w_dirs w_next w_servers] in *;
    split_and!; try done; intros x; rewrite H5; [set_solver|]. rewrite elem_of_cons.
  destruct (decide (x = d)) as [->|]; [rewrite Eu|]; naive_solver.
Qed.

(** The removals change neither the servers nor what is behind them. *)
Lemma RemoveAll_servers d m :
  w_servers (mc_world (RemoveAll d m)) = w_servers (mc_world m) ∧ mc_root (RemoveAll d m) = mc_root m.
Proof. unfold RemoveAll. case_bool_decide; [|done]. by destruct (mc_root m !! d). Qed.
Lemma RemoveAll_files d m p :
  p ∈ mc_files (RemoveAll d m) ↔
  p ∈ mc_files m ∧ ∀ root, d ∈ w_servers (mc_world m) → mc_root m !! d = Some root → below root p = false.
Proof.
  unfold RemoveAll. case_bool_decide as Hd; [|naive_solver].
  destruct (mc_root m !! d) as [root|]; cbn; [rewrite elem_of_filter|]; naive_solver.
Qed.

Lemma remove_once_run u l seen m :
  let m' := acts_run u (remove_once seen l) m in
  w_servers (mc_world m') = w_servers (mc_world m) ∧ mc_root m' = mc_root m ∧
  ∀ p, p ∈ mc_files m' ↔ p ∈ mc_files m ∧
    ∀ i root, i ∈ l → fuseDir i ∉ seen → fuseDir i ∈ w_servers (mc_world m) → mc_root m !! fuseDir i = Some root →
      below root p = false.
Proof.
  revert seen m. induction l as [|i l IH]; intros seen m; [cbn; split_and!; try done; set_solver|].
  cbn [remove_once]. case_bool_decide as Hi.
  - destruct (IH seen m) as (H1 & H2 & H3). split_and!; [done|done|]. intros p. rewrite H3. set_solver.
  - cbn [acts_run foldl act_step]. fold (acts_run u (remove_once ({[fuseDir i]} ∪ seen) l) (RemoveAll (fuseDir i) m)).
    destruct (IH ({[fuseDir i]} ∪ seen) (RemoveAll (fuseDir i) m)) as (H1 & H2 & H3).
    destruct (RemoveAll_servers (fuseDir i) m) as [Hs Hr]. rewrite Hs, Hr in *. split_and!; [done|done|].
    intros p. rewrite H3, RemoveAll_files. split.
    + intros [[Hp Hroot] Hrest]. split; [done|]. intros j root Hj Hjs Hsv Hjr.
      destruct (decide (fuseDir j = fuseDir i)) as [E|E]; [rewrite E in *; by apply Hroot|].
      apply elem_of_cons in Hj as [->|Hj]; [done|]. eapply (Hrest j); [done| |done|done]. set_solver.
    + intros [Hp Hall]. split; [split; [done|]|].
      * intros root Hsv Hr'. eapply (Hall i); [by left|done|done|done].
      * intros j root Hj Hjs Hsv Hjr. eapply (Hall j); [by right|set_solver|done|done].
Qed.

(** What precedes the mounts: at most the stubs' server goes. *)
Definition early_acts (d : deps) : list act :=
  (if dp_recorder d then [ARecorderClose] else []) ++ (if dp_cancel d then [ACancelBroker] else [])
  ++ match hl_broker (dp_held d) with Some b => [ARemoveSocket; ARemoveAll b] | None => [] end
  ++ match hl_stub (dp_held d) with Some s => [AUnmount s; ARemoveAll s] | None => [] end.
Definition late_acts (d : deps) : list act := [ALeave] ++ (if dp_backend d then [ABackendClose] else []).

Lemma Close_parts u d m :
  Close u d m =
  acts_run u (late_acts d) (acts_run u (remove_once ∅ (hl_mounts (dp_held d)))
    (acts_run u (unmounts (hl_mounts (dp_held d))) (acts_run u (early_acts d) m))).
Proof. unfold Close, Close_acts, early_acts, late_acts. by rewrite <- !acts_run_app, <- !app_assoc. Qed.

Lemma late_run u d m : acts_run u (late_acts d) m = m.
Proof. unfold late_acts. by destruct (dp_backend d). Qed.

Lemma early_run u d m :
  held_ok (dp_held d) m →
  let m' := acts_run u (early_acts d) m in
  mc_files m' = mc_files m ∧ mc_root m' = mc_root m ∧
  ∀ x, (∀ s, hl_stub (dp_held d) = Some s → x ≠ s) → x ∈ w_servers (mc_world m') ↔ x ∈ w_servers (mc_world m).
Proof.
  intros [Hb Hs _ _]. unfold early_acts. rewrite !acts_run_app.
  assert (∀ m, acts_run u (if dp_cancel d then [ACancelBroker] else []) (acts_run u (if dp_recorder d then [ARecorderClose] else []) m) = m) as ->
    by (intros; by destruct (dp_recorder d), (dp_cancel d)).
  set (m1 := acts_run u (match hl_broker (dp_held d) with Some b => _ | None => _ end) m).
  assert (mc_files m1 = mc_files m ∧ mc_root m1 = mc_root m ∧ w_servers (mc_world m1) = w_servers (mc_world m)) as (F1 & R1 & S1).
  { unfold m1. destruct (hl_broker (dp_held d)) as [b|] eqn:E; [|done]. cbn. unfold RemoveAll.
    rewrite bool_decide_false by eauto. done. }
  destruct (hl_stub (dp_held d)) as [s|] eqn:E; cbn; [|by rewrite F1, R1, S1].
  set (m2 := if u s then _ else _).
  assert (mc_files m2 = mc_files m1 ∧ mc_root m2 = mc_root m1) as [F2 R2] by (unfold m2; by destruct (u s)).
  assert (mc_files (RemoveAll s m2) = mc_files m2) as ->.
  { unfold RemoveAll. rewrite R2, R1, (Hs s eq_refl). by case_bool_decide. }
  destruct (RemoveAll_servers s m2) as [-> ->]. rewrite F2, R2, F1, R1. split_and!; [done|done|].
  intros x Hx. specialize (Hx s eq_refl). unfold m2. destruct (u s); cbn; rewrite S1; set_solver.
Qed.

(** The files that are left. *)
Lemma close_files u d m p :
  held_ok (dp_held d) m →
  p ∈ mc_files (Close u d m) ↔
  p ∈ mc_files m ∧
  ∀ i root, i ∈ hl_mounts (dp_held d) → fuseDir i ∈ w_servers (mc_world m) → u (fuseDir i) = false →
    mc_root m !! fuseDir i = Some root → below root p = false.
Proof.
  intros Hok. rewrite Close_parts, late_run. destruct (early_run u d m Hok) as (F1 & R1 & S1).
  set (m1 := acts_run u (early_acts d) m) in *.
  destruct (unmounts_run u (hl_mounts (dp_held d)) m1) as (F2 & R2 & _ & _ & S2).
  set (m2 := acts_run u (unmounts _) m1) in *.
  destruct (remove_once_run u (hl_mounts (dp_held d)) ∅ m2) as (_ & _ & F3). cbn zeta in *.
  rewrite F3, F2, F1, R2, R1. clear F1 F2 F3 R1 R2.
  assert (∀ i, i ∈ hl_mounts (dp_held d) →
    fuseDir i ∈ w_servers (mc_world m2) ↔ fuseDir i ∈ w_servers (mc_world m) ∧ u (fuseDir i) = false) as Hs.
  { intros i Hi. rewrite S2, S1; [|intros s Hs; by eapply ho_stub_mounts]. destruct (u (fuseDir i)).
    - split; [|by intros [_ ?]]. intros [H1 H2]. destruct H2. split; [|done]. by eapply ho_mounts.
    - naive_solver. }
  split.
  - intros [Hp Hall]. split; [done|]. intros i root Hi Hsv Hu Hr. eapply (Hall i); [done|set_solver|by apply Hs|done].
  - intros [Hp Hall]. split; [done|]. intros i root Hi _ [Hsv Hu]%Hs Hr; [|done]. by eapply (Hall i).
Qed.

(** The mounts of a run are such mounts. *)
Definition roots_of (l : list mountInstance) : gmap nat string := list_to_map ((λ i, (fuseDir i, remote i)) <$> l).
Lemma mounted_held_ok e raws w l w' files :
  me_darwin e = false → NoDup (targets e raws) → world_ok w → MountWorkspace e raws w = (Ok l, w') →
  held_ok (mkHeld l None None) (mkMachine w' files (roots_of l)).
Proof.
  intros Hd Hn Hw Hm. pose proof (MountWorkspace_inv e raws w Hd Hn Hw) as Hi. rewrite Hm in Hi.
  destruct Hi as (s & [_ _ _ _ _ _ _ H _] & <- & <-). split; cbn; try done.
  intros i Hin _. specialize (H i Hin). by apply elem_of_list_to_set in H.
Qed.

(** C15: closing the runtime and the files of the remote machine.  The directories are as a run
    leaves them: the broker's is not mounted, the stubs are served read-only from a directory
    of their own, and a mounted workspace directory belongs to an instance that has its
    server.  Then a file (that the remote user may remove) is gone afterwards exactly when it
    lies below the remote directory of a mount whose FUSE server could not be unmounted; for
    a mount of the remote root that is every file.  So no file is lost when every unmount
    succeeds; and when one fails, because a program still uses the mount for instance,
    [Close] removes everything in it. *)
Theorem close_remote_files u d m p :
  held_ok (dp_held d) m →
  p ∈ mc_files (Close u d m) ↔
  p ∈ mc_files m ∧
  ∀ i root, i ∈ hl_mounts (dp_held d) → fuseDir i ∈ w_servers (mc_world m) → u (fuseDir i) = false →
    mc_root m !! fuseDir i = Some root → below root p = false.
Proof. apply close_files. Qed.

(** ** When every unmount succeeds *)

Lemma world_eq w w' : w_dirs w = w_dirs w' → w_servers w = w_servers w' → w_next w = w_next w' → w = w'.
Proof. destruct w, w'. cbn. by intros -> -> ->. Qed.

Lemma unmounts_world l m :
  mc_world (acts_run (λ _, true) (unmounts l) m) =
  mkWorld (w_dirs (mc_world m)) (w_servers (mc_world m) ∖ servers_of l) (w_next (mc_world m)).
Proof.
  destruct (unmounts_run (λ _, true) l m) as (_ & _ & H1 & H2 & H3). apply world_eq; [done| |done].
  cbn. apply leibniz_equiv. intros x. rewrite H3, elem_of_difference. unfold servers_of.
  rewrite elem_of_list_to_set. naive_solver.
Qed.

Lemma remove_once_world u l seen m :
  (∀ i, i ∈ l → fuseDir i ∉ w_servers (mc_world m)) →
  mc_world (acts_run u (remove_once seen l) m) =
  mkWorld (w_dirs (mc_world m) ∖ (dirs_of l ∖ seen)) (w_servers (mc_world m)) (w_next (mc_world m)).
Proof.
  revert seen m. induction l as [|i l IH]; intros seen m Hl.
  - unfold dirs_of. cbn. apply world_eq; cbn; [set_solver|done|done].
  - assert (dirs_of (i :: l) = {[fuseDir i]} ∪ dirs_of l) as Hd by done. cbn [remove_once]. case_bool_decide as Hi.
    + rewrite IH by (intros j Hj; apply Hl; by right). rewrite Hd. apply world_eq; cbn; [set_solver|done|done].
    + cbn [acts_run foldl act_step]. fold (acts_run u (remove_once ({[fuseDir i]} ∪ seen) l) (RemoveAll (fuseDir i) m)).
      assert (RemoveAll (fuseDir i) m = in_world (remove_dir (fuseDir i)) m) as ->
        by (unfold RemoveAll; rewrite bool_decide_false; [done|apply Hl; by left]).
      rewrite IH by (intros j Hj; apply Hl; by right). rewrite Hd. apply world_eq; cbn; [|done|done].
      apply leibniz_equiv. intros x. rewrite !elem_of_difference, !elem_of_union, !elem_of_singleton.
      destruct (decide (x = fuseDir i)); naive_solver.
Qed.

(** [Runtime.Close] is what happens when nothing fails: the ledger is the same and the
    remote machine keeps every file. *)
Theorem close_refines_runtime d m :
  held_ok (dp_held d) m →
  mc_world (Close (λ _, true) d m) = Runtime.Close (dp_held d) (mc_world m) ∧
  mc_files (Close (λ _, true) d m) = mc_files m.
Proof.
  intros Hok. split; [|apply leibniz_equiv; intros p; rewrite close_files by done; naive_solver].
  rewrite Close_parts, late_run. destruct (early_run (λ _, true) d m Hok) as (_ & _ & S1).
  assert (mc_world (acts_run (λ _, true) (early_acts d) m) =
    let w := match hl_broker (dp_held d) with Some b => remove_dir b (mc_world m) | None => mc_world m end in
    match hl_stub (dp_held d) with Some s => remove_dir s (unmount s w) | None => w end) as Hw.
  { destruct Hok as [Hb Hs _ _]. unfold early_acts. rewrite !acts_run_app.
    assert (∀ m, acts_run (λ _, true) (if dp_cancel d then [ACancelBroker] else [])
      (acts_run (λ _, true) (if dp_recorder d then [ARecorderClose] else []) m) = m) as ->
      by (intros; by destruct (dp_recorder d), (dp_cancel d)).
    destruct (hl_broker (dp_held d)) as [b|], (hl_stub (dp_held d)) as [s|]; cbn; unfold RemoveAll; try done;
      repeat (rewrite bool_decide_false; [|cbn; rewrite ?bool_decide_false by eauto; cbn; set_solver]); done. }
  unfold Runtime.Close. rewrite release_world. set (m1 := acts_run _ (early_acts d) m) in *.
  rewrite remove_once_world; rewrite unmounts_world; cbn.
  - rewrite Hw. cbn zeta. apply world_eq; cbn; [set_solver|done|done].
  - intros i Hi. rewrite elem_of_difference. intros [Hsv Hns]. apply Hns. unfold servers_of.
    apply elem_of_list_to_set. apply (ho_mounts _ _ Hok i Hi). apply S1; [|done]. intros s Hst. by eapply ho_stub_mounts.
Qed.

(** The order: no request of a shim is accepted any more when the mounts go, and the
    connection outlives the mounts that need it. *)
Theorem close_order d :
  dp_cancel d = true → dp_backend d = true →
  ∃ pre mid, Close_acts d = pre ++ ACancelBroker :: mid ++ [ABackendClose] ∧
    Forall (λ a, a = ARecorderClose) pre ∧
    ∀ i, i ∈ hl_mounts (dp_held d) → mi_server i = true →
      ∃ m1 m2, mid = m1 ++ m2 ∧ AUnmount (fuseDir i) ∈ m1 ∧ ARemoveAll (fuseDir i) ∈ m2.
Proof.
  intros Hc Hb. unfold Close_acts. rewrite Hc, Hb.
  set (h := dp_held d). set (B := match hl_broker h with Some b => _ | None => _ end).
  set (S' := match hl_stub h with Some s => _ | None => _ end).
  exists (if dp_recorder d then [ARecorderClose] else []), (B ++ S' ++ unmounts (hl_mounts h) ++ remove_once ∅ (hl_mounts h) ++ [ALeave]).
  split; [by rewrite <- !app_assoc|]. split; [by destruct (dp_recorder d); repeat constructor|].
  intros i Hi Hs. exists (B ++ S' ++ unmounts (hl_mounts h)), (remove_once ∅ (hl_mounts h) ++ [ALeave]).
  split; [by rewrite <- !app_assoc|]. split.
  - rewrite !elem_of_app. do 2 right. unfold unmounts. apply list_elem_of_omap. exists i. by rewrite Hs.
  - apply elem_of_app. left. assert (∀ seen l, i ∈ l → fuseDir i ∉ seen → ARemoveAll (fuseDir i) ∈ remove_once seen l) as Hr;
      [|by apply Hr; [|set_solver]]. clear. intros seen l. revert seen.
    induction l as [|j l IH]; intros seen Hi Hn; [by apply elem_of_nil in Hi|]. cbn [remove_once].
    destruct (decide (fuseDir i = fuseDir j)) as [E|E].
    + rewrite <- E, bool_decide_false by done. by left.
    + apply elem_of_cons in Hi as [->|Hi]; [done|]. case_bool_decide; [by apply IH|]. right. apply IH; [done|set_solver].
Qed.

(** ** Witnesses *)

Module Demo.
Definition h0 : held := mkHeld [mkInst (mkMount "/home/u/p" "/w") 10 true; mkInst (mkMount "/home/u/p" "/v") 10 false] (Some 12) (Some 13).
Definition m0 : machine :=
  mkMachine (mkWorld {[10; 12; 13]} {[10; 12]} 14) {["/home/u/p/main.c"; "/home/u/other"]} {[10 := "/home/u/p"]}.
Definition d0 : deps := mkDeps true true h0 true.

Lemma h0_ok : held_ok h0 m0.
Proof.
  split.
  - intros b [= <-]. apply (bool_decide_unpack _). by vm_compute.
  - by intros s [= <-].
  - intros i Hi _. apply (bool_decide_unpack _). unfold h0 in Hi. cbn in Hi.
    repeat (apply elem_of_cons in Hi as [->|Hi]; [by vm_compute|]). by apply elem_of_nil in Hi.
  - intros s i [= <-] Hi. unfold h0 in Hi. cbn in Hi.
    repeat (apply elem_of_cons in Hi as [->|Hi]; [done|]). by apply elem_of_nil in Hi.
Qed.

(** A shell that still sits in the mount: the sources are gone. *)
Lemma close_remote_files_witness :
  ("/home/u/p/main.c" ∉ mc_files (Close (λ d, negb (d =? 10)) d0 m0)) ∧ "/home/u/other" ∈ mc_files (Close (λ d, negb (d =? 10)) d0 m0).
Proof.
  split.
  - intros [_ Hall]%(close_remote_files (λ d, negb (d =? 10)) d0 m0 "/home/u/p/main.c" h0_ok).
    assert (below "/home/u/p" "/home/u/p/main.c" = false) as E; [|vm_compute in E; discriminate E].
    apply (Hall (mkInst (mkMount "/home/u/p" "/w") 10 true)); [left|apply (bool_decide_unpack _); by vm_compute|reflexivity|reflexivity].
  - apply (close_remote_files (λ d, negb (d =? 10)) d0 m0 "/home/u/other" h0_ok).
    split; [apply (bool_decide_unpack _); by vm_compute|].
    intros i root Hi _ _ Hr. assert (root = "/home/u/p") as ->; [|vm_compute; reflexivity].
    cbn in Hi. apply elem_of_cons in Hi as [->|Hi]; [by injection Hr as <-|].
    apply elem_of_cons in Hi as [->|Hi]; [by injection Hr as <-|by apply elem_of_nil in Hi].
Defined.

(** The same with a mount of the remote root. *)
Definition m1 : machine := mkMachine (mc_world m0) (mc_files m0) {[10 := "/"]}.
Example close_whole_machine : mc_files (Close (λ d, negb (d =? 10)) d0 m1) = ∅.
Proof. by vm_compute. Qed.
End Demo.
